(* ===== verification/_CoqProject ===== *)
-Q . S2P
Prelude.v
Serialize.v
IndexPage.v
Lexer.v
Parser.v
Memory.v
Hash.v
HashThreads.v
NumTable.v
CircularList.v
ClockReplacer.v
Disk.v
Heapfile.v
HeapTable.v
TableRuns.v
Bpm.v
Eviction.v
Primitive.v
LogicalExpr.v
LogicalPlan.v
BTree.v
Cache.v
LeafTree.v
TwoLeaves.v
SmallTree.v
TreeRuns.v
PoolRoom.v
PoolView.v
DeepTree.v
LeafSplit.v
TreeLevels.v
LeafJoin.v
DeepRemove.v
