(* ===== verification/Prelude.v ===== *)
(** * A model of the somedb database engine

    somedb is a small database engine in C and C++: a storage engine with table
    files, index files and a buffer pool, a B+tree index, and the front end of a
    SQL interpreter with the first parts of a query planner. Each of its
    components is a file here, translated function by function under the names
    of the source, and every theorem is about these definitions. Where the code
    does something its comments or callers do not expect, the model does it
    too, and theorems show it.

    ** The program and the files that model it

    Paths are relative to the directories [src/src] and [src/include].

    - Storage engine.
      [Serialize]: utils/serialize.c/h, the RID of utils/shared.h.
      [Memory]: the heap, [strcmp], [sprintf] and [atoi] of the C library.
      [Hash]: utils/hash.c/h, run by one thread; [HashThreads]: the same operations as
      steps of threads that share the elements in memory; [NumTable]: the interface of
      a table keyed by printed numbers that its two clients are proved against.
      [CircularList]: utils/circular_list.c/h; [ClockReplacer]:
      disk/clock_replacer.c/h, on top of both.
      [Disk]: disk/disk_manager.c/h, the pages of index and table files.
      [Heapfile]: disk/heapfile.c/h, tables as slotted pages; [HeapTable] has the
      operations on tables as lists of rows, [TableRuns] sequences of them.
      [Bpm]: disk/bpm.c/h, the buffer pool, which owns a replacer, a page table
      and a disk manager; [Eviction] has the theorems on a pool without a free frame,
      [PoolView] those on the pool and its file as a memory.
    - Index.
      [IndexPage]: index/index_page.cpp/hpp, the nodes and their pages.
      [BTree]: index/btree_index.cpp/hpp and index/btree_strategy.cpp/hpp, the
      operations, which fetch nodes through the pool and flush them to disk.
      [Cache] and [PoolRoom]: what the pool holds in the course of an operation.
      [LeafTree], [TwoLeaves], [SmallTree]: whole trees of up to two leaves.
      [DeepTree]: trees of any height, searches and insertions; [LeafSplit]: the split of
      a leaf below the root. [TreeLevels]: the way to a leaf as the levels of a tree above
      it, and trees whose keys separate all subtrees; [LeafJoin]: two leaves made one;
      [DeepRemove]: removals.
      [TreeRuns]: runs on trees of several levels, by evaluation.
    - SQL.
      [Lexer]: sql/lexer.cpp/hpp; [Parser]: sql/parser.cpp/hpp and
      sql/sql_expression.hpp, which consumes the tokens of the lexer.
      [Primitive]: sql/primitive.cpp/hpp, types and values.
      [LogicalExpr]: sql/schema.cpp/hpp and sql/logical_expression.cpp/hpp.
      [LogicalPlan]: sql/access_method.cpp/hpp and sql/logical_plan.cpp/hpp,
      which read the schema that [Heapfile] has written.

    ** How the code is represented

    - A run ends with [Ok], with a C++ exception, with [exit], with a [fault]
      where the language leaves the behaviour undefined (or where the run hangs
      on its own lock or fails an assertion), or with [OutOfFuel], which is a bound of
      the model and not a behaviour of the program. Functions of the storage engine
      pass the heap and the disk explicitly; the operations of the tree run in the
      state monad [io] over the record [index] of tree, pool, heap and disk.
    - Integers are numbers of [Z]. Where the code may leave the range of a type, the
      definition reduces to it ([u8] to [u32], [i16], [i32]) or answers
      [SignedOverflow].
    - Buffers are lists of bytes, read and written at checked offsets. Objects that
      the code shares by pointers (keys and data of hash tables, nodes of the circular
      list) are blocks of the [heap] of [Memory], so that freed memory that is
      used again is a [UseAfterFree]. Frames of the pool are indices of a vector.
    - Locks are flags: one thread runs, which hangs when it takes a lock it holds
      ([SelfDeadlock]). Only [HashThreads], where the lock has an owner, is about
      several threads: a configuration is the shared table and, for each thread, a
      program counter with the local variables, and [steps] lets any thread
      make its next step.
    - A file is its bytes; the disk maps paths to files.

    ** What is assumed

    Three classes of parameters stand for values that the source does not fix, and
    all theorems hold whatever they are: [Uninit] (the bytes of a block that [malloc]
    returns, read by pages that are written partly), [UninitNode] (the members of a
    node its constructors leave unset) and [Platform] (the names [typeid] gives, the
    representation of a NaN, the order in which arguments are evaluated). System calls on files succeed, reads and writes are
    cut short only at the end of a file, and allocation succeeds; branches that report
    the failure of these calls are not modelled.

    ** Fuel and bounds

    Loops that are not structural take fuel. [parse_fuel] is a nested call for
    every token and two more, and [parse_sql_total] shows that lexing and parsing never run
    out of it on an input of at most [MAX_INPUT] characters, the most that 16-bit
    positions can address. [deserialize_budget] is one more step than a page has bytes;
    [deserialize_ends] shows that a page that takes more is read forever.
    [scan_budget] bounds the keys of a node by the bytes of its page. The loop of
    [compact] has 1024 steps, more than tuple pointers fit a page. The descent of
    [findLeaf] takes one unit of fuel for each level, and the theorems hold for any
    fuel from the height of the tree on. The hand of the replacer goes once
    around the circle at most ([evict_clock]). [HEAP_BASE] keeps addresses away from small numbers.
    A number [n] in the theorems on trees bounds how many more times the pages of the
    pool may be pinned before a 32-bit pin count wraps; every operation states how
    many of these it takes.

    ** The theorems

    - Trees. [insert_search]: what is inserted into a new index is found again, as long
      as two leaves are sure to hold it. [leaf_tree_spec] and [two_leaves_spec]: search,
      insertion and removal on trees of one and two leaves refine those of a map,
      down to the bytes of the file, as long as no leaf is split or merged. [first_split] and [merge_spec] are the steps between
      the two. [redistribute_kv_spec] is about every split. [deep_tree_spec] and
      [deep_insert_search]: search and insertion in trees of any height, as a map of the
      pairs that are not behind a child in the middle of a node: [descend_ends]
      shows that children between the first and the last are never visited.
      [deep_remove_spec] and [deep_merge_spec]: removal from trees of any height, without a
      merge and with two leaves joined; [inner_merge]: what the merge of two inner nodes
      loses. Between two operations a tree is [idle]: removals and searches lead from
      idle trees to idle trees, and so do insertions as long as no removal came before.
      [leaf_split_loses]: a split below the root hides a half of the leaf it splits.
      What the pool holds in the course of an operation is computed on the roles of
      the pages, a finite type ([Cache]). For a tree of fixed shape the sequence of
      fetches and flushes of an operation, its [accesses], leads from each state of a list
      of [cache]s to another of the list ([steady], decided by evaluation); for any
      number of pages a count of the unused frames is enough ([PoolRoom]).
    - Nodes. [serialize_deserialize], [serialize_slots], [insertIntoNode_sorted],
      [deserialize_ends], [empty_key_diverges].
    - Storage. [hash_table_is_map] and [hash_remove_head_dangles]; [threads_serialise]:
      any interleaving of insertions and removals is a sequence of them, [threads_insert]:
      what threads insert is found, [threads_end]: they end and never deadlock, and
      [find_races]: the search that takes no lock may read freed memory. The circular
      list as a sequence and what removal really does; [evict_clock]: the replacer
      decides by the clock algorithm, and [replacer_pin_unpin]: what pinning removes; both
      lose the second node of the list instead of a frame behind the first two;
      [fetch_bpm_page_spec], [flush_page_spec] and [unpin_page_spec], with a free frame, and [pool_exhausted] and [eviction_aliases] without one;
      [pool_refines_memory]: reads, writes and flushes in any order, of pages that share
      no bucket of the page table; pages and
      index files on disk, with the offsets that wrap around; [table_runs_spec]: adding,
      reading and removing rows in any order, in a table whose column names have one
      length, and defragmentation.
    - SQL. [lex_correct]: the tokens by longest match; [parse_tokens_iff]: the parser
      accepts the grammar of SELECT statements and of expressions with their
      precedences, and nothing else; [evaluate_typed]: well-typed
      expressions go wrong only by the offsets of columns, and when; [evaluate_integers]:
      their values; [plan_schema]: the schema of a plan is that of the table it reads, for
      column names of one length.

    Each file begins with the code it models; lemmas and theorems follow, and last the
    witnesses: a theorem with hypotheses has a closed instance, named after it with
    [_witness].

    ** What is not modelled

    The empty main.cpp and the tests; the failures of system calls; printing of error
    messages; [getValues] of the index and [size] of the replacer, which are declared but
    have no body; threads other than those on a hash table, and memory that is
    not sequentially consistent. The theorems on a pool without a free frame are of a
    pool with at most one frame that may be evicted when the eviction succeeds: with more
    of them, pinning the frame that was evicted removes another one ([replacer_pin_unpin]).
    Splits of inner nodes, and removals that go on to merge inner nodes or leave a node
    above two leaves without a key, have no theorem on the whole tree: the nodes they write
    are those of [redistribute_kv_spec] and [inner_merge].

    This file holds what the components share: outcomes, machine integers, byte
    buffers, and the tactics that run a computation step by step. *)
From Stdlib Require Export ZArith Lia Sorted Ascii.
From stdpp Require Export prelude list strings gmap.
From stdpp Require Import options.

Open Scope Z_scope.

(** ** Outcomes of a C / C++ computation *)

(** The ways in which the modelled code leaves the behaviour the language
    defines. *)
Inductive fault :=
  | NullDeref        (* a null pointer is dereferenced *)
  | UseAfterFree     (* a block that was freed is used *)
  | OutOfBounds      (* an access outside an array or buffer *)
  | DivByZero
  | SignedOverflow   (* the result of a signed operation does not fit *)
  | SelfDeadlock     (* a lock is taken by the thread that already holds it *)
  | AssertFail       (* [assert] of a false condition *)
  | WrongMember      (* a union member that was not the last one written *)
  | Indeterminate.   (* a variable that was never written is read *)

(** The C++ exceptions the code throws. *)
Inductive exn :=
  | OutOfRange                       (* std::out_of_range, from .at() *)
  | BadVariant                       (* std::bad_variant_access, from std::get *)
  | RuntimeError (msg : string).     (* std::runtime_error *)

(** [OutOfFuel] is the answer of a definition whose recursion budget ran out:
    a theorem that a loop returns shows that it does not occur. *)
Inductive outcome (A : Type) :=
  | Ok (a : A)
  | Throw (e : exn)
  | Exit (code : Z)
  | Undef (f : fault)
  | OutOfFuel.
Arguments Ok {_} _.
Arguments Throw {_} _.
Arguments Exit {_} _.
Arguments Undef {_} _.
Arguments OutOfFuel {_}.

#[export] Instance fault_eq_dec : EqDecision fault.
Proof. solve_decision. Defined.
#[export] Instance exn_eq_dec : EqDecision exn.
Proof. solve_decision. Defined.
#[export] Instance outcome_eq_dec `{EqDecision A} : EqDecision (outcome A).
Proof. solve_decision. Defined.

#[export] Instance outcome_ret : MRet outcome := λ A a, Ok a.
#[export] Instance outcome_bind : MBind outcome := λ A B f m,
  match m with
  | Ok a => f a
  | Throw e => Throw e
  | Exit c => Exit c
  | Undef f => Undef f
  | OutOfFuel => OutOfFuel
  end.
Arguments outcome_bind _ _ _ !_ / : assert.
#[export] Instance outcome_fmap : FMap outcome := λ A B f m,
  match m with
  | Ok a => Ok (f a)
  | Throw e => Throw e
  | Exit c => Exit c
  | Undef f => Undef f
  | OutOfFuel => OutOfFuel
  end.
Arguments outcome_fmap _ _ _ !_ / : assert.

(** [vec_at v i] is C++'s [v.at(i)] with an index of type [size_t]: a
    negative [int] converts to a huge index, so it throws as well. *)
Definition vec_at {A} (v : list A) (i : Z) : outcome A :=
  if i <? 0 then Throw OutOfRange
  else match v !! Z.to_nat i with Some a => Ok a | None => Throw OutOfRange end.

(** [v.at(i) = a], and [v.resize(n)] with the value-initialised element. *)
Definition vec_set {A} (v : list A) (i : Z) (a : A) : outcome (list A) :=
  if (0 <=? i) && (i <? Z.of_nat (length v))
  then Ok (<[Z.to_nat i := a]> v) else Throw OutOfRange.
Definition vec_resize {A} (v : list A) (n : Z) (dflt : A) : list A :=
  resize (Z.to_nat n) dflt v.

(** ** Machine integers *)

Definition u8 (z : Z) : Z := z mod 2 ^ 8.
Definition u16 (z : Z) : Z := z mod 2 ^ 16.
Definition u32 (z : Z) : Z := z mod 2 ^ 32.
Definition u64 (z : Z) : Z := z mod 2 ^ 64.

(** Reinterpretation of an unsigned value as the two's complement signed one
    of the same width. *)
Definition to_signed (w z : Z) : Z := (z + 2 ^ (w - 1)) mod 2 ^ w - 2 ^ (w - 1).
Definition i16 (z : Z) : Z := to_signed 16 z.
Definition i32 (z : Z) : Z := to_signed 32 z.

Definition UINT32_MAX : Z := 4294967295.

(** The value of a signed [int] expression, or undefined behaviour when the
    mathematical result does not fit. *)
Definition int_result (z : Z) : outcome Z :=
  if (- 2 ^ 31 <=? z) && (z <? 2 ^ 31) then Ok z else Undef SignedOverflow.

Definition is_byte (b : Z) : Prop := 0 ≤ b < 256.

(** ** Byte buffers *)

Definition zlen {A} (l : list A) : Z := Z.of_nat (length l).

(** [len] bytes of [buf] from offset [off], and [buf] with [bs] written over
    the bytes from [off]. *)
Definition slice (buf : list Z) (off len : Z) : list Z :=
  take (Z.to_nat len) (drop (Z.to_nat off) buf).
Definition splice (buf : list Z) (off : Z) (bs : list Z) : list Z :=
  take (Z.to_nat off) buf ++ bs ++ drop (Z.to_nat off + length bs) buf.

(** [*(buf + off)], [*(buf + off) = b] and the two directions of [memcpy]. *)
Definition rd (buf : list Z) (off : Z) : outcome Z :=
  if off <? 0 then Undef OutOfBounds
  else match buf !! Z.to_nat off with Some b => Ok b | None => Undef OutOfBounds end.
Definition wr (buf : list Z) (off b : Z) : outcome (list Z) :=
  if (0 <=? off) && (off <? zlen buf)
  then Ok (<[Z.to_nat off := b]> buf) else Undef OutOfBounds.
Definition rd_bytes (buf : list Z) (off len : Z) : outcome (list Z) :=
  if (0 <=? off) && (0 <=? len) && (off + len <=? zlen buf)
  then Ok (slice buf off len) else Undef OutOfBounds.
Definition wr_bytes (buf : list Z) (off : Z) (bs : list Z) : outcome (list Z) :=
  if (0 <=? off) && (off + zlen bs <=? zlen buf)
  then Ok (splice buf off bs) else Undef OutOfBounds.

(** [memset]/[calloc] contents. *)
Definition zeros (n : Z) : list Z := replicate (Z.to_nat n) 0.

(** ** Text *)

(** The characters of a [char *] up to its NUL, or of a [std::string]. *)
Abbreviation text := (list ascii).
Definition str (s : string) : text := String.list_ascii_of_string s.
Arguments str !_ /.
Definition NUL : ascii := Ascii.zero.
Definition code (c : ascii) : Z := Z.of_N (N_of_ascii c).
Definition between (lo hi c : ascii) : bool := (code lo <=? code c) && (code c <=? code hi).

(** ** Tactics *)

(** Splits [m ≫= f = Ok b] in the hypotheses into its steps. *)
Lemma bind_Ok_inv {A B} (m : outcome A) (f : A → outcome B) b :
  m ≫= f = Ok b → ∃ a, m = Ok a ∧ f a = Ok b.
Proof. destruct m; simpl; intros; naive_solver. Qed.

(** One step of a computation whose first part is known. Rewriting with the
    equation keeps the kernel from comparing the parts by evaluation. *)
Lemma bind_Ok {A B} (a : A) (f : A → outcome B) : Ok a ≫= f = f a.
Proof. done. Qed.
Ltac ok_step := rewrite bind_Ok; cbv beta iota zeta.

Ltac inv_bind :=
  repeat match goal with
  | H : _ ≫= _ = Ok _ |- _ =>
      let a := fresh "r" in let H1 := fresh "Hr" in
      apply bind_Ok_inv in H as (a & H1 & H)
  | H : Ok _ = Ok _ |- _ => injection H as H; subst
  end.

(** Case analysis on the boolean tests of the code; the facts they stand for
    are left to [lia]. *)
Ltac case_bool :=
  match goal with
  | |- context [if ?b then _ else _] =>
      lazymatch type of b with bool => destruct b eqn:? end
  end.

(** Closes a conjunction of closed decidable facts by evaluation. *)
Ltac by_compute := repeat split; vm_compute; congruence.

Ltac unfold_ints := unfold u8, u16, u32, u64, i16, i32, to_signed, is_byte in *.

(** ** Facts on machine integers *)

Lemma to_signed_mod w z : 0 < w → to_signed w (z mod 2 ^ w) = to_signed w z.
Proof. intros. unfold to_signed. by rewrite Zplus_mod_idemp_l. Qed.

Lemma to_signed_id w z : 0 < w → to_signed w z = z ↔ - 2 ^ (w - 1) ≤ z < 2 ^ (w - 1).
Proof.
  intros Hw. unfold to_signed.
  assert (2 ^ w = 2 * 2 ^ (w - 1)) as Hp.
  { replace w with (Z.succ (w - 1)) at 1 by lia. rewrite Z.pow_succ_r; lia. }
  pose proof (Z.mod_pos_bound (z + 2 ^ (w - 1)) (2 ^ w) ltac:(lia)).
  split; [lia|]. intros. rewrite Z.mod_small; lia.
Qed.

(** ** Facts on buffers *)

(** The side conditions of the buffer lemmas: sizes of lists, offsets in
    [Z], boolean tests. *)
Ltac buf_lia :=
  unfold zlen, is_byte in *;
  rewrite ?length_app, ?length_take, ?length_drop, ?length_replicate,
    ?length_insert, ?length_reverse in *; simpl length in *; lia.

Section buffers.
Implicit Types (buf bs : list Z) (off len : Z).

Lemma zlen_nonneg {A} (l : list A) : 0 ≤ zlen l.
Proof. unfold zlen. lia. Qed.

Lemma zlen_app {A} (l1 l2 : list A) : zlen (l1 ++ l2) = zlen l1 + zlen l2.
Proof. unfold zlen. rewrite length_app. lia. Qed.

Lemma zlen_cons {A} (a : A) l : zlen (a :: l) = 1 + zlen l.
Proof. unfold zlen. simpl. lia. Qed.

Lemma zlen_nil {A} : zlen (@nil A) = 0.
Proof. done. Qed.

Lemma zlen_zeros n : 0 ≤ n → zlen (zeros n) = n.
Proof. unfold zlen, zeros. rewrite length_replicate. lia. Qed.

Lemma zlen_splice buf off bs :
  0 ≤ off → off + zlen bs ≤ zlen buf → zlen (splice buf off bs) = zlen buf.
Proof.
  unfold zlen, splice. intros. rewrite !length_app, length_take, length_drop. lia.
Qed.

Lemma zlen_slice buf off len :
  0 ≤ off → 0 ≤ len → off + len ≤ zlen buf → zlen (slice buf off len) = len.
Proof. unfold zlen, slice. intros. rewrite length_take, length_drop. lia. Qed.

(** What was written is read back ... *)
Lemma slice_splice_same buf off bs len :
  0 ≤ off → off + zlen bs ≤ zlen buf → len = zlen bs →
  slice (splice buf off bs) off len = bs.
Proof.
  unfold zlen, slice, splice. intros ?? ->. rewrite Nat2Z.id.
  rewrite drop_app_length' by (rewrite length_take; lia).
  by rewrite take_app_length.
Qed.

(** ... and a write leaves every disjoint range alone. *)
Lemma slice_splice_other buf off bs off' len :
  0 ≤ off → off + zlen bs ≤ zlen buf → 0 ≤ off' → 0 ≤ len →
  off' + len ≤ off ∨ off + zlen bs ≤ off' →
  slice (splice buf off bs) off' len = slice buf off' len.
Proof.
  unfold zlen, slice, splice. intros H1 H2 H3 H4 H5.
  apply list_eq. intros i.
  destruct (decide (i < Z.to_nat len)%nat) as [Hi|Hi].
  2:{ rewrite !lookup_ge_None_2; [done|rewrite length_take; lia..]. }
  rewrite !lookup_take_lt, !lookup_drop by done.
  destruct H5 as [H5|H5].
  - rewrite lookup_app_l by (rewrite length_take; lia).
    by rewrite lookup_take_lt by lia.
  - rewrite lookup_app_r by (rewrite length_take; lia).
    rewrite lookup_app_r by (rewrite length_take; lia).
    rewrite lookup_drop, length_take. f_equal. lia.
Qed.

Lemma slice_nil buf off : slice buf off 0 = [].
Proof. done. Qed.

Lemma slice_slice buf off len off' len' :
  0 ≤ off → 0 ≤ off' → 0 ≤ len' → off' + len' ≤ len →
  slice (slice buf off len) off' len' = slice buf (off + off') len'.
Proof.
  unfold slice. intros. apply list_eq. intros i.
  destruct (decide (i < Z.to_nat len')%nat).
  2:{ rewrite !lookup_ge_None_2; [done|rewrite length_take; lia..]. }
  rewrite !lookup_take_lt, !lookup_drop, lookup_take_lt, lookup_drop by lia.
  f_equal. lia.
Qed.

Lemma slice_app buf off len1 len2 :
  0 ≤ off → 0 ≤ len1 → 0 ≤ len2 →
  slice buf off (len1 + len2) = slice buf off len1 ++ slice buf (off + len1) len2.
Proof.
  unfold slice. intros.
  rewrite Z2Nat.inj_add, <- take_take_drop, drop_drop by done.
  by rewrite Z2Nat.inj_add by done.
Qed.

(** Pieces of a range whose contents are known. *)
Lemma slice_app_inv buf off len bs1 bs2 :
  0 ≤ off → slice buf off len = bs1 ++ bs2 → len = zlen bs1 + zlen bs2 →
  slice buf off (zlen bs1) = bs1 ∧ slice buf (off + zlen bs1) (zlen bs2) = bs2.
Proof.
  intros Hoff Hs ->. pose proof (zlen_nonneg bs1). pose proof (zlen_nonneg bs2).
  rewrite slice_app in Hs by lia.
  apply app_inj_1 in Hs; [done|].
  apply (f_equal length) in Hs. unfold slice, zlen in *.
  rewrite !length_app in Hs. revert Hs. rewrite !length_take, !length_drop. lia.
Qed.

Lemma slice_full buf : slice buf 0 (zlen buf) = buf.
Proof. unfold slice, zlen. rewrite Nat2Z.id. simpl. rewrite drop_0. apply firstn_all. Qed.

Lemma splice_nil buf off : splice buf off [] = buf.
Proof. unfold splice. simpl. rewrite Nat.add_0_r. apply take_drop. Qed.

Lemma lookup_slice buf off len i :
  0 ≤ i < len → 0 ≤ off →
  slice buf off len !! Z.to_nat i = buf !! Z.to_nat (off + i).
Proof.
  intros. unfold slice. rewrite lookup_take_lt, lookup_drop by lia. f_equal. lia.
Qed.

Lemma rd_slice buf off b :
  0 ≤ off → slice buf off 1 = [b] → rd buf off = Ok b.
Proof.
  intros Hoff Hs. unfold rd. rewrite (proj2 (Z.ltb_ge _ _)) by lia.
  pose proof (lookup_slice buf off 1 0 ltac:(lia) Hoff) as Hl.
  rewrite Hs, Z.add_0_r in Hl. simpl in Hl. by rewrite <- Hl.
Qed.

Lemma slice_1 buf off b :
  0 ≤ off → rd buf off = Ok b → slice buf off 1 = [b].
Proof.
  unfold rd, slice. intros Hoff. rewrite (proj2 (Z.ltb_ge _ _)) by lia.
  destruct (buf !! _) eqn:E; [|done]. intros [= <-].
  by rewrite (drop_S _ _ _ E).
Qed.

Lemma rd_in buf off : 0 ≤ off < zlen buf → ∃ b, rd buf off = Ok b ∧ slice buf off 1 = [b].
Proof.
  unfold zlen. intros H. destruct (lookup_lt_is_Some_2 buf (Z.to_nat off)) as [b Hb]; [lia|].
  assert (rd buf off = Ok b) as Hr.
  { unfold rd. rewrite (proj2 (Z.ltb_ge _ _)), Hb by lia. done. }
  eauto using slice_1 with lia.
Qed.

Lemma wr_ok buf off b : 0 ≤ off < zlen buf → wr buf off b = Ok (splice buf off [b]).
Proof.
  intros H. unfold wr. rewrite (proj2 (Z.leb_le _ _)), (proj2 (Z.ltb_lt _ _)) by lia.
  simpl. f_equal. unfold zlen in H. unfold splice.
  rewrite insert_take_drop by lia. simpl. by rewrite Nat.add_comm.
Qed.

Lemma wr_bytes_ok buf off bs :
  0 ≤ off → off + zlen bs ≤ zlen buf → wr_bytes buf off bs = Ok (splice buf off bs).
Proof.
  intros. unfold wr_bytes. by rewrite !(proj2 (Z.leb_le _ _)) by lia.
Qed.

Lemma rd_bytes_ok buf off len :
  0 ≤ off → 0 ≤ len → off + len ≤ zlen buf → rd_bytes buf off len = Ok (slice buf off len).
Proof.
  intros. unfold rd_bytes. by rewrite !(proj2 (Z.leb_le _ _)) by lia.
Qed.

Lemma rd_splice_other buf bs off i :
  0 ≤ off → off + zlen bs ≤ zlen buf → i < off ∨ off + zlen bs ≤ i →
  rd (splice buf off bs) i = rd buf i.
Proof.
  intros Ho Hl Hi. unfold rd, splice. destruct (i <? 0) eqn:Hn; [done|].
  apply Z.ltb_ge in Hn. unfold zlen in *.
  enough ((take (Z.to_nat off) buf ++ bs ++ drop (Z.to_nat off + length bs) buf)
            !! Z.to_nat i = buf !! Z.to_nat i) as -> by done.
  destruct Hi as [Hi|Hi].
  - rewrite lookup_app_l by (rewrite length_take; lia).
    by rewrite lookup_take_lt by lia.
  - rewrite lookup_app_r by (rewrite length_take; lia).
    rewrite lookup_app_r by (rewrite length_take; lia).
    rewrite lookup_drop, length_take. f_equal. lia.
Qed.

(** Rewriting a range with what it holds changes nothing. *)
Lemma splice_slice buf off len :
  0 ≤ off → 0 ≤ len → off + len ≤ zlen buf →
  splice buf off (slice buf off len) = buf.
Proof.
  unfold splice, slice, zlen. intros.
  rewrite length_take, length_drop.
  replace (_ `min` _)%nat with (Z.to_nat len) by lia.
  rewrite <- drop_drop, take_drop. apply take_drop.
Qed.

Lemma splice_splice_adj buf off bs1 bs2 :
  0 ≤ off → off + zlen bs1 + zlen bs2 ≤ zlen buf →
  splice (splice buf off bs1) (off + zlen bs1) bs2 = splice buf off (bs1 ++ bs2).
Proof.
  unfold splice, zlen. intros H1 H2.
  assert (Z.to_nat (off + Z.of_nat (length bs1)) = Z.to_nat off + length bs1)%nat as -> by lia.
  rewrite !app_assoc.
  rewrite take_app_le by (rewrite length_app, length_take; lia).
  rewrite take_ge by (rewrite length_app, length_take; lia).
  rewrite (drop_app_ge (_ ++ bs1)) by (rewrite length_app, length_take; lia).
  rewrite drop_drop, <- !app_assoc, !length_app, length_take. do 4 f_equal. lia.
Qed.

Lemma splice_adj buf off off2 bs1 bs2 :
  off2 = off + zlen bs1 → 0 ≤ off → off + zlen bs1 + zlen bs2 ≤ zlen buf →
  splice (splice buf off bs1) off2 bs2 = splice buf off (bs1 ++ bs2).
Proof. intros ->. apply splice_splice_adj. Qed.
End buffers.

(** Rewriting with the buffer lemmas; the side conditions go to [lia] after
    the sizes of written buffers have been normalised. *)
Create Rewrite HintDb buf.
#[export] Hint Rewrite @zlen_app @zlen_cons @zlen_nil : buf.
Ltac blen :=
  autorewrite with buf in *; repeat (rewrite zlen_splice by blen);
  autorewrite with buf; lia.
(** Reads a range of a buffer through the writes that built it. *)
Ltac bslice :=
  repeat first
    [ rewrite slice_splice_same by blen
    | rewrite slice_splice_other by blen
    | rewrite rd_splice_other by blen ].
