(* ===== verification/Serialize.v ===== *)
(** * Serialize: the big-endian encoding of integers on disk
    ([utils/serialize.h], [utils/serialize.c], the RID of [utils/shared.h])

    Every encoder writes into a buffer at an offset and every decoder reads
    from one, byte by byte as the code does, so both can run off the buffer.
    A [double] is its 64-bit object representation, which the code copies
    with [memcpy]; bytes are in the order of a little-endian host. *)
From S2P Require Import Prelude.

(** ** The code *)

(** Layout constants of [serialize.h] (BTree pages and BTree metadata). *)
Definition TREE_KV_PTR_SIZE : Z := 4.
Definition AVAILABLE_SPACE_START_SIZE : Z := 2.
Definition AVAILABLE_SPACE_START_OFFSET : Z := 0.
Definition AVAILABLE_SPACE_END_SIZE : Z := 2.
Definition AVAILABLE_SPACE_END_OFFSET : Z :=
  AVAILABLE_SPACE_START_OFFSET + AVAILABLE_SPACE_START_SIZE.
Definition NEXT_PID_SIZE : Z := 4.
Definition NEXT_PID_OFFSET : Z := AVAILABLE_SPACE_END_OFFSET + AVAILABLE_SPACE_END_SIZE.
Definition RIGHTMOST_PID_SIZE : Z := 4.
Definition RIGHTMOST_PID_OFFSET : Z := NEXT_PID_OFFSET + NEXT_PID_SIZE.
Definition TREE_FLAGS_SIZE : Z := 1.
Definition TREE_FLAGS_OFFSET : Z := RIGHTMOST_PID_OFFSET + RIGHTMOST_PID_SIZE.
Definition IS_LEAF_SIZE : Z := 1.
Definition IS_LEAF_OFFSET : Z := TREE_FLAGS_OFFSET + TREE_FLAGS_SIZE.
(** The macro adds the {e offset} of the last field, not its size. *)
Definition INDEX_PAGE_HEADER_SIZE : Z :=
  AVAILABLE_SPACE_START_SIZE + AVAILABLE_SPACE_END_SIZE + NEXT_PID_SIZE
  + RIGHTMOST_PID_SIZE + TREE_FLAGS_SIZE + IS_LEAF_OFFSET.

Definition BTREE_METADATA_PAGE_ID : Z := 0.
Definition MAGIC_NUM_SIZE : Z := 4.
Definition MAGIC_NUMBER_OFFSET : Z := 0.
Definition NODE_COUNT_SIZE : Z := 2.
Definition NODE_COUNT_OFFSET : Z := MAGIC_NUM_SIZE.
Definition MAX_KEYSIZE_SIZE : Z := 1.
Definition MAX_KEYSIZE_OFFSET : Z := MAGIC_NUM_SIZE + NODE_COUNT_SIZE.
Definition CURR_ROOT_PID_OFFSET : Z := MAGIC_NUM_SIZE + NODE_COUNT_SIZE + MAX_KEYSIZE_SIZE.

(** The page size of [disk_manager.h]. *)
Definition PAGE_SIZE : Z := 4096.

(** The magic number and the record id of [shared.h]. *)
Definition BTREE_INDEX : Z := 0x951F6C01.
Record RID := mkRID { pid : Z; slot_num : Z }.
Definition RID_SIZE : Z := 8.

Definition encode_uint32 (data : Z) (buf : list Z) (off : Z) : outcome (list Z) :=
  buf ← wr buf off (Z.land (Z.shiftr data 24) 0xFF);
  buf ← wr buf (off + 1) (Z.land (Z.shiftr data 16) 0xFF);
  buf ← wr buf (off + 2) (Z.land (Z.shiftr data 8) 0xFF);
  wr buf (off + 3) (Z.land data 0xFF).

Definition decode_uint32 (buf : list Z) (off : Z) : outcome Z :=
  b0 ← rd buf off; b1 ← rd buf (off + 1);
  b2 ← rd buf (off + 2); b3 ← rd buf (off + 3);
  Ok (u32 (Z.lor (Z.lor (Z.lor (Z.shiftl b0 24) (Z.shiftl b1 16)) (Z.shiftl b2 8)) b3)).

Definition encode_uint16 (data : Z) (buf : list Z) (off : Z) : outcome (list Z) :=
  buf ← wr buf off (Z.land (Z.shiftr data 8) 0xFF);
  wr buf (off + 1) (Z.land data 0xFF).

Definition decode_uint16 (buf : list Z) (off : Z) : outcome Z :=
  b0 ← rd buf off; b1 ← rd buf (off + 1);
  Ok (u16 (Z.lor (Z.shiftl b0 8) b1)).

(** The parameter of the signed encoders is an [int]; the 16-bit one truncates
    it. *)
Definition encode_int32 (data : Z) (buf : list Z) (off : Z) : outcome (list Z) :=
  encode_uint32 (u32 data) buf off.
Definition decode_int32 (buf : list Z) (off : Z) : outcome Z :=
  v ← decode_uint32 buf off; Ok (i32 v).
Definition encode_int16 (data : Z) (buf : list Z) (off : Z) : outcome (list Z) :=
  encode_uint16 (u16 data) buf off.
Definition decode_int16 (buf : list Z) (off : Z) : outcome Z :=
  v ← decode_uint16 buf off; Ok (i16 v).

(** The object representation of a double, least significant byte first. *)
Fixpoint le_bytes (n : nat) (w : Z) : list Z :=
  match n with
  | O => []
  | S n => Z.land w 0xFF :: le_bytes n (Z.shiftr w 8)
  end.
Fixpoint le_value (bs : list Z) : Z :=
  match bs with
  | [] => 0
  | b :: bs => Z.lor b (Z.shiftl (le_value bs) 8)
  end.
Definition encode_double (data : Z) (buf : list Z) (off : Z) : outcome (list Z) :=
  wr_bytes buf off (le_bytes 8 data).
Definition decode_double (buf : list Z) (off : Z) : outcome Z :=
  bs ← rd_bytes buf off 8; Ok (le_value bs).

Definition encode_bool (data : bool) (buf : list Z) (off : Z) : outcome (list Z) :=
  wr buf off (if data then 1 else 0).
Definition decode_bool (buf : list Z) (off : Z) : outcome bool :=
  b ← rd buf off; Ok (negb (b =? 0)).

(** ** The bytes of an encoding *)

Definition be16 (v : Z) : list Z := [Z.land (Z.shiftr v 8) 0xFF; Z.land v 0xFF].
Definition be32 (v : Z) : list Z :=
  [Z.land (Z.shiftr v 24) 0xFF; Z.land (Z.shiftr v 16) 0xFF;
   Z.land (Z.shiftr v 8) 0xFF; Z.land v 0xFF].

Arguments be16 : simpl never.
Arguments be32 : simpl never.

Lemma land_byte v : Z.land v 255 = v mod 256.
Proof. apply (Z.land_ones v 8). lia. Qed.

Lemma land_byte_range v : is_byte (Z.land v 255).
Proof. rewrite land_byte. unfold is_byte. apply Z.mod_pos_bound. lia. Qed.

Lemma be16_bytes v : Forall is_byte (be16 v).
Proof. repeat constructor; apply land_byte_range. Qed.
Lemma be32_bytes v : Forall is_byte (be32 v).
Proof. repeat constructor; apply land_byte_range. Qed.

(** Joining a byte below a shifted value is adding it. *)
Lemma lor_shiftl_add a b k :
  0 ≤ k → 0 ≤ b < 2 ^ k → Z.lor (Z.shiftl a k) b = a * 2 ^ k + b.
Proof.
  intros Hk Hb. pose proof (Z.add_lor_land (Z.shiftl a k) b) as Hadd.
  assert (Z.land (Z.shiftl a k) b = 0) as Hz.
  { destruct (decide (b = 0)) as [->|Hb0]; [apply Z.land_0_r|].
    apply Z.bits_inj'. intros n Hn.
    rewrite Z.land_spec, Z.bits_0.
    destruct (Z_lt_le_dec n k).
    - by rewrite Z.shiftl_spec_low by lia.
    - rewrite (Z.bits_above_log2 b n), andb_false_r; [done|lia|].
      apply Z.log2_lt_pow2; [lia|]. apply Z.lt_le_trans with (2 ^ k); [lia|].
      apply Z.pow_le_mono_r; lia. }
  rewrite Z.shiftl_mul_pow2 in * by lia. lia.
Qed.

Lemma be16_value b0 b1 :
  is_byte b0 → is_byte b1 → u16 (Z.lor (Z.shiftl b0 8) b1) = b0 * 256 + b1.
Proof.
  unfold is_byte, u16. intros. rewrite lor_shiftl_add by lia. apply Z.mod_small. lia.
Qed.

Lemma be32_value b0 b1 b2 b3 :
  is_byte b0 → is_byte b1 → is_byte b2 → is_byte b3 →
  u32 (Z.lor (Z.lor (Z.lor (Z.shiftl b0 24) (Z.shiftl b1 16)) (Z.shiftl b2 8)) b3)
  = ((b0 * 256 + b1) * 256 + b2) * 256 + b3.
Proof.
  unfold is_byte, u32. intros.
  assert (Z.shiftl b0 24 = Z.shiftl (Z.shiftl (Z.shiftl b0 8) 8) 8) as ->.
  { by rewrite !Z.shiftl_shiftl by lia. }
  assert (Z.shiftl b1 16 = Z.shiftl (Z.shiftl b1 8) 8) as ->.
  { by rewrite !Z.shiftl_shiftl by lia. }
  rewrite <- !Z.shiftl_lor, (lor_shiftl_add b0), (lor_shiftl_add _ b2) by lia.
  rewrite lor_shiftl_add by lia. rewrite Z.mod_small; lia.
Qed.

(** A buffer operation on a range of the buffer, in terms of the bytes. *)
Lemma encode_uint16_ok v buf off :
  0 ≤ off → off + 2 ≤ zlen buf → encode_uint16 v buf off = Ok (splice buf off (be16 v)).
Proof.
  intros. unfold encode_uint16, be16. rewrite wr_ok by lia. simpl.
  rewrite wr_ok by (rewrite zlen_splice; buf_lia).
  by rewrite (splice_splice_adj buf off [_] [_]) by buf_lia.
Qed.

Lemma encode_uint32_ok v buf off :
  0 ≤ off → off + 4 ≤ zlen buf → encode_uint32 v buf off = Ok (splice buf off (be32 v)).
Proof.
  intros. unfold encode_uint32, be32. rewrite wr_ok by lia. simpl.
  rewrite wr_ok by (rewrite zlen_splice; buf_lia). simpl.
  rewrite (splice_splice_adj buf off [_] [_]) by buf_lia. simpl.
  rewrite wr_ok by (rewrite zlen_splice; buf_lia). simpl.
  rewrite (splice_splice_adj buf off [_; _] [_]) by buf_lia. simpl.
  rewrite wr_ok by (rewrite zlen_splice; buf_lia).
  by rewrite (splice_splice_adj buf off [_; _; _] [_]) by buf_lia.
Qed.

Lemma slice_2_inv buf off b0 b1 :
  0 ≤ off → slice buf off 2 = [b0; b1] → rd buf off = Ok b0 ∧ rd buf (off + 1) = Ok b1.
Proof.
  intros Hoff Hs. apply (slice_app_inv _ _ _ [b0] [b1]) in Hs as [H0 H1]; [|done|done].
  split; apply rd_slice; [lia|done|lia|done].
Qed.

Lemma slice_4_inv buf off b0 b1 b2 b3 :
  0 ≤ off → slice buf off 4 = [b0; b1; b2; b3] →
  (rd buf off = Ok b0 ∧ rd buf (off + 1) = Ok b1) ∧
  (rd buf (off + 2) = Ok b2 ∧ rd buf (off + 3) = Ok b3).
Proof.
  intros Hoff Hs.
  apply (slice_app_inv _ _ _ [b0; b1] [b2; b3]) in Hs as [H0 H1]; [|done|done].
  change (zlen [b0; b1]) with 2 in *. change (zlen [b2; b3]) with 2 in *.
  split; [by apply slice_2_inv|]. apply slice_2_inv in H1 as [H1 H2]; [|lia].
  rewrite <- Z.add_assoc in H2. done.
Qed.

Lemma slice_2 buf off b0 b1 :
  0 ≤ off → rd buf off = Ok b0 → rd buf (off + 1) = Ok b1 → slice buf off 2 = [b0; b1].
Proof.
  intros Ho H0 H1. change 2 with (1 + 1). rewrite slice_app by lia.
  by rewrite (slice_1 buf off b0), (slice_1 buf (off + 1) b1) by (done || lia).
Qed.

Lemma slice_4 buf off b0 b1 b2 b3 :
  0 ≤ off → rd buf off = Ok b0 → rd buf (off + 1) = Ok b1 →
  rd buf (off + 2) = Ok b2 → rd buf (off + 3) = Ok b3 →
  slice buf off 4 = [b0; b1; b2; b3].
Proof.
  intros Ho H0 H1 H2 H3. change 4 with (2 + 2). rewrite slice_app by lia.
  rewrite (slice_2 buf off b0 b1), (slice_2 buf (off + 2) b2 b3); try done || lia.
  by rewrite <- Z.add_assoc.
Qed.

(** Decoding a range that holds the encoding of a value. *)
Lemma decode_uint16_at v buf off :
  0 ≤ off → slice buf off 2 = be16 v → decode_uint16 buf off = Ok (u16 v).
Proof.
  intros Hoff Hs. apply slice_2_inv in Hs as [H0 H1]; [|done].
  unfold decode_uint16. rewrite H0, H1. simpl. f_equal.
  rewrite be16_value by apply land_byte_range. rewrite !land_byte, Z.shiftr_div_pow2 by lia.
  change (2 ^ 8) with 256. unfold u16. change (2 ^ 16) with (256 * 256).
  rewrite Z.rem_mul_r by lia. lia.
Qed.

Lemma decode_uint32_at v buf off :
  0 ≤ off → slice buf off 4 = be32 v → decode_uint32 buf off = Ok (u32 v).
Proof.
  intros Hoff Hs. apply slice_4_inv in Hs as [[H0 H1] [H2 H3]]; [|done].
  unfold decode_uint32. rewrite H0, H1, H2, H3. simpl. f_equal.
  rewrite be32_value by apply land_byte_range. rewrite !land_byte, !Z.shiftr_div_pow2 by lia.
  change (2 ^ 24) with (256 * 256 * 256). change (2 ^ 16) with (256 * 256).
  change (2 ^ 8) with 256. unfold u32. change (2 ^ 32) with (256 * (256 * (256 * 256))).
  rewrite !Z.rem_mul_r, <- !Z.div_div by lia. lia.
Qed.

Lemma zlen_be16 v : zlen (be16 v) = 2.
Proof. done. Qed.
Lemma zlen_be32 v : zlen (be32 v) = 4.
Proof. done. Qed.
#[export] Hint Rewrite zlen_be16 zlen_be32 : buf.

(** ... in particular right after it was encoded there. *)
Lemma decode_splice16 v buf off :
  0 ≤ off → off + 2 ≤ zlen buf → decode_uint16 (splice buf off (be16 v)) off = Ok (u16 v).
Proof. intros. apply decode_uint16_at; [done|]. by apply slice_splice_same. Qed.
Lemma decode_splice32 v buf off :
  0 ≤ off → off + 4 ≤ zlen buf → decode_uint32 (splice buf off (be32 v)) off = Ok (u32 v).
Proof. intros. apply decode_uint32_at; [done|]. by apply slice_splice_same. Qed.

Lemma decode_uint16_in buf off :
  0 ≤ off → off + 2 ≤ zlen buf → ∃ v, decode_uint16 buf off = Ok v.
Proof.
  intros Ho Hl. destruct (rd_in buf off) as (b0 & H0 & _); [lia|].
  destruct (rd_in buf (off + 1)) as (b1 & H1 & _); [lia|].
  unfold decode_uint16. rewrite H0. simpl. rewrite H1. simpl. eauto.
Qed.

Lemma decode_uint16_slice buf buf' off off' :
  0 ≤ off → 0 ≤ off' → off + 2 ≤ zlen buf → slice buf' off' 2 = slice buf off 2 →
  decode_uint16 buf' off' = decode_uint16 buf off.
Proof.
  intros Ho Ho' Hl Hs.
  destruct (rd_in buf off) as (b0 & H0 & _); [lia|].
  destruct (rd_in buf (off + 1)) as (b1 & H1 & _); [lia|].
  rewrite (slice_2 buf off b0 b1) in Hs by done.
  apply slice_2_inv in Hs as [H0' H1']; [|done].
  unfold decode_uint16. by rewrite H0, H1, H0', H1'.
Qed.

Lemma decode_uint32_slice buf buf' off off' :
  0 ≤ off → 0 ≤ off' → off + 4 ≤ zlen buf → slice buf' off' 4 = slice buf off 4 →
  decode_uint32 buf' off' = decode_uint32 buf off.
Proof.
  intros Ho Ho' Hl Hs.
  destruct (rd_in buf off) as (b0 & H0 & _); [lia|].
  destruct (rd_in buf (off + 1)) as (b1 & H1 & _); [lia|].
  destruct (rd_in buf (off + 2)) as (b2 & H2 & _); [lia|].
  destruct (rd_in buf (off + 3)) as (b3 & H3 & _); [lia|].
  rewrite (slice_4 buf off b0 b1 b2 b3) in Hs by done.
  apply slice_4_inv in Hs as [[H0' H1'] [H2' H3']]; [|done].
  unfold decode_uint32. by rewrite H0, H1, H2, H3, H0', H1', H2', H3'.
Qed.

(** The little-endian representation of a double. *)
Lemma length_le_bytes n w : length (le_bytes n w) = n.
Proof. revert w. induction n; simpl; auto. Qed.

Lemma le_value_bytes n w : le_value (le_bytes n w) = w mod 2 ^ (8 * Z.of_nat n).
Proof.
  revert w. induction n as [|n IH]; intros w; [by rewrite Z.mod_1_r|].
  cbn [le_bytes le_value]. rewrite IH, Z.lor_comm, lor_shiftl_add by (try apply land_byte_range; lia).
  rewrite land_byte, Z.shiftr_div_pow2 by lia. change (2 ^ 8) with 256.
  replace (8 * Z.of_nat (S n)) with (8 + 8 * Z.of_nat n) by lia.
  rewrite Z.pow_add_r by lia. change (2 ^ 8) with 256. rewrite Z.rem_mul_r; lia.
Qed.

(** Big-endian bytes of a value read from bytes. *)
Lemma be16_of_bytes b0 b1 : is_byte b0 → is_byte b1 → be16 (b0 * 256 + b1) = [b0; b1].
Proof.
  unfold is_byte, be16. intros. rewrite !land_byte, Z.shiftr_div_pow2 by lia.
  change (2 ^ 8) with 256. repeat f_equal; Z.to_euclidean_division_equations; lia.
Qed.

Lemma be32_of_bytes b0 b1 b2 b3 :
  is_byte b0 → is_byte b1 → is_byte b2 → is_byte b3 →
  be32 (((b0 * 256 + b1) * 256 + b2) * 256 + b3) = [b0; b1; b2; b3].
Proof.
  unfold is_byte, be32. intros. rewrite !land_byte, !Z.shiftr_div_pow2 by lia.
  change (2 ^ 8) with 256. change (2 ^ 16) with 65536. change (2 ^ 24) with 16777216.
  repeat f_equal; Z.to_euclidean_division_equations; lia.
Qed.

Lemma rd_byte buf off b : Forall is_byte buf → rd buf off = Ok b → is_byte b.
Proof.
  unfold rd. intros Hf. destruct (off <? 0); [done|].
  destruct (buf !! _) eqn:E; [|done]. intros [= <-]. by eapply Forall_lookup_1.
Qed.

(** ** Properties *)

(** What [encode_uint32] writes at an offset of a buffer [decode_uint32]
    reads back, for every 32-bit value; the buffer keeps its size and no byte
    outside the four is changed. *)
Theorem encode_decode_uint32 data buf off :
  0 ≤ data < 2 ^ 32 → 0 ≤ off → off + 4 ≤ zlen buf →
  ∃ buf', encode_uint32 data buf off = Ok buf' ∧ decode_uint32 buf' off = Ok data
    ∧ zlen buf' = zlen buf
    ∧ ∀ i, (i < off ∨ off + 4 ≤ i) → rd buf' i = rd buf i.
Proof.
  intros Hd Ho Hl. eexists. split; [by apply encode_uint32_ok|].
  assert (zlen (be32 data) = 4) as H4 by done. repeat split.
  - rewrite decode_splice32 by lia. unfold u32. by rewrite Z.mod_small.
  - apply zlen_splice; lia.
  - intros i Hi. apply rd_splice_other; lia.
Qed.

Lemma encode_decode_uint32_witness :
  ∃ buf', encode_uint32 BTREE_INDEX (zeros 16) 3 = Ok buf'
    ∧ decode_uint32 buf' 3 = Ok BTREE_INDEX ∧ zlen buf' = zlen (zeros 16)
    ∧ ∀ i, (i < 3 ∨ 3 + 4 ≤ i) → rd buf' i = rd (zeros 16) i.
Proof. apply (encode_decode_uint32 BTREE_INDEX (zeros 16) 3); by_compute. Defined.

(** The signed encodings are exact on what their decoders return: every
    [int] survives the 32-bit encoding, and the 16-bit encoding of an [int]
    decodes to its value modulo [2 ^ 16] in the signed range, hence to itself
    exactly when it is in that range. *)
Theorem encode_decode_signed data buf off :
  - 2 ^ 31 ≤ data < 2 ^ 31 → 0 ≤ off → off + 4 ≤ zlen buf →
  (encode_int32 data buf off ≫= λ b, decode_int32 b off) = Ok data ∧
  (encode_int16 data buf off ≫= λ b, decode_int16 b off) = Ok (i16 data) ∧
  (i16 data = data ↔ - 2 ^ 15 ≤ data < 2 ^ 15).
Proof.
  intros Hd Ho Hl. unfold encode_int32, decode_int32, encode_int16, decode_int16.
  rewrite encode_uint32_ok, encode_uint16_ok by lia. simpl.
  rewrite decode_splice32, decode_splice16 by lia. simpl. unfold i32, i16, u32, u16. rewrite !to_signed_mod by lia. repeat split.
  - f_equal. apply to_signed_id; [lia|done].
  - by apply (to_signed_id 16).
  - by apply (to_signed_id 16).
  - intros. by apply to_signed_id.
Qed.

Lemma encode_decode_signed_witness :
  (encode_int32 (-70000) (zeros 8) 2 ≫= λ b, decode_int32 b 2) = Ok (-70000) ∧
  (encode_int16 (-70000) (zeros 8) 2 ≫= λ b, decode_int16 b 2) = Ok (i16 (-70000)) ∧
  (i16 (-70000) = -70000 ↔ - 2 ^ 15 ≤ -70000 < 2 ^ 15).
Proof. apply (encode_decode_signed (-70000) (zeros 8) 2); by_compute. Defined.

(** Encoding is onto: any byte content of a buffer is the encoding of the
    value it decodes to, so re-encoding a decoded value is the identity
    (16-bit, 32-bit). *)
Theorem decode_encode_unsigned buf off :
  Forall is_byte buf → 0 ≤ off → off + 4 ≤ zlen buf →
  (decode_uint16 buf off ≫= λ v, encode_uint16 v buf off) = Ok buf ∧
  (decode_uint32 buf off ≫= λ v, encode_uint32 v buf off) = Ok buf.
Proof.
  intros Hf Ho Hl.
  destruct (rd_in buf off) as (b0 & H0 & S0); [lia|].
  destruct (rd_in buf (off + 1)) as (b1 & H1 & S1); [lia|].
  destruct (rd_in buf (off + 2)) as (b2 & H2 & S2); [lia|].
  destruct (rd_in buf (off + 3)) as (b3 & H3 & S3); [lia|].
  pose proof (rd_byte _ _ _ Hf H0). pose proof (rd_byte _ _ _ Hf H1).
  pose proof (rd_byte _ _ _ Hf H2). pose proof (rd_byte _ _ _ Hf H3).
  unfold decode_uint16, decode_uint32. rewrite H0, H1, H2, H3. simpl.
  rewrite be16_value, be32_value by done. split.
  - rewrite encode_uint16_ok, be16_of_bytes by (done || lia).
    rewrite <- (slice_2 buf off b0 b1) by done. by rewrite splice_slice by lia.
  - rewrite encode_uint32_ok, be32_of_bytes by (done || lia).
    rewrite <- (slice_4 buf off b0 b1 b2 b3) by done. by rewrite splice_slice by lia.
Qed.

Lemma decode_encode_unsigned_witness :
  (decode_uint16 [7; 200; 255; 0; 1] 1 ≫= λ v, encode_uint16 v [7; 200; 255; 0; 1] 1)
    = Ok [7; 200; 255; 0; 1] ∧
  (decode_uint32 [7; 200; 255; 0; 1] 1 ≫= λ v, encode_uint32 v [7; 200; 255; 0; 1] 1)
    = Ok [7; 200; 255; 0; 1].
Proof.
  apply (decode_encode_unsigned [7; 200; 255; 0; 1] 1).
  - repeat constructor; unfold is_byte; lia.
  - lia.
  - vm_compute. congruence.
Defined.
