(* ===== verification/IndexPage.v ===== *)
(** * IndexPage: the nodes of the B+tree ([index/index_page.hpp],
    [index/index_page.cpp])

    A node in memory ([BTreePage]), its slotted-page image on disk, the order
    on keys and the sorted insertion of a key/value pair. *)
From S2P Require Import Prelude Serialize.

(** ** The code *)

(** A [BTreeKey] is its [length] bytes; the [u8] length is the length of the
    list. A key that [resize] creates is the empty one. *)
Abbreviation BTreeKey := (list Z) (only parsing).

(** The [std::variant] of the values of a node. *)
Inductive page_values :=
  | LeafRecords (records : list RID)
  | InternalChildren (children : list Z).

(** [std::get] throws when the other alternative is the active one. *)
Definition LEAF_RECORDS (v : page_values) : outcome (list RID) :=
  match v with LeafRecords r => Ok r | InternalChildren _ => Throw BadVariant end.
Definition INTERNAL_CHILDREN (v : page_values) : outcome (list Z) :=
  match v with InternalChildren c => Ok c | LeafRecords _ => Throw BadVariant end.

(** The template parameter of the node functions,
    [requires(std::same_as<VAL_T, RID> || std::same_as<VAL_T, u32>)]: its
    alternative of the variant and its value-initialised element. *)
Class VAL_T (V : Type) := {
  val_is_leaf : bool;
  get_values : page_values → outcome (list V);
  put_values : list V → page_values;
  val_default : V }.
Arguments val_is_leaf V {_}.
#[export] Instance VAL_T_RID : VAL_T RID :=
  { val_is_leaf := true; get_values := LEAF_RECORDS; put_values := LeafRecords;
    val_default := mkRID 0 0 }.
#[export] Instance VAL_T_u32 : VAL_T Z :=
  { val_is_leaf := false; get_values := INTERNAL_CHILDREN; put_values := InternalChildren;
    val_default := 0 }.

Record BTreePage := mkPage {
  is_leaf : bool;
  keys : list BTreeKey;
  flags : Z;
  rightmost_ptr : Z;
  next : Z;
  values : page_values }.

(** [BTreePage(bool is_leaf)]: the members the constructor leaves
    uninitialised are arguments. *)
Definition new_BTreePage (leaf : bool) (flags0 rightmost0 next0 : Z) : BTreePage :=
  mkPage leaf [] flags0 rightmost0 next0
    (if leaf then LeafRecords [] else InternalChildren []).

(** [memcmp] on [n] bytes; only the sign of its result is specified. *)
Fixpoint memcmp (a b : list Z) (n : nat) : Z :=
  match n, a, b with
  | S n, x :: a, y :: b => if x =? y then memcmp a b n else Z.sgn (x - y)
  | _, _, _ => 0
  end.

Definition cmpKeys (key1 key2 : BTreeKey) : Z :=
  memcmp key1 key2 (Nat.min (length key1) (length key2)).

(** [BTreeKey::operator==]. *)
Definition key_eqb (k1 k2 : BTreeKey) : bool :=
  (length k1 =? length k2)%nat && (memcmp k1 k2 (length k1) =? 0).

(** The halves used by the splits. A range whose first iterator is past the
    end (an empty vector without its middle) is undefined. *)
Definition vec_second_half {A} (v : list A) (include_mid : bool) : outcome (list A) :=
  let from := (length v / 2 + if include_mid then 0 else 1)%nat in
  if (from <=? length v)%nat then Ok (drop from v) else Undef OutOfBounds.
Definition vec_first_half {A} (v : list A) (include_mid : bool) : outcome (list A) :=
  let to := (length v / 2 + if include_mid then 1 else 0)%nat in
  if (to <=? length v)%nat then Ok (take to v) else Undef OutOfBounds.

(** *** [BTreePage::serialize] *)

(** The bytes of the value of index [i], in a [u8 val_buf[RID_SIZE]], and
    their number. *)
Definition serialize_val (p : BTreePage) (i : Z) : outcome (list Z * Z) :=
  if is_leaf p then
    recs ← LEAF_RECORDS (values p);
    val ← vec_at recs i;
    val_buf ← encode_uint32 (pid val) (zeros RID_SIZE) 0;
    val_buf ← encode_uint32 (slot_num val) val_buf 4;
    Ok (val_buf, RID_SIZE)
  else
    children ← INTERNAL_CHILDREN (values p);
    child ← vec_at children i;
    val_buf ← encode_uint32 child (zeros RID_SIZE) 0;
    Ok (val_buf, 4).

(** The body of the loop: the pair of index [i] goes below the pairs already
    written, its pointer after the pointers already written. *)
Definition serialize_kv (p : BTreePage) (i : Z) (st : list Z * Z * Z)
    : outcome (list Z * Z * Z) :=
  let '(data, available_space_start, available_space_end) := st in
  key ← vec_at (keys p) i;
  vs ← serialize_val p i;
  let '(val_buf, val_size) := vs in
  let kv_size := u16 (val_size + zlen key + 1) in
  let kv_start := u16 (available_space_end - kv_size) in
  data ← wr data kv_start (zlen key);
  data ← wr_bytes data (kv_start + 1) key;
  data ← wr_bytes data (kv_start + 1 + zlen key) (slice val_buf 0 val_size);
  data ← encode_uint16 kv_start data available_space_start;
  data ← encode_uint16 kv_size data (available_space_start + 2);
  Ok (data, u16 (available_space_start + TREE_KV_PTR_SIZE),
      u16 (available_space_end - kv_size)).

(** [while (--i >= 0)] from [i = keys.size()]. *)
Fixpoint serialize_kvs (p : BTreePage) (i : nat) (st : list Z * Z * Z)
    : outcome (list Z * Z * Z) :=
  match i with
  | O => Ok st
  | S i => st ← serialize_kv p (Z.of_nat i) st; serialize_kvs p i st
  end.

(** [data] is the content of the uninitialised array [new u8[PAGE_SIZE]]. *)
Definition serialize (p : BTreePage) (data : list Z) : outcome (list Z) :=
  st ← serialize_kvs p (length (keys p)) (data, INDEX_PAGE_HEADER_SIZE, PAGE_SIZE);
  let '(data, available_space_start, available_space_end) := st in
  data ← encode_uint16 available_space_start data AVAILABLE_SPACE_START_OFFSET;
  data ← encode_uint16 available_space_end data AVAILABLE_SPACE_END_OFFSET;
  data ← encode_uint32 (next p) data NEXT_PID_OFFSET;
  data ← encode_uint32 (rightmost_ptr p) data RIGHTMOST_PID_OFFSET;
  data ← wr data TREE_FLAGS_OFFSET (flags p);
  wr data IS_LEAF_OFFSET (if is_leaf p then 1 else 0).

(** *** [BTreePage::BTreePage(u8 data[PAGE_SIZE])] *)

Definition push_val (leaf : bool) (data : list Z) (cursor : Z) (vals : page_values)
    : outcome page_values :=
  if leaf then
    pid ← decode_uint32 data cursor;
    slot ← decode_uint32 data (cursor + 4);
    recs ← LEAF_RECORDS vals;
    Ok (LeafRecords (recs ++ [mkRID pid slot]))
  else
    child ← decode_uint32 data cursor;
    children ← INTERNAL_CHILDREN vals;
    Ok (InternalChildren (children ++ [child])).

(** The loop over the pairs. On an empty slot the code evaluates
    [is_leaf ? kv_pairs_cursor += RID_SIZE : TREE_KV_PTR_SIZE], which moves the
    cursor of a leaf only. *)
Fixpoint deserialize_kvs (fuel : nat) (leaf : bool) (data : list Z) (cursor : Z)
    (ks : list BTreeKey) (vals : page_values) : outcome (list BTreeKey * page_values) :=
  match fuel with
  | O => OutOfFuel
  | S fuel =>
      if cursor <? PAGE_SIZE then
        curr_key_len ← rd data cursor;
        if curr_key_len =? 0 then
          deserialize_kvs fuel leaf data
            (if leaf then u16 (cursor + RID_SIZE) else cursor) ks vals
        else
          key ← rd_bytes data (cursor + 1) curr_key_len;
          let cursor := u16 (cursor + 1 + curr_key_len) in
          vals ← push_val leaf data cursor vals;
          deserialize_kvs fuel leaf data
            (u16 (cursor + if leaf then RID_SIZE else TREE_KV_PTR_SIZE))
            (ks ++ [key]) vals
      else Ok (ks, vals)
  end.

Definition deserialize_fuel (fuel : nat) (data : list Z) : outcome BTreePage :=
  next ← decode_uint32 data NEXT_PID_OFFSET;
  rightmost ← decode_uint32 data RIGHTMOST_PID_OFFSET;
  flags ← rd data TREE_FLAGS_OFFSET;
  leaf ← decode_bool data IS_LEAF_OFFSET;
  cursor ← decode_uint16 data AVAILABLE_SPACE_END_OFFSET;
  kvs ← deserialize_kvs fuel leaf data cursor []
          (if leaf then LeafRecords [] else InternalChildren []);
  Ok (mkPage leaf kvs.1 flags rightmost next kvs.2).

(** Every pair takes at least one byte, so this budget is enough wherever the
    loop ends at all ([deserialize_fuel_enough] below). *)
Definition deserialize_budget : nat := Z.to_nat (PAGE_SIZE + 1).
Definition deserialize (data : list Z) : outcome BTreePage :=
  deserialize_fuel deserialize_budget data.

(** *** [BTreePage::insertIntoNode] *)

(** The shifting loop [for (int j = i; j < size - 1; j++)] on one of the two
    vectors: [n] iterations from [j]. *)
Fixpoint shift_right {A} (v : list A) (prev : A) (j : Z) (n : nat) : outcome (list A) :=
  match n with
  | O => Ok v
  | S n =>
      temp ← vec_at v (j + 2);
      v ← vec_set v (j + 2) prev;
      shift_right v temp (j + 1) n
  end.

(** [v.at(i + 1) = x] with the elements from [i + 1] on moved one to the
    right; [size] is the number of elements before the [resize]. *)
Definition insert_after {A} (v : list A) (x : A) (i size : Z) : outcome (list A) :=
  prev ← vec_at v (i + 1);
  v ← vec_set v (i + 1) x;
  shift_right v prev i (Z.to_nat (size - 1 - i)).

(** The search [for (uint16_t i = 0; i < size; i++)] of the middle case, [n]
    iterations from [i]; without a match the resized vectors stay as they are. *)
Fixpoint insert_middle {V} (ks : list BTreeKey) (vs : list V) (key : BTreeKey) (val : V)
    (i size : Z) (n : nat) : outcome (list BTreeKey * list V) :=
  match n with
  | O => Ok (ks, vs)
  | S n =>
      curr_key ← vec_at ks i;
      next_key ← vec_at ks (i + 1);
      if (0 <? cmpKeys key curr_key) && (cmpKeys key next_key <=? 0) then
        ks ← insert_after ks key i size;
        vs ← insert_after vs val i size;
        Ok (ks, vs)
      else insert_middle ks vs key val (i + 1) size n
  end.

Definition insert_kv `{VAL_T V} (ks : list BTreeKey) (vs : list V)
    (key : BTreeKey) (val : V) : outcome (list BTreeKey * list V) :=
  let size := u16 (zlen ks) in
  let ks := vec_resize ks (size + 1) [] in
  let vs := vec_resize vs (size + 1) val_default in
  first_key ← vec_at ks 0;
  last_key ← vec_at ks (if size =? 0 then size else size - 1);
  if 0 <=? cmpKeys key last_key then
    ks' ← vec_set ks (zlen ks - 1) key;
    vs' ← vec_set vs (zlen vs - 1) val;
    Ok (ks', vs')
  else if cmpKeys key first_key <=? 0 then
    Ok (key :: removelast ks, val :: removelast vs)
  else insert_middle ks vs key val 0 size (Z.to_nat size).

Definition insertIntoNode `{VAL_T V} (p : BTreePage) (key : BTreeKey) (val : V)
    : outcome BTreePage :=
  node_values ← get_values (values p);
  r ← insert_kv (keys p) node_values key val;
  Ok (mkPage (is_leaf p) r.1 (flags p) (rightmost_ptr p) (next p) (put_values r.2)).

(** ** The image of a node *)

(** The two value types of the template ([RID] in leaves, [u32] child
    pointers in internal nodes): their alternative of the variant, their bytes
    on disk, and what the two directions of the codec do with one value. *)
Class NodeValue (V : Type) `{VAL_T V} := {
  nv_bytes : V → list Z;
  nv_size : Z;
  nv_ok : V → Prop;
  nv_size_range : 0 ≤ nv_size ≤ 8;
  nv_bytes_size v : zlen (nv_bytes v) = nv_size;
  nv_get vs : get_values (put_values vs) = Ok vs;
  nv_empty : put_values [] = if val_is_leaf V then LeafRecords [] else InternalChildren [];
  nv_step : nv_size = if val_is_leaf V then RID_SIZE else TREE_KV_PTR_SIZE;
  nv_serialize p vs i v :
    is_leaf p = val_is_leaf V → values p = put_values vs → vs !! i = Some v →
    ∃ buf, serialize_val p (Z.of_nat i) = Ok (buf, nv_size)
      ∧ slice buf 0 nv_size = nv_bytes v;
  nv_push data cursor vs v :
    0 ≤ cursor → nv_ok v → slice data cursor nv_size = nv_bytes v →
    push_val (val_is_leaf V) data cursor (put_values vs) = Ok (put_values (vs ++ [v])) }.

Arguments nv_size V {_ _}.
Definition is_u32 (z : Z) : Prop := 0 ≤ z < 2 ^ 32.

Lemma u32_id z : is_u32 z → u32 z = z.
Proof. unfold is_u32, u32. intros. by rewrite Z.mod_small. Qed.

Lemma vec_at_lookup {A} (v : list A) (i : nat) a :
  v !! i = Some a → vec_at v (Z.of_nat i) = Ok a.
Proof.
  intros H. unfold vec_at. rewrite (proj2 (Z.ltb_ge _ _)) by lia.
  by rewrite Nat2Z.id, H.
Qed.

#[export] Program Instance RID_value : NodeValue RID := {|
  nv_bytes r := be32 (pid r) ++ be32 (slot_num r);
  nv_size := 8;
  nv_ok r := is_u32 (pid r) ∧ is_u32 (slot_num r) |}.
Next Obligation. lia. Qed.
Next Obligation. done. Qed.
Next Obligation. done. Qed.
Next Obligation. done. Qed.
Next Obligation. done. Qed.
Next Obligation.
  intros p vs i v Hl Hv Hi. unfold serialize_val. rewrite Hl, Hv. simpl.
  rewrite (vec_at_lookup _ _ _ Hi). simpl. eauto.
Qed.
Next Obligation.
  intros data cursor vs [pid slot] Hc [Hp Hs] Hb. cbn in *. unfold push_val.
  apply (slice_app_inv _ _ _ (be32 pid) (be32 slot)) in Hb as [H1 H2]; [|done..].
  autorewrite with buf in *. rewrite (decode_uint32_at pid _ cursor), u32_id by done.
  simpl. by rewrite (decode_uint32_at slot), u32_id by (done || lia).
Qed.

#[export] Program Instance child_value : NodeValue Z := {|
  nv_bytes := be32;
  nv_size := 4;
  nv_ok := is_u32 |}.
Next Obligation. lia. Qed.
Next Obligation. done. Qed.
Next Obligation. done. Qed.
Next Obligation. done. Qed.
Next Obligation. done. Qed.
Next Obligation.
  intros p vs i v Hl Hv Hi. unfold serialize_val. rewrite Hl, Hv. simpl.
  rewrite (vec_at_lookup _ _ _ Hi). simpl. eauto.
Qed.
Next Obligation.
  intros data cursor vs child Hc Hp Hb. cbn in *. unfold push_val.
  by rewrite (decode_uint32_at child), u32_id by done.
Qed.

(** A pair on disk: the length of the key, the key, the value. *)
Definition kv_bytes `{NodeValue V} (kv : BTreeKey * V) : list Z :=
  zlen kv.1 :: kv.1 ++ nv_bytes kv.2.
Definition kvs_bytes `{NodeValue V} (kvs : list (BTreeKey * V)) : list Z :=
  concat (kv_bytes <$> kvs).

(** The pointers of pairs laid out downwards from [end_], given in the order
    in which they are written. *)
Fixpoint slot_bytes `{NodeValue V} (kvs : list (BTreeKey * V)) (end_ : Z) : list Z :=
  match kvs with
  | [] => []
  | kv :: kvs =>
      be16 (end_ - zlen (kv_bytes kv)) ++ be16 (zlen (kv_bytes kv))
      ++ slot_bytes kvs (end_ - zlen (kv_bytes kv))
  end.

(** A key whose length fits the [u8] before it; the reader also needs it to be
    nonempty. *)
Definition key_fits (k : BTreeKey) : Prop := zlen k < 256.
Definition key_nonempty (k : BTreeKey) : Prop := 1 ≤ zlen k.

(** A node whose image fits a page, with the values [vs]: there may be more
    values than keys (an internal node after a split). *)
Record page_wf `{NodeValue V} (p : BTreePage) (vs : list V) : Prop := {
  wf_leaf : is_leaf p = val_is_leaf V;
  wf_values : values p = put_values vs;
  wf_length : (length (keys p) ≤ length vs)%nat;
  wf_keys : Forall key_fits (keys p);
  wf_vals : Forall nv_ok vs;
  wf_flags : is_byte (flags p);
  wf_rightmost : is_u32 (rightmost_ptr p);
  wf_next : is_u32 (next p);
  wf_fits : INDEX_PAGE_HEADER_SIZE + TREE_KV_PTR_SIZE * zlen (keys p)
            + zlen (kvs_bytes (zip (keys p) vs)) ≤ PAGE_SIZE }.

(** An internal page never gets past an empty slot. *)
Lemma deserialize_kvs_stuck data cursor ks vals fuel :
  cursor < PAGE_SIZE → rd data cursor = Ok 0 →
  deserialize_kvs fuel false data cursor ks vals = OutOfFuel.
Proof.
  intros Hc Hr. induction fuel as [|fuel IH]; [done|].
  cbn [deserialize_kvs]. rewrite (proj2 (Z.ltb_lt _ _)), Hr by done. exact IH.
Qed.

Section image.
Context `{!VAL_T V, !NodeValue V}.
Implicit Types (kv : BTreeKey * V) (kvs : list (BTreeKey * V)).

Lemma zlen_kv_bytes kv : zlen (kv_bytes kv) = 1 + zlen kv.1 + nv_size V.
Proof. unfold kv_bytes. autorewrite with buf. rewrite nv_bytes_size. lia. Qed.

Lemma kvs_bytes_cons kv kvs : kvs_bytes (kv :: kvs) = kv_bytes kv ++ kvs_bytes kvs.
Proof. done. Qed.

Lemma kvs_bytes_app kvs1 kvs2 : kvs_bytes (kvs1 ++ kvs2) = kvs_bytes kvs1 ++ kvs_bytes kvs2.
Proof. unfold kvs_bytes. by rewrite fmap_app, concat_app. Qed.

(** One iteration of the writing loop. *)
Lemma serialize_kv_ok p vs i k v data start end_ :
  is_leaf p = val_is_leaf V → values p = put_values vs →
  keys p !! i = Some k → vs !! i = Some v → key_fits k →
  zlen data = PAGE_SIZE → 0 ≤ start → end_ ≤ PAGE_SIZE →
  start + TREE_KV_PTR_SIZE + zlen (kv_bytes (k, v)) ≤ end_ →
  let size := zlen (kv_bytes (k, v)) in
  serialize_kv p (Z.of_nat i) (data, start, end_)
  = Ok (splice (splice data (end_ - size) (kv_bytes (k, v)))
          start (be16 (end_ - size) ++ be16 size),
        start + TREE_KV_PTR_SIZE, end_ - size).
Proof.
  intros Hl Hv Hk Hvs Hok Hd Hs He Hfit size. unfold serialize_kv.
  rewrite (vec_at_lookup _ _ _ Hk). simpl.
  destruct (nv_serialize p vs i v Hl Hv Hvs) as (buf & -> & Hbuf). simpl.
  pose proof (nv_size_range (V:=V)). pose proof (zlen_kv_bytes (k, v)) as Hz. simpl in Hz.
  pose proof (nv_bytes_size v). pose proof (zlen_nonneg k). unfold key_fits, PAGE_SIZE, TREE_KV_PTR_SIZE in *.
  unfold u16. replace (nv_size V + zlen k + 1) with size by (unfold size; lia).
  rewrite !(Z.mod_small size), !(Z.mod_small (end_ - size)), (Z.mod_small (start + 4))
    by (unfold size; lia).
  rewrite wr_ok by (unfold size; lia). simpl. rewrite Hbuf.
  rewrite wr_bytes_ok by (rewrite ?zlen_splice; autorewrite with buf; unfold size; lia).
  simpl. rewrite (splice_adj data (end_ - size) _ [zlen k] k)
    by (autorewrite with buf; unfold size; lia).
  rewrite wr_bytes_ok by (rewrite ?zlen_splice; autorewrite with buf; unfold size; lia).
  rewrite (splice_adj data (end_ - size) _ ([zlen k] ++ k))
    by (autorewrite with buf; unfold size; lia).
  rewrite <- app_assoc. change (_ ++ _) with (kv_bytes (k, v)). simpl.
  rewrite encode_uint16_ok by (rewrite ?zlen_splice; unfold size; lia). simpl.
  rewrite encode_uint16_ok
    by (rewrite ?zlen_splice; autorewrite with buf; rewrite ?zlen_splice; unfold size; lia).
  simpl. rewrite (splice_adj _ start _ (be16 _) (be16 _))
    by (rewrite ?zlen_splice; autorewrite with buf; unfold size; lia).
  done.
Qed.
(** What the two writes of an iteration do to the pairs and to the pointers. *)
Lemma serialize_kv_data data start end_ kv :
  let size := zlen (kv_bytes kv) in
  let data' := splice (splice data (end_ - size) (kv_bytes kv))
                 start (be16 (end_ - size) ++ be16 size) in
  zlen data = PAGE_SIZE → INDEX_PAGE_HEADER_SIZE ≤ start → end_ ≤ PAGE_SIZE →
  start + TREE_KV_PTR_SIZE + size ≤ end_ →
  zlen data' = PAGE_SIZE ∧
  slice data' (end_ - size) (PAGE_SIZE - (end_ - size))
    = kv_bytes kv ++ slice data end_ (PAGE_SIZE - end_) ∧
  slice data' INDEX_PAGE_HEADER_SIZE (start + TREE_KV_PTR_SIZE - INDEX_PAGE_HEADER_SIZE)
    = slice data INDEX_PAGE_HEADER_SIZE (start - INDEX_PAGE_HEADER_SIZE)
      ++ be16 (end_ - size) ++ be16 size.
Proof.
  intros size data' Hd Hs He Hfit.
  unfold PAGE_SIZE, TREE_KV_PTR_SIZE in *. change INDEX_PAGE_HEADER_SIZE with 26 in *.
  assert (0 ≤ size) by apply zlen_nonneg.
  assert (zlen (be16 (end_ - size) ++ be16 size) = 4) as H4 by done.
  assert (zlen (splice data (end_ - size) (kv_bytes kv)) = 4096) as H1.
  { by rewrite zlen_splice by (unfold size in *; lia). }
  unfold data'. split_and!.
  - rewrite zlen_splice; lia.
  - rewrite slice_splice_other by lia.
    replace (4096 - (end_ - size)) with (size + (4096 - end_)) by lia.
    rewrite slice_app, slice_splice_same by (unfold size in *; lia). f_equal.
    rewrite slice_splice_other by (unfold size in *; lia). f_equal; lia.
  - replace (start + 4 - 26) with ((start - 26) + 4) by lia.
    rewrite slice_app by lia. replace (26 + (start - 26)) with start by lia.
    rewrite (slice_splice_same _ start) by lia. f_equal.
    by rewrite !slice_splice_other by (unfold size in *; lia).
Qed.

Lemma serialize_kvs_ok p vs n data start end_ :
  is_leaf p = val_is_leaf V → values p = put_values vs →
  (n ≤ length (keys p))%nat → (length (keys p) ≤ length vs)%nat →
  Forall key_fits (keys p) →
  let kvs := take n (zip (keys p) vs) in
  let low := end_ - zlen (kvs_bytes kvs) in
  let high := start + TREE_KV_PTR_SIZE * Z.of_nat n in
  zlen data = PAGE_SIZE → INDEX_PAGE_HEADER_SIZE ≤ start → end_ ≤ PAGE_SIZE →
  high ≤ low →
  ∃ data', serialize_kvs p n (data, start, end_) = Ok (data', high, low)
    ∧ zlen data' = PAGE_SIZE
    ∧ slice data' low (PAGE_SIZE - low) = kvs_bytes kvs ++ slice data end_ (PAGE_SIZE - end_)
    ∧ slice data' INDEX_PAGE_HEADER_SIZE (high - INDEX_PAGE_HEADER_SIZE)
      = slice data INDEX_PAGE_HEADER_SIZE (start - INDEX_PAGE_HEADER_SIZE)
        ++ slot_bytes (reverse kvs) end_.
Proof.
  intros Hl Hv Hn Hlen Hok. revert data start end_ Hn.
  induction n as [|n IH]; intros data start end_ Hn kvs low high Hd Hs He Hfit.
  { assert (low = end_) as -> by apply Z.sub_0_r.
    assert (high = start) as -> by (unfold high; lia).
    exists data. unfold kvs. simpl. by rewrite app_nil_r. }
  destruct (lookup_lt_is_Some_2 (keys p) n) as [k Hk]; [lia|].
  destruct (lookup_lt_is_Some_2 vs n) as [v Hvn]; [lia|].
  assert (zip (keys p) vs !! n = Some (k, v)) as Hkv.
  { by apply lookup_zip_with_Some; eauto. }
  assert (key_fits k) as Hkok by (by eapply Forall_lookup_1).
  assert (kvs = take n (zip (keys p) vs) ++ [(k, v)]) as Hkvs by (by apply take_S_r).
  unfold low, high in *. clear low high. rewrite Hkvs, kvs_bytes_app in *.
  change (kvs_bytes [(k, v)]) with (kv_bytes (k, v) ++ []) in *.
  rewrite app_nil_r, zlen_app in *. clear kvs Hkvs.
  set (kvs := take n (zip (keys p) vs)) in *. set (size := zlen (kv_bytes (k, v))) in *.
  assert (0 ≤ size) by apply zlen_nonneg.
  pose proof (zlen_nonneg (kvs_bytes kvs)). unfold TREE_KV_PTR_SIZE in *.
  destruct (serialize_kv_data data start end_ (k, v)) as (Hd1 & Hp1 & Hs1);
    [done|done|done|unfold TREE_KV_PTR_SIZE, size in *; lia|].
  cbn [serialize_kvs]. erewrite serialize_kv_ok; try done;
    [|change INDEX_PAGE_HEADER_SIZE with 26 in *; lia
     |unfold TREE_KV_PTR_SIZE, size in *; lia].
  cbn [mbind outcome_bind]. fold size in Hd1, Hp1, Hs1 |- *.
  edestruct (IH _ (start + TREE_KV_PTR_SIZE) (end_ - size) ltac:(lia) Hd1) as (data' & -> & Hd' & Hp' & Hs');
    [unfold TREE_KV_PTR_SIZE; lia..|]. unfold TREE_KV_PTR_SIZE in *.
  exists data'. split_and!; [do 2 f_equal; [f_equal|]; lia|done|..].
  - replace (end_ - (zlen (kvs_bytes kvs) + size))
      with (end_ - size - zlen (kvs_bytes kvs)) by lia.
    by rewrite Hp', Hp1, app_assoc.
  - replace (start + 4 * Z.of_nat (S n)) with (start + 4 + 4 * Z.of_nat n) by lia.
    rewrite Hs', Hs1, reverse_app. cbn [reverse rev_append app slot_bytes]. fold size. by rewrite <- !app_assoc.
Qed.
(** The header is written below the pointers, so it disturbs neither area. *)
Record header_of (buf : list Z) (p : BTreePage) (start end_ : Z) : Prop := {
  hdr_start : slice buf AVAILABLE_SPACE_START_OFFSET 2 = be16 start;
  hdr_end : slice buf AVAILABLE_SPACE_END_OFFSET 2 = be16 end_;
  hdr_next : slice buf NEXT_PID_OFFSET 4 = be32 (next p);
  hdr_rightmost : slice buf RIGHTMOST_PID_OFFSET 4 = be32 (rightmost_ptr p);
  hdr_flags : rd buf TREE_FLAGS_OFFSET = Ok (flags p);
  hdr_leaf : rd buf IS_LEAF_OFFSET = Ok (if is_leaf p then 1 else 0) }.

Lemma write_header_ok p data start end_ :
  zlen data = PAGE_SIZE →
  ∃ buf,
    (data ← encode_uint16 start data AVAILABLE_SPACE_START_OFFSET;
     data ← encode_uint16 end_ data AVAILABLE_SPACE_END_OFFSET;
     data ← encode_uint32 (next p) data NEXT_PID_OFFSET;
     data ← encode_uint32 (rightmost_ptr p) data RIGHTMOST_PID_OFFSET;
     data ← wr data TREE_FLAGS_OFFSET (flags p);
     wr data IS_LEAF_OFFSET (if is_leaf p then 1 else 0)) = Ok buf
    ∧ zlen buf = PAGE_SIZE ∧ header_of buf p start end_
    ∧ ∀ off len, INDEX_PAGE_HEADER_SIZE ≤ off → 0 ≤ len →
        slice buf off len = slice data off len.
Proof.
  unfold PAGE_SIZE. change INDEX_PAGE_HEADER_SIZE with 26.
  change AVAILABLE_SPACE_START_OFFSET with 0. change AVAILABLE_SPACE_END_OFFSET with 2.
  change NEXT_PID_OFFSET with 4. change RIGHTMOST_PID_OFFSET with 8.
  change TREE_FLAGS_OFFSET with 12. change IS_LEAF_OFFSET with 13. intros Hd.
  rewrite encode_uint16_ok by blen. cbn [mbind outcome_bind].
  rewrite encode_uint16_ok by blen. cbn [mbind outcome_bind].
  rewrite encode_uint32_ok by blen. cbn [mbind outcome_bind].
  rewrite encode_uint32_ok by blen. cbn [mbind outcome_bind].
  rewrite wr_ok by blen. cbn [mbind outcome_bind]. rewrite wr_ok by blen.
  eexists. split; [done|]. split; [blen|]. split; [constructor|].
  1-4: by bslice.
  1-2: apply rd_slice; [done|]; by bslice.
  intros off len Ho Hlen. by bslice.
Qed.

(** The image of a well-formed node: header, pairs from the last one down,
    and their pointers. *)
Lemma serialize_image p vs data :
  page_wf p vs → zlen data = PAGE_SIZE →
  let kvs := zip (keys p) vs in
  let end_ := PAGE_SIZE - zlen (kvs_bytes kvs) in
  let start := INDEX_PAGE_HEADER_SIZE + TREE_KV_PTR_SIZE * zlen (keys p) in
  ∃ buf, serialize p data = Ok buf ∧ zlen buf = PAGE_SIZE ∧ header_of buf p start end_
    ∧ slice buf end_ (zlen (kvs_bytes kvs)) = kvs_bytes kvs
    ∧ slice buf INDEX_PAGE_HEADER_SIZE (TREE_KV_PTR_SIZE * zlen (keys p))
      = slot_bytes (reverse kvs) PAGE_SIZE.
Proof.
  intros [Hl Hv Hlen Hok _ _ _ _ Hfit] Hd kvs end_ start.
  assert (take (length (keys p)) (zip (keys p) vs) = kvs) as Htake.
  { apply take_ge. unfold kvs. rewrite length_zip_with. lia. }
  pose proof (zlen_nonneg (kvs_bytes kvs)). pose proof (zlen_nonneg (keys p)).
  destruct (serialize_kvs_ok p vs (length (keys p)) data INDEX_PAGE_HEADER_SIZE PAGE_SIZE)
    as (d1 & Hser & Hd1 & Hp1 & Hs1); try done.
  { rewrite Htake. fold kvs in Hfit. unfold zlen in Hfit at 1. lia. }
  rewrite Htake in *. change (Z.of_nat (length (keys p))) with (zlen (keys p)) in *.
  fold start end_ in Hser, Hp1, Hs1. unfold serialize. rewrite Hser.
  cbn [mbind outcome_bind].
  destruct (write_header_ok p d1 start end_ Hd1) as (buf & -> & Hb & Hh & Hout).
  exists buf. change INDEX_PAGE_HEADER_SIZE with 26 in *.
  unfold TREE_KV_PTR_SIZE, PAGE_SIZE in *. fold kvs in Hfit. split_and!; [done..| |].
  - rewrite Hout by (unfold end_; lia). replace (zlen (kvs_bytes kvs)) with (4096 - end_) by
      (unfold end_; lia).
    rewrite Hp1. apply app_nil_r.
  - rewrite Hout by lia. replace (4 * zlen (keys p)) with (start - 26) by (unfold start; lia).
    rewrite Hs1. done.
Qed.
(** One iteration of the reading loop on a pair with a nonempty key. *)
Lemma deserialize_kvs_step k v kvs fuel data cursor ks vs :
  key_fits k → key_nonempty k → nv_ok v → zlen data = PAGE_SIZE → 0 ≤ cursor →
  cursor + zlen (kvs_bytes ((k, v) :: kvs)) = PAGE_SIZE →
  slice data cursor (zlen (kvs_bytes ((k, v) :: kvs))) = kvs_bytes ((k, v) :: kvs) →
  let cursor' := cursor + zlen (kv_bytes (k, v)) in
  deserialize_kvs (S fuel) (val_is_leaf V) data cursor ks (put_values vs)
  = deserialize_kvs fuel (val_is_leaf V) data cursor' (ks ++ [k]) (put_values (vs ++ [v]))
  ∧ slice data cursor' (zlen (kvs_bytes kvs)) = kvs_bytes kvs.
Proof.
  intros Hk Hne Hv Hd Hc He Hs cursor'. unfold key_fits, key_nonempty in *.
  rewrite kvs_bytes_cons in *. autorewrite with buf in *.
  apply slice_app_inv in Hs as [Hkv Hs]; [|done|done]. split; [|done].
  pose proof (zlen_kv_bytes (k, v)) as Hsz. cbn [fst] in Hsz.
  pose proof (zlen_nonneg (kvs_bytes kvs)). pose proof (nv_size_range (V:=V)). unfold PAGE_SIZE in *.
  unfold kv_bytes in Hkv at 2. cbn [fst snd] in Hkv. rewrite app_comm_cons in Hkv.
  apply slice_app_inv in Hkv as [Hkv Hvb]; [|done|].
  2:{ rewrite zlen_kv_bytes, nv_bytes_size. autorewrite with buf. cbn [fst]. lia. }
  apply (slice_app_inv _ _ _ [zlen k] k) in Hkv as [Hlen Hkey]; [|done|by autorewrite with buf].
  autorewrite with buf in *. rewrite nv_bytes_size in Hvb.
  cbn [deserialize_kvs]. unfold PAGE_SIZE. rewrite (proj2 (Z.ltb_lt _ _)) by lia.
  rewrite (rd_slice _ _ (zlen k)) by done. cbn [mbind outcome_bind].
  rewrite (proj2 (Z.eqb_neq _ _)) by lia.
  rewrite rd_bytes_ok by lia. cbn [mbind outcome_bind].
  replace (cursor + (1 + 0)) with (cursor + 1) in Hkey by lia. rewrite Hkey.
  unfold u16. rewrite (Z.mod_small (cursor + 1 + zlen k)) by lia.
  replace (cursor + (1 + zlen k)) with (cursor + 1 + zlen k) in Hvb by lia.
  rewrite (nv_push _ _ vs v) by (done || lia). cbn [mbind outcome_bind].
  rewrite <- nv_step, Z.mod_small by lia. f_equal. unfold cursor'. lia.
Qed.

(** The reader recovers the pairs that fill the page from [cursor] on. *)
Lemma deserialize_kvs_ok kvs fuel data cursor ks vs :
  (length kvs < fuel)%nat → Forall key_fits kvs.*1 → Forall key_nonempty kvs.*1 →
  Forall nv_ok kvs.*2 → zlen data = PAGE_SIZE → 0 ≤ cursor →
  cursor + zlen (kvs_bytes kvs) = PAGE_SIZE →
  slice data cursor (zlen (kvs_bytes kvs)) = kvs_bytes kvs →
  deserialize_kvs fuel (val_is_leaf V) data cursor ks (put_values vs)
  = Ok (ks ++ kvs.*1, put_values (vs ++ kvs.*2)).
Proof.
  intros Hf Hk Hne Hv Hd. revert fuel cursor ks vs Hf.
  induction kvs as [|[k v] kvs IH]; intros fuel cursor ks vs Hf Hc He Hs.
  { destruct fuel; [lia|]. simpl. rewrite (proj2 (Z.ltb_ge _ _)).
    - by rewrite !app_nil_r.
    - change (zlen (kvs_bytes [])) with 0 in He. lia. }
  destruct fuel as [|fuel]; [simpl in Hf; lia|].
  apply Forall_cons in Hk as [Hk1 Hk], Hne as [Hne1 Hne], Hv as [Hv1 Hv].
  destruct (deserialize_kvs_step k v kvs fuel data cursor ks vs) as [-> Hs']; try done.
  pose proof (zlen_nonneg (kv_bytes (k, v))). rewrite kvs_bytes_cons, zlen_app in He.
  rewrite IH; [by rewrite <- !app_assoc|done..|simpl in Hf; lia|lia|lia|done].
Qed.

(** Pairs one of which has an empty key stop an internal page for good. *)
Lemma deserialize_kvs_empty kvs fuel data cursor ks vs :
  (val_is_leaf V) = false → Forall key_fits kvs.*1 → [] ∈ kvs.*1 →
  Forall nv_ok kvs.*2 → zlen data = PAGE_SIZE → 0 ≤ cursor →
  cursor + zlen (kvs_bytes kvs) = PAGE_SIZE →
  slice data cursor (zlen (kvs_bytes kvs)) = kvs_bytes kvs →
  deserialize_kvs fuel (val_is_leaf V) data cursor ks (put_values vs) = OutOfFuel.
Proof.
  intros Hleaf Hk He Hv Hd. revert fuel cursor ks vs.
  induction kvs as [|[k v] kvs IH]; intros fuel cursor ks vs Hc Hend Hs; [set_solver|].
  apply Forall_cons in Hk as [Hk1 Hk], Hv as [Hv1 Hv].
  pose proof (zlen_kv_bytes (k, v)) as Hsz. cbn [fst] in Hsz.
  pose proof (zlen_nonneg k). pose proof (zlen_nonneg (kvs_bytes kvs)).
  pose proof (nv_size_range (V:=V)).
  destruct k as [|b k].
  - rewrite Hleaf. apply deserialize_kvs_stuck.
    + rewrite kvs_bytes_cons, zlen_app in Hend. lia.
    + apply rd_slice; [done|]. rewrite kvs_bytes_cons in Hs.
      change (kv_bytes ([], v)) with ([0] ++ nv_bytes v) in Hs. rewrite <- app_assoc in Hs.
      by apply slice_app_inv in Hs as [Hs _]; [|done|by rewrite zlen_app].
  - destruct fuel as [|fuel]; [done|].
    destruct (deserialize_kvs_step (b :: k) v kvs fuel data cursor ks vs) as [-> Hs']; try done.
    { unfold key_nonempty. rewrite zlen_cons. pose proof (zlen_nonneg k). lia. }
    rewrite kvs_bytes_cons, zlen_app in Hend.
    apply elem_of_cons in He as [He|He]; [done|]. by apply IH; try lia.
Qed.
End image.

Lemma snd_zip_take {A B} (l : list A) (k : list B) :
  (length l ≤ length k)%nat → (zip l k).*2 = take (length l) k.
Proof.
  revert k. induction l as [|a l IH]; intros [|b k] Hlen; simpl in *; try lia; [done|done|].
  f_equal. auto with lia.
Qed.

(** Reading the header of an image leaves the loop over the pairs. *)
Lemma deserialize_header buf p start end_ fuel :
  header_of buf p start end_ → is_u32 (next p) → is_u32 (rightmost_ptr p) →
  0 ≤ end_ < 2 ^ 16 →
  deserialize_fuel fuel buf
  = (kvs ← deserialize_kvs fuel (is_leaf p) buf end_ []
             (if is_leaf p then LeafRecords [] else InternalChildren []);
     Ok (mkPage (is_leaf p) kvs.1 (flags p) (rightmost_ptr p) (next p) kvs.2)).
Proof.
  intros [_ He Hnx Hrm Hf Hlf] Hn Hr Hend. unfold deserialize_fuel.
  rewrite (decode_uint32_at (next p) buf NEXT_PID_OFFSET), u32_id by done.
  cbn [mbind outcome_bind].
  rewrite (decode_uint32_at (rightmost_ptr p) buf RIGHTMOST_PID_OFFSET), u32_id by done.
  cbn [mbind outcome_bind]. rewrite Hf. cbn [mbind outcome_bind].
  unfold decode_bool. rewrite Hlf. cbn [mbind outcome_bind].
  rewrite (decode_uint16_at end_ buf AVAILABLE_SPACE_END_OFFSET) by done.
  cbn [mbind outcome_bind]. unfold u16. rewrite Z.mod_small by lia.
  by assert (∀ b : bool, negb ((if b then 1 else 0) =? 0) = b) as -> by (by intros []).
Qed.

Lemma deserialize_image `{NodeValue V} p (vs : list V) buf start fuel :
  page_wf p vs → Forall key_nonempty (keys p) → zlen buf = PAGE_SIZE →
  let kvs := zip (keys p) vs in
  header_of buf p start (PAGE_SIZE - zlen (kvs_bytes kvs)) →
  slice buf (PAGE_SIZE - zlen (kvs_bytes kvs)) (zlen (kvs_bytes kvs)) = kvs_bytes kvs →
  (length (keys p) < fuel)%nat →
  deserialize_fuel fuel buf
  = Ok (mkPage (is_leaf p) (keys p) (flags p) (rightmost_ptr p) (next p)
          (put_values (take (length (keys p)) vs))).
Proof.
  intros [Hl Hv Hlen Hok Hvs Hfl Hr Hn Hfit] Hne Hb kvs Hh Hp Hfuel.
  fold kvs in Hfit. pose proof (zlen_nonneg (kvs_bytes kvs)).
  pose proof (zlen_nonneg (keys p)). change INDEX_PAGE_HEADER_SIZE with 26 in *.
  unfold TREE_KV_PTR_SIZE, PAGE_SIZE in *.
  assert (kvs.*1 = keys p) as Hk1 by (by apply fst_zip).
  assert (kvs.*2 = take (length (keys p)) vs) as Hk2 by (by apply snd_zip_take).
  rewrite (deserialize_header _ _ _ _ _ Hh Hn Hr) by lia.
  rewrite Hl, <- nv_empty, (deserialize_kvs_ok kvs); unfold PAGE_SIZE; try (done || lia).
  - simpl. by rewrite Hk1, Hk2.
  - by rewrite <- (length_fmap fst), Hk1.
  - by rewrite Hk1.
  - by rewrite Hk1.
  - rewrite Hk2. by apply Forall_take.
Qed.

(** A page has room for fewer keys than the reading loop has fuel. *)
Lemma page_wf_budget `{NodeValue V} p (vs : list V) :
  page_wf p vs → (length (keys p) < deserialize_budget)%nat.
Proof.
  intros [_ _ _ _ _ _ _ _ Hfit]. pose proof (zlen_nonneg (kvs_bytes (zip (keys p) vs))).
  change INDEX_PAGE_HEADER_SIZE with 26 in *. unfold TREE_KV_PTR_SIZE, PAGE_SIZE, zlen in *.
  unfold deserialize_budget, PAGE_SIZE. lia.
Qed.

(** ** The pointers of the pairs *)

Section slots.
Context `{!VAL_T V, !NodeValue V}.
Implicit Types (kvs res : list (BTreeKey * V)).

Lemma zlen_slot_bytes res e : zlen (slot_bytes res e) = TREE_KV_PTR_SIZE * zlen res.
Proof.
  revert e. induction res as [|kv res IH]; intros e; [done|].
  cbn [slot_bytes]. autorewrite with buf. rewrite IH. unfold TREE_KV_PTR_SIZE. lia.
Qed.

Lemma slot_bytes_app res1 res2 e :
  slot_bytes (res1 ++ res2) e
  = slot_bytes res1 e ++ slot_bytes res2 (e - zlen (kvs_bytes res1)).
Proof.
  revert e. induction res1 as [|kv res1 IH]; intros e.
  - cbn [app slot_bytes]. f_equal. change (zlen (kvs_bytes [])) with 0. lia.
  - cbn [app slot_bytes]. rewrite IH, kvs_bytes_cons, zlen_app, <- !app_assoc.
    do 3 f_equal. f_equal. lia.
Qed.

Lemma zlen_kvs_bytes_reverse kvs : zlen (kvs_bytes (reverse kvs)) = zlen (kvs_bytes kvs).
Proof.
  induction kvs as [|kv kvs IH]; [done|].
  rewrite reverse_cons, kvs_bytes_app, !kvs_bytes_cons, !zlen_app, IH.
  change (zlen (kvs_bytes [])) with 0. lia.
Qed.
Lemma kvs_bytes_split kvs i kv :
  kvs !! i = Some kv →
  kvs_bytes kvs = kvs_bytes (take i kvs) ++ kv_bytes kv ++ kvs_bytes (drop (S i) kvs).
Proof.
  intros Hkv. by rewrite <- kvs_bytes_cons, <- kvs_bytes_app, (take_drop_middle _ _ _ Hkv).
Qed.

(** The bytes of pair [i] in an area that holds all the pairs. *)
Lemma slice_kv kvs i kv buf base :
  kvs !! i = Some kv → 0 ≤ base →
  slice buf base (zlen (kvs_bytes kvs)) = kvs_bytes kvs →
  slice buf (base + zlen (kvs_bytes (take i kvs))) (zlen (kv_bytes kv)) = kv_bytes kv.
Proof.
  intros Hkv Hb Hp. rewrite (kvs_bytes_split _ _ _ Hkv) in Hp.
  pose proof (zlen_nonneg (kvs_bytes (take i kvs))).
  apply slice_app_inv in Hp as [_ Hp]; [|lia|by rewrite zlen_app].
  by apply slice_app_inv in Hp as [Hp _]; [|lia|by rewrite zlen_app].
Qed.

(** The pointer of pair [i] in the pointer area. *)
Lemma slice_slot kvs i kv buf base end_ :
  kvs !! i = Some kv → 0 ≤ base →
  slice buf base (TREE_KV_PTR_SIZE * zlen kvs) = slot_bytes (reverse kvs) end_ →
  slice buf (base + TREE_KV_PTR_SIZE * (zlen kvs - 1 - Z.of_nat i)) TREE_KV_PTR_SIZE
  = be16 (end_ - zlen (kvs_bytes (drop (S i) kvs)) - zlen (kv_bytes kv))
    ++ be16 (zlen (kv_bytes kv)).
Proof.
  intros Hkv Hb Hs. pose proof (take_drop_middle _ _ _ Hkv) as Hsplit.
  set (post := drop (S i) kvs) in *.
  assert (zlen (reverse post) = zlen kvs - 1 - Z.of_nat i) as Hpost.
  { apply lookup_lt_Some in Hkv. unfold zlen, post. rewrite length_reverse, length_drop. lia. }
  rewrite <- Hsplit, reverse_app, reverse_cons, !slot_bytes_app, zlen_kvs_bytes_reverse in Hs.
  rewrite Hsplit in Hs.
  apply slice_app_inv in Hs as [Hs _]; [|lia|].
  - apply slice_app_inv in Hs as [_ Hs]; [|lia|by rewrite zlen_app].
    rewrite !zlen_slot_bytes, Hpost in Hs. cbn [slot_bytes] in Hs.
    rewrite app_nil_r in Hs. exact Hs.
  - rewrite !zlen_app, !zlen_slot_bytes, Hpost. apply lookup_lt_Some in Hkv.
    unfold zlen, TREE_KV_PTR_SIZE. rewrite length_reverse, length_take. simpl. lia.
Qed.
End slots.

(** ** Termination of the reading loop *)

Lemma rd_fuel buf off : rd buf off ≠ OutOfFuel.
Proof. unfold rd. by repeat case_match. Qed.

Lemma decode_uint32_fuel buf off : decode_uint32 buf off ≠ OutOfFuel.
Proof.
  unfold decode_uint32.
  repeat (match goal with |- context [rd ?b ?o] =>
    pose proof (rd_fuel b o); destruct (rd b o); cbn; try done end).
Qed.

Lemma push_val_fuel leaf data cursor vals : push_val leaf data cursor vals ≠ OutOfFuel.
Proof.
  pose proof (decode_uint32_fuel data cursor). pose proof (decode_uint32_fuel data (cursor + 4)).
  unfold push_val. destruct leaf, vals, (decode_uint32 data cursor), (decode_uint32 data (cursor + 4));
    done.
Qed.

(** On a page of bytes, from a cursor in the page, the loop either never ends
    (whatever the budget) or needs no more steps than there are bytes left; on
    a leaf it always ends. *)
Lemma deserialize_kvs_ends leaf data :
  Forall is_byte data →
  ∀ n cursor ks vals, 0 ≤ cursor → PAGE_SIZE - cursor < Z.of_nat n → (0 < n)%nat →
  deserialize_kvs n leaf data cursor ks vals ≠ OutOfFuel ∨
  (leaf = false ∧ ∀ fuel, deserialize_kvs fuel leaf data cursor ks vals = OutOfFuel).
Proof.
  intros Hb. induction n as [|n IH]; intros cursor ks vals Hc Hn Hpos; [lia|].
  cbn [deserialize_kvs]. destruct (cursor <? PAGE_SIZE) eqn:Hlt; [|by left].
  apply Z.ltb_lt in Hlt. unfold PAGE_SIZE in *.
  destruct (rd data cursor) as [len| | | |] eqn:Hrd; try (by left).
  2:{ by apply rd_fuel in Hrd. }
  pose proof (rd_byte _ _ _ Hb Hrd) as Hlen. unfold is_byte in Hlen. cbn [mbind outcome_bind].
  destruct (len =? 0) eqn:Hz.
  { apply Z.eqb_eq in Hz as ->. destruct leaf.
    - unfold u16, RID_SIZE. rewrite Z.mod_small by lia.
      destruct (IH (cursor + 8) ks vals) as [?|[? _]]; auto; lia.
    - right. split; [done|]. intros. by apply deserialize_kvs_stuck. }
  apply Z.eqb_neq in Hz.
  destruct (rd_bytes data (cursor + 1) len) as [key| | | |] eqn:Hkey; try (by left).
  2:{ unfold rd_bytes in Hkey. by case_match. }
  cbn [mbind outcome_bind]. unfold u16. rewrite (Z.mod_small (cursor + 1 + len)) by lia.
  destruct (push_val leaf data (cursor + 1 + len) vals) as [vals'| | | |] eqn:Hpush; try (by left).
  2:{ by apply push_val_fuel in Hpush. }
  cbn [mbind outcome_bind].
  set (step := if leaf then RID_SIZE else TREE_KV_PTR_SIZE).
  assert (4 ≤ step ≤ 8) by (unfold step, RID_SIZE, TREE_KV_PTR_SIZE; destruct leaf; lia).
  rewrite Z.mod_small by lia.
  destruct (IH (cursor + 1 + len + step) (ks ++ [key]) vals') as [?|[-> Hall]]; [lia..|by left|].
  right. split; [done|]. intros [|fuel]; [done|]. cbn [deserialize_kvs]. unfold PAGE_SIZE.
  rewrite (proj2 (Z.ltb_lt _ _)), Hrd by lia. cbn [mbind outcome_bind].
  rewrite (proj2 (Z.eqb_neq _ _)), Hkey by done. cbn [mbind outcome_bind]. unfold u16.
  rewrite (Z.mod_small (cursor + 1 + len)) by lia. rewrite Hpush. cbn [mbind outcome_bind].
  fold step. rewrite Z.mod_small by lia. apply Hall.
Qed.

(** ** Properties: the codec *)

Lemma serialize_deserialize_ok `{NodeValue V} p (vs : list V) data :
  page_wf p vs → Forall key_nonempty (keys p) → zlen data = PAGE_SIZE →
  ∃ buf, serialize p data = Ok buf ∧ zlen buf = PAGE_SIZE ∧
    deserialize buf = Ok (mkPage (is_leaf p) (keys p) (flags p) (rightmost_ptr p) (next p)
                            (put_values (take (length (keys p)) vs))).
Proof.
  intros Hwf Hne Hd. destruct (serialize_image p vs data Hwf Hd) as (buf & -> & Hb & Hh & Hp & _).
  exists buf. split_and!; [done..|]. eapply deserialize_image; try done.
  by eapply page_wf_budget.
Qed.

(** C14: round trip of a node through its page: for every well-formed node
    whose keys are not empty, serialising it succeeds whatever the fresh array
    holds, and deserialising the image returns the node, with the values that
    have no key dropped. Both node kinds ([RID] and [u32] values). *)
Theorem serialize_deserialize `{NodeValue V} p (vs : list V) data :
  page_wf p vs → Forall key_nonempty (keys p) → zlen data = PAGE_SIZE →
  ∃ buf, serialize p data = Ok buf ∧ zlen buf = PAGE_SIZE ∧
    deserialize buf = Ok (mkPage (is_leaf p) (keys p) (flags p) (rightmost_ptr p) (next p)
                            (put_values (take (length (keys p)) vs))).
Proof. apply serialize_deserialize_ok. Qed.

(** A leaf with two keys and an internal node whose last value has no key. *)
Definition sample_leaf : BTreePage :=
  mkPage true [[65]; [66; 67]] 0 0 7 (LeafRecords [mkRID 1 2; mkRID 3 4]).
Definition sample_internal : BTreePage :=
  mkPage false [[77]] 3 9 0 (InternalChildren [4; 5]).

Lemma sample_leaf_wf : page_wf sample_leaf [mkRID 1 2; mkRID 3 4].
Proof. constructor; try done; repeat constructor; by_compute. Defined.
Lemma sample_internal_wf : page_wf sample_internal [4; 5].
Proof. constructor; try done; repeat constructor; by_compute. Defined.

Lemma serialize_deserialize_witness :
  (∃ buf, serialize sample_leaf (zeros PAGE_SIZE) = Ok buf ∧ zlen buf = PAGE_SIZE
     ∧ deserialize buf = Ok sample_leaf) ∧
  (∃ buf, serialize sample_internal (zeros PAGE_SIZE) = Ok buf ∧ zlen buf = PAGE_SIZE
     ∧ deserialize buf = Ok (mkPage false [[77]] 3 9 0 (InternalChildren [4]))).
Proof.
  split.
  - refine (serialize_deserialize (V:=RID) sample_leaf [mkRID 1 2; mkRID 3 4]
              (zeros PAGE_SIZE) sample_leaf_wf _ _); [repeat constructor|]; by_compute.
  - refine (serialize_deserialize (V:=Z) sample_internal [4; 5]
              (zeros PAGE_SIZE) sample_internal_wf _ _); [repeat constructor|]; by_compute.
Defined.

(** The slotted layout: in the image of a well-formed node the pointer of
    pair [i] is the [i]-th from the end of the pointer area, and the offset and
    size it holds delimit exactly the bytes of pair [i], above the pointer
    area and inside the page. *)
Theorem serialize_slots `{NodeValue V} p (vs : list V) data :
  page_wf p vs → zlen data = PAGE_SIZE →
  ∃ buf start, serialize p data = Ok buf ∧ decode_uint16 buf AVAILABLE_SPACE_START_OFFSET = Ok start
    ∧ start = INDEX_PAGE_HEADER_SIZE + TREE_KV_PTR_SIZE * zlen (keys p) ∧
    ∀ i k v, keys p !! i = Some k → vs !! i = Some v →
    let slot := INDEX_PAGE_HEADER_SIZE + TREE_KV_PTR_SIZE * (zlen (keys p) - 1 - Z.of_nat i) in
    ∃ off size, decode_uint16 buf slot = Ok off ∧ decode_uint16 buf (slot + 2) = Ok size
      ∧ slice buf off size = zlen k :: k ++ nv_bytes v
      ∧ size = 1 + zlen k + nv_size V ∧ start ≤ off ∧ off + size ≤ PAGE_SIZE.
Proof.
  intros Hwf Hd. destruct (serialize_image p vs data Hwf Hd) as (buf & -> & Hb & Hh & Hp & Hs).
  destruct Hwf as [_ _ Hlen _ _ _ _ _ Hfit]. destruct Hh as [Hst _ _ _ _ _].
  set (kvs := zip (keys p) vs) in *.
  assert (zlen kvs = zlen (keys p)) as Hn
    by (unfold zlen, kvs; rewrite length_zip_with; lia).
  exists buf, (INDEX_PAGE_HEADER_SIZE + TREE_KV_PTR_SIZE * zlen (keys p)).
  rewrite <- Hn in *. pose proof (zlen_nonneg kvs). pose proof (zlen_nonneg (kvs_bytes kvs)).
  change INDEX_PAGE_HEADER_SIZE with 26 in *. unfold PAGE_SIZE in *.
  split; [done|]. split.
  { unfold TREE_KV_PTR_SIZE in *. rewrite (decode_uint16_at (26 + 4 * zlen kvs)) by done.
    unfold u16. by rewrite Z.mod_small by lia. }
  split; [done|]. intros i k v Hk Hv.
  assert (kvs !! i = Some (k, v)) as Hkv by (by apply lookup_zip_with_Some; eauto).
  apply (slice_slot _ _ _ _ _ _ Hkv) in Hs; [|lia].
  apply (slice_kv _ _ _ _ _ Hkv) in Hp; [|unfold TREE_KV_PTR_SIZE in *; lia].
  rewrite (kvs_bytes_split _ _ _ Hkv), !zlen_app in Hp, Hfit.
  pose proof (zlen_kv_bytes (k, v)) as Hsz. cbn [fst] in Hsz.
  pose proof (zlen_nonneg (kvs_bytes (take i kvs))).
  pose proof (zlen_nonneg (kvs_bytes (drop (S i) kvs))). pose proof (zlen_nonneg (kv_bytes (k, v))).
  apply lookup_lt_Some in Hkv. unfold TREE_KV_PTR_SIZE in *.
  assert (Z.of_nat i < zlen kvs) by (unfold zlen; lia).
  set (size := zlen (kv_bytes (k, v))) in *.
  set (off := 4096 - zlen (kvs_bytes (drop (S i) kvs)) - size) in *. exists off, size.
  change 4 with (zlen (be16 off) + zlen (be16 size)) in Hs at 2.
  apply slice_app_inv in Hs as [Ho Hz]; [|lia|done]. rewrite !zlen_be16 in *.
  rewrite (decode_uint16_at off), (decode_uint16_at size) by (done || lia).
  unfold u16. rewrite !Z.mod_small by (unfold off; lia).
  split_and!; [done|done| |done|unfold off; lia|unfold off; lia].
  transitivity (kv_bytes (k, v)); [|done]. rewrite <- Hp. f_equal. unfold off. lia.
Qed.

Lemma serialize_slots_witness :
  ∃ buf start, serialize sample_leaf (zeros PAGE_SIZE) = Ok buf
    ∧ decode_uint16 buf AVAILABLE_SPACE_START_OFFSET = Ok start
    ∧ start = INDEX_PAGE_HEADER_SIZE + TREE_KV_PTR_SIZE * zlen (keys sample_leaf) ∧
    ∀ i k v, keys sample_leaf !! i = Some k → [mkRID 1 2; mkRID 3 4] !! i = Some v →
    let slot := INDEX_PAGE_HEADER_SIZE
                + TREE_KV_PTR_SIZE * (zlen (keys sample_leaf) - 1 - Z.of_nat i) in
    ∃ off size, decode_uint16 buf slot = Ok off ∧ decode_uint16 buf (slot + 2) = Ok size
      ∧ slice buf off size = zlen k :: k ++ nv_bytes v
      ∧ size = 1 + zlen k + nv_size RID ∧ start ≤ off ∧ off + size ≤ PAGE_SIZE.
Proof.
  refine (serialize_slots (V:=RID) sample_leaf [mkRID 1 2; mkRID 3 4]
            (zeros PAGE_SIZE) sample_leaf_wf _); by_compute.
Defined.

(** C37: reading any page of bytes ends within the budget, or it is the page of
    an internal node and reading it never ends, whatever the budget; reading a
    leaf page always ends. *)
Theorem deserialize_ends data :
  Forall is_byte data → zlen data = PAGE_SIZE →
  deserialize data ≠ OutOfFuel ∨
  (decode_bool data IS_LEAF_OFFSET = Ok false ∧
   ∀ fuel, deserialize_fuel fuel data = OutOfFuel).
Proof.
  intros Hb Hd. unfold deserialize, deserialize_fuel.
  destruct (decode_uint32 data NEXT_PID_OFFSET) eqn:E;
    [|by left..|by apply decode_uint32_fuel in E]. cbn [mbind outcome_bind].
  destruct (decode_uint32 data RIGHTMOST_PID_OFFSET) eqn:E2;
    [|by left..|by apply decode_uint32_fuel in E2]. cbn [mbind outcome_bind].
  destruct (rd data TREE_FLAGS_OFFSET) eqn:E3;
    [|by left..|by apply rd_fuel in E3]. cbn [mbind outcome_bind].
  unfold decode_bool. destruct (rd data IS_LEAF_OFFSET) as [b| | | |] eqn:E4;
    [|by left..|by apply rd_fuel in E4]. cbn [mbind outcome_bind].
  set (leaf := negb (b =? 0)).
  destruct (decode_uint16_in data AVAILABLE_SPACE_END_OFFSET) as [cursor Hc];
    [done|rewrite Hd; by_compute|]. rewrite Hc. cbn [mbind outcome_bind].
  assert (0 ≤ cursor).
  { unfold decode_uint16, rd in Hc. repeat case_match; try done; simplify_eq/=.
    unfold u16. apply Z.mod_pos_bound. lia. }
  destruct (deserialize_kvs_ends leaf data Hb deserialize_budget cursor []
              (if leaf then LeafRecords [] else InternalChildren [])) as [Hk|[Hleaf Hk]];
    [done|unfold deserialize_budget, PAGE_SIZE; lia|unfold deserialize_budget, PAGE_SIZE; lia|..].
  - left. by destruct (deserialize_kvs _ _ _ _ _ _).
  - right. split; [by rewrite Hleaf|]. intros fuel. by rewrite Hk.
Qed.

Lemma deserialize_ends_witness :
  deserialize (zeros PAGE_SIZE) ≠ OutOfFuel ∨
  (decode_bool (zeros PAGE_SIZE) IS_LEAF_OFFSET = Ok false ∧
   ∀ fuel, deserialize_fuel fuel (zeros PAGE_SIZE) = OutOfFuel).
Proof.
  apply deserialize_ends; [|by_compute].
  apply Forall_forall. intros x Hx. apply elem_of_replicate in Hx as [-> _]. by_compute.
Defined.

(** An internal node with an empty key serialises like any other, but
    reading its page back never ends (the cursor does not move over an empty
    slot of an internal page). *)
Theorem empty_key_diverges p children data :
  page_wf p children → is_leaf p = false → [] ∈ keys p → zlen data = PAGE_SIZE →
  ∃ buf, serialize p data = Ok buf ∧ ∀ fuel, deserialize_fuel fuel buf = OutOfFuel.
Proof.
  intros Hwf Hleaf Hin Hd.
  destruct (serialize_image p children data Hwf Hd) as (buf & -> & Hb & Hh & Hp & _).
  destruct Hwf as [_ Hv Hlen Hok Hvs Hfl Hr Hn Hfit].
  set (kvs := zip (keys p) children) in *. pose proof (zlen_nonneg (kvs_bytes kvs)).
  pose proof (zlen_nonneg (keys p)). change INDEX_PAGE_HEADER_SIZE with 26 in *.
  unfold TREE_KV_PTR_SIZE, PAGE_SIZE in *.
  assert (kvs.*1 = keys p) as Hk1 by (by apply fst_zip).
  exists buf. split; [done|]. intros fuel.
  rewrite (deserialize_header _ _ _ _ _ Hh Hn Hr) by lia. rewrite Hleaf.
  assert (deserialize_kvs fuel (val_is_leaf Z) buf (4096 - zlen (kvs_bytes kvs)) []
            (put_values []) = OutOfFuel) as Hk.
  { apply (deserialize_kvs_empty kvs); unfold PAGE_SIZE; rewrite ?Hk1; try (done || lia).
    unfold kvs. rewrite snd_zip_take by done. by apply Forall_take. }
  cbn in Hk. by rewrite Hk.
Qed.

Definition sample_empty_key : BTreePage :=
  mkPage false [[77]; []] 0 9 0 (InternalChildren [4; 5]).

Lemma empty_key_diverges_witness :
  ∃ buf, serialize sample_empty_key (zeros PAGE_SIZE) = Ok buf
    ∧ ∀ fuel, deserialize_fuel fuel buf = OutOfFuel.
Proof.
  apply (empty_key_diverges sample_empty_key [4; 5]).
  - constructor; try done; repeat constructor; by_compute.
  - done.
  - apply list_elem_of_In. simpl. auto.
  - by_compute.
Defined.

(** ** Insertion into a node *)

Lemma vec_at_ok {A} (v : list A) i a : 0 ≤ i → v !! Z.to_nat i = Some a → vec_at v i = Ok a.
Proof. intros Hi Hv. unfold vec_at. by rewrite (proj2 (Z.ltb_ge _ _)), Hv by lia. Qed.

Lemma vec_set_ok {A} (v : list A) i a :
  0 ≤ i < Z.of_nat (length v) → vec_set v i a = Ok (<[Z.to_nat i:=a]> v).
Proof.
  intros Hi. unfold vec_set. by rewrite (proj2 (Z.leb_le _ _)), (proj2 (Z.ltb_lt _ _)) by lia.
Qed.

(** [memcmp] is antisymmetric, hence so is the order on keys. *)
Lemma memcmp_antisym a b n : memcmp b a n = - memcmp a b n.
Proof.
  revert a b. induction n as [|n IH]; intros [|x a] [|y b]; try done. simpl.
  rewrite (Z.eqb_sym y x). destruct (x =? y); [apply IH|].
  rewrite <- Z.sgn_opp. f_equal. lia.
Qed.

Lemma cmpKeys_antisym k1 k2 : cmpKeys k2 k1 = - cmpKeys k1 k2.
Proof. unfold cmpKeys. rewrite Nat.min_comm. apply memcmp_antisym. Qed.

Lemma shift_right_ok {A} n : ∀ (v : list A) prev j,
  (j + 2 + n ≤ length v)%nat →
  shift_right v prev (Z.of_nat j) n
  = Ok (take (j + 2) v ++ take n (prev :: drop (j + 2) v) ++ drop (j + 2 + n) v).
Proof.
  induction n as [|n IH]; intros v prev j Hlen.
  { cbn [shift_right take app]. by rewrite Nat.add_0_r, take_drop. }
  destruct (lookup_lt_is_Some_2 v (j + 2)) as [temp Ht]; [lia|].
  cbn [shift_right].
  rewrite (vec_at_ok v (Z.of_nat j + 2) temp), (vec_set_ok v (Z.of_nat j + 2)).
  2:{ lia. } 2:{ lia. } 2:{ by replace (Z.to_nat (Z.of_nat j + 2)) with (j + 2)%nat by lia. }
  replace (Z.to_nat (Z.of_nat j + 2)) with (j + 2)%nat by lia. cbn [mbind outcome_bind].
  replace (Z.of_nat j + 1) with (Z.of_nat (S j)) by lia.
  rewrite IH by (rewrite length_insert; lia). f_equal.
  replace (S j + 2)%nat with (S (j + 2)) by lia.
  rewrite (take_S_r _ _ prev) by (apply list_lookup_insert_eq; lia).
  rewrite take_insert_ge, !drop_insert_lt by lia.
  rewrite (drop_S v temp (j + 2)) by done. cbn [take]. rewrite <- app_assoc. cbn [app].
  do 4 f_equal. lia.
Qed.

(** The vector that [insert_after] gets has one spare element at its end. *)
Lemma insert_after_ok {A} (v : list A) (spare x : A) (i : nat) :
  (i < length v)%nat →
  insert_after (v ++ [spare]) x (Z.of_nat i) (zlen v)
  = Ok (take (S i) v ++ x :: drop (S i) v).
Proof.
  intros Hi. unfold insert_after.
  destruct (lookup_lt_is_Some_2 (v ++ [spare]) (S i)) as [prev Hp];
    [rewrite length_app; simpl; lia|].
  replace (Z.of_nat i + 1) with (Z.of_nat (S i)) by lia.
  rewrite (vec_at_lookup _ _ _ Hp), vec_set_ok by (rewrite length_app; simpl; lia).
  cbn [mbind outcome_bind]. rewrite Nat2Z.id.
  assert (Z.to_nat (zlen v - 1 - Z.of_nat i) = (length v - S i)%nat) as -> by (unfold zlen; lia).
  rewrite shift_right_ok by (rewrite length_insert, length_app; simpl; lia). f_equal.
  replace (i + 2)%nat with (S (S i)) by lia.
  rewrite (take_S_r _ _ x) by (apply list_lookup_insert_eq; rewrite length_app; simpl; lia).
  rewrite take_insert_ge, !drop_insert_lt by lia.
  rewrite (drop_ge _ (S (S i) + (length v - S i))) by (rewrite length_app; simpl; lia).
  rewrite app_nil_r, <- app_assoc, take_app_le by lia. cbn [app]. do 2 f_equal.
  rewrite <- (drop_S (v ++ [spare]) prev (S i)) by done.
  rewrite drop_app_le by lia. rewrite take_app_le by (rewrite length_drop; lia).
  apply take_ge. rewrite length_drop. lia.
Qed.

(** Where a key goes: after index [j - 1] and before index [j]. *)
Definition fits_at (ks : list BTreeKey) (key : BTreeKey) (j : nat) : Prop :=
  (j ≤ length ks)%nat ∧
  (∀ k, ks !! j = Some k → cmpKeys key k ≤ 0) ∧
  (∀ i k, j = S i → ks !! i = Some k → 0 ≤ cmpKeys key k).

(** The search of the middle case finds a place between two neighbours: the
    key is above the one it starts from and below the last one. *)
Lemma insert_middle_ok {V} (ks : list BTreeKey) (vs : list V) (d : V) key val n : ∀ i : nat,
  length vs = length ks → (i + n = length ks)%nat →
  (∀ k, ks !! i = Some k → 0 < cmpKeys key k) →
  (∀ k, last ks = Some k → cmpKeys key k < 0) → (0 < n)%nat →
  ∃ j, fits_at ks key j ∧
    insert_middle (ks ++ [[]]) (vs ++ [d]) key val (Z.of_nat i) (zlen ks) n
    = Ok (take j ks ++ key :: drop j ks, take j vs ++ val :: drop j vs).
Proof.
  induction n as [|n IH]; intros i Hvs Hi Hlow Hhigh Hn; [lia|].
  destruct (lookup_lt_is_Some_2 ks i) as [k Hk]; [lia|]. specialize (Hlow _ Hk).
  assert (S i < length ks)%nat as HSi.
  { destruct (decide (S i = length ks)) as [He|]; [|lia].
    rewrite last_lookup in Hhigh. replace (pred (length ks)) with i in Hhigh by lia.
    specialize (Hhigh _ Hk). lia. }
  destruct (lookup_lt_is_Some_2 ks (S i)) as [k' Hk']; [lia|].
  cbn [insert_middle].
  rewrite (vec_at_lookup _ i k) by (by apply lookup_app_l_Some).
  replace (Z.of_nat i + 1) with (Z.of_nat (S i)) by lia.
  rewrite (vec_at_lookup _ (S i) k') by (by apply lookup_app_l_Some). cbn [mbind outcome_bind].
  rewrite (proj2 (Z.ltb_lt _ _)) by lia. cbn [andb].
  destruct (cmpKeys key k' <=? 0) eqn:Hc.
  - apply Z.leb_le in Hc. exists (S i).
    rewrite insert_after_ok by lia. cbn [mbind outcome_bind].
    assert (zlen ks = zlen vs) as -> by (unfold zlen; lia).
    rewrite insert_after_ok by lia. split; [|done].
    split_and!; [lia|naive_solver|]. intros i' k0 [= ->] ?. simplify_eq. lia.
  - apply Z.leb_gt in Hc. apply IH; [done|lia| |done|lia]. intros ? ?. by simplify_eq.
Qed.

Lemma vec_resize_spare {A} (l : list A) (d : A) :
  vec_resize l (zlen l + 1) d = l ++ [d].
Proof.
  unfold vec_resize, zlen. replace (Z.to_nat _) with (length l + 1)%nat by lia.
  rewrite resize_ge by lia. by replace (length l + 1 - length l)%nat with 1%nat by lia.
Qed.

(** Insertion puts the key and the value at the same index, and the key
    between its neighbours; nothing is assumed about the order of the keys. *)
Lemma insert_kv_ok `{VAL_T V} (ks : list BTreeKey) (vs : list V) key val :
  length vs = length ks → zlen ks < 2 ^ 16 →
  ∃ j, fits_at ks key j ∧
    insert_kv ks vs key val
    = Ok (take j ks ++ key :: drop j ks, take j vs ++ val :: drop j vs).
Proof.
  intros Hvs Hlen. pose proof (zlen_nonneg ks). unfold insert_kv, u16.
  rewrite Z.mod_small by lia. assert (zlen vs = zlen ks) as Hz by (unfold zlen; lia).
  rewrite vec_resize_spare.
  assert (vec_resize vs (zlen ks + 1) val_default = vs ++ [val_default]) as ->
    by (rewrite <- Hz; apply vec_resize_spare).
  assert (∀ {A} (l : list A) d x, length l = length ks →
            vec_set (l ++ [d]) (zlen (l ++ [d]) - 1) x = Ok (take (length ks) l ++ [x])) as Hset.
  { intros A l d x Hl. rewrite vec_set_ok by (unfold zlen; rewrite length_app; simpl; lia).
    unfold zlen. rewrite length_app. replace (Z.to_nat _) with (length l + 0)%nat by (simpl; lia).
    rewrite insert_app_r. simpl. by rewrite take_ge by lia. }
  destruct (decide (ks = [])) as [->|Hne].
  { exists 0%nat. destruct vs; [|done]. split; [|by destruct key].
    split_and!; [done|by intros ?|by intros ?]. }
  assert (0 < length ks)%nat by (destruct ks; [done|simpl; lia]).
  destruct (proj2 (last_is_Some ks) Hne) as [kl Hlast].
  destruct (lookup_lt_is_Some_2 ks 0) as [k0 Hk0]; [done|].
  rewrite (vec_at_ok _ 0 k0) by (done || by apply lookup_app_l_Some).
  cbn [mbind outcome_bind].
  rewrite (proj2 (Z.eqb_neq _ _)) by (unfold zlen; lia).
  rewrite (vec_at_ok _ _ kl).
  2:{ unfold zlen. lia. }
  2:{ apply lookup_app_l_Some. rewrite last_lookup in Hlast. rewrite <- Hlast. f_equal.
      unfold zlen. lia. }
  cbn [mbind outcome_bind]. destruct (0 <=? cmpKeys key kl) eqn:C1.
  { apply Z.leb_le in C1. exists (length ks). rewrite !Hset by done. cbn [mbind outcome_bind].
    rewrite !drop_ge by lia. split; [|done]. split_and!; [done| |].
    - intros k Hk. by rewrite lookup_ge_None_2 in Hk by lia.
    - intros i k Hi Hk. rewrite last_lookup, Hi in Hlast. simpl in Hlast. by simplify_eq. }
  apply Z.leb_gt in C1. destruct (cmpKeys key k0 <=? 0) eqn:C2.
  { apply Z.leb_le in C2. exists 0%nat. rewrite !removelast_last. split; [|done].
    split_and!; [lia| |by intros ?]. intros k Hk. by simplify_eq. }
  apply Z.leb_gt in C2.
  assert (Z.to_nat (zlen ks) = length ks) as -> by (unfold zlen; lia).
  apply (insert_middle_ok ks vs val_default key val (length ks) 0); [done|done| | |lia].
  - intros k Hk. by simplify_eq.
  - rewrite Hlast. by intros k [= <-].
Qed.

(** The order of the keys in a node. *)
Definition key_lt (k1 k2 : BTreeKey) : Prop := cmpKeys k1 k2 < 0.

Lemma Sorted_insert {A} (R : A → A → Prop) l x : ∀ j,
  Sorted R l → (∀ k, l !! j = Some k → R x k) →
  (∀ i k, j = S i → l !! i = Some k → R k x) → (j ≤ length l)%nat →
  Sorted R (take j l ++ x :: drop j l).
Proof.
  induction l as [|a l IH]; intros j Hs Hup Hlow Hj.
  { simpl in Hj. replace j with 0%nat by lia. repeat constructor. }
  destruct j as [|j]; [constructor; [done|]; constructor; by apply Hup|].
  inversion Hs as [|? ? Hs' Hhd]; subst. simpl. constructor.
  - apply IH; [done|done| |simpl in Hj; lia]. intros i k -> ?. by apply (Hlow (S i)).
  - destruct j as [|j]; simpl; [constructor; by apply (Hlow 0%nat)|].
    destruct l as [|b l]; [simpl in Hj; lia|]. simpl. by inversion Hhd; subst; constructor.
Qed.

Lemma zip_insert_Permutation {A B} (l : list A) (k : list B) a b j :
  length k = length l → (j ≤ length l)%nat →
  zip (take j l ++ a :: drop j l) (take j k ++ b :: drop j k) ≡ₚ (a, b) :: zip l k.
Proof.
  intros Hlen Hj. rewrite zip_with_app by (rewrite !length_take; lia). simpl.
  rewrite <- Permutation_middle. f_equiv.
  rewrite <- zip_with_app by (rewrite !length_take; lia). by rewrite !take_drop.
Qed.

Lemma insertIntoNode_ok `{NodeValue V} p (vs : list V) key val :
  values p = put_values vs → length vs = length (keys p) → zlen (keys p) < 2 ^ 16 →
  Sorted key_lt (keys p) → Forall (λ k, cmpKeys k key ≠ 0) (keys p) →
  ∃ ks' vs',
    insertIntoNode p key val
    = Ok (mkPage (is_leaf p) ks' (flags p) (rightmost_ptr p) (next p) (put_values vs'))
    ∧ Sorted key_lt ks' ∧ length vs' = length ks'
    ∧ zip ks' vs' ≡ₚ (key, val) :: zip (keys p) vs.
Proof.
  intros Hv Hlen Hsz Hs Hne.
  destruct (insert_kv_ok (keys p) vs key val Hlen Hsz) as (j & (Hj & Hup & Hlow) & Hins).
  unfold insertIntoNode. rewrite Hv, nv_get. cbn [mbind outcome_bind]. rewrite Hins.
  exists (take j (keys p) ++ key :: drop j (keys p)), (take j vs ++ val :: drop j vs).
  split; [done|]. split_and!.
  - apply Sorted_insert; [done|..|done].
    + intros k Hk. specialize (Hup k Hk). apply (Forall_lookup_1 _ _ _ _ Hne) in Hk.
      rewrite cmpKeys_antisym in Hk. unfold key_lt. lia.
    + intros i k Hi Hk. specialize (Hlow i k Hi Hk). apply (Forall_lookup_1 _ _ _ _ Hne) in Hk.
      unfold key_lt. rewrite cmpKeys_antisym in Hk |- *. lia.
  - rewrite !length_app, !length_take. simpl. rewrite !length_drop. lia.
  - by apply zip_insert_Permutation.
Qed.

(** C15: inserting a key that compares equal to none of the keys of a node whose
    keys are sorted gives a node whose keys are sorted and whose pairs are the
    old ones and the new one; nothing else in the node changes. Both template
    instances. *)
Theorem insertIntoNode_sorted `{NodeValue V} p (vs : list V) key val :
  values p = put_values vs → length vs = length (keys p) → zlen (keys p) < 2 ^ 16 →
  Sorted key_lt (keys p) → Forall (λ k, cmpKeys k key ≠ 0) (keys p) →
  ∃ ks' vs',
    insertIntoNode p key val
    = Ok (mkPage (is_leaf p) ks' (flags p) (rightmost_ptr p) (next p) (put_values vs'))
    ∧ Sorted key_lt ks' ∧ length vs' = length ks'
    ∧ zip ks' vs' ≡ₚ (key, val) :: zip (keys p) vs.
Proof. apply insertIntoNode_ok. Qed.

Lemma insertIntoNode_sorted_witness :
  ∃ ks' vs',
    insertIntoNode sample_leaf [66; 65] (mkRID 5 6)
    = Ok (mkPage true ks' 0 0 7 (LeafRecords vs'))
    ∧ Sorted key_lt ks' ∧ length vs' = length ks'
    ∧ zip ks' vs' ≡ₚ ([66; 65], mkRID 5 6) :: zip (keys sample_leaf) [mkRID 1 2; mkRID 3 4].
Proof.
  refine (insertIntoNode_sorted (V:=RID) sample_leaf [mkRID 1 2; mkRID 3 4] [66; 65] (mkRID 5 6)
            _ _ _ _ _); [done|done|by_compute|repeat constructor; by_compute|].
  repeat constructor; vm_compute; congruence.
Defined.
