(* ===== verification/Lexer.v ===== *)
(** * Lexer: the SQL tokenizer ([sql/lexer.hpp], [sql/lexer.cpp], and
    [Parser::populateTokens] of [sql/parser.cpp])

    A [std::string] is the list of its characters; reading past the end gives
    the character NUL, which is also the end of the input for the lexer. *)
From S2P Require Import Prelude.

(** ** The code *)

Inductive TokenType :=
  | ILLEGAL | KEYWORD | IDENTIFIER | INT | STRING | EQUALS | PLUS | MINUS | COMMA
  | SEMICOLON | ASTERISK | SLASH | LPAREN | RPAREN | LBRACE | RBRACE
  | LT | GT | LT_EQ | GT_EQ | END.

#[export] Instance TokenType_eq_dec : EqDecision TokenType.
Proof. solve_decision. Defined.

Record Token := mkToken { type : TokenType; literal : text }.

#[export] Instance Token_eq_dec : EqDecision Token.
Proof. solve_decision. Defined.

Definition keywords : list text :=
  str <$> ["SELECT"; "UPDATE"; "DELETE"; "INSERT"; "WHERE"; "FROM"; "AS"; "OR"]%string.

Definition getStringType (s : text) : TokenType :=
  if decide (s ∈ keywords) then KEYWORD else IDENTIFIER.

Record Lexer := mkLexer { position : Z; ahead_position : Z; curr_ch : ascii }.

Definition is_letter (c : ascii) : bool :=
  between "a" "z" c || between "A" "Z" c || Ascii.eqb c "_".
Definition is_digit (c : ascii) : bool := between "0" "9" c.
(** Space, [\n], [\t], [\r]. *)
Definition is_space (c : ascii) : bool :=
  Ascii.eqb c " " || Ascii.eqb c "010" || Ascii.eqb c "009" || Ascii.eqb c "013".

Section lexer.
Context (input : text).

Definition peekNext (lx : Lexer) : ascii :=
  if zlen input <=? ahead_position lx then NUL
  else match input !! Z.to_nat (ahead_position lx) with Some c => c | None => NUL end.

(** The positions are [u16]. *)
Definition readChar (lx : Lexer) : Lexer :=
  mkLexer (ahead_position lx) (u16 (ahead_position lx + 1)) (peekNext lx).

(** The constructor reads the first character. *)
Definition new_Lexer : Lexer := readChar (mkLexer (u16 (-1)) 0 NUL).

Definition isLetter (lx : Lexer) : bool := is_letter (curr_ch lx).
Definition isDigit (lx : Lexer) : bool := is_digit (curr_ch lx).

Fixpoint eatWhitespace (fuel : nat) (lx : Lexer) : outcome Lexer :=
  if is_space (curr_ch lx) then
    match fuel with
    | O => OutOfFuel
    | S fuel => eatWhitespace fuel (readChar lx)
    end
  else Ok lx.

(** The loops that collect the characters of a word or a number. *)
Fixpoint read_while (test : Lexer → bool) (fuel : nat) (lx : Lexer) (acc : text)
    : outcome (text * Lexer) :=
  if test lx then
    match fuel with
    | O => OutOfFuel
    | S fuel => read_while test fuel (readChar lx) (acc ++ [curr_ch lx])
    end
  else Ok (acc, lx).

(** The [switch] on the current character. [token] is the out-parameter: an
    illegal character sets its type only. *)
Definition scan_token (fuel : nat) (token : Token) (lx : Lexer) : outcome (Token * Lexer) :=
  let c := curr_ch lx in
  let one t := Ok (mkToken t [c], readChar lx) in
  if Ascii.eqb c "=" then one EQUALS
  else if Ascii.eqb c "+" then one PLUS
  else if Ascii.eqb c "-" then one MINUS
  else if Ascii.eqb c "," then one COMMA
  else if Ascii.eqb c ";" then one SEMICOLON
  else if Ascii.eqb c "*" then one ASTERISK
  else if Ascii.eqb c "/" then one SLASH
  else if Ascii.eqb c "(" then one LPAREN
  else if Ascii.eqb c ")" then one RPAREN
  else if Ascii.eqb c "{" then one LBRACE
  else if Ascii.eqb c "}" then one RBRACE
  else if Ascii.eqb c ">" then
    if Ascii.eqb (peekNext lx) "="
    then Ok (mkToken GT_EQ (str ">="), readChar (readChar lx)) else one GT
  else if Ascii.eqb c "<" then
    if Ascii.eqb (peekNext lx) "="
    then Ok (mkToken LT_EQ (str "<="), readChar (readChar lx)) else one LT
  else if Ascii.eqb c NUL then Ok (mkToken END [], readChar lx)
  else if isLetter lx then
    r ← read_while isLetter fuel lx [];
    Ok (mkToken (getStringType r.1) r.1, r.2)
  else if isDigit lx then
    r ← read_while isDigit fuel lx [];
    Ok (mkToken INT r.1, r.2)
  else Ok (mkToken ILLEGAL (literal token), readChar lx).

Definition nextToken (fuel : nat) (token : Token) (lx : Lexer) : outcome (Token * Lexer) :=
  lx ← eatWhitespace fuel lx; scan_token fuel token lx.

(** [while (tok->type != END)] of [Parser::populateTokens]. *)
Fixpoint collect_tokens (fuel : nat) (token : Token) (lx : Lexer) : outcome (list Token) :=
  r ← nextToken fuel token lx;
  let '(token, lx) := r in
  if decide (type token = END) then Ok []
  else match fuel with
       | O => OutOfFuel
       | S fuel => toks ← collect_tokens fuel token lx; Ok (token :: toks)
       end.
End lexer.

(** The [Token()] the loop starts from has an empty literal; its type is not
    initialised and is written before it is read. *)
Definition populateTokens (fuel : nat) (input : text) : outcome (list Token) :=
  collect_tokens input fuel (mkToken ILLEGAL []) (new_Lexer input).

(** The positions of the lexer are 16 bits wide, so no input it can read to the
    end is longer. *)
Definition MAX_INPUT : Z := 65535.
Definition lex (input : text) : outcome (list Token) :=
  populateTokens (Z.to_nat (MAX_INPUT + 1)) input.

Example lex_example :
  lex (str "SELECT a_b, c FROM t WHERE x<=10 ? (y)")
  = Ok [mkToken KEYWORD (str "SELECT"); mkToken IDENTIFIER (str "a_b"); mkToken COMMA (str ",");
        mkToken IDENTIFIER (str "c"); mkToken KEYWORD (str "FROM"); mkToken IDENTIFIER (str "t");
        mkToken KEYWORD (str "WHERE"); mkToken IDENTIFIER (str "x"); mkToken LT_EQ (str "<=");
        mkToken INT (str "10"); mkToken ILLEGAL (str "10"); mkToken LPAREN (str "(");
        mkToken IDENTIFIER (str "y"); mkToken RPAREN (str ")")].
Proof. vm_compute. reflexivity. Qed.

(** ** The language of the lexer *)

(** Tokens of one character. *)
Definition one_char (c : ascii) : option TokenType :=
  if Ascii.eqb c "=" then Some EQUALS else if Ascii.eqb c "+" then Some PLUS
  else if Ascii.eqb c "-" then Some MINUS else if Ascii.eqb c "," then Some COMMA
  else if Ascii.eqb c ";" then Some SEMICOLON else if Ascii.eqb c "*" then Some ASTERISK
  else if Ascii.eqb c "/" then Some SLASH else if Ascii.eqb c "(" then Some LPAREN
  else if Ascii.eqb c ")" then Some RPAREN else if Ascii.eqb c "{" then Some LBRACE
  else if Ascii.eqb c "}" then Some RBRACE else if Ascii.eqb c ">" then Some GT
  else if Ascii.eqb c "<" then Some LT else None.

Definition illegal (c : ascii) : Prop :=
  one_char c = None ∧ is_letter c = false ∧ is_digit c = false ∧ is_space c = false ∧ c ≠ NUL.

(** The character that follows, NUL at the end. *)
Definition hd_char (s : text) : ascii := default NUL (head s).

(** [token_at prev s t rest]: the input [s] starts with the longest token [t],
    and [rest] follows it. An illegal character is a token that carries the
    literal [prev] of the token before it. *)
Inductive token_at (prev : text) : text → Token → text → Prop :=
  | token_one c t rest :
      one_char c = Some t → (c = ">" ∨ c = "<" → hd_char rest ≠ "=")%char →
      token_at prev (c :: rest) (mkToken t [c]) rest
  | token_ge rest : token_at prev (">" :: "=" :: rest)%char (mkToken GT_EQ (str ">=")) rest
  | token_le rest : token_at prev ("<" :: "=" :: rest)%char (mkToken LT_EQ (str "<=")) rest
  | token_word w rest :
      w ≠ [] → Forall is_letter w → ¬ is_letter (hd_char rest) →
      token_at prev (w ++ rest) (mkToken (getStringType w) w) rest
  | token_num w rest :
      w ≠ [] → Forall is_digit w → ¬ is_digit (hd_char rest) →
      token_at prev (w ++ rest) (mkToken INT w) rest
  | token_illegal c rest :
      illegal c → token_at prev (c :: rest) (mkToken ILLEGAL prev) rest.

(** [renders prev s toks]: the tokens of the input [s], up to its end or its
    first NUL that is not inside a token. *)
Inductive renders : text → text → list Token → Prop :=
  | renders_end prev ws : Forall is_space ws → renders prev ws []
  | renders_nul prev ws rest : Forall is_space ws → renders prev (ws ++ NUL :: rest) []
  | renders_token prev ws s t rest toks :
      Forall is_space ws → token_at prev s t rest → renders (literal t) rest toks →
      renders prev (ws ++ s) (t :: toks).

(** ** The lexer on a position of the input *)

(** The classes of characters are disjoint: by inspection of the 256 of them. *)
Lemma letter_class c :
  is_letter c → one_char c = None ∧ is_space c = false ∧ c ≠ NUL.
Proof. by destruct c as [[] [] [] [] [] [] [] []]; vm_compute; intros []. Qed.
Lemma digit_class c :
  is_digit c → one_char c = None ∧ is_space c = false ∧ c ≠ NUL ∧ is_letter c = false.
Proof. by destruct c as [[] [] [] [] [] [] [] []]; vm_compute; intros []. Qed.
Lemma one_char_class c t : one_char c = Some t → is_space c = false ∧ c ≠ NUL.
Proof. by destruct c as [[] [] [] [] [] [] [] []]; vm_compute. Qed.

(** The tests of the switch, when [one_char] says what the character is. *)
Ltac switch_none H :=
  unfold one_char in H;
  repeat match type of H with
  | (if ?b then _ else _) = None => destruct b; [discriminate H|]
  end.

Section correct.
Context (input : text).
Hypothesis Hshort : zlen input ≤ MAX_INPUT.

Definition lexer_at (p : nat) : Lexer :=
  mkLexer (Z.of_nat p) (u16 (Z.of_nat p + 1)) (hd_char (drop p input)).

Lemma hd_char_drop p : hd_char (drop p input) = default NUL (input !! p).
Proof. unfold hd_char. by rewrite head_lookup, lookup_drop, Nat.add_0_r. Qed.

Lemma peekNext_at p :
  (p < length input)%nat → peekNext input (lexer_at p) = hd_char (drop (S p) input).
Proof.
  intros Hp. unfold peekNext, lexer_at, MAX_INPUT, zlen, u16 in *. cbn [ahead_position].
  rewrite Z.mod_small by lia. rewrite hd_char_drop. case_bool.
  - by rewrite lookup_ge_None_2 by lia.
  - replace (Z.to_nat (Z.of_nat p + 1)) with (S p) by lia. by destruct (input !! S p).
Qed.

Lemma readChar_at p :
  (p < length input)%nat → readChar input (lexer_at p) = lexer_at (S p).
Proof.
  intros Hp. unfold readChar. rewrite peekNext_at by done.
  unfold lexer_at, MAX_INPUT, zlen, u16 in *. cbn [ahead_position].
  rewrite Z.mod_small by lia. f_equal; [lia|f_equal; lia].
Qed.

Lemma new_Lexer_at : new_Lexer input = lexer_at 0.
Proof.
  unfold new_Lexer, readChar, peekNext, lexer_at. cbn [ahead_position].
  rewrite hd_char_drop. f_equal. case_bool.
  - unfold zlen in *. by rewrite lookup_ge_None_2 by lia.
  - by destruct (input !! _).
Qed.

Lemma drop_cons_inv p c s :
  drop p input = c :: s → (p < length input)%nat ∧ drop (S p) input = s.
Proof.
  intros Hd. split.
  - apply (f_equal length) in Hd. rewrite length_drop in Hd. simpl in Hd. lia.
  - by rewrite <- Nat.add_1_r, <- drop_drop, Hd.
Qed.

(** The two character loops, on a stretch of the input. *)
Lemma eatWhitespace_at fuel p ws s :
  drop p input = ws ++ s → Forall is_space ws → ¬ is_space (hd_char s) →
  (length ws ≤ fuel)%nat →
  eatWhitespace input fuel (lexer_at p) = Ok (lexer_at (p + length ws)).
Proof.
  revert p fuel. induction ws as [|c ws IH]; intros p fuel Hd Hws Hs Hf.
  - simpl in Hd. unfold eatWhitespace. destruct fuel; cbn [lexer_at curr_ch];
      rewrite Hd; rewrite Nat.add_0_r; by destruct (is_space (hd_char s)).
  - apply Forall_cons in Hws as [Hc Hws]. destruct fuel as [|fuel]; [simpl in Hf; lia|].
    destruct (drop_cons_inv _ _ _ Hd) as [Hp Hd'].
    cbn [eatWhitespace]. cbn [lexer_at curr_ch]. rewrite Hd. unfold hd_char at 1. simpl.
    destruct (is_space c); [|done]. fold (lexer_at p). rewrite readChar_at, (IH (S p)) by
      (done || simpl in Hf; lia). do 2 f_equal. simpl. lia.
Qed.

Lemma read_while_at (cls : ascii → bool) test fuel p w s acc :
  (∀ lx, test lx = cls (curr_ch lx)) →
  drop p input = w ++ s → Forall cls w → ¬ cls (hd_char s) → (length w ≤ fuel)%nat →
  read_while input test fuel (lexer_at p) acc = Ok (acc ++ w, lexer_at (p + length w)).
Proof.
  intros Htest. revert p fuel acc. induction w as [|c w IH]; intros p fuel acc Hd Hw Hs Hf.
  - simpl in Hd. rewrite app_nil_r, Nat.add_0_r. 
    destruct fuel; cbn [read_while]; rewrite Htest; cbn [lexer_at curr_ch];
      rewrite Hd; by destruct (cls (hd_char s)).
  - apply Forall_cons in Hw as [Hc Hw]. destruct fuel as [|fuel]; [simpl in Hf; lia|].
    destruct (drop_cons_inv _ _ _ Hd) as [Hp Hd'].
    cbn [read_while]. rewrite Htest. cbn [lexer_at curr_ch]. rewrite Hd.
    change (hd_char ((c :: w) ++ s)) with c. destruct (cls c); [|done].
    fold (lexer_at p). rewrite readChar_at, (IH (S p)) by (done || simpl in Hf; lia).
    rewrite <- app_assoc. simpl. do 3 f_equal. lia.
Qed.
Lemma drop_app_inv p w s : drop p input = w ++ s → drop (p + length w) input = s.
Proof. intros Hd. by rewrite <- drop_drop, Hd, drop_app_length. Qed.

(** A token starts with a character that is neither white space nor NUL. *)
Lemma token_at_hd prev s t rest :
  token_at prev s t rest → ¬ is_space (hd_char s) ∧ hd_char s ≠ NUL.
Proof.
  assert (∀ c, is_space c = false ∧ c ≠ NUL → ∀ s, ¬ is_space (hd_char (c :: s))
            ∧ hd_char (c :: s) ≠ NUL) as Hhd.
  { intros c [Hs ?] s'. change (hd_char (c :: s')) with c. rewrite Hs. auto. }
  destruct 1 as [c t rest Hone| | |w rest Hw0 Hw|w rest Hw0 Hw|c rest Hc].
  - eapply Hhd, one_char_class, Hone.
  - by apply Hhd.
  - by apply Hhd.
  - destruct w as [|c w]; [done|]. apply Forall_cons in Hw as [(? & ? & ?)%letter_class _].
    by apply Hhd.
  - destruct w as [|c w]; [done|]. apply Forall_cons in Hw as [(? & ? & ? & ?)%digit_class _].
    by apply Hhd.
  - destruct Hc as (? & ? & ? & ? & ?). by apply Hhd.
Qed.

(** The switch, on each kind of token. *)
Ltac scan_start q s Hd :=
  let Hcur := fresh in
  assert (curr_ch (lexer_at q) = hd_char s) as Hcur by (cbn [lexer_at curr_ch]; by rewrite Hd);
  unfold scan_token, isLetter at 1, isDigit at 1; cbv zeta; rewrite Hcur; clear Hcur.

Lemma scan_one fuel prev q c t rest :
  drop q input = c :: rest → one_char c = Some t →
  (c = ">" ∨ c = "<" → hd_char rest ≠ "=")%char →
  scan_token input fuel prev (lexer_at q) = Ok (mkToken t [c], lexer_at (S q)).
Proof.
  intros Hd Hone Hgt. destruct (drop_cons_inv _ _ _ Hd) as [Hq Hd'].
  scan_start q (c :: rest) Hd. change (hd_char (c :: rest)) with c.
  rewrite readChar_at, peekNext_at, Hd' by done. unfold one_char in Hone.
  repeat match type of Hone with
  | (if ?b then _ else _) = Some _ => destruct b eqn:Hb; [injection Hone as <-|clear Hb]
  end; try done.
  all: apply Ascii.eqb_eq in Hb as ->; destruct (Ascii.eqb_spec (hd_char rest) "="); [|done].
  all: naive_solver.
Qed.

Lemma scan_two fuel prev q rest :
  (drop q input = ">" :: "=" :: rest →
   scan_token input fuel prev (lexer_at q) = Ok (mkToken GT_EQ (str ">="), lexer_at (S (S q)))
   ∧ drop (S (S q)) input = rest)%char ∧
  (drop q input = "<" :: "=" :: rest →
   scan_token input fuel prev (lexer_at q) = Ok (mkToken LT_EQ (str "<="), lexer_at (S (S q)))
   ∧ drop (S (S q)) input = rest)%char.
Proof.
  split; intros Hd; destruct (drop_cons_inv _ _ _ Hd) as [Hq Hd'];
    destruct (drop_cons_inv _ _ _ Hd') as [Hq' Hd'']; (split; [|done]).
  - scan_start q (">" :: "=" :: rest)%char Hd.
    simpl. rewrite peekNext_at, Hd' by done. simpl. by rewrite !readChar_at by done.
  - scan_start q ("<" :: "=" :: rest)%char Hd.
    simpl. rewrite peekNext_at, Hd' by done. simpl. by rewrite !readChar_at by done.
Qed.

Lemma scan_word fuel prev q w rest :
  drop q input = w ++ rest → w ≠ [] → Forall is_letter w → ¬ is_letter (hd_char rest) →
  (length w ≤ fuel)%nat →
  scan_token input fuel prev (lexer_at q)
  = Ok (mkToken (getStringType w) w, lexer_at (q + length w)).
Proof.
  intros Hd Hw0 Hw Hr Hf. destruct w as [|c w]; [done|].
  scan_start q ((c :: w) ++ rest) Hd. change (hd_char ((c :: w) ++ rest)) with c.
  pose proof Hw as Hc. apply Forall_cons in Hc as [Hc _].
  destruct (letter_class _ Hc) as (Hone & _ & Hn).
  switch_none Hone. rewrite (proj2 (Ascii.eqb_neq _ _)) by done.
  destruct (is_letter c); [|done].
  by rewrite (read_while_at is_letter _ fuel q (c :: w) rest) by done.
Qed.

Lemma scan_num fuel prev q w rest :
  drop q input = w ++ rest → w ≠ [] → Forall is_digit w → ¬ is_digit (hd_char rest) →
  (length w ≤ fuel)%nat →
  scan_token input fuel prev (lexer_at q) = Ok (mkToken INT w, lexer_at (q + length w)).
Proof.
  intros Hd Hw0 Hw Hr Hf. destruct w as [|c w]; [done|].
  scan_start q ((c :: w) ++ rest) Hd. change (hd_char ((c :: w) ++ rest)) with c.
  pose proof Hw as Hc. apply Forall_cons in Hc as [Hc _].
  destruct (digit_class _ Hc) as (Hone & _ & Hn & Hl).
  switch_none Hone. rewrite (proj2 (Ascii.eqb_neq _ _)), Hl by done.
  destruct (is_digit c); [|done].
  by rewrite (read_while_at is_digit _ fuel q (c :: w) rest) by done.
Qed.

Lemma scan_illegal fuel prev q c rest :
  drop q input = c :: rest → illegal c →
  scan_token input fuel prev (lexer_at q)
  = Ok (mkToken ILLEGAL (literal prev), lexer_at (S q)).
Proof.
  intros Hd (Hone & Hl & Hdg & _ & Hn). destruct (drop_cons_inv _ _ _ Hd) as [Hq _].
  scan_start q (c :: rest) Hd. change (hd_char (c :: rest)) with c.
  switch_none Hone. by rewrite (proj2 (Ascii.eqb_neq _ _)), Hl, Hdg, readChar_at by done.
Qed.

(** The next token, from a position before white space. *)
Lemma nextToken_at fuel prev p ws s t rest :
  drop p input = ws ++ s → Forall is_space ws → token_at (literal prev) s t rest →
  (length (ws ++ s) ≤ fuel)%nat →
  ∃ q, nextToken input fuel prev (lexer_at p) = Ok (t, lexer_at q)
    ∧ drop q input = rest.
Proof.
  intros Hd Hws Ht Hf. rewrite length_app in Hf.
  destruct (token_at_hd _ _ _ _ Ht) as [Hsp _]. unfold nextToken.
  rewrite (eatWhitespace_at fuel p ws s) by (done || lia). cbn [mbind outcome_bind].
  apply drop_app_inv in Hd. set (q := (p + length ws)%nat) in *.
  destruct Ht as [c t rest Hone Hgt|rest|rest|w rest Hw0 Hw Hr|w rest Hw0 Hw Hr|c rest Hc];
    rewrite ?length_app in Hf.
  - exists (S q). split; [by eapply scan_one|by eapply drop_cons_inv].
  - exists (S (S q)). by apply scan_two.
  - exists (S (S q)). by apply scan_two.
  - exists (q + length w)%nat. split; [by apply scan_word with rest; try lia|by apply drop_app_inv].
  - exists (q + length w)%nat. split; [by apply scan_num with rest; try lia|by apply drop_app_inv].
  - exists (S q). split; [by eapply scan_illegal|by eapply drop_cons_inv].
Qed.

(** The end of the input, or a NUL. *)
Lemma nextToken_end fuel prev p ws s :
  drop p input = ws ++ s → Forall is_space ws → hd_char s = NUL → (length ws ≤ fuel)%nat →
  ∃ lx, nextToken input fuel prev (lexer_at p) = Ok (mkToken END [], lx).
Proof.
  intros Hd Hws Hs Hf. unfold nextToken.
  rewrite (eatWhitespace_at fuel p ws s) by (done || by rewrite Hs; intros []).
  cbn [mbind outcome_bind]. apply drop_app_inv in Hd. set (q := (p + length ws)%nat) in *.
  scan_start q s Hd. rewrite Hs. simpl. eauto.
Qed.

Lemma token_at_type prev s t rest : token_at prev s t rest → type t ≠ END.
Proof.
  destruct 1 as [c t rest Hone| | |w rest| |]; try done; simpl.
  - unfold one_char in Hone. intros ->. by repeat case_match.
  - unfold getStringType. by case_decide.
Qed.

Lemma token_at_length prev s t rest : token_at prev s t rest → (length rest < length s)%nat.
Proof.
  destruct 1 as [| | |[] ? ?|[] ? ?|]; try done; simpl; rewrite ?length_app; lia.
Qed.

Lemma collect_tokens_at prev s toks : renders prev s toks →
  ∀ p fuel tok, literal tok = prev → drop p input = s → (length s ≤ fuel)%nat →
  collect_tokens input fuel tok (lexer_at p) = Ok toks.
Proof.
  induction 1 as [prev ws Hws|prev ws rest Hws|prev ws s t rest toks Hws Ht Hr IH];
    intros p fuel tok Htok Hd Hf.
  - destruct (nextToken_end fuel tok p ws []) as [lx Hn]; [by rewrite app_nil_r|done..|].
    destruct fuel; cbn [collect_tokens]; by rewrite Hn.
  - destruct (nextToken_end fuel tok p ws (NUL :: rest)) as [lx Hn];
      [done..|rewrite length_app in Hf; lia|].
    destruct fuel; cbn [collect_tokens]; by rewrite Hn.
  - rewrite <- Htok in Ht. destruct (nextToken_at fuel tok p ws s t rest) as (q & Hn & Hq); [done..|].
    pose proof (token_at_length _ _ _ _ Ht). rewrite length_app in Hf.
    destruct fuel as [|fuel]; [lia|]. cbn [collect_tokens]. rewrite Hn. cbn [mbind outcome_bind].
    rewrite decide_False by (by eapply token_at_type).
    rewrite (IH q fuel t) by (done || lia). done.
Qed.
End correct.

(** ** Every input has tokens *)

Lemma span_class (cls : ascii → bool) s :
  cls NUL = false →
  ∃ w rest, s = w ++ rest ∧ Forall cls w ∧ ¬ cls (hd_char rest).
Proof.
  intros Hnul. induction s as [|c s (w & rest & -> & Hw & Hr)].
  - exists [], []. split_and!; [done..|]. change (hd_char []) with NUL. rewrite Hnul. by intros [].
  - destruct (cls c) eqn:Hc.
    + exists (c :: w), rest. split_and!; [done| |done]. constructor; [by rewrite Hc|done].
    + exists [], (c :: w ++ rest). split_and!; [done..|].
      change (hd_char (c :: w ++ rest)) with c. rewrite Hc. by intros [].
Qed.

Lemma span_class_cons (cls : ascii → bool) c s :
  cls NUL = false → cls c →
  ∃ w rest, c :: s = w ++ rest ∧ w ≠ [] ∧ Forall cls w ∧ ¬ cls (hd_char rest).
Proof.
  intros Hnul Hc. destruct (span_class cls s Hnul) as (w & rest & -> & Hw & Hr).
  exists (c :: w), rest. split_and!; [done..|by constructor|done].
Qed.

Lemma token_at_exists prev c s :
  is_space c = false → c ≠ NUL → ∃ t rest, token_at prev (c :: s) t rest.
Proof.
  intros Hs Hn. destruct (one_char c) as [t|] eqn:Hone.
  - destruct (decide (c = ">" ∨ c = "<")%char) as [Hc|Hc];
      [|by exists (mkToken t [c]), s; constructor].
    destruct s as [|d s]; [exists (mkToken t [c]), []; by constructor|].
    destruct (decide (d = "=")%char) as [->|Hd].
    + destruct Hc as [-> | ->]; eauto using token_at.
    + exists (mkToken t [c]), (d :: s). constructor; [done|]. by intros _.
  - destruct (is_letter c) eqn:Hl.
    { destruct (span_class_cons is_letter c s) as (w & rest & -> & ? & ? & ?);
        [done|by rewrite Hl|]. eauto using token_at. }
    destruct (is_digit c) eqn:Hdg.
    { destruct (span_class_cons is_digit c s) as (w & rest & -> & ? & ? & ?);
        [done|by rewrite Hdg|]. eauto using token_at. }
    by exists (mkToken ILLEGAL prev), s; constructor.
Qed.

Lemma renders_exists s : ∀ prev, ∃ toks, renders prev s toks ∧ (length toks ≤ length s)%nat.
Proof.
  induction s as [s IH] using (well_founded_induction (Wf_nat.well_founded_ltof _ (@length ascii))).
  unfold Wf_nat.ltof in IH. intros prev.
  destruct (span_class is_space s) as (ws & s' & -> & Hws & Hs); [done|].
  destruct s' as [|c s']; [exists []; rewrite app_nil_r; split; [by constructor|simpl; lia]|].
  destruct (decide (c = NUL)) as [->|Hn]; [exists []; split; [by constructor|simpl; lia]|].
  change (hd_char (c :: s')) with c in Hs.
  destruct (token_at_exists prev c s') as (t & rest & Ht); [by destruct (is_space c)|done|].
  pose proof (token_at_length _ _ _ _ Ht) as Hlt.
  destruct (IH rest) with (prev := literal t) as (toks & Hr & Hl); [rewrite length_app; lia|].
  exists (t :: toks). split; [by eapply renders_token|rewrite length_app; simpl in *; lia].
Qed.

(** The answer of the lexer is the list of tokens of its input. *)
Lemma lex_renders input toks :
  zlen input ≤ MAX_INPUT → renders [] input toks → lex input = Ok toks.
Proof.
  intros Hlen Hr. unfold lex, populateTokens. rewrite new_Lexer_at by done.
  eapply collect_tokens_at; [done..|]. unfold MAX_INPUT, zlen in *. lia.
Qed.

Lemma lex_Ok input :
  zlen input ≤ MAX_INPUT →
  ∃ toks, lex input = Ok toks ∧ renders [] input toks ∧ (length toks ≤ length input)%nat.
Proof.
  intros Hlen. destruct (renders_exists input []) as (toks & Hr & Hn).
  eauto using lex_renders.
Qed.

(** C19: the lexer is total on every input its 16-bit positions can address:
    it answers with exactly the tokens of the input (the relation [renders],
    the longest match at every point), and there is only one such answer. *)
Theorem lex_correct input :
  zlen input ≤ MAX_INPUT →
  ∃ toks, lex input = Ok toks ∧ renders [] input toks
    ∧ (∀ toks', renders [] input toks' → toks' = toks)
    ∧ (length toks ≤ length input)%nat.
Proof.
  intros Hlen. destruct (lex_Ok input Hlen) as (toks & Hlex & Hr & Hn).
  exists toks. split_and!; [done..| |done].
  intros toks' Hr'%lex_renders; [congruence|done].
Qed.

Definition sample_query : text := str "SELECT a, b FROM t WHERE x<=10".
Lemma lex_correct_witness :
  ∃ toks, lex sample_query = Ok toks ∧ renders [] sample_query toks
    ∧ (∀ toks', renders [] sample_query toks' → toks' = toks)
    ∧ (length toks ≤ length sample_query)%nat.
Proof. apply lex_correct. by_compute. Defined.

(** ** Inputs too long for the positions *)

Section wrap.
Context (input : text).
Hypothesis Hlong : MAX_INPUT < zlen input.
Hypothesis Hnul : NUL ∉ take (Z.to_nat 65536) input.

Definition no_end (lx : Lexer) : Prop :=
  0 ≤ ahead_position lx ≤ MAX_INPUT ∧ curr_ch lx ≠ NUL.

Lemma no_end_peek lx : 0 ≤ ahead_position lx ≤ MAX_INPUT → peekNext input lx ≠ NUL.
Proof.
  unfold peekNext, MAX_INPUT, zlen in *. intros Hp. case_bool; [lia|].
  destruct (lookup_lt_is_Some_2 input (Z.to_nat (ahead_position lx))) as [c Hc]; [lia|].
  rewrite Hc. intros ->. apply Hnul, list_elem_of_lookup. exists (Z.to_nat (ahead_position lx)).
  by rewrite lookup_take_lt by lia.
Qed.

Lemma no_end_readChar lx : no_end lx → no_end (readChar input lx).
Proof.
  intros [Hp _]. split; [|by apply no_end_peek]. unfold readChar, u16, MAX_INPUT.
  cbn [ahead_position]. pose proof (Z.mod_pos_bound (ahead_position lx + 1) (2 ^ 16)). lia.
Qed.

Definition keeps_going {A} (P : A → Prop) (m : outcome A) : Prop :=
  m = OutOfFuel ∨ ∃ a, m = Ok a ∧ P a.

Lemma no_end_eatWhitespace fuel lx :
  no_end lx → keeps_going no_end (eatWhitespace input fuel lx).
Proof.
  revert lx. induction fuel as [|fuel IH]; intros lx Hlx; cbn [eatWhitespace];
    destruct (is_space _); try (by right; eauto); [by left|].
  by apply IH, no_end_readChar.
Qed.

Lemma no_end_read_while test fuel lx acc :
  no_end lx → keeps_going (λ r, no_end r.2) (read_while input test fuel lx acc).
Proof.
  revert lx acc. induction fuel as [|fuel IH]; intros lx acc Hlx; cbn [read_while];
    destruct (test _); try (by right; eauto); [by left|].
  by apply IH, no_end_readChar.
Qed.

Lemma no_end_nextToken fuel prev lx :
  no_end lx →
  keeps_going (λ r, type r.1 ≠ END ∧ no_end r.2) (nextToken input fuel prev lx).
Proof.
  intros Hlx. unfold nextToken.
  destruct (no_end_eatWhitespace fuel lx Hlx) as [->|(lx' & -> & Hlx')]; [by left|].
  cbn [mbind outcome_bind]. clear dependent lx. unfold scan_token. cbv zeta.
  pose proof (no_end_readChar _ Hlx'). pose proof (no_end_readChar _ H).
  repeat match goal with
  | |- keeps_going _ (if Ascii.eqb (curr_ch lx') NUL then _ else _) =>
      rewrite (proj2 (Ascii.eqb_neq _ _)) by apply Hlx'
  | |- keeps_going _ (if isLetter _ then _ else _) =>
      destruct (isLetter lx');
        [destruct (no_end_read_while isLetter fuel lx' [] Hlx') as [->|(r & -> & Hr)];
           [by left|right; eexists; split; [done|]; split;
             [unfold getStringType; simpl; by case_decide|done]]|]
  | |- keeps_going _ (if isDigit _ then _ else _) =>
      destruct (isDigit lx');
        [destruct (no_end_read_while isDigit fuel lx' [] Hlx') as [->|(r & -> & Hr)];
           [by left|right; eexists; done]|]
  | |- keeps_going _ (if ?b then _ else _) => destruct b
  end; right; eexists; done.
Qed.

Lemma no_end_collect fuel prev lx :
  no_end lx → collect_tokens input fuel prev lx = OutOfFuel.
Proof.
  revert prev lx. induction fuel as [|fuel IH]; intros prev lx Hlx; cbn [collect_tokens];
    match goal with
    | |- context [nextToken input ?f prev lx] =>
        destruct (no_end_nextToken f prev lx Hlx) as [->|([t lx'] & -> & Ht & Hlx')]
    end; try done; cbn [mbind outcome_bind]; rewrite decide_False by done; [done|].
  by rewrite IH.
Qed.
End wrap.

(** An input longer than the 16-bit positions, with no NUL among the
    characters they address, keeps the lexer reading forever: the position
    wraps around and the end of the input is never seen. *)
Theorem lex_diverges input fuel :
  MAX_INPUT < zlen input → NUL ∉ take (Z.to_nat 65536) input →
  populateTokens fuel input = OutOfFuel.
Proof.
  intros Hlong Hnul. apply no_end_collect; [done..|].
  assert (0 ≤ 0 ≤ MAX_INPUT) by done.
  split; [done|]. by apply (no_end_peek input Hlong Hnul (mkLexer (u16 (-1)) 0 NUL)).
Qed.

Definition long_input : text := replicate (Z.to_nat 65536) "a"%char.
Lemma lex_diverges_witness : populateTokens 100 long_input = OutOfFuel.
Proof.
  refine (lex_diverges long_input 100 _ _); [by_compute|].
  unfold long_input. rewrite take_replicate. intros H%elem_of_replicate_inv. discriminate H.
Defined.
