(* ===== verification/Parser.v ===== *)
(** * Parser: the SQL expression parser ([sql/parser.hpp], [sql/parser.cpp],
    [sql/sql_expression.hpp])

    A Pratt parser over the tokens of the lexer. The state of the C++ object
    is the vector of tokens, which never changes once the constructor has
    filled it, and an [int] position of the last token consumed, -1 at the
    start; the functions here thread the position. *)
From S2P Require Import Prelude Lexer.

Set Warnings "-register-all".

(** ** The syntax trees *)

Inductive SqlExpr :=
  | SqlBinaryExpr (left : SqlExpr) (op : text) (right : SqlExpr)
  | SqlIdentifier (identifier : text)
  | SqlSelect (table_name : text) (projection : list SqlExpr) (selection : option SqlExpr).

Fixpoint toString (e : SqlExpr) : text :=
  match e with
  | SqlBinaryExpr l op r => toString l ++ op ++ toString r
  | SqlIdentifier identifier => identifier
  | SqlSelect _ projection selection =>
      str "SELECT " ++ concat ((λ e, toString e ++ str ", ") <$> projection)
        ++ match selection with Some e => str "WHERE " ++ toString e | None => str " " end
  end.

Definition message (prefix : string) (literal : text) : exn :=
  RuntimeError (prefix ++ String.string_of_list_ascii literal)%string.

(** ** The code *)

Definition precedence_of (t : TokenType) : Z :=
  match t with
  | EQUALS | GT_EQ | LT_EQ | LT | GT => 1
  | PLUS | MINUS => 2
  | SLASH | ASTERISK => 3
  | LPAREN => 4
  | _ => 0
  end.

Definition is_operator (t : TokenType) : bool :=
  match t with
  | PLUS | MINUS | ASTERISK | SLASH | EQUALS | LT | GT | GT_EQ | LT_EQ => true
  | _ => false
  end.

Section parser.
Context (tokens : list Token).

(** The position returned and the new position. *)
Definition nextTokenPos (position : Z) : Z * Z :=
  if position <? zlen tokens then (position + 1, position + 1) else (-1, position).

Definition peekTokenPos (position : Z) : Z :=
  if position + 1 <? zlen tokens then position + 1 else -1.

(** [tokens.at(nextTokenPos())]. *)
Definition next_token (position : Z) : outcome (Token * Z) :=
  let '(i, position) := nextTokenPos position in
  tok ← vec_at tokens i; Ok (tok, position).

Definition nextPrecedence (position : Z) : outcome Z :=
  let pos := peekTokenPos position in
  if pos =? -1 then Ok 0
  else next_tok ← vec_at tokens pos; Ok (precedence_of (type next_tok)).

Fixpoint projection_loop (fuel : nat) (plist : list SqlExpr) (position : Z)
    : outcome (list SqlExpr * Z) :=
  peek ← vec_at tokens (peekTokenPos position);
  if decide (type peek = COMMA) then
    match fuel with
    | O => OutOfFuel
    | S fuel =>
        let '(_, position) := nextTokenPos position in
        r ← next_token position;
        projection_loop fuel (plist ++ [SqlIdentifier (literal r.1)]) r.2
    end
  else Ok (plist, position).

Definition populateProjectionList (fuel : nat) (plist : list SqlExpr) (position : Z)
    : outcome (list SqlExpr * Z) :=
  peek ← vec_at tokens (peekTokenPos position);
  if negb (bool_decide (type peek = ASTERISK)) && negb (bool_decide (type peek = IDENTIFIER)) then
    Throw (message "Projection needs to start with identifier or *, but started with "
             (literal peek))
  else
    r ← next_token position;
    projection_loop fuel (plist ++ [SqlIdentifier (literal r.1)]) r.2.

(** The functions that call [parse] take it as an argument; [parse] itself
    closes the recursion, with fuel. *)
Section with_parse.
Context (parse : Z → Z → outcome (SqlExpr * Z)).

Definition parseSelectStatement (fuel : nat) (position : Z) : outcome (SqlExpr * Z) :=
  _ ← vec_at tokens position;
  r ← populateProjectionList fuel [] position;
  let '(projection, position) := r in
  r ← next_token position;
  let '(from, position) := r in
  if decide (literal from ≠ str "FROM") then
    near ← vec_at tokens position;
    Throw (message "Invalid SELECT statement near: " (literal near))
  else
    r ← next_token position;
    let '(table, position) := r in
    where_follows ←
      (if peekTokenPos position =? -1 then Ok false
       else tok ← vec_at tokens (peekTokenPos position);
            Ok (bool_decide (literal tok = str "WHERE")));
    if (where_follows : bool) then
      let '(_, position) := nextTokenPos position in
      r ← parse 0 position;
      Ok (SqlSelect (literal table) projection (Some r.1), r.2)
    else Ok (SqlSelect (literal table) projection None, position).

Definition parsePrefix (fuel : nat) (position : Z) : outcome (SqlExpr * Z) :=
  r ← next_token position;
  let '(tok, position) := r in
  match type tok with
  | IDENTIFIER | INT => Ok (SqlIdentifier (literal tok), position)
  | LPAREN =>
      r ← parse 0 position;
      Ok (r.1, (nextTokenPos r.2).2)
  | KEYWORD => parseSelectStatement fuel position
  | _ => Throw (RuntimeError "Unsupported prefix token")
  end.

Definition parseInfix (left : SqlExpr) (precedence position : Z) : outcome (SqlExpr * Z) :=
  tok ← vec_at tokens (peekTokenPos position);
  if is_operator (type tok) then
    let '(_, position) := nextTokenPos position in
    r ← parse precedence position;
    Ok (SqlBinaryExpr left (literal tok) r.1, r.2)
  else Throw (RuntimeError "Unsupported infix token").

(** [while (nextPrecedence() > precedence)]. *)
Fixpoint infix_loop (fuel : nat) (precedence : Z) (expr : SqlExpr) (position : Z)
    : outcome (SqlExpr * Z) :=
  next ← nextPrecedence position;
  if precedence <? next then
    match fuel with
    | O => OutOfFuel
    | S fuel =>
        r ← parseInfix expr next position;
        infix_loop fuel precedence r.1 r.2
    end
  else Ok (expr, position).
End with_parse.

Fixpoint parse (fuel : nat) (precedence position : Z) : outcome (SqlExpr * Z) :=
  match fuel with
  | O => OutOfFuel
  | S fuel =>
      r ← parsePrefix (parse fuel) fuel position;
      infix_loop (parse fuel) fuel precedence r.1 r.2
  end.
End parser.

(** One nested call per token, from the position before the first to the one
    past the last. *)
Definition parse_fuel (tokens : list Token) : nat := S (S (length tokens)).

(** [Parser(lexer).parse()]. *)
Definition parse_tokens (tokens : list Token) : outcome SqlExpr :=
  r ← parse tokens (parse_fuel tokens) 0 (-1); Ok r.1.
Definition parse_sql (input : text) : outcome SqlExpr :=
  tokens ← lex input; parse_tokens tokens.

Example parse_example :
  parse_sql (str "SELECT a, b FROM t WHERE x + 2 * (y - z) - 1 = w")
  = Ok (SqlSelect (str "t") [SqlIdentifier (str "a"); SqlIdentifier (str "b")]
      (Some (SqlBinaryExpr
        (SqlBinaryExpr
          (SqlBinaryExpr (SqlIdentifier (str "x")) (str "+")
            (SqlBinaryExpr (SqlIdentifier (str "2")) (str "*")
              (SqlBinaryExpr (SqlIdentifier (str "y")) (str "-") (SqlIdentifier (str "z")))))
          (str "-") (SqlIdentifier (str "1")))
        (str "=") (SqlIdentifier (str "w"))))).
Proof. vm_compute. reflexivity. Qed.

(** ** The language of the parser *)

(** The precedence of what follows. *)
Definition follow (s : list Token) : Z :=
  match s with [] => 0 | t :: _ => precedence_of (type t) end.

(** [closes s s']: what stands for the right parenthesis at the start of [s],
    with [s'] after it. In the grammar it is an [RPAREN]. The parser takes any
    token that cannot continue the expression, or the end of the tokens. *)
Definition closes_strict (s s' : list Token) : Prop :=
  ∃ rp, type rp = RPAREN ∧ s = rp :: s'.
Definition closes_lenient (s s' : list Token) : Prop :=
  (∃ rp, precedence_of (type rp) = 0 ∧ s = rp :: s') ∨ (s = [] ∧ s' = []).

(** The columns after the first one: any tokens, a comma before each. *)
Inductive more_columns : list SqlExpr → list Token → list Token → Prop :=
  | more_columns_nil s : more_columns [] s s
  | more_columns_cons comma c cols s s' :
      type comma = COMMA → more_columns cols s s' →
      more_columns (SqlIdentifier (literal c) :: cols) (comma :: c :: s) s'.

(** What [SELECT columns FROM table] reads: the first token of the columns is
    an identifier or an asterisk; FROM is recognised by its text. *)
Inductive select_from : list SqlExpr → Token → list Token → list Token → Prop :=
  | select_from_intro kw c cols from table s s' :
      type kw = KEYWORD → type c = ASTERISK ∨ type c = IDENTIFIER →
      more_columns cols s (from :: table :: s') → type from ≠ COMMA → literal from = str "FROM" →
      select_from (SqlIdentifier (literal c) :: cols) table (kw :: c :: s) s'.

Definition where_follows (s : list Token) : Prop :=
  match s with t :: _ => literal t = str "WHERE" | [] => False end.

(** [denotes closes prec e s s']: the tokens of [s] up to [s'] are the
    expression [e] built from operators that bind tighter than [prec], all of
    them left associative. A SELECT statement is an expression like a name; the selection
    after WHERE goes on for as long as an operator follows. *)
Inductive denotes (closes : list Token → list Token → Prop)
    : Z → SqlExpr → list Token → list Token → Prop :=
  | denotes_atom prec tok s :
      type tok = IDENTIFIER ∨ type tok = INT →
      denotes closes prec (SqlIdentifier (literal tok)) (tok :: s) s
  | denotes_paren prec e lp s s1 s2 :
      type lp = LPAREN → denotes closes 0 e s s1 → closes s1 s2 →
      denotes closes prec e (lp :: s) s2
  | denotes_binary prec l op r s s1 s2 :
      is_operator (type op) → prec < precedence_of (type op) →
      denotes closes (precedence_of (type op) - 1) l s (op :: s1) →
      denotes closes (precedence_of (type op)) r s1 s2 →
      denotes closes prec (SqlBinaryExpr l (literal op) r) s s2
  | denotes_select prec cols table s s' :
      select_from cols table s s' → ¬ where_follows s' →
      denotes closes prec (SqlSelect (literal table) cols None) s s'
  | denotes_where prec cols table wh e s s1 s2 :
      select_from cols table s (wh :: s1) → literal wh = str "WHERE" →
      denotes closes 0 e s1 s2 → follow s2 = 0 →
      denotes closes prec (SqlSelect (literal table) cols (Some e)) s s2.

Lemma closes_strict_lenient s s' : closes_strict s s' → closes_lenient s s'.
Proof. intros (rp & Hrp & ->). left. exists rp. by rewrite Hrp. Qed.

Lemma denotes_mono (closes closes' : list Token → list Token → Prop) prec e s s' :
  (∀ s s', closes s s' → closes' s s') →
  denotes closes prec e s s' → denotes closes' prec e s s'.
Proof. intros Hc. induction 1; eauto using denotes. Qed.

(** A smaller context only forbids more. *)
Lemma denotes_weaken closes prec prec' e s s' :
  prec' ≤ prec → denotes closes prec e s s' → denotes closes prec' e s s'.
Proof. destruct 2; econstructor; eauto; lia. Qed.

Lemma closes_lenient_length s s' : closes_lenient s s' → (length s' ≤ length s)%nat.
Proof. intros [(? & _ & ->)|[-> ->]]; simpl; lia. Qed.

Lemma closes_lenient_follow s s' : closes_lenient s s' → follow s = 0.
Proof. by intros [(? & ? & ->)|[-> ->]]. Qed.

Lemma more_columns_length cols s s' :
  more_columns cols s s' → (length s' ≤ length s)%nat.
Proof. induction 1; simpl; lia. Qed.

Lemma select_from_length cols table s s' :
  select_from cols table s s' → (length s' + 4 ≤ length s)%nat.
Proof. destruct 1 as [? ? ? ? ? ? ? ? ? Hc%more_columns_length]. simpl in *. lia. Qed.

Lemma denotes_length prec e s s' :
  denotes closes_lenient prec e s s' → (length s' < length s)%nat.
Proof.
  induction 1 as [|? ? ? ? ? ? ? _ ? Hc%closes_lenient_length| |? ? ? ? ? Hf%select_from_length|? ? ? ? ? ? ? ? Hf%select_from_length];
    simpl in *; lia.
Qed.

(** ** The parser on a position *)

Section correct.
Context (tokens : list Token).

Definition at_pos (p : Z) (s : list Token) : Prop :=
  -1 ≤ p ≤ zlen tokens ∧ drop (Z.to_nat (p + 1)) tokens = s.

Lemma at_nil p : at_pos p [] → zlen tokens ≤ p + 1.
Proof.
  intros [Hp Hd]. apply (f_equal length) in Hd. rewrite length_drop in Hd.
  unfold zlen in *. simpl in Hd. lia.
Qed.

Lemma at_cons p t s :
  at_pos p (t :: s) → p + 1 < zlen tokens ∧ vec_at tokens (p + 1) = Ok t ∧ at_pos (p + 1) s.
Proof.
  intros [Hp Hd]. unfold zlen in *. pose proof (f_equal length Hd) as Hl.
  rewrite length_drop in Hl. simpl in Hl. split_and!; [lia| |].
  - unfold vec_at. rewrite (proj2 (Z.ltb_ge _ _)) by lia.
    by rewrite <- (Nat.add_0_r (Z.to_nat (p + 1))), <- lookup_drop, Hd.
  - split; [unfold zlen; lia|].
    replace (Z.to_nat (p + 1 + 1)) with (Z.to_nat (p + 1) + 1)%nat by lia.
    by rewrite <- drop_drop, Hd.
Qed.

Lemma peek_nil p : at_pos p [] → peekTokenPos tokens p = -1.
Proof. intros Hp%at_nil. unfold peekTokenPos. by rewrite (proj2 (Z.ltb_ge _ _)). Qed.

Lemma peek_cons p t s :
  at_pos p (t :: s) →
  peekTokenPos tokens p = p + 1 ∧ vec_at tokens (p + 1) = Ok t ∧ p + 1 ≠ -1.
Proof.
  intros Hp. pose proof (proj1 Hp). apply at_cons in Hp as (Hp & Ht & _). unfold peekTokenPos.
  rewrite (proj2 (Z.ltb_lt _ _)) by done. split_and!; [done..|lia].
Qed.

Lemma nextPos_cons p t s : at_pos p (t :: s) → nextTokenPos tokens p = (p + 1, p + 1).
Proof.
  intros (Hp & _ & _)%at_cons. unfold nextTokenPos. by rewrite (proj2 (Z.ltb_lt _ _)) by lia.
Qed.

Lemma next_cons p t s :
  at_pos p (t :: s) → next_token tokens p = Ok (t, p + 1) ∧ at_pos (p + 1) s.
Proof.
  intros Hp. unfold next_token. rewrite (nextPos_cons p t s) by done.
  apply at_cons in Hp as (_ & -> & Hp). done.
Qed.

Lemma nextPos_nil p : at_pos p [] → at_pos (nextTokenPos tokens p).2 [].
Proof.
  intros Hp. pose proof (at_nil _ Hp). destruct Hp as [Hp Hd]. unfold nextTokenPos.
  case_bool; [|done]. simpl. split; [lia|].
  unfold zlen in *. by rewrite drop_ge by lia.
Qed.

Lemma next_nil p : at_pos p [] → next_token tokens p = Throw OutOfRange.
Proof.
  intros Hp. pose proof (at_nil _ Hp). unfold next_token, nextTokenPos.
  destruct (p <? zlen tokens) eqn:?; [|done]. unfold vec_at, zlen in *.
  case_bool; [done|]. by rewrite lookup_ge_None_2 by lia.
Qed.

Lemma nextPrecedence_at p s : at_pos p s → nextPrecedence tokens p = Ok (follow s).
Proof.
  intros Hp. unfold nextPrecedence. destruct s as [|t s].
  - by rewrite peek_nil.
  - destruct (peek_cons _ _ _ Hp) as (-> & Ht & Hn).
    rewrite (proj2 (Z.eqb_neq _ _)) by done. by rewrite Ht.
Qed.

Lemma closes_next p s s' :
  at_pos p s → closes_lenient s s' → at_pos (nextTokenPos tokens p).2 s'.
Proof.
  intros Hp [(rp & _ & ->)|[-> ->]]; [|by apply nextPos_nil].
  rewrite (nextPos_cons p rp s') by done. by apply (next_cons p rp s').
Qed.

Lemma at_start : at_pos (-1) tokens.
Proof. split; [unfold zlen; lia|]. done. Qed.

(** *** What the grammar derives is parsed *)

Lemma infix_loop_done parse k ctx e p s :
  at_pos p s → follow s ≤ ctx → infix_loop tokens parse k ctx e p = Ok (e, p).
Proof.
  intros Hp Hs. destruct k; cbn [infix_loop]; rewrite (nextPrecedence_at _ _ Hp);
    cbn [mbind outcome_bind]; by rewrite (proj2 (Z.ltb_ge _ _)) by done.
Qed.

Lemma projection_loop_at cols s t s' :
  more_columns cols s (t :: s') → type t ≠ COMMA →
  ∀ plist p fuel, at_pos p s → (length s ≤ fuel + length s' + 1)%nat →
  ∃ p', at_pos p' (t :: s') ∧ projection_loop tokens fuel plist p = Ok (plist ++ cols, p').
Proof.
  remember (t :: s') as s1 eqn:Hs1. intros Hc Ht.
  induction Hc as [s|comma c cols s s1 Hcomma Hc IH]; intros plist p fuel Hp Hf.
  - subst s. exists p. destruct (peek_cons _ _ _ Hp) as (Hpeek & Hat & _).
    destruct fuel; cbn [projection_loop]; rewrite Hpeek, Hat; cbn [mbind outcome_bind];
      by rewrite decide_False, app_nil_r by done.
  - destruct (peek_cons _ _ _ Hp) as (Hpeek & Hat & _).
    destruct (next_cons _ _ _ Hp) as [_ Hp1]. destruct (next_cons _ _ _ Hp1) as [Hn Hp2].
    pose proof (more_columns_length _ _ _ Hc) as Hl. rewrite Hs1 in Hl. simpl in Hl, Hf.
    destruct fuel as [|fuel]; [lia|].
    destruct (IH Hs1 (plist ++ [SqlIdentifier (literal c)]) (p + 1 + 1) fuel)
      as (p' & Hp' & Hloop); [done|lia|].
    exists p'. split; [done|]. cbn [projection_loop]. rewrite Hpeek, Hat.
    cbn [mbind outcome_bind]. rewrite decide_True, (nextPos_cons _ _ _ Hp), Hn by done.
    cbn [mbind outcome_bind fst snd]. by rewrite Hloop, <- app_assoc.
Qed.

Lemma populateProjectionList_at c cols s t s' p fuel :
  type c = ASTERISK ∨ type c = IDENTIFIER → more_columns cols s (t :: s') → type t ≠ COMMA →
  at_pos p (c :: s) → (length s ≤ fuel + length s' + 1)%nat →
  ∃ p', at_pos p' (t :: s') ∧
    populateProjectionList tokens fuel [] p = Ok (SqlIdentifier (literal c) :: cols, p').
Proof.
  intros Hc Hcols Ht Hp Hf. unfold populateProjectionList.
  destruct (peek_cons _ _ _ Hp) as (-> & -> & _). destruct (next_cons _ _ _ Hp) as [-> Hp1].
  cbn [mbind outcome_bind].
  destruct (projection_loop_at cols s t s' Hcols Ht [SqlIdentifier (literal c)] (p + 1) fuel)
    as (p' & Hp' & Hloop); [done..|]. exists p'. split; [done|].
  destruct Hc as [-> | ->]; simpl; apply Hloop.
Qed.

(** A keyword and what [select_from] reads after it lead to the test for WHERE. *)
Lemma parsePrefix_select parse fuel cols table s s' p :
  select_from cols table s s' → at_pos p s → (length s ≤ fuel + length s')%nat →
  ∃ p', at_pos p' s'
    ∧ (¬ where_follows s' → parsePrefix tokens parse fuel p = Ok (SqlSelect (literal table) cols None, p'))
    ∧ (∀ wh s1, s' = wh :: s1 → literal wh = str "WHERE" →
         parsePrefix tokens parse fuel p
         = (r ← parse 0 (p' + 1); Ok (SqlSelect (literal table) cols (Some r.1), r.2))).
Proof.
  intros Hsf Hp Hf. destruct Hsf as [kw c cols from table s s' Hkw Hc Hcols Hcomma Hfrom].
  destruct (next_cons _ _ _ Hp) as [Hn Hp0]. pose proof (at_cons _ _ _ Hp) as (_ & Hat & _).
  destruct (populateProjectionList_at c cols s from (table :: s') (p + 1) fuel)
    as (p1 & Hp1 & Hproj); [done..|simpl in *; lia|].
  destruct (next_cons _ _ _ Hp1) as [Hn1 Hp2]. destruct (next_cons _ _ _ Hp2) as [Hn2 Hp3].
  exists (p1 + 1 + 1). split; [done|].
  unfold parsePrefix. rewrite Hn. cbn [mbind outcome_bind]. rewrite Hkw.
  unfold parseSelectStatement. rewrite Hat. cbn [mbind outcome_bind]. rewrite Hproj.
  cbn [mbind outcome_bind]. rewrite Hn1. cbn [mbind outcome_bind].
  rewrite decide_False by (by intros []). rewrite Hn2. cbn [mbind outcome_bind]. split.
  - intros Hw. destruct s' as [|t s']; [by rewrite (peek_nil _ Hp3)|].
    destruct (peek_cons _ _ _ Hp3) as (-> & Ht & Hne). rewrite (proj2 (Z.eqb_neq _ _)), Ht by done.
    cbn [mbind outcome_bind]. by rewrite bool_decide_false by done.
  - intros wh s1 -> Hw. destruct (peek_cons _ _ _ Hp3) as (-> & Ht & Hne).
    rewrite (proj2 (Z.eqb_neq _ _)), Ht by done. cbn [mbind outcome_bind].
    rewrite bool_decide_true by done. by rewrite (nextPos_cons _ _ _ Hp3).
Qed.

(** The loop takes [j] turns from the prefix of [e] to the end of [e]. *)
Definition parse_reaches (fuel : nat) (ctx p : Z) (j : nat) (e : SqlExpr) (p' : Z) : Prop :=
  ∀ k, (r ← parsePrefix tokens (parse tokens fuel) fuel p;
        infix_loop tokens (parse tokens fuel) (j + k) ctx r.1 r.2)
       = infix_loop tokens (parse tokens fuel) k ctx e p'.

Lemma parse_reaches_parse fuel ctx p j e p' s' :
  parse_reaches fuel ctx p j e p' → (j ≤ fuel)%nat → at_pos p' s' → follow s' ≤ ctx →
  parse tokens (S fuel) ctx p = Ok (e, p').
Proof.
  intros Hr Hj Hp Hs. cbn [parse]. specialize (Hr (fuel - j)%nat).
  rewrite Nat.add_comm, Nat.sub_add in Hr by done. rewrite Hr. by eapply infix_loop_done.
Qed.

Lemma denotes_reaches prec e s s' :
  denotes closes_lenient prec e s s' →
  ∀ p fuel ctx, at_pos p s → ctx ≤ prec → follow s' ≤ prec + 1 →
    (length s ≤ fuel + length s')%nat →
    ∃ j p', at_pos p' s' ∧ (j + length s' < length s)%nat ∧ parse_reaches fuel ctx p j e p'.
Proof.
  induction 1 as [prec tok s Htok|prec e lp s s1 s2 Hlp He IH Hc|prec l op r s s1 s2 Hop Hprec Hl IHl Hr IHr
    |prec cols table s s' Hsf Hw|prec cols table wh e s s1 s2 Hsf Hw He IH Hs2];
    intros p fuel ctx Hp Hctx Hfollow Hfuel.
  - destruct (next_cons _ _ _ Hp) as [Hn Hp']. exists 0%nat, (p + 1). split_and!; [done|simpl; lia|].
    intros k. unfold parsePrefix. rewrite Hn. cbn [mbind outcome_bind].
    by destruct Htok as [-> | ->].
  - destruct (next_cons _ _ _ Hp) as [Hn Hp']. pose proof (closes_lenient_length _ _ Hc) as Hl.
    pose proof (denotes_length _ _ _ _ He). simpl in Hfuel.
    destruct fuel as [|fuel]; [lia|].
    destruct (IH (p + 1) fuel 0) as (j & p1 & Hp1 & Hj & Hreach);
      [done|lia|by rewrite (closes_lenient_follow _ _ Hc)|lia|].
    exists 0%nat, (nextTokenPos tokens p1).2. split_and!; [by apply closes_next with s1|simpl; lia|].
    intros k. unfold parsePrefix at 1. rewrite Hn. cbn [mbind outcome_bind]. rewrite Hlp.
    rewrite (parse_reaches_parse fuel 0 _ j e p1 s1) by
      (done || lia || by rewrite (closes_lenient_follow _ _ Hc)). done.
  - pose proof (denotes_length _ _ _ _ Hl). pose proof (denotes_length _ _ _ _ Hr).
    simpl length in *.
    destruct (IHl p fuel ctx) as (jl & pl & Hpl & Hjl & Hreach); [done|lia|simpl; lia|lia|].
    destruct fuel as [|fuel]; [lia|].
    destruct (peek_cons _ _ _ Hpl) as (Hpeek & Hat & _).
    destruct (next_cons _ _ _ Hpl) as [_ Hpl'].
    destruct (IHr (pl + 1) fuel (precedence_of (type op))) as (jr & pr & Hpr & Hjr & Hreach');
      [done|lia..|].
    exists (S jl), pr. split_and!; [done|lia|]. intros k.
    replace (S jl + k)%nat with (jl + S k)%nat by lia. rewrite Hreach. cbn [infix_loop].
    rewrite (nextPrecedence_at _ _ Hpl). cbn [mbind outcome_bind follow].
    rewrite (proj2 (Z.ltb_lt _ _)) by lia.
    unfold parseInfix at 1. rewrite Hpeek, Hat, (nextPos_cons _ _ _ Hpl). cbn [mbind outcome_bind].
    destruct (is_operator (type op)); [|done].
    by rewrite (parse_reaches_parse fuel _ _ jr r pr s2) by (done || lia).
  - pose proof (select_from_length _ _ _ _ Hsf).
    destruct (parsePrefix_select (parse tokens fuel) fuel _ _ _ _ _ Hsf Hp ltac:(simpl; lia)) as (p' & Hp' & Hpre & _).
    exists 0%nat, p'. split_and!; [done|lia|]. intros k. by rewrite Hpre.
  - pose proof (select_from_length _ _ _ _ Hsf). pose proof (denotes_length _ _ _ _ He). simpl length in *.
    destruct (parsePrefix_select (parse tokens fuel) fuel _ _ _ _ _ Hsf Hp ltac:(simpl; lia)) as (p' & Hp' & _ & Hpre).
    destruct (next_cons _ _ _ Hp') as [_ Hp1]. destruct fuel as [|fuel]; [lia|].
    destruct (IH (p' + 1) fuel 0) as (j & p2 & Hp2 & Hj & Hreach); [done|lia..|].
    exists 0%nat, p2. split_and!; [done|lia|]. intros k. rewrite (Hpre wh s1) by done.
    by rewrite (parse_reaches_parse fuel 0 _ j e p2 s2) by (done || lia).
Qed.

Lemma denotes_parse prec e s s' p fuel :
  denotes closes_lenient prec e s s' → at_pos p s → follow s' ≤ prec →
  (length s < fuel + length s')%nat →
  ∃ p', at_pos p' s' ∧ parse tokens fuel prec p = Ok (e, p').
Proof.
  intros Hd Hp Hf Hl. pose proof (denotes_length _ _ _ _ Hd). destruct fuel as [|fuel]; [lia|].
  destruct (denotes_reaches _ _ _ _ Hd p fuel prec) as (j & p' & Hp' & Hj & Hr); [done|lia..|].
  exists p'. split; [done|]. apply parse_reaches_parse with j s'; done || lia.
Qed.

(** *** What is parsed is derived by the grammar *)

Lemma follow_bounds s : 0 ≤ follow s ≤ 4.
Proof. destruct s as [|t s]; simpl; [lia|]. destruct (type t); simpl; lia. Qed.

Definition parse_sound (fuel : nat) : Prop :=
  ∀ prec p s e p', 0 ≤ prec → at_pos p s → parse tokens fuel prec p = Ok (e, p') →
  ∃ s', at_pos p' s' ∧ denotes closes_lenient prec e s s' ∧ follow s' ≤ prec.

Lemma projection_loop_sound fuel plist p s l p' :
  at_pos p s → projection_loop tokens fuel plist p = Ok (l, p') →
  ∃ cols t s', l = plist ++ cols ∧ more_columns cols s (t :: s') ∧ type t ≠ COMMA ∧ at_pos p' (t :: s').
Proof.
  revert plist p s. induction fuel as [|fuel IH]; intros plist p s Hp; cbn [projection_loop];
    (destruct s as [|t s]; [by rewrite (peek_nil _ Hp)|]);
    destruct (peek_cons _ _ _ Hp) as (-> & -> & _); cbn [mbind outcome_bind]; case_decide as Hcomma; try done.
  1, 3: intros [= <- <-]; exists [], t, s; rewrite app_nil_r; split_and!; try done; constructor.
  destruct (next_cons _ _ _ Hp) as [_ Hp1]. rewrite (nextPos_cons _ _ _ Hp).
  destruct s as [|c s]; [by rewrite (next_nil _ Hp1)|].
  destruct (next_cons _ _ _ Hp1) as [-> Hp2]. cbn [mbind outcome_bind fst snd]. intros Hl.
  destruct (IH _ _ _ Hp2 Hl) as (cols & t' & s' & -> & Hc & ? & ?).
  exists (SqlIdentifier (literal c) :: cols), t', s'. split_and!; [by rewrite <- app_assoc|by constructor|done..].
Qed.

Lemma populateProjectionList_sound fuel p s l p' :
  at_pos p s → populateProjectionList tokens fuel [] p = Ok (l, p') →
  ∃ c cols s1 t s', s = c :: s1 ∧ l = SqlIdentifier (literal c) :: cols ∧ (type c = ASTERISK ∨ type c = IDENTIFIER)
    ∧ more_columns cols s1 (t :: s') ∧ type t ≠ COMMA ∧ at_pos p' (t :: s').
Proof.
  intros Hp. unfold populateProjectionList. destruct s as [|c s]; [by rewrite (peek_nil _ Hp)|].
  destruct (peek_cons _ _ _ Hp) as (-> & -> & _). destruct (next_cons _ _ _ Hp) as [-> Hp1].
  cbn [mbind outcome_bind fst snd]. destruct (negb _ && negb _) eqn:Hstart; [done|]. intros Hl.
  destruct (projection_loop_sound _ _ _ _ _ _ Hp1 Hl) as (cols & t & s' & -> & ? & ? & ?).
  exists c, cols, s, t, s'. split_and!; try done.
  apply andb_false_iff in Hstart as [Hs|Hs]; apply negb_false_iff, bool_decide_eq_true_1 in Hs; auto.
Qed.

Lemma parseSelectStatement_sound fuel kw s p e p' :
  parse_sound fuel → type kw = KEYWORD → at_pos p s → (∃ q, vec_at tokens p = Ok q) →
  parseSelectStatement tokens (parse tokens fuel) fuel p = Ok (e, p') →
  ∃ s', at_pos p' s' ∧ ∀ prec, denotes closes_lenient prec e (kw :: s) s'.
Proof.
  intros IH Hkw Hp [q Hq]. unfold parseSelectStatement. rewrite Hq. cbn [mbind outcome_bind]. intros Hb.
  apply bind_Ok_inv in Hb as ([l p1] & Hl & Hb).
  destruct (populateProjectionList_sound _ _ _ _ _ Hp Hl) as (c & cols & s1 & from & s2 & -> & -> & Hc & Hcols & Hcomma & Hp1).
  destruct (next_cons _ _ _ Hp1) as [Hn1 Hp2]. rewrite Hn1 in Hb. cbn [mbind outcome_bind] in Hb.
  destruct (decide (literal from ≠ str "FROM")) as [|Hfrom%dec_stable]; [by destruct (vec_at tokens (p1 + 1))|].
  destruct s2 as [|table s2]; [by rewrite (next_nil _ Hp2) in Hb|].
  destruct (next_cons _ _ _ Hp2) as [Hn2 Hp3]. rewrite Hn2 in Hb. cbn [mbind outcome_bind] in Hb.
  assert (select_from (SqlIdentifier (literal c) :: cols) table (kw :: c :: s1) s2) as Hsf by (by econstructor).
  destruct s2 as [|wh s2].
  { rewrite (peek_nil _ Hp3) in Hb. cbn in Hb. injection Hb as <- <-. exists []. split; [done|]. intros prec. apply denotes_select; auto. }
  destruct (peek_cons _ _ _ Hp3) as (Hpeek & Ht & Hne). rewrite Hpeek, (proj2 (Z.eqb_neq _ _)), Ht in Hb by done.
  cbn [mbind outcome_bind] in Hb. case_bool_decide as Hw.
  - rewrite (nextPos_cons _ _ _ Hp3) in Hb. apply bind_Ok_inv in Hb as ([e1 p5] & Hr & Hb). injection Hb as <- <-.
    destruct (next_cons _ _ _ Hp3) as [_ Hp4].
    destruct (IH 0 (p1 + 1 + 1 + 1) s2 e1 p5) as (s3 & Hp5 & Hd & Hf); [done..|]. exists s3. split; [done|]. intros prec.
    pose proof (follow_bounds s3). eapply denotes_where; [done..|lia].
  - injection Hb as <- <-. exists (wh :: s2). split; [done|]. intros prec. by apply denotes_select.
Qed.

Lemma parsePrefix_sound fuel p s e p' :
  parse_sound fuel → at_pos p s →
  parsePrefix tokens (parse tokens fuel) fuel p = Ok (e, p') →
  ∃ s', at_pos p' s' ∧ ∀ prec, denotes closes_lenient prec e s s'.
Proof.
  intros IH Hp. unfold parsePrefix. destruct s as [|t s]; [by rewrite next_nil|].
  destruct (next_cons _ _ _ Hp) as [-> Hp1]. cbn [mbind outcome_bind].
  pose proof (at_cons _ _ _ Hp) as (_ & Hat & _). destruct (type t) eqn:Ht; try done.
  - intros Hs. eapply parseSelectStatement_sound; [done..|by eexists|done].
  - intros [= <- <-]. eauto using denotes.
  - intros [= <- <-]. eauto using denotes.
  - intros Hb. inv_bind. destruct r as [e1 p1].
    destruct (IH 0 (p + 1) s e1 p1) as (s1 & Hp1' & Hd & Hf); [done..|].
    assert (∃ s2, closes_lenient s1 s2) as [s2 Hc].
    { pose proof (follow_bounds s1). destruct s1 as [|rp s2]; [exists []; by right|].
      exists s2. left. exists rp. split; [simpl in *; lia|done]. }
    exists s2. split; [by apply closes_next with s1|]. eauto using denotes.
Qed.

Lemma infix_loop_sound fuel prec s b k e p s1 e' p' :
  parse_sound fuel → 0 ≤ prec →
  at_pos p s1 → denotes closes_lenient b e s s1 → prec ≤ b → follow s1 ≤ b + 1 →
  infix_loop tokens (parse tokens fuel) k prec e p = Ok (e', p') →
  ∃ s', at_pos p' s' ∧ denotes closes_lenient prec e' s s' ∧ follow s' ≤ prec.
Proof.
  intros IH Hprec. revert b e p s1. induction k as [|k IHk]; intros b e p s1 Hp He Hb Hf;
    cbn [infix_loop]; rewrite (nextPrecedence_at _ _ Hp); cbn [mbind outcome_bind].
  { case_bool; [done|]. intros [= <- <-]. exists s1. split_and!; [done| |lia].
    by apply denotes_weaken with b. }
  case_bool.
  2:{ intros [= <- <-]. exists s1. split_and!; [done| |lia]. by apply denotes_weaken with b. }
  destruct s1 as [|op s1]; [simpl in *; lia|]. cbn [follow] in *.
  destruct (peek_cons _ _ _ Hp) as (Hpeek & Hat & _). destruct (next_cons _ _ _ Hp) as [_ Hp1].
  unfold parseInfix at 1. rewrite Hpeek, Hat, (nextPos_cons _ _ _ Hp). cbn [mbind outcome_bind].
  destruct (is_operator (type op)) eqn:Hop; [|done]. intros Hl.
  apply bind_Ok_inv in Hl as ([e1 p2] & Hstep & Hl).
  apply bind_Ok_inv in Hstep as ([e2 p1] & Hr & Hstep). injection Hstep as <- <-.
  destruct (IH (precedence_of (type op)) (p + 1) s1 e2 p1) as (s2 & Hp2 & Hd & Hf2);
    [lia|done|done|].
  apply (IHk (precedence_of (type op) - 1) _ _ s2) in Hl; [done|done| |lia..].
  constructor 3 with s1; [by rewrite Hop|lia| |done]. apply denotes_weaken with b; [lia|done].
Qed.

Lemma parse_sound_all fuel : parse_sound fuel.
Proof.
  induction fuel as [|fuel IH]; intros prec p s e p' Hprec Hp Hparse; [done|].
  cbn [parse] in Hparse. inv_bind. destruct r as [e1 p1].
  destruct (parsePrefix_sound fuel p s e1 p1) as (s1 & Hp1 & Hd); [done..|].
  pose proof (follow_bounds s1).
  eapply (infix_loop_sound fuel prec s (prec + 4)); [done..|apply Hd|lia|lia|done].
Qed.
End correct.

(** ** The parser always answers *)

Section total.
Context (tokens : list Token).
Abbreviation n := (zlen tokens).

(** A result, further on in the tokens, or an exception. *)
Definition settles {A} (p : Z) (m : outcome (A * Z)) : Prop :=
  match m with Ok (_, p') => p < p' ≤ n | Throw _ => True | _ => False end.

Lemma settles_bind {A B} p q (m : outcome (A * Z)) (f : A * Z → outcome (B * Z)) :
  settles q m → (∀ a p', q < p' ≤ n → settles p (f (a, p'))) → settles p (m ≫= f).
Proof. destruct m as [[a p']| | | |]; simpl; auto. Qed.

Lemma settles_weaken {A} p q (m : outcome (A * Z)) : p ≤ q → settles q m → settles p m.
Proof. destruct m as [[a p']| | | |]; simpl; auto; lia. Qed.

Lemma settles_at {A} i p0 (f : Token → outcome (A * Z)) :
  (∀ t, settles p0 (f t)) → settles p0 (vec_at tokens i ≫= f).
Proof. intros Hf. unfold vec_at. case_bool; [done|]. by destruct (tokens !! _); simpl. Qed.

Lemma settles_peek {A} p p0 (f : Token → outcome (A * Z)) :
  -1 ≤ p ≤ n → (∀ t, p + 1 < n → settles p0 (f t)) →
  settles p0 (vec_at tokens (peekTokenPos tokens p) ≫= f).
Proof.
  intros Hp Hf. unfold peekTokenPos, vec_at. destruct (p + 1 <? n) eqn:?; [|done].
  case_bool; [done|]. destruct (tokens !! _); simpl; [apply Hf; lia|done].
Qed.

Lemma settles_next p : -1 ≤ p ≤ n → settles p (next_token tokens p).
Proof.
  intros Hp. unfold next_token, nextTokenPos, vec_at. case_bool; [|done].
  case_bool; [done|]. destruct (tokens !! _); simpl; [lia|done].
Qed.

Lemma nextTokenPos_bounds p : p ≤ n → p ≤ (nextTokenPos tokens p).2 ≤ n.
Proof. intros. unfold nextTokenPos. case_bool; simpl; lia. Qed.

Lemma nextTokenPos_next p :
  p + 1 < n → nextTokenPos tokens p = (p + 1, p + 1).
Proof. intros. unfold nextTokenPos. by rewrite (proj2 (Z.ltb_lt _ _)) by lia. Qed.

Lemma projection_loop_settles fuel plist p p0 :
  -1 ≤ p ≤ n → p0 < p → n - p ≤ Z.of_nat fuel → settles p0 (projection_loop tokens fuel plist p).
Proof.
  revert plist p. induction fuel as [|fuel IH]; intros plist p Hp H0 Hf; cbn [projection_loop];
    (apply settles_peek; [done|]); intros t Ht; (case_decide; [|simpl; lia]); [exfalso; lia|].
  rewrite nextTokenPos_next by done.
  eapply settles_bind; [apply settles_next; lia|]. intros a p' Hp'. apply IH; simpl; lia.
Qed.

Lemma populateProjectionList_settles fuel plist p :
  -1 ≤ p ≤ n → n - p ≤ Z.of_nat fuel → settles p (populateProjectionList tokens fuel plist p).
Proof.
  intros Hp Hf. unfold populateProjectionList. apply settles_peek; [done|]. intros t Ht.
  case_bool; [done|]. eapply settles_bind; [by apply settles_next|].
  intros a p' Hp'. apply projection_loop_settles; simpl; lia.
Qed.

Definition parse_settles (parse : Z → Z → outcome (SqlExpr * Z)) (p : Z) : Prop :=
  ∀ prec q, 0 ≤ prec → p ≤ q ≤ n → settles q (parse prec q).

Lemma parseSelectStatement_settles parse fuel p :
  parse_settles parse p → 0 ≤ p ≤ n → n - p ≤ Z.of_nat fuel →
  settles p (parseSelectStatement tokens parse fuel p).
Proof.
  intros Hparse Hp Hf. unfold parseSelectStatement.
  apply settles_at. intros _.
  eapply settles_bind; [apply populateProjectionList_settles; lia|]. intros plist p1 Hp1.
  eapply settles_bind; [apply settles_next; lia|]. intros from p2 Hp2.
  case_decide; [by apply settles_at|].
  eapply settles_bind; [apply settles_next; lia|]. intros table p3 Hp3.
  destruct (peekTokenPos tokens p3 =? -1) eqn:Hpeek; cbn [mbind outcome_bind]; [simpl; lia|].
  unfold vec_at. case_bool; [done|]. destruct (tokens !! _) as [tok|]; [|done].
  cbn [mbind outcome_bind]. case_bool; [|simpl; lia].
  pose proof (nextTokenPos_bounds p3 ltac:(lia)). destruct (nextTokenPos tokens p3) as [i p4].
  simpl in *. apply settles_bind with p4; [apply Hparse; lia|]. intros e p5 Hp5. simpl. lia.
Qed.

Lemma parsePrefix_settles parse fuel p :
  parse_settles parse (p + 1) → -1 ≤ p ≤ n → n - p - 1 ≤ Z.of_nat fuel →
  settles p (parsePrefix tokens parse fuel p).
Proof.
  intros Hparse Hp Hf. unfold parsePrefix. eapply settles_bind; [by apply settles_next|].
  intros t p1 Hp1. destruct (type t); try done.
  - apply settles_weaken with p1; [lia|]. apply parseSelectStatement_settles; [|lia..].
    intros prec q Hprec Hq. apply Hparse; lia.
  - apply settles_bind with p1; [apply Hparse; lia|]. intros e p2 Hp2.
    pose proof (nextTokenPos_bounds p2 ltac:(lia)). simpl. lia.
Qed.

Lemma infix_loop_settles parse k prec e p p0 :
  parse_settles parse p → 0 ≤ prec → -1 ≤ p ≤ n → p0 < p → n - p ≤ Z.of_nat k →
  settles p0 (infix_loop tokens parse k prec e p).
Proof.
  revert e p. induction k as [|k IH]; intros e p Hparse Hprec Hp H0 Hk; cbn [infix_loop];
    unfold nextPrecedence, peekTokenPos;
    (destruct (p + 1 <? n) eqn:Hlt; [|change (-1 =? -1) with true; cbn [mbind outcome_bind]; case_bool; [exfalso; lia|simpl; lia]]); [exfalso; lia|].
  case_bool; [lia|]. unfold vec_at at 1. case_bool; [done|].
  destruct (tokens !! _) as [t|]; [|done]. cbn [mbind outcome_bind].
  case_bool; [|simpl; lia]. apply settles_bind with p.
  - unfold parseInfix. apply settles_peek; [done|]. intros op Hop. case_bool; [|done].
    rewrite nextTokenPos_next by done.
    pose proof (follow_bounds [op]).
    apply settles_bind with (p + 1); [apply Hparse; simpl in *; lia|]. intros r p1 Hp1. simpl. lia.
  - intros e1 p1 Hp1. apply IH; [|simpl; lia..]. simpl. intros prec' q Hprec' Hq. apply Hparse; lia.
Qed.

Lemma parse_settles_all fuel prec p :
  0 ≤ prec → -1 ≤ p ≤ n → n - p < Z.of_nat fuel → settles p (parse tokens fuel prec p).
Proof.
  revert prec p. induction fuel as [|fuel IH]; intros prec p Hprec Hp Hf; [lia|]. cbn [parse].
  assert (parse_settles (parse tokens fuel) (p + 1)) as Hparse.
  { intros prec' q Hprec' Hq. apply IH; lia. }
  apply settles_bind with p; [apply parsePrefix_settles; [done|lia..]|].
  intros e p1 Hp1. apply infix_loop_settles; [|simpl; lia..]. simpl. intros prec' q Hprec' Hq. apply Hparse; lia.
Qed.
End total.

Lemma parse_tokens_total toks :
  (∃ e, parse_tokens toks = Ok e) ∨ (∃ ex, parse_tokens toks = Throw ex).
Proof.
  unfold parse_tokens.
  assert (settles toks (-1) (parse toks (parse_fuel toks) 0 (-1))) as Hs.
  { apply parse_settles_all; unfold parse_fuel, zlen; lia. }
  destruct (parse toks _ _ _) as [[e p]| | | |]; [| |done..]; simpl; eauto.
Qed.

(** C36: on every input of at most 65535 characters, lexing and parsing
    answer: they return a tree or throw a C++ exception, and never run out of
    the fuel of one call per token. *)
Theorem parse_sql_total input :
  zlen input ≤ MAX_INPUT →
  (∃ e, parse_sql input = Ok e) ∨ (∃ ex, parse_sql input = Throw ex).
Proof.
  intros (toks & Hlex & _)%lex_Ok. unfold parse_sql. rewrite Hlex. apply parse_tokens_total.
Qed.

Lemma parse_sql_total_witness :
  (∃ e, parse_sql sample_query = Ok e) ∨ (∃ ex, parse_sql sample_query = Throw ex).
Proof. apply parse_sql_total. by_compute. Defined.

(** ** The language of the parser, in both directions *)

Lemma parse_tokens_denotes toks e s :
  denotes closes_lenient 0 e toks s → follow s = 0 → parse_tokens toks = Ok e.
Proof.
  intros Hd Hs. unfold parse_tokens.
  destruct (denotes_parse toks 0 e toks s (-1) (parse_fuel toks)) as (p & _ & ->);
    [done|apply at_start|lia|unfold parse_fuel; lia|done].
Qed.

(** C18: the parser returns the tree [e] exactly when the grammar derives [e] from
    a prefix of the tokens that no operator follows. So there is one tree at most,
    comparison binds weaker than sum and sum weaker than product, all of them are left
    associative, a SELECT statement is an expression among others, and the tokens after
    the expression are ignored. In the grammar of the parser the right parenthesis
    may be any token that does not continue the expression, or missing at the end; any
    keyword starts a SELECT statement, and any token is a column after the first, or a table. *)
Theorem parse_tokens_iff toks e :
  parse_tokens toks = Ok e ↔ ∃ s, denotes closes_lenient 0 e toks s ∧ follow s = 0.
Proof.
  split.
  - unfold parse_tokens. intros Hp. inv_bind. destruct r as [e' p].
    destruct (parse_sound_all toks (parse_fuel toks) 0 (-1) toks e' p) as (s & _ & Hd & Hs);
      [done|apply at_start|done|].
    exists s. split; [done|]. pose proof (follow_bounds s). lia.
  - intros (s & Hd & Hs). by eapply parse_tokens_denotes.
Qed.

Definition sample_tokens : list Token :=
  [mkToken LPAREN (str "("); mkToken IDENTIFIER (str "a"); mkToken PLUS (str "+");
   mkToken INT (str "1"); mkToken RPAREN (str ")"); mkToken ASTERISK (str "*");
   mkToken IDENTIFIER (str "b"); mkToken SEMICOLON (str ";")].
Definition sample_expr : SqlExpr :=
  SqlBinaryExpr (SqlBinaryExpr (SqlIdentifier (str "a")) (str "+") (SqlIdentifier (str "1")))
    (str "*") (SqlIdentifier (str "b")).

(** C20: the text of a SELECT statement or of an expression of the precedence grammar,
    with its parentheses balanced, is lexed and parsed to its tree. *)
Theorem parse_sql_expr input toks e :
  zlen input ≤ MAX_INPUT → renders [] input toks → denotes closes_strict 0 e toks [] →
  parse_sql input = Ok e.
Proof.
  intros Hlen Hr Hd. unfold parse_sql. rewrite (lex_renders _ _ Hlen Hr). cbn [mbind outcome_bind].
  apply parse_tokens_denotes with []; [|done].
  eauto using denotes_mono, closes_strict_lenient.
Qed.

Definition sample_text : text := str "SELECT a, b FROM t WHERE (a + 1) * b".

Lemma sample_denotes : denotes closes_strict 0 sample_expr (take 7 sample_tokens) [].
Proof.
  refine (denotes_binary _ 0 _ (mkToken ASTERISK (str "*")) _ _ [mkToken IDENTIFIER (str "b")] _
            _ _ _ _); [done|done| |by (apply (denotes_atom _ _ (mkToken IDENTIFIER (str "b"))); left)].
  refine (denotes_paren _ _ _ _ _ (mkToken RPAREN (str ")") :: _) _ _ _ _);
    [done| |by exists (mkToken RPAREN (str ")"))].
  refine (denotes_binary _ 0 _ (mkToken PLUS (str "+")) _ _
            (mkToken INT (str "1") :: _) _ _ _ _ _); [done|done|..].
  - by (apply (denotes_atom _ _ (mkToken IDENTIFIER (str "a"))); left).
  - by (apply (denotes_atom _ _ (mkToken INT (str "1"))); right).
Qed.

Lemma parse_sql_expr_witness :
  parse_sql sample_text
  = Ok (SqlSelect (str "t") [SqlIdentifier (str "a"); SqlIdentifier (str "b")] (Some sample_expr)).
Proof.
  destruct (lex_Ok sample_text) as (toks & Hlex & Hr & _); [by_compute|].
  refine (parse_sql_expr sample_text toks _ _ Hr _); [by_compute|].
  vm_compute in Hlex. injection Hlex as <-.
  refine (denotes_where _ 0 _ (mkToken IDENTIFIER (str "t")) (mkToken KEYWORD (str "WHERE")) _ _ _ _ _ _ sample_denotes _); [|done|done].
  refine (select_from_intro _ (mkToken IDENTIFIER (str "a")) _ (mkToken KEYWORD (str "FROM"))
            _ _ _ _ _ _ _ _); [done|by right| |done|done].
  refine (more_columns_cons _ (mkToken IDENTIFIER (str "b")) _ _ _ _ _); [done|constructor].
Defined.

(** ** SELECT statements *)

Inductive selects : SqlExpr → list Token → list Token → Prop :=
  | selects_all cols table s s' :
      select_from cols table s s' →
      ¬ where_follows s' →
      selects (SqlSelect (literal table) cols None) s s'
  | selects_where cols table wh e s s1 s2 :
      select_from cols table s (wh :: s1) → literal wh = str "WHERE" →
      denotes closes_lenient 0 e s1 s2 → follow s2 = 0 →
      selects (SqlSelect (literal table) cols (Some e)) s s2.

(** A SELECT statement is parsed to its columns, its table and its
    selection, whatever follows that is not an operator. *)
Theorem parse_tokens_select toks e s :
  selects e toks s → follow s = 0 → parse_tokens toks = Ok e.
Proof.
  intros He Hs. apply parse_tokens_denotes with s; [|done]. destruct He; eauto using denotes.
Qed.

Definition select_tokens : list Token :=
  [mkToken KEYWORD (str "SELECT"); mkToken IDENTIFIER (str "a"); mkToken COMMA (str ",");
   mkToken IDENTIFIER (str "b"); mkToken KEYWORD (str "FROM"); mkToken IDENTIFIER (str "t");
   mkToken KEYWORD (str "WHERE"); mkToken IDENTIFIER (str "a"); mkToken SEMICOLON (str ";")].
Lemma parse_tokens_select_witness :
  parse_tokens select_tokens
  = Ok (SqlSelect (str "t") [SqlIdentifier (str "a"); SqlIdentifier (str "b")]
          (Some (SqlIdentifier (str "a")))).
Proof.
  refine (parse_tokens_select select_tokens _ [mkToken SEMICOLON (str ";")] _ _); [|done].
  refine (selects_where _ (mkToken IDENTIFIER (str "t")) (mkToken KEYWORD (str "WHERE"))
            _ _ [mkToken IDENTIFIER (str "a"); mkToken SEMICOLON (str ";")] _ _ _ _ _);
    [|done| |done].
  - refine (select_from_intro _ (mkToken IDENTIFIER (str "a")) _ (mkToken KEYWORD (str "FROM"))
              _ _ _ _ _ _ _ _); [done|by right| |done|done].
    refine (more_columns_cons _ (mkToken IDENTIFIER (str "b")) _ _ _ _ _); [done|constructor].
  - by (apply (denotes_atom _ _ (mkToken IDENTIFIER (str "a"))); left).
Defined.
