(* ===== verification/Memory.v ===== *)
(** * Memory: the C heap, and the C library functions on strings the storage
    engine uses ([malloc], [free], [strcmp], [sprintf], [atoi])

    The storage engine keeps its keys, reference bits and frame numbers in
    blocks of their own and passes pointers to them around, so the components
    that do share this heap. *)
From S2P Require Import Prelude.

(** ** The heap *)

(** A block holds one object. Addresses are opaque: the code only compares
    them with each other, with the null pointer and, in one place, with a
    16-bit size. *)
Inductive obj :=
  | OStr (s : text)      (* char[], up to its NUL *)
  | OBool (b : bool)
  | OU16 (z : Z)
  | OU32 (z : Z)
  | ONode (value next : Z).   (* a node of a linked list *)

Record heap := mkHeap { cells : gmap Z obj; brk : Z }.

Definition NULL : Z := 0.

(** No block is ever placed in the first 64 KiB of the address space, and the
    address of a block is never used again. *)
Definition HEAP_BASE : Z := 65536.
Definition new_heap : heap := mkHeap ∅ HEAP_BASE.

Definition malloc (o : obj) (h : heap) : Z * heap :=
  (brk h, mkHeap (<[brk h := o]> (cells h)) (brk h + 1)).

Definition load (p : Z) (h : heap) : outcome obj :=
  if p =? NULL then Undef NullDeref
  else match cells h !! p with Some o => Ok o | None => Undef UseAfterFree end.

Definition store (p : Z) (o : obj) (h : heap) : outcome heap :=
  _ ← load p h; Ok (mkHeap (<[p := o]> (cells h)) (brk h)).

Definition free (p : Z) (h : heap) : outcome heap :=
  if p =? NULL then Ok h
  else match cells h !! p with
       | Some _ => Ok (mkHeap (delete p (cells h)) (brk h))
       | None => Undef UseAfterFree
       end.

Definition load_str (p : Z) (h : heap) : outcome text :=
  o ← load p h; match o with OStr s => Ok s | _ => Undef WrongMember end.
Definition load_bool (p : Z) (h : heap) : outcome bool :=
  o ← load p h; match o with OBool b => Ok b | _ => Undef WrongMember end.
Definition load_u16 (p : Z) (h : heap) : outcome Z :=
  o ← load p h; match o with OU16 z => Ok z | _ => Undef WrongMember end.
Definition load_u32 (p : Z) (h : heap) : outcome Z :=
  o ← load p h; match o with OU32 z => Ok z | _ => Undef WrongMember end.

Definition load_node (p : Z) (h : heap) : outcome (Z * Z) :=
  o ← load p h; match o with ONode value next => Ok (value, next) | _ => Undef WrongMember end.

(** ** Locks *)

(** [pthread_rwlock_wrlock] on a lock that the calling thread holds: POSIX lets
    it deadlock. *)
Definition wrlock (latch : bool) : outcome bool :=
  if latch then Undef SelfDeadlock else Ok true.

(** ** Numbers in text *)

Definition digit (d : Z) : ascii := ascii_of_N (Z.to_N (48 + d)).

(** Ten digits are enough for a 32-bit number. *)
Fixpoint dec (fuel : nat) (z : Z) : text :=
  match fuel with
  | O => []
  | S fuel => (if z <? 10 then [] else dec fuel (z / 10)) ++ [digit (z mod 10)]
  end.
Definition format_u (z : Z) : text := dec 10 z.
Definition format_d (z : Z) : text :=
  if z <? 0 then "-"%char :: format_u (- z) else format_u z.

(** [sprintf] into a buffer of [size] bytes, and [snprintf]. *)
Definition sprintf (size : Z) (s : text) : outcome text :=
  if zlen s + 1 <=? size then Ok s else Undef OutOfBounds.
Definition snprintf (size : Z) (s : text) : text := take (Z.to_nat (size - 1)) s.

Definition isspace (c : ascii) : bool := Ascii.eqb c " " || between "009" "013" c.
Definition isdigit (c : ascii) : bool := between "0" "9" c.

Fixpoint skip_space (s : text) : text :=
  match s with c :: s' => if isspace c then skip_space s' else s | [] => [] end.
Fixpoint digits_value (acc : Z) (s : text) : Z :=
  match s with
  | c :: s => if isdigit c then digits_value (acc * 10 + (code c - 48)) s else acc
  | [] => acc
  end.

(** A value that does not fit an [int] is undefined behaviour of [atoi]. *)
Definition atoi (s : text) : outcome Z :=
  match skip_space s with
  | c :: s' =>
      if Ascii.eqb c "-" then int_result (- digits_value 0 s')
      else if Ascii.eqb c "+" then int_result (digits_value 0 s')
      else int_result (digits_value 0 (c :: s'))
  | [] => Ok 0
  end.

(** ** Facts *)

Lemma digit_ok d :
  0 ≤ d < 10 → isdigit (digit d) ∧ code (digit d) = 48 + d ∧ isspace (digit d) = false
    ∧ Ascii.eqb (digit d) "-" = false ∧ Ascii.eqb (digit d) "+" = false.
Proof.
  intros Hd. assert (d ∈ seqZ 0 10) as Hin by (apply elem_of_seqZ; lia).
  clear Hd. revert d Hin.
  refine (proj1 (Forall_forall (λ d, _ ∧ _ ∧ _ ∧ _ ∧ _) _) _).
  repeat (apply Forall_cons; split; [by vm_compute|]). done.
Qed.

Lemma digits_value_snoc acc s d :
  0 ≤ d < 10 → Forall isdigit s →
  digits_value acc (s ++ [digit d]) = digits_value acc s * 10 + d.
Proof.
  intros Hd Hs. destruct (digit_ok d Hd) as (Hdig & Hcode & _).
  revert acc. induction Hs as [|c s Hc _ IH]; intros acc; simpl.
  - destruct (isdigit (digit d)); [|done]. rewrite Hcode. lia.
  - by destruct (isdigit c).
Qed.

Lemma dec_digits fuel z : 0 ≤ z → Forall isdigit (dec fuel z).
Proof.
  revert z. induction fuel as [|fuel IH]; intros z Hz; simpl; [done|].
  apply Forall_app. split.
  - case_bool; [done|]. apply IH. apply Z.div_pos; lia.
  - constructor; [|done]. by apply digit_ok, Z.mod_pos_bound.
Qed.

Lemma dec_value fuel z : 0 ≤ z < 10 ^ Z.of_nat fuel → digits_value 0 (dec fuel z) = z.
Proof.
  revert z. induction fuel as [|fuel IH]; intros z Hz; [simpl in *; lia|]. cbn [dec].
  rewrite digits_value_snoc.
  - pose proof (Z.div_mod z 10 ltac:(lia)). case_bool.
    + simpl. rewrite Z.mod_small; lia.
    + rewrite IH; [lia|]. rewrite Nat2Z.inj_succ, Z.pow_succ_r in Hz by lia.
      split; [apply Z.div_pos; lia|]. apply Z.div_lt_upper_bound; lia.
  - by apply Z.mod_pos_bound.
  - case_bool; [done|]. apply dec_digits, Z.div_pos; lia.
Qed.

Lemma dec_hd fuel z : 0 ≤ z → ∃ d s, dec (S fuel) z = digit d :: s ∧ 0 ≤ d < 10.
Proof.
  revert z. induction fuel as [|fuel IH]; intros z Hz; cbn [dec].
  - destruct (z <? 10); eexists (z mod 10), []; (split; [done|by apply Z.mod_pos_bound]).
  - case_bool; [eexists (z mod 10), []; (split; [done|by apply Z.mod_pos_bound])|].
    destruct (IH (z / 10)) as (d & s & Hd & ?); [apply Z.div_pos; lia|].
    cbn [dec] in Hd. rewrite Hd. by eexists d, _.
Qed.

(** Reading back a printed number. *)
Lemma atoi_format_u z : 0 ≤ z < 2 ^ 31 → atoi (format_u z) = Ok z.
Proof.
  intros Hz. unfold atoi, format_u.
  destruct (dec_hd 9 z) as (d & s & Hd & Hb); [lia|].
  pose proof (dec_value 10 z) as Hv. rewrite Hd in *.
  destruct (digit_ok d Hb) as (_ & _ & Hsp & Hm & Hp).
  cbn [skip_space]. rewrite Hsp, Hm, Hp, Hv by lia.
  unfold int_result. by rewrite (proj2 (Z.leb_le _ _)), (proj2 (Z.ltb_lt _ _)) by lia.
Qed.

Lemma format_u_inj z z' :
  0 ≤ z < 2 ^ 31 → 0 ≤ z' < 2 ^ 31 → format_u z = format_u z' → z = z'.
Proof.
  intros Hz Hz' Heq. apply atoi_format_u in Hz, Hz'. rewrite Heq in Hz. congruence.
Qed.

Lemma format_d_nonneg z : 0 ≤ z → format_d z = format_u z.
Proof. intros. unfold format_d. by rewrite (proj2 (Z.ltb_ge _ _)). Qed.

Lemma dec_length fuel k z :
  0 ≤ z < 10 ^ Z.of_nat k → (0 < k)%nat → (length (dec fuel z) ≤ k)%nat.
Proof.
  revert k z. induction fuel as [|fuel IH]; intros k z Hz Hk; cbn [dec]; [simpl; lia|].
  rewrite length_app. cbn [length]. case_bool; [simpl; lia|].
  destruct k as [|[|k]]; [lia|simpl in Hz; lia|].
  rewrite Nat2Z.inj_succ, Z.pow_succ_r in Hz by lia.
  pose proof (IH (S k) (z / 10)) as Hl. enough (length (dec fuel (z / 10)) ≤ S k)%nat by lia.
  apply Hl; [|lia]. split; [apply Z.div_pos; lia|]. apply Z.div_lt_upper_bound; lia.
Qed.

Lemma dec_length_lower fuel k z :
  10 ^ Z.of_nat k ≤ z → (k < fuel)%nat → (k < length (dec fuel z))%nat.
Proof.
  revert k z. induction fuel as [|fuel IH]; intros k z Hz Hk; [lia|]. cbn [dec].
  rewrite length_app. cbn [length]. destruct k as [|k]; [lia|].
  rewrite Nat2Z.inj_succ, Z.pow_succ_r in Hz by lia.
  assert (0 < 10 ^ Z.of_nat k) by (apply Z.pow_pos_nonneg; lia).
  rewrite (proj2 (Z.ltb_ge _ _)) by lia.
  pose proof (IH k (z / 10)) as Hl. enough (k < length (dec fuel (z / 10)))%nat by lia.
  apply Hl; [|lia]. apply Z.div_le_lower_bound; lia.
Qed.

(** *** Heap steps *)

Definition heap_ok (h : heap) : Prop :=
  HEAP_BASE ≤ brk h ∧ ∀ p o, cells h !! p = Some o → HEAP_BASE ≤ p < brk h.

Lemma new_heap_ok : heap_ok new_heap.
Proof. split; [done|]. intros p o H. discriminate H. Qed.

Lemma heap_ok_malloc o h p h' :
  heap_ok h → malloc o h = (p, h') →
  heap_ok h' ∧ HEAP_BASE ≤ p ∧ cells h !! p = None ∧ cells h' = <[p := o]> (cells h).
Proof.
  intros [Hb Hc] [= <- <-]. split_and!; simpl; [split; simpl; [lia|]|lia| |done].
  - intros p o' [[<- _]|[_ H%Hc]]%lookup_insert_Some; lia.
  - destruct (cells h !! brk h) eqn:E; [|done]. apply Hc in E. lia.
Qed.

Lemma heap_ok_nonnull h p o : heap_ok h → cells h !! p = Some o → p ≠ NULL.
Proof. intros [_ Hc] H%Hc. unfold NULL, HEAP_BASE in *. lia. Qed.

Lemma load_ok h p o : p ≠ NULL → cells h !! p = Some o → load p h = Ok o.
Proof. intros Hp Ho. unfold load. by rewrite (proj2 (Z.eqb_neq _ _)), Ho by done. Qed.

Lemma load_freed h p : p ≠ NULL → cells h !! p = None → load p h = Undef UseAfterFree.
Proof. intros Hp Ho. unfold load. by rewrite (proj2 (Z.eqb_neq _ _)), Ho by done. Qed.

Lemma free_ok h p o :
  p ≠ NULL → cells h !! p = Some o → free p h = Ok (mkHeap (delete p (cells h)) (brk h)).
Proof. intros Hp Ho. unfold free. by rewrite (proj2 (Z.eqb_neq _ _)), Ho by done. Qed.

Lemma heap_ok_delete h p : heap_ok h → heap_ok (mkHeap (delete p (cells h)) (brk h)).
Proof. intros [Hb Hc]. split; [done|]. simpl. intros q o [_ H]%lookup_delete_Some. eauto. Qed.

(** [str_at h p s]: [p] points to the string [s]. *)
Definition str_at (h : heap) (p : Z) (s : text) : Prop := p ≠ NULL ∧ cells h !! p = Some (OStr s).

Lemma load_str_ok h p s : str_at h p s → load_str p h = Ok s.
Proof. intros [Hp Hs]. unfold load_str. by rewrite (load_ok _ _ _ Hp Hs). Qed.

Lemma str_at_inj h p s t : str_at h p s → str_at h p t → s = t.
Proof. intros [_ ?] [_ ?]. congruence. Qed.
