(* ===== verification/Hash.v ===== *)
(** * Hash: the hash table of the storage engine ([utils/hash.h],
    [utils/hash.c])

    Chained buckets in an array. The array element of a bucket is its first
    element, and an element with a null key stands for the empty bucket, so a
    bucket is here the list of its elements, empty when the key is null. The
    table refers to its keys and data by address. *)
From S2P Require Import Prelude Memory.

(** ** The code *)

Record HashEl := mkHashEl { el_key : Z; el_data : Z }.

#[export] Instance HashEl_eq_dec : EqDecision HashEl.
Proof. solve_decision. Defined.

Record HashTable := mkHashTable { arr : list (list HashEl); size : Z; latch : bool }.

(** The size is kept in 16 bits; the array has the size that was asked for. *)
Definition init_hash (n : Z) : HashTable :=
  mkHashTable (replicate (Z.to_nat (u32 n)) []) (u16 n) false.

(** [atoi(key) % ht->size], converted to 16 bits. *)
Definition hash (key : text) (ht : HashTable) : outcome Z :=
  z ← atoi key;
  if size ht =? 0 then Undef DivByZero else Ok (u16 (Z.rem z (size ht))).

Definition bucket_at (ht : HashTable) (idx : Z) : outcome (list HashEl) :=
  match arr ht !! Z.to_nat idx with Some b => Ok b | None => Undef OutOfBounds end.
Definition set_bucket (ht : HashTable) (idx : Z) (b : list HashEl) : HashTable :=
  mkHashTable (<[Z.to_nat idx := b]> (arr ht)) (size ht) (latch ht).
Definition set_latch (ht : HashTable) (l : bool) : HashTable :=
  mkHashTable (arr ht) (size ht) l.

(** [strcmp(el->key, key) == 0]. Search keys are only read, so a key is passed
    as its text here, unless the function stores its address. *)
Definition key_matches (h : heap) (el : HashEl) (key : text) : outcome bool :=
  s ← load_str (el_key el) h; Ok (bool_decide (s = key)).

(** Overwrites the element of the same key, or appends to the chain. *)
Fixpoint insert_chain (h : heap) (key : text) (el : HashEl) (b : list HashEl)
    : outcome (list HashEl) :=
  match b with
  | [] => Ok [el]
  | temp :: b =>
      eq ← key_matches h temp key;
      if (eq : bool) then Ok (el :: b)
      else b ← insert_chain h key el b; Ok (temp :: b)
  end.

Definition hash_insert (key data : Z) (ht : HashTable) (h : heap) : outcome HashTable :=
  if (key =? NULL) || (data =? NULL) then Ok ht
  else
    l ← wrlock (latch ht);
    let ht := set_latch ht l in
    s ← load_str key h;
    idx ← hash s ht;
    b ← bucket_at ht idx;
    b ← insert_chain h s (mkHashEl key data) b;
    Ok (set_latch (set_bucket ht idx b) false).

(** The place of the key in its chain; the length of the chain when the walk
    falls off its end. *)
Fixpoint find_chain (h : heap) (key : text) (b : list HashEl) : outcome nat :=
  match b with
  | [] => Ok 0%nat
  | temp :: b =>
      eq ← key_matches h temp key;
      if (eq : bool) then Ok 0%nat else i ← find_chain h key b; Ok (S i)
  end.

(** The bucket after the removal. When the first element of a longer chain is
    removed, its successor is copied over it, and it is the key and the data of
    the copy that are freed. *)
Definition remove_chain (h : heap) (key : text) (b : list HashEl)
    : outcome (bool * list HashEl * heap) :=
  i ← find_chain h key b;
  match i, b with
  | O, [] | O, [_] => Ok (true, [], h)
  | O, _ :: next :: b =>
      h ← free (el_key next) h; h ← free (el_data next) h;
      Ok (true, next :: b, h)
  | S _, _ =>
      match b !! i with
      | None => Ok (false, b, h)
      | Some temp =>
          h ← free (el_key temp) h; h ← free (el_data temp) h;
          Ok (true, delete i b, h)
      end
  end.

(** The boolean is what is stored through [success_out]. *)
Definition hash_remove (key : text) (ht : HashTable) (h : heap)
    : outcome (bool * HashTable * heap) :=
  l ← wrlock (latch ht);
  let ht := set_latch ht l in
  idx ← hash key ht;
  b ← bucket_at ht idx;
  r ← remove_chain h key b;
  let '(ok, b, h) := r in
  Ok (ok, set_latch (set_bucket ht idx b) false, h).

Definition hash_find (key : text) (ht : HashTable) (h : heap) : outcome (option HashEl) :=
  idx ← hash key ht;
  b ← bucket_at ht idx;
  i ← find_chain h key b;
  Ok (b !! i).

(** The elements that [destroy_hash] frees: of every chain the second, the
    fourth, and so on. *)
Fixpoint destroy_chain (b : list HashEl) (h : heap) : outcome heap :=
  match b with
  | _ :: temp :: b =>
      h ← free (el_key temp) h; h ← free (el_data temp) h; destroy_chain b h
  | _ => Ok h
  end.

Fixpoint destroy_buckets (bs : list (list HashEl)) (h : heap) : outcome heap :=
  match bs with
  | [] => Ok h
  | b :: bs => h ← destroy_chain b h; destroy_buckets bs h
  end.

Definition destroy_hash (ht : HashTable) (h : heap) : outcome heap :=
  _ ← wrlock (latch ht);
  destroy_buckets (take (Z.to_nat (size ht)) (arr ht)) h.

(** ** Chains as lists of keys *)

(** [chain h b ks]: the elements of [b] have the keys [ks]. *)
Definition chain (h : heap) (b : list HashEl) (ks : list text) : Prop :=
  Forall2 (λ el s, str_at h (el_key el) s) b ks.

(** The place of a key, and the list with an element at that place replaced, or
    added when the place is the end. *)
Fixpoint index (s : text) (ks : list text) : nat :=
  match ks with
  | [] => 0%nat
  | t :: ks => if decide (t = s) then 0%nat else S (index s ks)
  end.
Definition put {A} (i : nat) (a : A) (l : list A) : list A := take i l ++ a :: drop (S i) l.

Lemma index_length s ks : (index s ks ≤ length ks)%nat.
Proof. induction ks as [|t ks IH]; simpl; [lia|]. case_decide; lia. Qed.

Lemma index_lt s ks : (index s ks < length ks)%nat ↔ s ∈ ks.
Proof.
  induction ks as [|t ks IH]; simpl; [split; [lia|by intros ?%elem_of_nil]|].
  rewrite elem_of_cons, <- IH. case_decide; [split; [auto|lia]|].
  split; [intros; right; lia|intros [->|]; [done|lia]].
Qed.

Lemma index_lookup s ks i t : ks !! i = Some t → i = index s ks → t = s.
Proof.
  revert i. induction ks as [|u ks IH]; intros i Hi ->; [done|]. simpl in Hi.
  case_decide; simpl in Hi; [congruence|eauto].
Qed.

Lemma key_matches_ok h el s t :
  str_at h (el_key el) t → key_matches h el s = Ok (bool_decide (t = s)).
Proof. intros Ht. unfold key_matches. by rewrite (load_str_ok _ _ _ Ht). Qed.

Lemma find_chain_ok h s b ks : chain h b ks → find_chain h s b = Ok (index s ks).
Proof.
  induction 1 as [|el t b ks Hel _ IH]; simpl; [done|].
  rewrite (key_matches_ok _ _ _ _ Hel). cbn [mbind outcome_bind].
  case_bool_decide; (case_decide; [|]; try done). by rewrite IH.
Qed.

Lemma insert_chain_ok h s el b ks :
  chain h b ks → insert_chain h s el b = Ok (put (index s ks) el b).
Proof.
  induction 1 as [|temp t b ks Hel _ IH]; simpl; [done|].
  rewrite (key_matches_ok _ _ _ _ Hel). cbn [mbind outcome_bind].
  case_bool_decide; (case_decide; [|]; try done). by rewrite IH.
Qed.

Lemma chain_put h s el b ks i :
  chain h b ks → str_at h (el_key el) s → chain h (put i el b) (put i s ks).
Proof.
  intros Hc Hs. apply Forall2_app; [by apply Forall2_take|].
  constructor; [done|by apply Forall2_drop].
Qed.

Lemma chain_delete h b ks i : chain h b ks → chain h (delete i b) (delete i ks).
Proof. apply Forall2_delete. Qed.

Lemma chain_length h b ks : chain h b ks → length b = length ks.
Proof. apply Forall2_length. Qed.

(** A chain does not depend on the rest of the heap. *)
Lemma chain_heap h h' b ks :
  chain h b ks → (∀ el, el ∈ b → cells h' !! el_key el = cells h !! el_key el) → chain h' b ks.
Proof.
  induction 1 as [|el s b ks [Hn Hs] _ IH]; intros Hh; constructor.
  - split; [done|]. rewrite Hh by set_solver. done.
  - apply IH. set_solver.
Qed.

Lemma chain_key h b ks el : chain h b ks → el ∈ b → ∃ s, s ∈ ks ∧ str_at h (el_key el) s.
Proof.
  induction 1 as [|el' s b ks Hs _ IH]; [by intros ?%elem_of_nil|].
  intros [->|(t & Ht & ?)%IH]%elem_of_cons; [exists s|exists t]; split; (done || set_solver).
Qed.

(** A search after an insertion and after a removal. *)
Lemma put_index {A} s s' (el : A) b ks :
  length b = length ks →
  put (index s ks) el b !! index s' (put (index s ks) s ks)
  = if decide (s' = s) then Some el else b !! index s' ks.
Proof.
  revert b. induction ks as [|t ks IH]; intros [|el0 b] Hl; try discriminate; simpl.
  - unfold put. simpl. destruct (decide (s' = s)) as [->|]; [by rewrite decide_True|].
    by rewrite decide_False by done.
  - destruct (decide (t = s)) as [->|Hts].
    + unfold put. simpl. rewrite !drop_0. destruct (decide (s' = s)) as [->|]; [by rewrite decide_True|].
      by rewrite decide_False by done.
    + unfold put in *. simpl. injection Hl as Hl. destruct (decide (t = s')) as [->|Hts'].
      * by rewrite decide_False by done.
      * simpl. apply IH, Hl.
Qed.

Lemma delete_index {A} s s' (b : list A) ks :
  length b = length ks → NoDup ks →
  delete (index s ks) b !! index s' (delete (index s ks) ks)
  = if decide (s' = s) then None else b !! index s' ks.
Proof.
  revert b. induction ks as [|t ks IH]; intros [|el0 b] Hl Hnd; try discriminate; simpl.
  - by case_decide.
  - apply NoDup_cons in Hnd as [Ht Hnd]. injection Hl as Hl.
    destruct (decide (t = s)) as [->|Hts]; simpl.
    + destruct (decide (s' = s)) as [->|Hs'].
      * apply lookup_ge_None_2. rewrite <- index_lt in Ht. lia.
      * by rewrite decide_False by done.
    + destruct (decide (t = s')) as [->|Hts']; simpl; [by rewrite decide_False by done|].
      by apply IH.
Qed.

Lemma NoDup_put s ks : NoDup ks → NoDup (put (index s ks) s ks).
Proof.
  induction ks as [|t ks IH]; intros Hnd; simpl; [apply NoDup_singleton|].
  apply NoDup_cons in Hnd as [Ht Hnd]. case_decide as Hts; [subst t; by constructor|].
  unfold put in *. simpl. constructor; [|by apply IH].
  rewrite elem_of_app, elem_of_cons. intros [Hin|[->|Hin]]; [|done|].
  - apply Ht. apply elem_of_take in Hin as (j & Hj & _). by eapply list_elem_of_lookup_2.
  - apply Ht. apply list_elem_of_lookup in Hin as (j & Hj).
    rewrite lookup_drop in Hj. by eapply list_elem_of_lookup_2.
Qed.

(** ** Well-formed tables *)

(** Keys print non-negative [int]s. *)
Definition hashable (s : text) : Prop := ∃ z, atoi s = Ok z ∧ 0 ≤ z.
Definition slot (size : Z) (s : text) : Z :=
  match atoi s with Ok z => z mod size | _ => 0 end.

Definition is_data (h : heap) (p : Z) : Prop :=
  p ≠ NULL ∧ ∃ o, cells h !! p = Some o ∧ ∀ s, o ≠ OStr s.

Definition bucket_ok (h : heap) (size : Z) (i : nat) (b : list HashEl) : Prop :=
  ∃ ks, chain h b ks ∧ NoDup ks
    ∧ Forall (λ s, hashable s ∧ slot size s = Z.of_nat i) ks
    ∧ Forall (λ el, is_data h (el_data el)) b.

Definition entry (ht : HashTable) (i j : nat) (el : HashEl) : Prop :=
  ∃ b, arr ht !! i = Some b ∧ b !! j = Some el.

Record table_ok (h : heap) (ht : HashTable) : Prop := {
  tk_size : 0 < size ht ≤ 65535;
  tk_arr : zlen (arr ht) = size ht;
  tk_latch : latch ht = false;
  tk_bucket : ∀ i b, arr ht !! i = Some b → bucket_ok h (size ht) i b;
  tk_data : ∀ i j el i' j' el',
    entry ht i j el → entry ht i' j' el' → el_data el = el_data el' → i = i' ∧ j = j';
}.

Lemma hash_ok ht s :
  0 < size ht ≤ 65535 → hashable s → hash s ht = Ok (slot (size ht) s).
Proof.
  intros Hs (z & Hz & Hpos). unfold hash, slot. rewrite Hz. cbn [mbind outcome_bind].
  rewrite (proj2 (Z.eqb_neq _ _)) by lia. f_equal. unfold u16.
  pose proof (Z.mod_pos_bound z (size ht)). rewrite Z.rem_mod_nonneg by lia.
  apply Z.mod_small. lia.
Qed.

Lemma slot_bound size s : 0 < size → 0 ≤ slot size s < size.
Proof.
  intros Hs. unfold slot. destruct (atoi s); try lia. by apply Z.mod_pos_bound.
Qed.

(** The bucket of a key. *)
Lemma table_bucket h ht s :
  table_ok h ht → hashable s →
  ∃ b ks, arr ht !! Z.to_nat (slot (size ht) s) = Some b ∧ hash s ht = Ok (slot (size ht) s)
    ∧ bucket_at ht (slot (size ht) s) = Ok b ∧ chain h b ks ∧ NoDup ks
    ∧ Forall (λ s', hashable s' ∧ slot (size ht) s' = slot (size ht) s) ks
    ∧ Forall (λ el, is_data h (el_data el)) b.
Proof.
  intros [Hs Ha Hl Hb Hd] Hk. pose proof (slot_bound (size ht) s ltac:(lia)).
  destruct (lookup_lt_is_Some_2 (arr ht) (Z.to_nat (slot (size ht) s))) as [b Hbk];
    [unfold zlen in *; lia|].
  destruct (Hb _ _ Hbk) as (ks & Hc & Hnd & Hsl & Hdata). exists b, ks.
  rewrite Z2Nat.id in Hsl by lia. unfold bucket_at. rewrite Hbk.
  split_and!; try done. by apply hash_ok.
Qed.

Lemma hash_find_ok h ht s b ks :
  table_ok h ht → hashable s → arr ht !! Z.to_nat (slot (size ht) s) = Some b → chain h b ks →
  hash_find s ht h = Ok (b !! index s ks).
Proof.
  intros Ht Hs Hb Hc. unfold hash_find. rewrite (hash_ok _ _ (tk_size _ _ Ht) Hs).
  cbn [mbind outcome_bind]. unfold bucket_at. rewrite Hb. cbn [mbind outcome_bind].
  by rewrite (find_chain_ok _ _ _ _ Hc).
Qed.

(** A search ends, with an element of its key or with nothing. *)
Lemma hash_find_total h ht s :
  table_ok h ht → hashable s →
  hash_find s ht h = Ok None
  ∨ ∃ el, hash_find s ht h = Ok (Some el) ∧ str_at h (el_key el) s ∧ is_data h (el_data el).
Proof.
  intros Ht Hs. destruct (table_bucket _ _ _ Ht Hs) as (b & ks & Hb & _ & _ & Hc & _ & _ & Hd).
  rewrite (hash_find_ok _ _ _ _ _ Ht Hs Hb Hc).
  destruct (b !! index s ks) as [el|] eqn:Hel; [|by left]. right. exists el.
  destruct (Forall2_lookup_l _ _ _ _ _ Hc Hel) as (t & Ht' & Hst).
  rewrite (index_lookup _ _ _ _ Ht' eq_refl) in Hst.
  rewrite Forall_lookup in Hd. eauto.
Qed.

(** Changing one bucket of a table. *)
Lemma entry_set_bucket ht idx b i j el :
  0 ≤ idx < zlen (arr ht) →
  entry (set_latch (set_bucket ht idx b) false) i j el ↔
  if decide (i = Z.to_nat idx) then b !! j = Some el else entry ht i j el.
Proof.
  intros Hi. unfold entry. simpl. case_decide as Hd.
  - subst i. rewrite list_lookup_insert_eq by (unfold zlen in Hi; lia).
    split; [by intros (? & [= <-] & ?)|eauto].
  - by rewrite list_lookup_insert_ne by done.
Qed.

Lemma table_ok_update h h' ht idx b :
  table_ok h ht → 0 ≤ idx < size ht → bucket_ok h' (size ht) (Z.to_nat idx) b →
  (∀ i b', i ≠ Z.to_nat idx → arr ht !! i = Some b' → bucket_ok h' (size ht) i b') →
  (∀ j el j' el', b !! j = Some el → b !! j' = Some el' → el_data el = el_data el' → j = j') →
  (∀ j el i' j' el', b !! j = Some el → entry ht i' j' el' → i' ≠ Z.to_nat idx →
    el_data el ≠ el_data el') →
  table_ok h' (set_latch (set_bucket ht idx b) false).
Proof.
  intros [Hs Ha Hl Hb Hd] Hidx Hb' Hother Hinj Hdiff. split; [done| |done|..]; simpl.
  - unfold zlen in *. by rewrite length_insert.
  - intros i b' Hi. destruct (decide (i = Z.to_nat idx)) as [->|Hne].
    + rewrite list_lookup_insert_eq in Hi by (unfold zlen in Ha; lia). by injection Hi as <-.
    + rewrite list_lookup_insert_ne in Hi by done. eauto.
  - intros i j el i' j' el'. rewrite !entry_set_bucket by lia.
    intros He He' Heq. repeat case_decide; subst.
    + split; [done|]. eauto.
    + exfalso. by eapply Hdiff.
    + exfalso. by eapply Hdiff.
    + eauto.
Qed.

Lemma hash_find_update_other h h' ht idx b s :
  hashable s → 0 < size ht ≤ 65535 → 0 ≤ idx →
  slot (size ht) s ≠ idx →
  (∀ b', arr ht !! Z.to_nat (slot (size ht) s) = Some b' →
    find_chain h' s b' = find_chain h s b') →
  hash_find s (set_latch (set_bucket ht idx b) false) h' = hash_find s ht h.
Proof.
  intros Hs Hsz Hidx Hne Hf. unfold hash_find. rewrite !hash_ok by done.
  cbn [mbind outcome_bind set_latch set_bucket size]. unfold bucket_at.
  cbn [set_latch set_bucket arr]. pose proof (slot_bound (size ht) s ltac:(lia)).
  rewrite list_lookup_insert_ne by lia.
  destruct (arr ht !! _) as [b'|]; [|done]. cbn [mbind outcome_bind]. by rewrite Hf.
Qed.

(** ** The operations on well-formed tables *)

Lemma put_lookup {A} i (a : A) l j :
  (i ≤ length l)%nat → put i a l !! j = if decide (j = i) then Some a else l !! j.
Proof.
  intros Hi. unfold put. case_decide as Hj.
  - subst j. rewrite lookup_app_r by (rewrite length_take; lia).
    rewrite length_take. by replace (i - i `min` length l)%nat with 0%nat by lia.
  - destruct (decide (j < i)%nat).
    + rewrite lookup_app_l by (rewrite length_take; lia). by rewrite lookup_take_lt by lia.
    + rewrite lookup_app_r by (rewrite length_take; lia). rewrite length_take.
      replace (j - i `min` length l)%nat with (S (j - S i)) by lia. simpl.
      rewrite lookup_drop. f_equal. lia.
Qed.

Lemma bucket_ok_put h sz i b ks s el :
  chain h b ks → NoDup ks → Forall (λ s', hashable s' ∧ slot sz s' = Z.of_nat i) ks →
  Forall (λ el, is_data h (el_data el)) b →
  str_at h (el_key el) s → is_data h (el_data el) → hashable s → slot sz s = Z.of_nat i →
  bucket_ok h sz i (put (index s ks) el b).
Proof.
  intros Hc Hnd Hks Hb Hs Hd Hh Hsl. exists (put (index s ks) s ks).
  split_and!; [by apply chain_put|by apply NoDup_put|..].
  - apply Forall_app. split; [by apply Forall_take|]. constructor; [done|by apply Forall_drop].
  - apply Forall_app. split; [by apply Forall_take|]. constructor; [done|by apply Forall_drop].
Qed.

Definition data_fresh (ht : HashTable) (p : Z) : Prop :=
  ∀ i j el, entry ht i j el → el_data el ≠ p.

Lemma hash_insert_ok h ht key data s :
  table_ok h ht → str_at h key s → hashable s → is_data h data → data_fresh ht data →
  ∃ ht', hash_insert key data ht h = Ok ht' ∧ table_ok h ht' ∧ size ht' = size ht
    ∧ (∀ s', hashable s' →
        hash_find s' ht' h
        = if decide (s' = s) then Ok (Some (mkHashEl key data)) else hash_find s' ht h)
    ∧ (∀ i j el, entry ht' i j el → el = mkHashEl key data ∨ entry ht i j el).
Proof.
  intros Ht Hkey Hs Hdata Hfresh.
  destruct (table_bucket _ _ _ Ht Hs) as (b & ks & Hb & Hhash & Hat & Hc & Hnd & Hks & Hd).
  pose proof (tk_size _ _ Ht) as Hsz. pose proof (tk_arr _ _ Ht) as Harr.
  pose proof (slot_bound (size ht) s ltac:(lia)) as Hslot.
  set (idx := slot (size ht) s) in *. set (el := mkHashEl key data).
  pose proof (index_length s ks) as Hidx. rewrite <- (chain_length _ _ _ Hc) in Hidx.
  assert (bucket_ok h (size ht) (Z.to_nat idx) (put (index s ks) el b)) as Hok.
  { apply bucket_ok_put; rewrite ?Z2Nat.id by lia; done. }
  assert (table_ok h (set_latch (set_bucket ht idx (put (index s ks) el b)) false)) as Ht'.
  { apply table_ok_update with h; [done|lia|done| | |].
    - intros i b' _. by apply (tk_bucket _ _ Ht).
    - intros j el1 j' el2. rewrite !put_lookup by done. intros H1 H2 Heq.
      destruct (decide (j = index s ks)) as [->|Hj], (decide (j' = index s ks)) as [->|Hj'].
      + done.
      + injection H1 as <-. exfalso. by eapply (Hfresh (Z.to_nat idx) j' el2); [eexists|].
      + injection H2 as <-. exfalso. by eapply (Hfresh (Z.to_nat idx) j el1); [eexists|].
      + by eapply (tk_data _ _ Ht (Z.to_nat idx) j el1 (Z.to_nat idx) j' el2); [by eexists..|].
    - intros j el1 i' j' el2. rewrite put_lookup by done. intros H1 H2 Hne Heq. case_decide; subst.
      + injection H1 as <-. by eapply Hfresh.
      + assert (Z.to_nat idx = i') by
          (eapply (tk_data _ _ Ht _ j el1 i' j' el2); [by eexists|done..]). done. }
  exists (set_latch (set_bucket ht idx (put (index s ks) el b)) false).
  split_and!; [|done|done|..].
  - unfold hash_insert. destruct Hkey as [Hk Hkey], Hdata as [Hdn Hdata].
    rewrite !(proj2 (Z.eqb_neq _ _)) by done. simpl orb. cbv iota.
    rewrite (tk_latch _ _ Ht). cbn [wrlock mbind outcome_bind].
    rewrite (load_str_ok h key s) by done. cbn [mbind outcome_bind].
    replace (hash s (set_latch ht true)) with (hash s ht) by done. rewrite Hhash.
    cbn [mbind outcome_bind].
    replace (bucket_at (set_latch ht true) idx) with (bucket_at ht idx) by done. rewrite Hat.
    cbn [mbind outcome_bind]. by rewrite (insert_chain_ok _ _ _ _ _ Hc).
  - intros s' Hs'. destruct (decide (slot (size ht) s' = idx)) as [Heq|Hne].
    + rewrite (hash_find_ok _ _ s' (put (index s ks) el b) (put (index s ks) s ks) Ht' Hs'); cycle 1.
      * simpl. rewrite Heq, list_lookup_insert_eq by (unfold zlen in Harr; lia). done.
      * by apply chain_put.
      * rewrite put_index by (by eapply chain_length). case_decide; [done|].
        rewrite (hash_find_ok _ _ s' b ks Ht Hs'); [done|by rewrite Heq|done].
    + rewrite decide_False by (intros ->; done).
      apply hash_find_update_other; done || lia.
  - intros i j el1. rewrite entry_set_bucket by lia. case_decide; [|by right].
    rewrite put_lookup by done. case_decide; [intros [= <-]; by left|].
    intros He. right. subst i. by eexists.
Qed.

(** The heap after [free_hash_el]. *)
Definition free_el (el : HashEl) (h : heap) : heap :=
  mkHeap (delete (el_data el) (delete (el_key el) (cells h))) (brk h).

Lemma free_el_ok h el s :
  str_at h (el_key el) s → is_data h (el_data el) →
  (h ← free (el_key el) h; free (el_data el) h) = Ok (free_el el h).
Proof.
  intros [Hk Hs] (Hd & o & Ho & Hstr). rewrite (free_ok _ _ _ Hk Hs). cbn [mbind outcome_bind].
  unfold free. rewrite (proj2 (Z.eqb_neq _ _)) by done. cbn [cells].
  rewrite lookup_delete_ne by congruence. by rewrite Ho.
Qed.

Lemma free_el_other h el p :
  p ≠ el_key el → p ≠ el_data el → cells (free_el el h) !! p = cells h !! p.
Proof. intros. simpl. by rewrite !lookup_delete_ne by done. Qed.

(** The removal does not hit the first element of a longer chain. *)
Definition not_chain_head (h : heap) (b : list HashEl) (s : text) : Prop :=
  ∀ el, b !! 0%nat = Some el → str_at h (el_key el) s → (length b ≤ 1)%nat.

Lemma remove_chain_ok h s b ks :
  chain h b ks → Forall (λ el, is_data h (el_data el)) b → not_chain_head h b s →
  ∃ ok, remove_chain h s b
    = Ok (ok, delete (index s ks) b,
          match b !! index s ks with
          | Some el => if decide (length b = 1%nat) then h else free_el el h
          | None => h
          end)
    ∧ (b = [] ∨ is_Some (b !! index s ks) → ok = true).
Proof.
  intros Hc Hd Hh. unfold remove_chain. rewrite (find_chain_ok _ _ _ _ Hc). cbn [mbind outcome_bind].
  pose proof (chain_length _ _ _ Hc) as Hl.
  destruct (index s ks) as [|i] eqn:Hi.
  - destruct b as [|el [|el' b]]; [by eexists..|]. exfalso.
    destruct ks as [|t ks]; [done|]. apply Forall2_cons in Hc as [Hel _].
    simpl in Hi. case_decide; [subst t|done]. specialize (Hh el eq_refl Hel). simpl in Hh. lia.
  - destruct (b !! S i) as [el|] eqn:Hel.
    + destruct (Forall2_lookup_l _ _ _ _ _ Hc Hel) as (t & _ & Hs).
      rewrite Forall_lookup in Hd. pose proof (free_el_ok _ _ _ Hs (Hd _ _ Hel)) as Hf.
      rewrite decide_False by (apply lookup_lt_Some in Hel; lia).
      destruct (free (el_key el) h) as [h1| | | |]; try done. cbn [mbind outcome_bind] in *.
      rewrite Hf. by eexists.
    + exists false. split.
      * apply lookup_ge_None in Hel. by rewrite delete_take_drop, take_ge, drop_ge, app_nil_r by lia.
      * intros [->|[? ?]]; [|done]. by destruct ks.
Qed.

Lemma chain_det h b ks ks' : chain h b ks → chain h b ks' → ks = ks'.
Proof.
  intros Hc. revert ks'. induction Hc as [|? ? ? ? Hs _ IH]; intros ks' Hc';
    inversion Hc' as [|? ? ? ? Hs' Hc1]; subst; [done|].
  f_equal; [by eapply str_at_inj|auto].
Qed.

Lemma elem_of_delete {A} (l : list A) i a : a ∈ delete i l → ∃ j, j ≠ i ∧ l !! j = Some a.
Proof.
  intros (j & Hj)%list_elem_of_lookup. rewrite list_lookup_delete in Hj.
  case_decide; [exists j|exists (S j)]; (split; [lia|done]).
Qed.

Lemma bucket_ok_heap h h' sz i b :
  bucket_ok h sz i b →
  (∀ el, el ∈ b → cells h' !! el_key el = cells h !! el_key el
                  ∧ cells h' !! el_data el = cells h !! el_data el) →
  bucket_ok h' sz i b.
Proof.
  intros (ks & Hc & Hnd & Hks & Hd) Hh. exists ks. split_and!; [|done..|].
  - eapply chain_heap; [done|]. intros el Hel. by apply Hh.
  - rewrite Forall_forall in Hd |- *. intros el Hel.
    destruct (Hd el Hel) as (Hn & o & Ho & ?). split; [done|]. exists o.
    by rewrite (proj2 (Hh el Hel)).
Qed.

Lemma bucket_ok_delete h sz i b n : bucket_ok h sz i b → bucket_ok h sz i (delete n b).
Proof.
  intros (ks & Hc & Hnd & Hks & Hd). exists (delete n ks).
  split_and!; [by apply chain_delete| |by apply Forall_delete..].
  eapply sublist_NoDup; [done|]. apply sublist_delete.
Qed.

(** The key and the data of an element belong to no other element. *)
Lemma entry_separate h ht i j el i' j' el' :
  table_ok h ht → entry ht i j el → entry ht i' j' el' → (i, j) ≠ (i', j') →
  el_key el ≠ el_key el' ∧ el_key el ≠ el_data el' ∧ el_data el ≠ el_key el'
  ∧ el_data el ≠ el_data el'.
Proof.
  intros Ht He He' Hne.
  pose proof He as (b & Hb & Hj). pose proof He' as (b' & Hb' & Hj').
  destruct (tk_bucket _ _ Ht _ _ Hb) as (ks & Hc & Hnd & Hks & Hd).
  destruct (tk_bucket _ _ Ht _ _ Hb') as (ks' & Hc' & Hnd' & Hks' & Hd').
  destruct (Forall2_lookup_l _ _ _ _ _ Hc Hj) as (t & Ht0 & [_ Hts]).
  destruct (Forall2_lookup_l _ _ _ _ _ Hc' Hj') as (t' & Ht' & [_ Hts']).
  rewrite Forall_lookup in Hks. rewrite Forall_lookup in Hks'. rewrite Forall_lookup in Hd.
  rewrite Forall_lookup in Hd'.
  destruct (Hks _ _ Ht0) as [_ Hsl], (Hks' _ _ Ht') as [_ Hsl'].
  destruct (Hd _ _ Hj) as (_ & o & Ho & Ho'), (Hd' _ _ Hj') as (_ & o' & Ho1 & Ho2).
  split_and!; try congruence.
  - intros Heq. apply Hne. assert (t = t') as <- by congruence.
    assert (i = i') as <- by lia. assert (b' = b) as -> by congruence.
    assert (ks' = ks) as -> by (by eapply chain_det). f_equal. by eapply NoDup_lookup.
  - intros Heq. apply Hne.
    by destruct (tk_data _ _ Ht i j el i' j' el') as [-> ->]; [by eexists..|done|].
Qed.

(** A bucket that has lost an element, in a heap where the others are as before. *)
Section deleted.
Context (h h' : heap) (ht : HashTable) (s : text) (b : list HashEl) (n : nat).
Let idx := slot (size ht) s.
Context (Ht : table_ok h ht) (Hs : hashable s) (Hb : arr ht !! Z.to_nat idx = Some b).
Hypothesis Hother : ∀ i j el, entry ht i j el → (i, j) ≠ (Z.to_nat idx, n) →
  cells h' !! el_key el = cells h !! el_key el ∧ cells h' !! el_data el = cells h !! el_data el.

Lemma deleted_slot : 0 ≤ idx < size ht.
Proof. apply slot_bound. apply tk_size in Ht. lia. Qed.

Lemma deleted_table_ok : table_ok h' (set_latch (set_bucket ht idx (delete n b)) false).
Proof.
  pose proof deleted_slot.
  apply table_ok_update with h; [done|lia|..].
  - apply bucket_ok_heap with h; [by apply bucket_ok_delete, (tk_bucket _ _ Ht)|].
    intros el (j & Hj & Hel)%elem_of_delete.
    eapply (Hother (Z.to_nat idx) j); [by eexists|congruence].
  - intros i b' Hi Hb'. apply bucket_ok_heap with h; [by apply (tk_bucket _ _ Ht)|].
    intros el (j & Hj)%list_elem_of_lookup. apply (Hother i j); [by eexists|congruence].
  - intros j el j' el'. rewrite !list_lookup_delete. intros H1 H2 Heq.
    destruct (tk_data _ _ Ht (Z.to_nat idx) _ el (Z.to_nat idx) _ el'
                (ex_intro _ b (conj Hb H1)) (ex_intro _ b (conj Hb H2)) Heq) as [_ Hj].
    repeat case_decide; lia.
  - intros j el i' j' el'. rewrite list_lookup_delete. intros H1 He Hne Heq.
    destruct (tk_data _ _ Ht (Z.to_nat idx) _ el i' j' el' (ex_intro _ b (conj Hb H1)) He Heq).
    done.
Qed.

Lemma deleted_find ks s' :
  chain h b ks → NoDup ks → n = index s ks → hashable s' →
  hash_find s' (set_latch (set_bucket ht idx (delete n b)) false) h'
  = if decide (s' = s) then Ok None else hash_find s' ht h.
Proof.
  intros Hc Hnd Hn Hs'. pose proof deleted_slot as Hslot. pose proof deleted_table_ok as Ht'.
  pose proof (tk_arr _ _ Ht) as Harr.
  destruct (decide (slot (size ht) s' = idx)) as [Heq|Hne].
  - rewrite (hash_find_ok _ _ s' (delete n b) (delete n ks) Ht' Hs'); cycle 1.
    + simpl. rewrite Heq, list_lookup_insert_eq by (unfold zlen in Harr; lia). done.
    + apply chain_heap with h; [by apply chain_delete|].
      intros el (j & Hj & Hel)%elem_of_delete.
      apply (Hother (Z.to_nat idx) j); [by eexists|congruence].
    + rewrite Hn, delete_index by (done || by eapply chain_length). case_decide; [done|].
      rewrite (hash_find_ok _ _ s' b ks Ht Hs'); [done|by rewrite Heq|done].
  - rewrite decide_False by (intros ->; done).
    apply hash_find_update_other; [done|by apply (tk_size _ _ Ht)|lia|done|].
    intros b' Hb'. destruct (tk_bucket _ _ Ht _ _ Hb') as (ks' & Hc' & _).
    rewrite (find_chain_ok _ _ _ _ Hc'). apply find_chain_ok. eapply chain_heap; [done|].
    intros el (j & Hj)%list_elem_of_lookup.
    pose proof (slot_bound (size ht) s' ltac:(by apply tk_size in Ht; lia)).
    apply (Hother (Z.to_nat (slot (size ht) s')) j); [by eexists|]. intros [= ? _]. lia.
Qed.
End deleted.

Lemma hash_remove_ok h ht s b :
  table_ok h ht → hashable s → arr ht !! Z.to_nat (slot (size ht) s) = Some b →
  not_chain_head h b s →
  ∃ ok ht' h', hash_remove s ht h = Ok (ok, ht', h') ∧ table_ok h' ht' ∧ size ht' = size ht
    ∧ (∀ s', hashable s' →
        hash_find s' ht' h' = if decide (s' = s) then Ok None else hash_find s' ht h)
    ∧ (∀ p, (∀ el, hash_find s ht h = Ok (Some el) → p ≠ el_key el ∧ p ≠ el_data el) →
        cells h' !! p = cells h !! p)
    ∧ brk h' = brk h
    ∧ ((length b ≤ 1)%nat → h' = h)
    ∧ (b = [] ∨ (∃ el, hash_find s ht h = Ok (Some el)) → ok = true)
    ∧ (∀ i j el, entry ht' i j el → ∃ j', entry ht i j' el).
Proof.
  intros Ht Hs Hb Hhead.
  destruct (table_bucket _ _ _ Ht Hs) as (b' & ks & Hb' & Hhash & Hat & Hc & Hnd & Hks & Hd).
  rewrite Hb in Hb'. injection Hb' as <-.
  pose proof (tk_arr _ _ Ht) as Harr.
  pose proof (slot_bound (size ht) s ltac:(by apply tk_size in Ht; lia)) as Hslot.
  pose proof (hash_find_ok _ _ _ _ _ Ht Hs Hb Hc) as Hfind.
  destruct (remove_chain_ok _ _ _ _ Hc Hd Hhead) as (ok & Hrem & Hok).
  set (n := index s ks) in *. set (idx := slot (size ht) s) in *.
  set (h' := match b !! n with Some _ => _ | None => _ end) in *.
  assert (Hsame : ∀ p, (∀ el, b !! n = Some el → p ≠ el_key el ∧ p ≠ el_data el) →
            cells h' !! p = cells h !! p).
  { intros p Hp. subst h'. destruct (b !! n) as [el|]; [|done].
    case_decide; [done|]. destruct (Hp el eq_refl). by apply free_el_other. }
  assert (Hother : ∀ i j el, entry ht i j el → (i, j) ≠ (Z.to_nat idx, n) →
            cells h' !! el_key el = cells h !! el_key el
            ∧ cells h' !! el_data el = cells h !! el_data el).
  { intros i j el He Hne. split; apply Hsame; intros el' Hel';
      by destruct (entry_separate h ht i j el (Z.to_nat idx) n el' Ht He
                     (ex_intro _ b (conj Hb Hel')) Hne) as (? & ? & ? & ?). }
  pose proof (deleted_table_ok h h' ht s b n Ht Hb Hother) as Ht'.
  exists ok, (set_latch (set_bucket ht idx (delete n b)) false), h'.
  split_and!; [|done|done|..].
  - unfold hash_remove. rewrite (tk_latch _ _ Ht). cbn [wrlock mbind outcome_bind].
    replace (hash s (set_latch ht true)) with (hash s ht) by done. rewrite Hhash.
    cbn [mbind outcome_bind].
    replace (bucket_at (set_latch ht true) idx) with (bucket_at ht idx) by done. rewrite Hat.
    cbn [mbind outcome_bind]. by rewrite Hrem.
  - intros s' Hs'. by apply (deleted_find h h' ht s b n Ht Hb Hother ks).
  - intros p Hp. apply Hsame. intros el Hel. apply Hp. by rewrite Hfind, Hel.
  - subst h'. destruct (b !! n); [|done]. by case_decide.
  - intros Hl. subst h'. destruct (b !! n) as [el|] eqn:Hel; [|done].
    apply lookup_lt_Some in Hel. by rewrite decide_True by lia.
  - intros [->|(el & Hel)]; apply Hok; [by left|right]. rewrite Hfind in Hel. injection Hel as Hel. by eexists.
  - intros i j el. rewrite entry_set_bucket by lia. case_decide as Hi; [|eauto].
    intros (j' & Hj)%(list_elem_of_lookup_2 _ _ _)%elem_of_delete. destruct Hj as [_ Hj].
    exists j'. subst i. by eexists.
Qed.

(** Every element is found under its key. *)
Lemma entry_find h ht i j el :
  table_ok h ht → entry ht i j el →
  ∃ s, hashable s ∧ str_at h (el_key el) s ∧ hash_find s ht h = Ok (Some el)
    ∧ i = Z.to_nat (slot (size ht) s).
Proof.
  intros Ht (b & Hb & Hj). destruct (tk_bucket _ _ Ht _ _ Hb) as (ks & Hc & Hnd & Hks & Hd).
  destruct (Forall2_lookup_l _ _ _ _ _ Hc Hj) as (s & Hs & Hst).
  rewrite Forall_lookup in Hks. destruct (Hks _ _ Hs) as [Hh Hsl].
  assert (i = Z.to_nat (slot (size ht) s)) as -> by lia.
  exists s. split_and!; [done|done| |done]. rewrite (hash_find_ok _ _ _ _ _ Ht Hh Hb Hc).
  do 2 f_equal. assert (index s ks < length ks)%nat as Hlt.
  { apply index_lt. by eapply list_elem_of_lookup_2. }
  destruct (lookup_lt_is_Some_2 ks _ Hlt) as [t Ht0].
  pose proof (index_lookup _ _ _ _ Ht0 eq_refl) as ->.
  by rewrite (NoDup_lookup _ _ _ _ Hnd Ht0 Hs).
Qed.

Lemma find_entry h ht s el :
  table_ok h ht → hashable s → hash_find s ht h = Ok (Some el) →
  ∃ j, entry ht (Z.to_nat (slot (size ht) s)) j el.
Proof.
  intros Ht Hs. destruct (table_bucket _ _ _ Ht Hs) as (b & ks & Hb & _ & _ & Hc & _).
  rewrite (hash_find_ok _ _ _ _ _ Ht Hs Hb Hc). intros [= Hel]. eexists. by eexists.
Qed.

(** A table is not disturbed by the rest of the heap. *)
Lemma table_ok_heap h h' ht :
  table_ok h ht →
  (∀ i j el, entry ht i j el → cells h' !! el_key el = cells h !! el_key el
                              ∧ cells h' !! el_data el = cells h !! el_data el) →
  table_ok h' ht.
Proof.
  intros [Hs Ha Hl Hb Hd] Hh. split; [done..| |done].
  intros i b Hi. eapply bucket_ok_heap; [by eauto|].
  intros el (j & Hj)%list_elem_of_lookup. eapply Hh. by eexists.
Qed.

Lemma hash_find_heap h h' ht s :
  table_ok h ht → hashable s →
  (∀ i j el, entry ht i j el → cells h' !! el_key el = cells h !! el_key el
                              ∧ cells h' !! el_data el = cells h !! el_data el) →
  hash_find s ht h' = hash_find s ht h.
Proof.
  intros Ht Hs Hh. destruct (table_bucket _ _ _ Ht Hs) as (b & ks & Hb & _ & _ & Hc & _).
  rewrite (hash_find_ok _ _ _ _ _ Ht Hs Hb Hc).
  apply hash_find_ok; [by eapply table_ok_heap|done|done|].
  eapply chain_heap; [done|]. intros el (j & Hj)%list_elem_of_lookup. eapply Hh. by eexists.
Qed.

Lemma init_hash_entry n i j el : ¬ entry (init_hash n) i j el.
Proof. intros (b & [-> _]%lookup_replicate & Hj). done. Qed.

Lemma init_hash_ok h n : 0 < n ≤ 65535 → table_ok h (init_hash n).
Proof.
  intros Hn. unfold init_hash, u16, u32. split; simpl.
  - rewrite Z.mod_small; lia.
  - unfold zlen. rewrite length_replicate, !Z.mod_small; lia.
  - done.
  - intros i b [-> _]%lookup_replicate. exists []. split_and!; constructor.
  - intros i j el i' j' el' He. by apply init_hash_entry in He.
Qed.

Lemma init_hash_find h n s :
  0 < n ≤ 65535 → hashable s → hash_find s (init_hash n) h = Ok None.
Proof.
  intros Hn Hs. destruct (hash_find_total h (init_hash n) s) as [|(el & Hf & _)];
    [by apply init_hash_ok|done|done|].
  destruct (find_entry h _ s el (init_hash_ok h n Hn) Hs Hf) as [j Hj].
  by apply init_hash_entry in Hj.
Qed.

(** ** The table is a finite map *)

Definition find_data (s : text) (ht : HashTable) (h : heap) : outcome (option Z) :=
  o ← hash_find s ht h; Ok (match o with Some el => Some (el_data el) | None => None end).

(** The table maps the keys of [m] to the addresses in [m]. *)
Definition represents (h : heap) (ht : HashTable) (m : gmap text Z) : Prop :=
  table_ok h ht ∧ ∀ s, hashable s → find_data s ht h = Ok (m !! s).

Lemma represents_fresh h ht m data :
  represents h ht m → (∀ s, m !! s ≠ Some data) → data_fresh ht data.
Proof.
  intros [Ht Hm] Hd i j el He <-. destruct (entry_find _ _ _ _ _ Ht He) as (s & Hs & _ & Hf & _).
  apply (Hd s). specialize (Hm s Hs). unfold find_data in Hm. rewrite Hf in Hm.
  simpl in Hm. congruence.
Qed.

(** C11: the hash table implements a finite map from keys to the addresses of
    their data: a new table is empty, a search is the lookup, an insertion
    (which overwrites) the insertion, and a removal the deletion, unless it
    removes the first element of a longer chain. Each returns, and leaves a
    well-formed table. *)
Theorem hash_table_is_map h ht m s b :
  represents h ht m → hashable s → arr ht !! Z.to_nat (slot (size ht) s) = Some b →
  (∀ n, 0 < n ≤ 65535 → represents h (init_hash n) ∅)
  ∧ find_data s ht h = Ok (m !! s)
  ∧ (∀ key data, str_at h key s → is_data h data → (∀ s', m !! s' ≠ Some data) →
      ∃ ht', hash_insert key data ht h = Ok ht' ∧ represents h ht' (<[s := data]> m))
  ∧ (not_chain_head h b s →
      ∃ ok ht' h', hash_remove s ht h = Ok (ok, ht', h') ∧ represents h' ht' (delete s m)
        ∧ (is_Some (m !! s) → ok = true)).
Proof.
  intros [Ht Hm] Hs Hb. split_and!.
  - intros n Hn. split; [by apply init_hash_ok|]. intros s' Hs'. unfold find_data.
    by rewrite init_hash_find.
  - by apply Hm.
  - intros key data Hkey Hdata Hfresh.
    destruct (hash_insert_ok h ht key data s) as (ht' & Hins & Ht' & _ & Hf & _);
      [done..|by eapply represents_fresh|].
    exists ht'. split; [done|]. split; [done|]. intros s' Hs'. unfold find_data. rewrite Hf by done.
    case_decide as Heq; [by subst; rewrite lookup_insert_eq|].
    rewrite lookup_insert_ne by done. by apply Hm.
  - intros Hhead. destruct (hash_remove_ok h ht s b) as
      (ok & ht' & h' & Hrem & Ht' & _ & Hf & _ & _ & _ & Hok & _); [done..|].
    exists ok, ht', h'. split_and!; [done| |].
    + split; [done|]. intros s' Hs'. unfold find_data. rewrite Hf by done.
      case_decide as Heq; [by subst; rewrite lookup_delete_eq|].
      rewrite lookup_delete_ne by done. by apply Hm.
    + intros [d Hd]. apply Hok. right. specialize (Hm s Hs). rewrite Hd in Hm.
      unfold find_data in Hm. apply bind_Ok_inv in Hm as ([el|] & Hel & [=]). eauto.
Qed.

(** Two keys that collide in a table of five buckets. *)
Definition sample_heap : heap :=
  mkHeap (list_to_map [(70000, OStr (str "1")); (70001, OU32 7);
                       (70002, OStr (str "11")); (70003, OU32 8)]) 70004.
Definition sample_table : HashTable :=
  mkHashTable [[]; [mkHashEl 70000 70001; mkHashEl 70002 70003]; []; []; []] 5 false.

Example sample_table_built :
  (ht ← hash_insert 70000 70001 (init_hash 5) sample_heap;
   hash_insert 70002 70003 ht sample_heap) = Ok sample_table.
Proof. reflexivity. Qed.

Lemma sample_table_ok : table_ok sample_heap sample_table.
Proof.
  assert (∀ i j el, entry sample_table i j el →
    (i = 1 ∧ ((j = 0 ∧ el = mkHashEl 70000 70001) ∨ (j = 1 ∧ el = mkHashEl 70002 70003)))%nat)
    as Hentry.
  { intros i j el (b & Hb & Hj).
    destruct i as [|[|[|[|[|i]]]]]; simplify_eq/=; try done; destruct j as [|[|j]]; simplify_eq/=;
      naive_solver. }
  split; [done..| |].
  - intros i b Hb. destruct i as [|[|[|[|[|i]]]]]; simplify_eq/=; try (exists []; split_and!; by constructor).
    exists [str "1"; str "11"]. split_and!.
    + by repeat constructor.
    + apply (bool_decide_eq_true_1 (NoDup _)). by vm_compute.
    + constructor; [split; [by exists 1|done]|]. constructor; [split; [by exists 11|done]|done].
    + constructor; [by split; [|eexists]|]. constructor; [by split; [|eexists]|done].
  - intros i j el i' j' el' H1%Hentry H2%Hentry Heq.
    destruct H1 as (-> & [[-> ->]|[-> ->]]), H2 as (-> & [[-> ->]|[-> ->]]); done.
Qed.

Lemma hash_table_is_map_witness :
  ∃ ht', hash_insert 70000 70001 (init_hash 5) sample_heap = Ok ht'
    ∧ represents sample_heap ht' {[ str "1" := 70001 ]}.
Proof.
  assert (hashable (str "1")) as Hs by (by exists 1).
  assert (represents sample_heap (init_hash 5) ∅) as Hm.
  { split; [by apply init_hash_ok|]. intros s' Hs'. unfold find_data. by rewrite init_hash_find. }
  destruct (hash_table_is_map sample_heap (init_hash 5) ∅ (str "1") [] Hm Hs eq_refl)
    as (_ & _ & Hins & _).
  apply Hins; [done|by split; [|eexists]|]. intros s' H. by rewrite lookup_empty in H.
Defined.

(** Removing the first element of a chain that has a second one frees the
    key and the data of the second, which stays in the table: from then on every
    search in that bucket reads a freed key. *)
Theorem hash_remove_head_dangles h ht s el el' rest :
  table_ok h ht → hashable s → str_at h (el_key el) s →
  arr ht !! Z.to_nat (slot (size ht) s) = Some (el :: el' :: rest) →
  ∃ ht' h', hash_remove s ht h = Ok (true, ht', h')
    ∧ ∀ s', hashable s' → slot (size ht) s' = slot (size ht) s →
        hash_find s' ht' h' = Undef UseAfterFree.
Proof.
  intros Ht Hs Hel Hb.
  destruct (table_bucket _ _ _ Ht Hs) as (b & ks & Hb' & Hhash & Hat & Hc & _ & _ & Hd).
  rewrite Hb in Hb'. injection Hb' as <-.
  pose proof (tk_size _ _ Ht) as Hsz. pose proof (tk_arr _ _ Ht) as Ha. unfold zlen in Ha.
  pose proof (slot_bound (size ht) s ltac:(lia)) as Hslot.
  assert (∃ t, str_at h (el_key el') t ∧ is_data h (el_data el')) as (t & Ht' & Hd').
  { inversion Hc as [|? ? ? ? _ Hc']; subst. inversion Hc'; subst.
    apply Forall_cons in Hd as [_ [? _]%Forall_cons]. eauto. }
  exists (set_latch (set_bucket ht (slot (size ht) s) (el' :: rest)) false), (free_el el' h).
  split.
  - unfold hash_remove. rewrite (tk_latch _ _ Ht). cbn [wrlock mbind outcome_bind].
    replace (hash s (set_latch ht true)) with (hash s ht) by done. rewrite Hhash.
    cbn [mbind outcome_bind].
    replace (bucket_at (set_latch ht true) (slot (size ht) s))
      with (bucket_at ht (slot (size ht) s)) by done.
    rewrite Hat. cbn [mbind outcome_bind]. unfold remove_chain. cbn [find_chain].
    rewrite (key_matches_ok _ _ _ _ Hel), bool_decide_true by done. cbn [mbind outcome_bind].
    pose proof (free_el_ok _ _ _ Ht' Hd') as Hf.
    destruct (free (el_key el') h) as [h1| | | |]; try done. cbn [mbind outcome_bind] in *.
    by rewrite Hf.
  - intros s' Hs' Heq. unfold hash_find. rewrite hash_ok by done. cbn [mbind outcome_bind set_latch set_bucket size].
    unfold bucket_at. cbn [set_latch set_bucket arr].
    rewrite Heq, list_lookup_insert_eq by lia. cbn [mbind outcome_bind find_chain].
    unfold key_matches, load_str. destruct Ht' as [Hn _].
    rewrite load_freed; [done|done|]. simpl.
    destruct (decide (el_key el' = el_data el')) as [->|]; [by rewrite lookup_delete_eq|].
    rewrite lookup_delete_ne by done. by rewrite lookup_delete_eq.
Qed.

Lemma hash_remove_head_dangles_witness :
  ∃ ht' h', hash_remove (str "1") sample_table sample_heap = Ok (true, ht', h')
    ∧ ∀ s', hashable s' → slot 5 s' = slot 5 (str "1") → hash_find s' ht' h' = Undef UseAfterFree.
Proof.
  refine (hash_remove_head_dangles sample_heap sample_table (str "1") _ _ [] sample_table_ok _ _ eq_refl);
    [by exists 1|done].
Defined.

(** The size is kept in 16 bits and the remainder of a negative key is
    converted to 16 bits: a table made for a multiple of 65536 divides by zero
    at every search, and a search for a negative number that the size does not
    divide leaves the array. *)
Theorem hash_find_bounds h n s z :
  0 < n < 2 ^ 32 → atoi s = Ok z →
  (n mod 65536 = 0 → hash_find s (init_hash n) h = Undef DivByZero)
  ∧ (n ≤ 32768 → z < 0 → Z.rem z n ≠ 0 → hash_find s (init_hash n) h = Undef OutOfBounds).
Proof.
  intros Hn Hz. unfold hash_find, hash. rewrite Hz. cbn [mbind outcome_bind init_hash size arr].
  unfold u16. split.
  - intros Hmod. change (2 ^ 16) with 65536. by rewrite Hmod.
  - intros Hle Hneg Hrem. rewrite Z.mod_small by lia.
    rewrite (proj2 (Z.eqb_neq _ _)) by lia. cbn [mbind outcome_bind].
    unfold bucket_at. cbn [init_hash arr]. unfold u32. rewrite (Z.mod_small n) by lia.
    pose proof (Z.rem_bound_pos_neg z n ltac:(lia) ltac:(lia)).
    replace (Z.rem z n mod 2 ^ 16) with (Z.rem z n + 65536); cycle 1.
    { apply Z.mod_unique_pos with (-1); lia. }
    rewrite lookup_ge_None_2; [done|]. rewrite length_replicate. lia.
Qed.

Lemma hash_find_bounds_witness :
  hash_find (str "3") (init_hash 65536) new_heap = Undef DivByZero
  ∧ hash_find (str "-3") (init_hash 500) new_heap = Undef OutOfBounds.
Proof.
  split; [refine (proj1 (hash_find_bounds new_heap 65536 (str "3") 3 _ eq_refl) _)
         |refine (proj2 (hash_find_bounds new_heap 500 (str "-3") (-3) _ eq_refl) _ _ _)]; by_compute.
Defined.

(** [destroy_hash] frees neither the keys nor the data of a table without
    collisions: it leaves the first element of every bucket allocated. *)
Theorem destroy_hash_leaks h ht :
  table_ok h ht → (∀ i b, arr ht !! i = Some b → (length b ≤ 1)%nat) → destroy_hash ht h = Ok h.
Proof.
  intros Ht Hsparse. unfold destroy_hash. rewrite (tk_latch _ _ Ht). cbn [wrlock mbind outcome_bind].
  assert (Forall (λ b, length b ≤ 1)%nat (take (Z.to_nat (size ht)) (arr ht))) as Hf.
  { apply Forall_take, Forall_lookup. eauto. }
  induction Hf as [|b bs Hb _ IH]; [done|]. cbn [destroy_buckets].
  destruct b as [|el [|el' b]]; [done|done|simpl in Hb; lia].
Qed.

Lemma destroy_hash_leaks_witness :
  destroy_hash (mkHashTable [[]; [mkHashEl 70000 70001]; []; []; []] 5 false) sample_heap
  = Ok sample_heap.
Proof.
  destruct (hash_insert_ok sample_heap (init_hash 5) 70000 70001 (str "1"))
    as (ht' & Hins & Ht' & _);
    [by apply init_hash_ok|done|by exists 1|by split; [|eexists]|by intros ? ? ? ?%init_hash_entry|].
  vm_compute in Hins. injection Hins as <-.
  refine (destroy_hash_leaks sample_heap _ Ht' _).
  intros i b Hi. destruct i as [|[|[|[|[|i]]]]]; simplify_eq/=; lia.
Defined.
