(* ===== verification/HashThreads.v ===== *)
(** * HashThreads: the hash table shared by threads

    Insertion and removal have the signature of a thread body and take the lock of
    the table; the search does not. Here the table is what it is in memory, an
    array of elements and the elements they point to, the operations are sequences
    of steps, and the steps of several threads alternate in any order. *)
From S2P Require Import Prelude Memory Hash.

(** ** The table in memory *)

(** An element, in the array or in a block of its own, with the pointer to the next. *)
Record HashNode := mkHashNode { nd_el : HashEl; nd_next : Z }.
Definition null_node : HashNode := mkHashNode (mkHashEl NULL NULL) NULL.

(** [HashEl *] that is not null: [&ht->arr[i]] or a block. *)
Inductive place := Slot (i : nat) | Block (p : Z).

#[export] Instance place_eq_dec : EqDecision place.
Proof. solve_decision. Defined.

Definition place_of (p : Z) : option place := if p =? NULL then None else Some (Block p).

(** The lock is held by [owner]; [mem] has the keys and the data. *)
Record SharedTable := mkShared {
  slots : list HashNode; slot_count : Z; blocks : gmap Z HashNode; next_block : Z;
  owner : option nat; mem : heap }.

Definition set_owner (o : option nat) (σ : SharedTable) : SharedTable :=
  mkShared (slots σ) (slot_count σ) (blocks σ) (next_block σ) o (mem σ).
Definition set_mem (h : heap) (σ : SharedTable) : SharedTable :=
  mkShared (slots σ) (slot_count σ) (blocks σ) (next_block σ) (owner σ) h.
Definition set_slots (ns : list HashNode) (σ : SharedTable) : SharedTable :=
  mkShared ns (slot_count σ) (blocks σ) (next_block σ) (owner σ) (mem σ).
Definition set_blocks (m : gmap Z HashNode) (σ : SharedTable) : SharedTable :=
  mkShared (slots σ) (slot_count σ) m (next_block σ) (owner σ) (mem σ).

Definition load_el (pl : place) (σ : SharedTable) : outcome HashNode :=
  match pl with
  | Slot i => match slots σ !! i with Some n => Ok n | None => Undef OutOfBounds end
  | Block p => match blocks σ !! p with Some n => Ok n | None => Undef UseAfterFree end
  end.
Definition put_el (pl : place) (n : HashNode) (σ : SharedTable) : SharedTable :=
  match pl with
  | Slot i => set_slots (<[i := n]> (slots σ)) σ
  | Block p => set_blocks (<[p := n]> (blocks σ)) σ
  end.
Definition store_el (pl : place) (n : HashNode) (σ : SharedTable) : outcome SharedTable :=
  _ ← load_el pl σ; Ok (put_el pl n σ).
Definition malloc_el (n : HashNode) (σ : SharedTable) : Z * SharedTable :=
  (next_block σ,
   mkShared (slots σ) (slot_count σ) (<[next_block σ := n]> (blocks σ)) (next_block σ + 1) (owner σ) (mem σ)).
Definition free_block (p : Z) (σ : SharedTable) : outcome SharedTable :=
  _ ← load_el (Block p) σ; Ok (set_blocks (delete p (blocks σ)) σ).

(** [hash_insert], [hash_remove] and [hash_find] with their arguments, and what they
    return: nothing, the value stored through [success_out], or the element found. *)
Inductive update := Insert (key data : Z) | Remove (key : text).
Inductive call := Update (u : update) | Find (key : text).
Inductive answer := Returned | Success (b : bool) | Found (pl : option place).

(** ** The operations as sequences of steps *)

(** Where a thread is, with its local variables. [InsHash] to [InsWalk] are
    [hash_insert] after it has taken the lock: the index is computed, the
    element allocated, the slot looked at, and the chain walked. [RemHash] and
    [RemWalk] are the same in [hash_remove]; [RemFree] has blocks of [mem] left to
    free and, after these, an element, whose members are nulled before it is
    freed. [FindRead], [FindCompare] and [FindNext] are an iteration of [hash_find]. *)
Inductive pc :=
  | InsHash (key data : Z)
  | InsAlloc (key data : Z) (s : text) (idx : Z)
  | InsHead (el : Z) (s : text) (idx : Z)
  | InsWalk (el : Z) (s : text) (temp prev : option place)
  | RemHash (s : text)
  | RemWalk (s : text) (idx : Z) (temp prev : option place)
  | RemFree (ps : list Z) (el : option Z)
  | RemDrop (el : Z)
  | Unlock (a : answer)
  | FindHash (s : text)
  | FindHead (s : text) (idx : Z)
  | FindRead (s : text) (temp : option place)
  | FindCompare (s : text) (temp : place) (key : Z)
  | FindNext (s : text) (temp : place).

Definition hash_of (s : text) (σ : SharedTable) : outcome Z :=
  hash s (mkHashTable [] (slot_count σ) false).

(** The code before the lock is taken; [None] when the thread has to wait. *)
Definition start (i : nat) (c : call) (σ : SharedTable) : option (SharedTable * (pc + answer)) :=
  let lock p := match owner σ with None => Some (set_owner (Some i) σ, inl p) | Some _ => None end in
  match c with
  | Update (Insert key data) =>
      if (key =? NULL) || (data =? NULL) then Some (σ, inr Returned) else lock (InsHash key data)
  | Update (Remove s) => lock (RemHash s)
  | Find s => Some (σ, inl (FindHash s))
  end.

(** An iteration of the walk of [hash_insert], with what follows it. *)
Definition insert_loop (el : Z) (s : text) (temp prev : option place) (σ : SharedTable)
    : outcome (SharedTable * (pc + answer)) :=
  match temp, prev with
  | None, None => Undef NullDeref
  | None, Some pr =>
      n ← load_el pr σ;
      σ ← store_el pr (mkHashNode (nd_el n) el) σ;
      Ok (σ, inl (Unlock Returned))
  | Some pl, _ =>
      n ← load_el pl σ;
      t ← load_str (el_key (nd_el n)) (mem σ);
      if bool_decide (t = s) then
        new ← load_el (Block el) σ;
        let new := mkHashNode (nd_el new) (nd_next n) in
        σ ← store_el (Block el) new σ;
        σ ← store_el pl new σ;
        Ok (σ, inl (Unlock Returned))
      else Ok (σ, inl (InsWalk el s (place_of (nd_next n)) (Some pl)))
  end.

(** What [hash_remove] does when its walk has stopped at an element. *)
Definition unlink (idx : Z) (pl : place) (prev : option place) (σ : SharedTable)
    : outcome (SharedTable * (pc + answer)) :=
  n ← load_el pl σ;
  match prev, pl with
  | None, _ =>
      new ← (if nd_next n =? NULL then Ok null_node else load_el (Block (nd_next n)) σ);
      σ ← store_el (Slot (Z.to_nat idx)) new σ;
      Ok (σ, inl (RemFree [el_key (nd_el new); el_data (nd_el new)] None))
  | Some pr, Block p =>
      prn ← load_el pr σ;
      σ ← store_el pr (mkHashNode (nd_el prn) (nd_next n)) σ;
      Ok (σ, inl (RemFree [el_key (nd_el n); el_data (nd_el n)] (Some p)))
  | Some _, Slot _ => Undef UseAfterFree
  end.

Definition remove_loop (s : text) (idx : Z) (temp prev : option place) (σ : SharedTable)
    : outcome (SharedTable * (pc + answer)) :=
  match temp with
  | None => Ok (set_owner None σ, inr (Success false))
  | Some pl =>
      n ← load_el pl σ;
      if el_key (nd_el n) =? NULL then unlink idx pl prev σ
      else
        t ← load_str (el_key (nd_el n)) (mem σ);
        if bool_decide (t = s) then unlink idx pl prev σ
        else Ok (σ, inl (RemWalk s idx (place_of (nd_next n)) (Some pl)))
  end.

Definition pc_step (p : pc) (σ : SharedTable) : outcome (SharedTable * (pc + answer)) :=
  match p with
  | InsHash key data =>
      s ← load_str key (mem σ); idx ← hash_of s σ; Ok (σ, inl (InsAlloc key data s idx))
  | InsAlloc key data s idx =>
      let '(el, σ) := malloc_el (mkHashNode (mkHashEl key data) NULL) σ in
      Ok (σ, inl (InsHead el s idx))
  | InsHead el s idx =>
      n ← load_el (Slot (Z.to_nat idx)) σ;
      if el_key (nd_el n) =? NULL then
        new ← load_el (Block el) σ;
        σ ← store_el (Slot (Z.to_nat idx)) new σ;
        Ok (σ, inl (Unlock Returned))
      else Ok (σ, inl (InsWalk el s (Some (Slot (Z.to_nat idx))) None))
  | InsWalk el s temp prev => insert_loop el s temp prev σ
  | RemHash s => idx ← hash_of s σ; Ok (σ, inl (RemWalk s idx (Some (Slot (Z.to_nat idx))) None))
  | RemWalk s idx temp prev => remove_loop s idx temp prev σ
  | RemFree (p :: ps) el => h ← free p (mem σ); Ok (set_mem h σ, inl (RemFree ps el))
  | RemFree [] (Some el) =>
      n ← load_el (Block el) σ;
      σ ← store_el (Block el) (mkHashNode (mkHashEl NULL NULL) (nd_next n)) σ;
      Ok (σ, inl (RemDrop el))
  | RemFree [] None => Ok (σ, inl (Unlock (Success true)))
  | RemDrop el => σ ← free_block el σ; Ok (σ, inl (Unlock (Success true)))
  | Unlock a => Ok (set_owner None σ, inr a)
  | FindHash s => idx ← hash_of s σ; Ok (σ, inl (FindHead s idx))
  | FindHead s idx =>
      n ← load_el (Slot (Z.to_nat idx)) σ;
      if el_key (nd_el n) =? NULL then Ok (σ, inr (Found None))
      else Ok (σ, inl (FindRead s (Some (Slot (Z.to_nat idx)))))
  | FindRead s None => Ok (σ, inr (Found None))
  | FindRead s (Some pl) => n ← load_el pl σ; Ok (σ, inl (FindCompare s pl (el_key (nd_el n))))
  | FindCompare s pl key =>
      t ← load_str key (mem σ);
      Ok (σ, if bool_decide (t = s) then inr (Found (Some pl)) else inl (FindNext s pl))
  | FindNext s pl => n ← load_el pl σ; Ok (σ, inl (FindRead s (place_of (nd_next n))))
  end.

(** ** Threads *)

(** A thread makes its calls one after another. Between two calls it is nowhere. *)
Record thread := mkThread { answers : list answer; at_pc : option pc; todo : list call }.

Definition resume (t : thread) (cs : list call) (r : pc + answer) : thread :=
  match r with
  | inl p => mkThread (answers t) (Some p) cs
  | inr a => mkThread (answers t ++ [a]) None cs
  end.

Definition thread_step (i : nat) (t : thread) (σ : SharedTable) : option (outcome (SharedTable * thread)) :=
  match at_pc t, todo t with
  | Some p, cs => Some ('(σ, r) ← pc_step p σ; Ok (σ, resume t cs r))
  | None, c :: cs => '(σ, r) ← start i c σ; Some (Ok (σ, resume t cs r))
  | None, [] => None
  end.

Definition config : Type := SharedTable * list thread.

(** A step of thread [i], when it has one. *)
Definition step_of (i : nat) (c : config) : option (outcome config) :=
  t ← c.2 !! i;
  o ← thread_step i t c.1;
  Some ('(σ, t) ← o; Ok (σ, <[i := t]> c.2)).

Definition steps (c c' : config) : Prop := ∃ i, step_of i c = Some (Ok c').
Definition finished (t : thread) : Prop := at_pc t = None ∧ todo t = [].
Definition spawn (cs : list call) : thread := mkThread [] None cs.

(** The steps of the threads in a list, up to a fault; [None] when a thread has no step. *)
Fixpoint run_schedule (sched : list nat) (c : config) : option (outcome config) :=
  match sched with
  | [] => Some (Ok c)
  | i :: sched =>
      o ← step_of i c;
      match o with Ok c => run_schedule sched c | _ => Some o end
  end.

(** The table that [init_hash] makes. *)
Definition new_table (n : Z) (h : heap) : SharedTable :=
  mkShared (replicate (Z.to_nat (u32 n)) null_node) (u16 n) ∅ HEAP_BASE None h.

(** ** The updates one after another *)

(** An update of the table of [Hash]. *)
Definition seq_update (u : update) (st : HashTable * heap) : outcome (answer * (HashTable * heap)) :=
  match u with
  | Insert key data => ht ← hash_insert key data st.1 st.2; Ok (Returned, (ht, st.2))
  | Remove s => '(ok, ht, h) ← hash_remove s st.1 st.2; Ok (Success ok, (ht, h))
  end.

Fixpoint seq_updates (us : list update) (st : HashTable * heap) : outcome (list answer * (HashTable * heap)) :=
  match us with
  | [] => Ok ([], st)
  | u :: us =>
      '(a, st) ← seq_update u st;
      '(rs, st) ← seq_updates us st;
      Ok (a :: rs, st)
  end.

(** A log of the updates with the threads that made them and the answers. *)
Abbreviation log := (list (nat * update * answer)).
Definition of_thread (i : nat) (l : log) : log := filter (λ e, e.1.1 = i) l.
Definition updates (l : log) : list update := (λ e : nat * update * answer, e.1.2) <$> l.
Definition replies (l : log) : list answer := (λ e : nat * update * answer, e.2) <$> l.

(** ** Elements in memory and chains of the model *)

(** From [t], the pointers lead through [pls], where the elements [b] are, to [e]. *)
Fixpoint seg (σ : SharedTable) (t : option place) (pls : list place) (b : list HashEl) (e : option place) : Prop :=
  match pls, b with
  | [], [] => t = e
  | pl :: pls, el :: b => t = Some pl ∧ ∃ next, load_el pl σ = Ok (mkHashNode el next) ∧ seg σ (place_of next) pls b e
  | _, _ => False
  end.

(** A bucket of the array: the slot is null, or the start of a chain. *)
Definition bucket (σ : SharedTable) (i : nat) (pls : list place) (b : list HashEl) : Prop :=
  match b with
  | [] => pls = [] ∧ load_el (Slot i) σ = Ok null_node
  | _ => seg σ (Some (Slot i)) pls b None ∧ Forall (λ el, el_key el ≠ NULL) b
  end.

(** [places i] is where the elements of bucket [i] are. *)
Record laid_out (σ : SharedTable) (ht : HashTable) (places : nat → list place) : Prop := {
  lo_size : slot_count σ = size ht;
  lo_latch : latch ht = false;
  lo_slots : length (slots σ) = length (arr ht);
  lo_bucket : ∀ i b, arr ht !! i = Some b → bucket σ i (places i) b;
  lo_blocks : ∀ i p, Block p ∈ places i → (i < length (arr ht))%nat ∧ p < next_block σ;
  lo_apart : ∀ i j p, Block p ∈ places i → Block p ∈ places j → i = j;
  lo_next : NULL < next_block σ }.

Definition in_memory (σ : SharedTable) (st : HashTable * heap) : Prop :=
  (∃ places, laid_out σ st.1 places) ∧ mem σ = st.2.

Lemma seg_length σ t pls b e : seg σ t pls b e → length pls = length b.
Proof.
  revert t b. induction pls as [|pl pls IH]; intros t [|el b]; simpl; try done.
  intros (_ & n & _ & H). f_equal. by eapply IH.
Qed.

Lemma seg_app σ t pls1 pls2 b1 b2 m e :
  seg σ t pls1 b1 m → seg σ m pls2 b2 e → seg σ t (pls1 ++ pls2) (b1 ++ b2) e.
Proof.
  revert t b1. induction pls1 as [|pl pls1 IH]; intros t [|el b1]; simpl; try done; [by intros ->|].
  intros (-> & n & Hn & ?) ?. split; [done|]. exists n. split; [done|]. by apply IH.
Qed.

Lemma seg_split σ t pls1 pls2 b e :
  seg σ t (pls1 ++ pls2) b e → ∃ b1 b2 m, b = b1 ++ b2 ∧ seg σ t pls1 b1 m ∧ seg σ m pls2 b2 e.
Proof.
  revert t b. induction pls1 as [|pl pls1 IH]; intros t b; simpl.
  - intros ?. by exists [], b, t.
  - destruct b as [|el b]; [done|]. intros (-> & n & Hn & (b1 & b2 & m & -> & ? & ?)%IH).
    exists (el :: b1), b2, m. split_and!; [done|done| |done]. by exists n.
Qed.

Lemma seg_ext σ σ' t pls b e :
  (∀ pl, pl ∈ pls → load_el pl σ' = load_el pl σ) → seg σ t pls b e → seg σ' t pls b e.
Proof.
  revert t b. induction pls as [|pl pls IH]; intros t [|el b] Hl; simpl; try done.
  intros (-> & n & Hn & Hs). split; [done|]. exists n. split; [by rewrite Hl by set_solver|].
  apply IH; [set_solver|done].
Qed.

Lemma seg_det σ t pls b pls' b' : seg σ t pls b None → seg σ t pls' b' None → pls = pls'.
Proof.
  revert t b pls' b'. induction pls as [|pl pls IH]; intros t [|el b] [|pl' pls'] [|el' b']; simpl; try done.
  - by intros -> (? & _).
  - by intros (-> & _).
  - intros (-> & n & Hn & Hs) ([= <-] & n' & Hn' & Hs'). rewrite Hn in Hn'. injection Hn' as <- <-.
    f_equal. by eapply IH.
Qed.

(** A chain that ends does not come back to an element. *)
Lemma seg_nodup σ t pls b : seg σ t pls b None → NoDup pls.
Proof.
  revert t b. induction pls as [|pl pls IH]; intros t [|el b]; simpl; try done; [by constructor|].
  intros (-> & n & Hn & Hs). constructor; [|by eapply IH].
  intros (pls1 & pls2 & ->)%list_elem_of_split.
  destruct (seg_split _ _ _ _ _ _ Hs) as (b1 & b2 & m & -> & _ & Hs2).
  assert (m = Some pl) as -> by (destruct b2; [done|by destruct Hs2]).
  assert (seg σ (Some pl) (pl :: pls1 ++ pl :: pls2) (el :: b1 ++ b2) None) as Hall by (split; [done|by exists n]).
  pose proof (f_equal length (seg_det _ _ _ _ _ _ Hall Hs2)) as Hlen. simpl in Hlen. rewrite length_app in Hlen. simpl in Hlen. lia.
Qed.

(** All elements after the first are blocks. *)
Lemma seg_blocks σ p pls b e pl : seg σ (place_of p) pls b e → pl ∈ pls → ∃ q, pl = Block q.
Proof.
  revert p b. induction pls as [|pl' pls IH]; intros p [|el b]; simpl; try done; [by intros _ ?%elem_of_nil|].
  intros (Hp & n & _ & Hs) [->|Hin]%elem_of_cons; [|by eapply IH].
  unfold place_of in Hp. destruct (p =? NULL); [done|]. injection Hp as <-. by exists p.
Qed.

(** *** Storing an element *)

Lemma load_put pl pl' n n0 σ :
  load_el pl σ = Ok n0 → load_el pl' (put_el pl n σ) = if decide (pl' = pl) then Ok n else load_el pl' σ.
Proof.
  intros Hn. case_decide as Hd; [subst pl'; destruct pl as [i|p]|destruct pl as [i|p], pl' as [i'|p']];
    cbn [load_el put_el set_slots set_blocks slots blocks] in *; try done.
  - destruct (slots σ !! i) eqn:Hi; [|done]. by rewrite list_lookup_insert_eq by (by eapply lookup_lt_Some).
  - by rewrite lookup_insert_eq.
  - by rewrite list_lookup_insert_ne by congruence.
  - by rewrite lookup_insert_ne by congruence.
Qed.

Lemma store_el_ok pl n n0 σ : load_el pl σ = Ok n0 → store_el pl n σ = Ok (put_el pl n σ).
Proof. intros Hn. unfold store_el. by rewrite Hn. Qed.

(** What a store leaves alone. *)
Lemma put_el_rest pl n σ :
  slot_count (put_el pl n σ) = slot_count σ ∧ length (slots (put_el pl n σ)) = length (slots σ)
  ∧ next_block (put_el pl n σ) = next_block σ ∧ owner (put_el pl n σ) = owner σ ∧ mem (put_el pl n σ) = mem σ.
Proof. destruct pl; simpl; rewrite ?length_insert; done. Qed.

(** An element of a chain is overwritten by one with the same pointer. *)
Lemma seg_overwrite σ t pls1 pl pls2 b1 el b2 el' n0 n :
  seg σ t (pls1 ++ pl :: pls2) (b1 ++ el :: b2) None → length pls1 = length b1 → load_el pl σ = Ok (mkHashNode n0 n) →
  seg (put_el pl (mkHashNode el' n) σ) t (pls1 ++ pl :: pls2) (b1 ++ el' :: b2) None.
Proof.
  intros Hs Hl Hn. pose proof (seg_nodup _ _ _ _ Hs) as (_ & Hnin & Hnd)%NoDup_app.
  apply NoDup_cons in Hnd as [Hnin2 _].
  destruct (seg_split _ _ _ _ _ _ Hs) as (c1 & c2 & m & Hb & H1 & H2).
  assert (b1 = c1 ∧ el :: b2 = c2) as [<- <-] by (apply app_inj_1; [rewrite <- Hl; by eapply seg_length|done]).
  destruct H2 as (-> & n' & Hn' & H2). rewrite Hn in Hn'. injection Hn' as -> <-.
  apply seg_app with (Some pl).
  - eapply seg_ext; [|exact H1]. intros pl' Hin. rewrite (load_put _ _ _ _ _ Hn), decide_False; [done|].
    intros ->. apply (Hnin _ Hin). set_solver.
  - split; [done|]. exists n. rewrite (load_put _ _ _ _ _ Hn), decide_True by done. split; [done|].
    eapply seg_ext; [|exact H2]. intros pl' Hin. rewrite (load_put _ _ _ _ _ Hn), decide_False; [done|]. by intros ->.
Qed.

(** The pointer of the last element before a place is redirected. *)
Lemma seg_redirect σ t pls1 pl b1 el m q e :
  seg σ t (pls1 ++ [pl]) (b1 ++ [el]) m → NoDup (pls1 ++ [pl]) →
  e = place_of q →
  seg (put_el pl (mkHashNode el q) σ) t (pls1 ++ [pl]) (b1 ++ [el]) e.
Proof.
  intros Hs (_ & Hnin & _)%NoDup_app ->.
  destruct (seg_split _ _ _ _ _ _ Hs) as (c1 & c2 & m' & Hb & H1 & H2).
  destruct c2 as [|el' [|]]; [done| |by destruct H2 as (_ & ? & _ & ?)].
  apply app_inj_tail in Hb as [<- <-]. destruct H2 as (-> & n & Hn & _).
  apply seg_app with (Some pl).
  - eapply seg_ext; [|exact H1]. intros pl' Hin. rewrite (load_put _ _ _ _ _ Hn), decide_False; [done|].
    intros ->. apply (Hnin _ Hin). set_solver.
  - split; [done|]. exists q. by rewrite (load_put _ _ _ _ _ Hn), decide_True.
Qed.

(** *** Laying out a table *)

Lemma bucket_ext σ σ' i pls b :
  bucket σ i pls b → (∀ pl, pl = Slot i ∨ pl ∈ pls → load_el pl σ' = load_el pl σ) → bucket σ' i pls b.
Proof.
  intros Hb Hl. destruct b as [|el b]; unfold bucket in *.
  - destruct Hb as [-> Hb]. split; [done|]. rewrite Hl; [done|by left].
  - destruct Hb as [Hb Hk]. split; [|done]. eapply seg_ext; [|exact Hb]. auto.
Qed.

Lemma bucket_slots σ i j pls b : bucket σ i pls b → Slot j ∈ pls → j = i.
Proof.
  destruct b as [|el b]; [by intros [-> _] ?%elem_of_nil|]. intros [Hs _]. destruct pls as [|pl pls]; [done|].
  destruct Hs as ([= <-] & n & _ & Hs). intros [[= ->]|Hin]%elem_of_cons; [done|].
  by destruct (seg_blocks _ _ _ _ _ _ Hs Hin).
Qed.

Lemma bucket_chain σ i pls b :
  b ≠ [] → seg σ (Some (Slot i)) pls b None → Forall (λ el, el_key el ≠ NULL) b → bucket σ i pls b.
Proof. by destruct b. Qed.

Definition fresh_block (σ : SharedTable) (places : nat → list place) (p : Z) : Prop :=
  (∀ j, Block p ∉ places j) ∧ p < next_block σ.

Lemma laid_out_ext σ σ' ht places :
  laid_out σ ht places → slot_count σ' = slot_count σ → length (slots σ') = length (slots σ) →
  next_block σ ≤ next_block σ' →
  (∀ pl, (∀ p, pl = Block p → ∃ j, Block p ∈ places j) → load_el pl σ' = load_el pl σ) →
  laid_out σ' ht places.
Proof.
  intros [Hs Hla Hsl Hb Hbl Ha Hn] Hc Hlen Hnext Hl. split; try done; try congruence.
  - intros i b Hi. apply bucket_ext with σ; [by apply Hb|]. intros pl Hin. apply Hl. intros p ->.
    destruct Hin as [|Hin]; [done|]. by exists i.
  - intros i p Hin. destruct (Hbl _ _ Hin). split; [done|lia].
  - lia.
Qed.

Section change.
Context (σ : SharedTable) (ht : HashTable) (places : nat → list place) (idx : Z) (b0 : list HashEl).
Let i := Z.to_nat idx.
Hypothesis (Hlo : laid_out σ ht places) (Hi : arr ht !! i = Some b0).

Definition with_places (j : nat) (pls : list place) (ps : nat → list place) : nat → list place :=
  λ k, if decide (k = j) then pls else ps k.

(** The places of one bucket are none of another. *)
Lemma places_apart j b pl pl' :
  j ≠ i → arr ht !! j = Some b → pl = Slot i ∨ pl ∈ places i → pl' = Slot j ∨ pl' ∈ places j → pl' ≠ pl.
Proof.
  intros Hj Hb Hpl Hpl' ->. apply Hj. destruct pl as [k|p].
  - assert (k = i) as -> by (destruct Hpl as [[= ->]|Hin]; [done|by eapply bucket_slots; [apply (lo_bucket _ _ _ Hlo)|]]).
    destruct Hpl' as [[= ->]|Hin]; [done|]. symmetry. eapply bucket_slots; [by apply (lo_bucket _ _ _ Hlo)|exact Hin].
  - destruct Hpl as [|Hpl], Hpl' as [|Hpl']; try done. by eapply (lo_apart _ _ _ Hlo).
Qed.

(** A store to a place of a bucket changes that bucket. *)
Lemma laid_out_put pl n0 n b pls :
  pl = Slot i ∨ pl ∈ places i → load_el pl σ = Ok n0 → bucket (put_el pl n σ) i pls b →
  (∀ p, Block p ∈ pls → Block p ∈ places i ∨ fresh_block σ places p) →
  laid_out (put_el pl n σ) (set_bucket ht idx b) (with_places i pls places).
Proof.
  intros Hpl Hn Hb Hnew. destruct (put_el_rest pl n σ) as (H1 & H2 & H3 & _). destruct Hlo as [Hs Hla Hsl Hbs Hbl Ha Hnx].
  pose proof (lookup_lt_Some _ _ _ Hi) as Hlt.
  assert (Hin : ∀ j p, Block p ∈ with_places i pls places j → Block p ∈ places j ∨ j = i ∧ fresh_block σ places p)
    by (intros j p; unfold with_places; case_decide as Hd; [subst j; intros [?|?]%Hnew; auto|auto]).
  split; cbn [set_bucket size latch arr]; rewrite ?H1, ?H2, ?H3; fold i; rewrite ?length_insert; try done.
  - intros j b' Hj. unfold with_places. case_decide as Hd.
    + subst j. rewrite list_lookup_insert_eq in Hj by done. by injection Hj as <-.
    + rewrite list_lookup_insert_ne in Hj by done. apply bucket_ext with σ; [by apply Hbs|].
      intros pl' Hpl'. rewrite (load_put _ _ _ _ _ Hn), decide_False; [done|]. by eapply places_apart.
  - intros j p [Hj|[-> [_ Hj]]]%Hin; [by apply Hbl|done].
  - intros j k p [Hj|[-> [Hj _]]]%Hin [Hk|[-> [Hk _]]]%Hin; [by eapply Ha|by destruct (Hk j)|by destruct (Hj k)|done].
Qed.
End change.

(** ** Between the lock and its release *)

(** What is left of an update of the table of [Hash] once the index is known, and
    once the chain has been changed. *)
Definition insert_rest (el : HashEl) (s : text) (idx : Z) (ht : HashTable) (h : heap)
    : outcome (answer * (HashTable * heap)) :=
  b ← bucket_at ht idx; b ← insert_chain h s el b; Ok (Returned, (set_bucket ht idx b, h)).
Definition remove_rest (s : text) (idx : Z) (ht : HashTable) (h : heap)
    : outcome (answer * (HashTable * heap)) :=
  b ← bucket_at ht idx; '(ok, b, h) ← remove_chain h s b; Ok (Success ok, (set_bucket ht idx b, h)).
Fixpoint free_all (ps : list Z) (h : heap) : outcome heap :=
  match ps with [] => Ok h | p :: ps => h ← free p h; free_all ps h end.

Definition longest (ht : HashTable) : nat := max_list (length <$> arr ht).

(** A walk through bucket [idx] that has passed [b1] and is at [b2]. *)
Definition walking (σ : SharedTable) (ht : HashTable) (places : nat → list place) (idx : Z)
    (temp prev : option place) (b1 b2 : list HashEl) : Prop :=
  arr ht !! Z.to_nat idx = Some (b1 ++ b2) ∧ Forall (λ el, el_key el ≠ NULL) (b1 ++ b2) ∧
  ∃ pls1 pls2, places (Z.to_nat idx) = pls1 ++ pls2 ∧ prev = last pls1
    ∧ seg σ (Some (Slot (Z.to_nat idx))) pls1 b1 temp ∧ seg σ temp pls2 b2 None.

(** A thread at [p] holds the lock, has at most [n] steps to its release, and then
    the update has the outcome [F], a fault included. *)
Definition critical (σ : SharedTable) (p : pc) (F : outcome (answer * (HashTable * heap))) (n : nat) : Prop :=
  ∃ ht places, laid_out σ ht places ∧
  match p with
  | InsHash key data =>
      key ≠ NULL ∧ data ≠ NULL ∧ F = seq_update (Insert key data) (ht, mem σ) ∧ (longest ht + 5 ≤ n)%nat
  | InsAlloc key data s idx =>
      key ≠ NULL ∧ F = insert_rest (mkHashEl key data) s idx ht (mem σ) ∧ (longest ht + 4 ≤ n)%nat
  | InsHead el s idx => ∃ key data,
      key ≠ NULL ∧ F = insert_rest (mkHashEl key data) s idx ht (mem σ) ∧ (longest ht + 3 ≤ n)%nat
      ∧ fresh_block σ places el ∧ load_el (Block el) σ = Ok (mkHashNode (mkHashEl key data) NULL) ∧ el ≠ NULL
  | InsWalk el s temp prev => ∃ key data idx b1 b2,
      key ≠ NULL ∧ walking σ ht places idx temp prev b1 b2 ∧ b1 ++ b2 ≠ []
      ∧ F = (b ← insert_chain (mem σ) s (mkHashEl key data) b2; Ok (Returned, (set_bucket ht idx (b1 ++ b), mem σ)))
      ∧ (length b2 + 2 ≤ n)%nat
      ∧ fresh_block σ places el ∧ load_el (Block el) σ = Ok (mkHashNode (mkHashEl key data) NULL) ∧ el ≠ NULL
  | RemHash s => F = seq_update (Remove s) (ht, mem σ) ∧ (longest ht + 7 ≤ n)%nat
  | RemWalk s idx temp prev =>
      F = remove_rest s idx ht (mem σ) ∧
      (temp = Some (Slot (Z.to_nat idx)) ∧ prev = None ∧ (longest ht + 6 ≤ n)%nat
       ∨ ∃ b1 b2, walking σ ht places idx temp prev b1 b2 ∧ b1 ≠ [] ∧ (length b2 + 6 ≤ n)%nat
           ∧ find_chain (mem σ) s (b1 ++ b2) = (i ← find_chain (mem σ) s b2; Ok (length b1 + i)%nat))
  | RemFree ps el =>
      F = (h ← free_all ps (mem σ); Ok (Success true, (ht, h))) ∧ (length ps + 3 ≤ n)%nat
      ∧ match el with Some p => (∀ j, Block p ∉ places j) ∧ ∃ n, load_el (Block p) σ = Ok n | None => True end
  | RemDrop p =>
      F = Ok (Success true, (ht, mem σ)) ∧ (2 ≤ n)%nat
      ∧ (∀ j, Block p ∉ places j) ∧ ∃ n, load_el (Block p) σ = Ok n
  | Unlock a => F = Ok (a, (ht, mem σ)) ∧ (1 ≤ n)%nat
  | _ => False
  end.

(** The step that follows leads on, releases the lock with the outcome, or is the fault. *)
Definition leads_on (σ : SharedTable) (F : outcome (answer * (HashTable * heap))) (n : nat)
    (o : outcome (SharedTable * (pc + answer))) : Prop :=
  match o with
  | Ok (σ', inl p) => owner σ' = owner σ ∧ ∃ m, (m < n)%nat ∧ critical σ' p F m
  | Ok (σ', inr a) => owner σ' = None ∧ (0 < n)%nat ∧ ∃ st, in_memory σ' st ∧ F = Ok (a, st)
  | Undef f => F = Undef f
  | _ => False
  end.

Lemma hash_cases s n : (∃ z, hash s n = Ok z) ∨ ∃ f, hash s n = Undef f.
Proof.
  unfold hash, atoi, int_result. repeat case_match; cbn [mbind outcome_bind]; repeat case_match; eauto.
Qed.

Lemma load_str_cases p h : (∃ s, load_str p h = Ok s) ∨ ∃ f, load_str p h = Undef f.
Proof.
  unfold load_str, load. destruct (p =? NULL); [eauto|]. destruct (cells h !! p) as [[]|]; cbn [mbind outcome_bind]; eauto.
Qed.

Lemma free_cases p h : (∃ h', free p h = Ok h') ∨ ∃ f, free p h = Undef f.
Proof. unfold free. repeat case_match; eauto. Qed.

Lemma longest_ge ht i b : arr ht !! i = Some b → (length b ≤ longest ht)%nat.
Proof. intros Hi. apply max_list_elem_of_le, list_elem_of_fmap_2. by eapply list_elem_of_lookup_2. Qed.

Lemma set_latch_id ht : latch ht = false → set_latch ht false = ht.
Proof. by destruct ht as [? ? ?]; cbn; intros ->. Qed.

(** [hash_insert] and [hash_remove] once they have the lock. *)
Lemma insert_rest_eq ht h key data :
  latch ht = false → key ≠ NULL → data ≠ NULL →
  seq_update (Insert key data) (ht, h)
  = (s ← load_str key (h); idx ← hash s ht; insert_rest (mkHashEl key data) s idx ht (h)).
Proof.
  intros Hla Hk Hd. unfold seq_update, hash_insert, insert_rest. cbn [fst snd].
  rewrite !(proj2 (Z.eqb_neq _ _)) by done. cbn [orb]. rewrite Hla. cbn [wrlock mbind outcome_bind].
  destruct (load_str key (h)) as [s| | | |]; try done. cbn [mbind outcome_bind].
  replace (hash s (set_latch ht true)) with (hash s ht) by done. destruct (hash s ht) as [idx| | | |]; try done.
  cbn [mbind outcome_bind]. replace (bucket_at (set_latch ht true) idx) with (bucket_at ht idx) by done.
  destruct (bucket_at ht idx) as [b| | | |]; try done. cbn [mbind outcome_bind].
  destruct (insert_chain _ _ _ b) as [b'| | | |]; try done. cbn [mbind outcome_bind]. do 3 f_equal. cbn. unfold set_bucket. by rewrite Hla.
Qed.

Lemma remove_rest_eq ht h s :
  latch ht = false → seq_update (Remove s) (ht, h) = (idx ← hash s ht; remove_rest s idx ht (h)).
Proof.
  intros Hla. unfold seq_update, hash_remove, remove_rest. cbn [fst snd].
  rewrite Hla. cbn [wrlock mbind outcome_bind].
  replace (hash s (set_latch ht true)) with (hash s ht) by done. destruct (hash s ht) as [idx| | | |]; try done.
  cbn [mbind outcome_bind]. replace (bucket_at (set_latch ht true) idx) with (bucket_at ht idx) by done.
  destruct (bucket_at ht idx) as [b| | | |]; try done. cbn [mbind outcome_bind].
  destruct (remove_chain _ _ b) as [[[ok b'] h']| | | |]; try done. cbn [mbind outcome_bind]. do 3 f_equal. cbn. unfold set_bucket. by rewrite Hla.
Qed.

Section locked.
Context (σ : SharedTable) (ht : HashTable) (places : nat → list place).
Hypothesis Hlo : laid_out σ ht places.

Lemma hash_of_laid s : hash_of s σ = hash s ht.
Proof. unfold hash_of, hash. by rewrite <- (lo_size _ _ _ Hlo). Qed.

(** The slot of a bucket. *)
Lemma slot_cases idx :
  bucket_at ht idx = Undef OutOfBounds ∧ load_el (Slot (Z.to_nat idx)) σ = Undef OutOfBounds
  ∨ (∃ b, bucket_at ht idx = Ok b ∧ arr ht !! Z.to_nat idx = Some b ∧ bucket σ (Z.to_nat idx) (places (Z.to_nat idx)) b).
Proof.
  unfold bucket_at. destruct (arr ht !! Z.to_nat idx) as [b|] eqn:Hb; [right|left].
  - exists b. split; [done|]. split; [done|]. by apply (lo_bucket _ _ _ Hlo).
  - split; [done|]. apply lookup_ge_None in Hb. rewrite <- (lo_slots _ _ _ Hlo) in Hb. simpl.
    by rewrite (proj2 (lookup_ge_None _ _)) by done.
Qed.

Lemma bucket_walking idx el b :
  arr ht !! Z.to_nat idx = Some (el :: b) →
  walking σ ht places idx (Some (Slot (Z.to_nat idx))) None [] (el :: b).
Proof.
  intros Hb. destruct (lo_bucket _ _ _ Hlo _ _ Hb) as [Hs Hk]. split; [done|]. split; [done|].
  by exists [], (places (Z.to_nat idx)).
Qed.

(** A walk goes on to the next element. *)
Lemma walking_next idx pl prev b1 el b2 :
  walking σ ht places idx (Some pl) prev b1 (el :: b2) →
  ∃ n, load_el pl σ = Ok (mkHashNode el n) ∧ el_key el ≠ NULL
    ∧ walking σ ht places idx (place_of n) (Some pl) (b1 ++ [el]) b2.
Proof.
  intros (Hb & Hk & pls1 & pls2 & Hpl & _ & H1 & H2). destruct pls2 as [|pl' pls2]; [done|].
  destruct H2 as ([= <-] & n & Hn & H2). exists n. split; [done|].
  apply Forall_app in Hk as Hk'. destruct Hk' as [_ Hk']. apply Forall_cons in Hk' as [Hel _]. split; [done|].
  unfold walking. rewrite <- app_assoc. split; [done|]. split; [done|]. exists (pls1 ++ [pl]), pls2.
  rewrite <- app_assoc, last_snoc. split_and!; try done. eapply seg_app; [exact H1|]. split; [done|]. by exists n.
Qed.

Lemma walking_at idx temp prev b1 b2 :
  walking σ ht places idx temp prev b1 b2 → match b2 with [] => temp = None | _ => ∃ pl, temp = Some pl end.
Proof.
  intros (_ & _ & pls1 & pls2 & _ & _ & _ & H). destruct b2, pls2; simpl in H; try done. destruct H as (-> & _). eauto.
Qed.

(** Stores to a block of no bucket leave the table as it is. *)
Lemma laid_out_block p n0 n :
  (∀ j, Block p ∉ places j) → load_el (Block p) σ = Ok n0 → laid_out (put_el (Block p) n σ) ht places.
Proof.
  intros Hp Hn. eapply laid_out_ext; [exact Hlo|done..|]. intros pl Hpl. rewrite (load_put _ _ _ _ _ Hn), decide_False; [done|].
  intros ->. destruct (Hpl p eq_refl) as [j Hj]. by eapply Hp.
Qed.

Lemma laid_out_malloc n : laid_out (malloc_el n σ).2 ht places ∧ fresh_block (malloc_el n σ).2 places (next_block σ).
Proof.
  assert (∀ j p, Block p ∈ places j → p < next_block σ) as Hlt by (intros j p Hp; by eapply (lo_blocks _ _ _ Hlo)).
  split.
  - eapply laid_out_ext; [exact Hlo|try done; simpl; lia..|]. intros [k|p] Hpl; [done|]. simpl.
    destruct (Hpl p eq_refl) as [j Hj]. rewrite lookup_insert_ne; [done|]. specialize (Hlt _ _ Hj). lia.
  - split; [|simpl; lia]. intros j Hj. specialize (Hlt _ _ Hj). lia.
Qed.

Lemma laid_out_drop p : (∀ j, Block p ∉ places j) → laid_out (set_blocks (delete p (blocks σ)) σ) ht places.
Proof.
  intros Hp. eapply laid_out_ext; [exact Hlo|done..|]. intros [k|p'] Hpl; [done|]. simpl.
  destruct (Hpl p' eq_refl) as [j Hj]. rewrite lookup_delete_ne; [done|]. intros ->. by eapply Hp.
Qed.

Lemma laid_out_mem h : laid_out (set_mem h σ) ht places.
Proof. by eapply laid_out_ext. Qed.
Lemma laid_out_owner o : laid_out (set_owner o σ) ht places.
Proof. by eapply laid_out_ext. Qed.

(** The new element is linked behind the last of a chain. *)
Lemma append_laid_out idx prev b1 el p :
  walking σ ht places idx None prev b1 [] → b1 ≠ [] → el_key el ≠ NULL → p ≠ NULL →
  fresh_block σ places p → load_el (Block p) σ = Ok (mkHashNode el NULL) →
  ∃ pr n, prev = Some pr ∧ load_el pr σ = Ok n
    ∧ ∃ places', laid_out (put_el pr (mkHashNode (nd_el n) p) σ) (set_bucket ht idx (b1 ++ [el])) places'.
Proof.
  intros (Hb & Hk & pls1 & pls2 & Hpl & -> & H1 & H2) Hne Hel Hp [Hf Hlt] Hload.
  destruct pls2; [|done]. rewrite app_nil_r in *. pose proof (seg_nodup _ _ _ _ H1) as Hnd.
  pose proof (seg_length _ _ _ _ _ H1) as Hlen.
  destruct pls1 as [|pr pls1 _] using rev_ind; [by destruct b1|]. destruct b1 as [|ell b1 _] using rev_ind; [done|].
  exists pr. rewrite last_snoc.
  destruct (seg_split _ _ _ _ _ _ H1) as (c1 & c2 & m & Hc & Hs1 & Hs2).
  destruct c2 as [|ell' [|]]; [done| |by destruct Hs2 as (_ & ? & _ & ?)]. apply app_inj_tail in Hc as [<- <-].
  destruct Hs2 as (-> & next & Hn & Hnone). exists (mkHashNode ell next). split; [done|]. split; [done|]. cbn [nd_el].
  assert (pr ≠ Block p) as Hpr by (intros ->; apply (Hf (Z.to_nat idx)); rewrite Hpl; set_solver).
  eexists. eapply (laid_out_put _ _ _ _ _ Hlo Hb) with (pls := (pls1 ++ [pr]) ++ [Block p]); [right; rewrite Hpl; set_solver|exact Hn| |].
  - apply bucket_chain; [by destruct b1| |].
    + eapply seg_app; [eapply (seg_redirect _ _ _ _ _ _ _ p); [exact H1|done|reflexivity]|].
      split; [unfold place_of; by rewrite (proj2 (Z.eqb_neq _ _))|]. exists NULL.
      rewrite (load_put _ _ _ _ _ Hn), decide_False by congruence. done.
    + apply Forall_app. split; [done|by constructor].
  - intros q [Hq|Hq%list_elem_of_singleton]%elem_of_app; [left; by rewrite Hpl|]. injection Hq as ->. by right.
Qed.

(** The new element is copied over one of a chain. *)
Lemma overwrite_laid_out idx pl prev b1 old b2 el p n0 next :
  walking σ ht places idx (Some pl) prev b1 (old :: b2) → el_key el ≠ NULL →
  fresh_block σ places p → load_el (Block p) σ = Ok n0 → load_el pl σ = Ok (mkHashNode old next) →
  let σ1 := put_el (Block p) (mkHashNode el next) σ in
  load_el pl σ1 = Ok (mkHashNode old next)
  ∧ ∃ places', laid_out (put_el pl (mkHashNode el next) σ1) (set_bucket ht idx (b1 ++ el :: b2)) places'.
Proof.
  intros (Hb & Hk & pls1 & pls2 & Hpl & _ & H1 & H2) Hel [Hf Hlt] Hload Hn σ1.
  destruct pls2 as [|pl' pls2]; [done|]. assert (pl' = pl) as -> by (destruct H2 as (Heq & _); congruence).
  assert (pl ∈ places (Z.to_nat idx)) as Hin by (rewrite Hpl, elem_of_app, elem_of_cons; auto).
  assert (load_el pl σ1 = Ok (mkHashNode old next)) as Hn1.
  { unfold σ1. rewrite (load_put _ _ _ _ _ Hload), decide_False; [done|]. intros ->. by eapply Hf. }
  split; [done|]. pose proof (laid_out_block p n0 (mkHashNode el next) Hf Hload) as Hlo1.
  eexists. eapply (laid_out_put _ _ _ _ _ Hlo1 Hb) with (pls := pls1 ++ pl :: pls2); [by right|exact Hn1| |].
  - apply bucket_chain; [by destruct b1| |].
    + eapply seg_overwrite; [|by eapply seg_length|exact Hn1]. eapply (seg_ext σ); [|eapply seg_app; [exact H1|exact H2]].
      intros pl' Hpl'. unfold σ1. rewrite (load_put _ _ _ _ _ Hload), decide_False; [done|].
      intros ->. apply (Hf (Z.to_nat idx)). by rewrite Hpl.
    + apply Forall_app in Hk as [Hk1 Hk2]. apply Forall_cons in Hk2 as [_ Hk2]. apply Forall_app. split; [done|by constructor].
  - intros q Hq. left. by rewrite Hpl.
Qed.
End locked.

Lemma insert_loop_leads σ el s temp prev F n :
  critical σ (InsWalk el s temp prev) F n → leads_on σ F n (insert_loop el s temp prev σ).
Proof.
  intros (ht & places & Hlo & key & data & idx & b1 & b2 & Hkey & Hw & Hne & -> & Hn & Hf & Hload & Hel).
  destruct b2 as [|old b2].
  - pose proof (walking_at _ _ _ _ _ _ _ _ Hw) as Htemp. cbn beta iota in Htemp. subst temp. rewrite app_nil_r in Hne.
    destruct (append_laid_out _ _ _ Hlo _ _ _ (mkHashEl key data) _ Hw Hne Hkey Hel Hf Hload) as (pr & last & -> & Hlast & places' & Hlo').
    unfold insert_loop. rewrite Hlast. ok_step. rewrite (store_el_ok _ _ _ _ Hlast). ok_step.
    destruct (put_el_rest pr (mkHashNode (nd_el last) el) σ) as (_ & _ & _ & Ho & Hm). split; [done|]. exists 1%nat. split; [lia|].
    eexists _, places'. split; [exact Hlo'|]. rewrite Hm. done.
  - destruct (walking_at _ _ _ _ _ _ _ _ Hw) as [pl ->]. cbn [length] in Hn.
    destruct (walking_next _ _ _ _ _ _ _ _ _ Hw) as (next & Hnext & Hold & Hw').
    unfold insert_loop. rewrite Hnext. ok_step. cbn [insert_chain nd_el nd_next]. unfold key_matches.
    destruct (load_str_cases (el_key old) (mem σ)) as [[t Ht]|[f Ht]]; rewrite Ht; [|done]. cbn [mbind outcome_bind].
    destruct (bool_decide (t = s)).
    + rewrite Hload. cbn [mbind outcome_bind nd_el].
      destruct (overwrite_laid_out _ _ _ Hlo _ _ _ _ _ _ (mkHashEl key data) _ _ _ Hw Hkey Hf Hload Hnext) as (Hn1 & places' & Hlo').
      rewrite (store_el_ok _ _ _ _ Hload). ok_step. rewrite (store_el_ok _ _ _ _ Hn1). ok_step.
      split; [by rewrite (proj1 (proj2 (proj2 (proj2 (put_el_rest _ _ _)))))|]. exists 1%nat. split; [lia|].
      eexists _, places'. split; [exact Hlo'|]. by rewrite (proj2 (proj2 (proj2 (proj2 (put_el_rest _ _ _))))).
    + split; [done|]. exists (length b2 + 2)%nat. split; [lia|]. exists ht, places. split; [done|].
      exists key, data, idx, (b1 ++ [old]), b2. split_and!; try done; [by destruct b1|].
      destruct (insert_chain _ _ _ b2); try done. cbn [mbind outcome_bind]. by rewrite <- app_assoc.
Qed.

(** The outcome of a removal at the place where the search ends. *)
Lemma remove_rest_found s idx ht h b1 el b2 :
  arr ht !! Z.to_nat idx = Some (b1 ++ el :: b2) → find_chain h s (b1 ++ el :: b2) = Ok (length b1) →
  remove_rest s idx ht h =
    match b1, b2 with
    | [], [] => Ok (Success true, (set_bucket ht idx [], h))
    | [], next :: b2 =>
        h ← free_all [el_key next; el_data next] h; Ok (Success true, (set_bucket ht idx (next :: b2), h))
    | _, _ => h ← free_all [el_key el; el_data el] h; Ok (Success true, (set_bucket ht idx (b1 ++ b2), h))
    end.
Proof.
  intros Hb Hf. unfold remove_rest, bucket_at, remove_chain. rewrite Hb. ok_step. rewrite Hf. ok_step.
  destruct b1 as [|el1 b1]; [destruct b2 as [|next b2]; [done|]; cbn [app length]|].
  - cbn [free_all]. destruct (free (el_key next) h) as [h1| | | |]; try done. ok_step.
    rewrite bind_Ok. by destruct (free (el_data next) h1).
  - cbn [length]. rewrite (list_lookup_middle (el1 :: b1) b2 el) by done. cbn [free_all].
    destruct (free (el_key el) h) as [h1| | | |]; try done. rewrite !bind_Ok. destruct (free (el_data el) h1) as [h2| | | |]; try done.
    rewrite !bind_Ok. by rewrite (delete_middle (el1 :: b1) b2 el : delete (S (length b1)) _ = _).
Qed.

Section unlinking.
Context (σ : SharedTable) (ht : HashTable) (places : nat → list place) (idx : Z).
Abbreviation i := (Z.to_nat idx).
Hypothesis Hlo : laid_out σ ht places.

(** The slot is made null, or its successor is copied to it. *)
Lemma clear_laid_out b n0 :
  arr ht !! i = Some b → load_el (Slot i) σ = Ok n0 →
  laid_out (put_el (Slot i) null_node σ) (set_bucket ht idx []) (with_places i [] places).
Proof.
  intros Hb Hn. eapply (laid_out_put _ _ _ _ _ Hlo Hb); [by left|exact Hn| |by intros p ?%elem_of_nil].
  split; [done|]. rewrite (load_put _ _ _ _ _ Hn), decide_True; done.
Qed.

Lemma promote_laid_out pl prev el el2 b2 next :
  walking σ ht places idx (Some pl) prev [] (el :: el2 :: b2) → load_el pl σ = Ok (mkHashNode el next) →
  pl = Slot i ∧ next ≠ NULL ∧ ∃ next2, load_el (Block next) σ = Ok (mkHashNode el2 next2)
    ∧ ∃ places', laid_out (put_el pl (mkHashNode el2 next2) σ) (set_bucket ht idx (el2 :: b2)) places'.
Proof.
  intros (Hb & Hk & pls1 & pls2 & Hpl & _ & H1 & H2) Hn. destruct pls1; [|done]. cbn [seg app] in *.
  injection H1 as <-. destruct pls2 as [|pl' pls2]; [done|]. pose proof (seg_nodup _ _ _ _ H2) as (Hnin & _)%NoDup_cons.
  destruct H2 as ([= <-] & next' & Hn' & H2). rewrite Hn in Hn'. injection Hn' as <-. split; [done|].
  destruct pls2 as [|pl2 pls2]; [done|]. destruct H2 as (Hnext & next2 & Hn2 & H2). unfold place_of in Hnext.
  destruct (Z.eqb_spec next NULL) as [|Hnn]; [done|]. injection Hnext as <-. split; [done|]. exists next2. split; [done|].
  eexists. eapply (laid_out_put _ _ _ _ _ Hlo Hb) with (pls := Slot i :: pls2); [by left|exact Hn| |].
  - apply Forall_cons in Hk as [_ Hk]. split; [|done]. split; [done|]. exists next2.
    rewrite (load_put _ _ _ _ _ Hn), decide_True by done. split; [done|]. eapply seg_ext; [|exact H2].
    intros pl Hin. rewrite (load_put _ _ _ _ _ Hn), decide_False; [done|]. intros ->. set_solver.
  - intros p [|Hp]%elem_of_cons; [done|]. left.  rewrite Hpl. set_solver.
Qed.

(** An element further on is left out of the chain. *)
Lemma skip_laid_out pl prev b1 el b2 next :
  walking σ ht places idx (Some pl) prev b1 (el :: b2) → b1 ≠ [] → load_el pl σ = Ok (mkHashNode el next) →
  ∃ pr n p, prev = Some pr ∧ load_el pr σ = Ok n ∧ pl = Block p ∧ pr ≠ pl
    ∧ ∃ places', laid_out (put_el pr (mkHashNode (nd_el n) next) σ) (set_bucket ht idx (b1 ++ b2)) places'
        ∧ ∀ j, Block p ∉ places' j.
Proof.
  intros (Hb & Hk & pls1 & pls2 & Hpl & -> & H1 & H2) Hne Hn. destruct pls2 as [|pl' pls2]; [done|].
  pose proof (seg_nodup _ _ _ _ (seg_app _ _ _ _ _ _ _ _ H1 H2)) as Hnd.
  destruct H2 as ([= <-] & next' & Hn' & H2). rewrite Hn in Hn'. injection Hn' as <-.
  destruct pls1 as [|pr pls1 _] using rev_ind; [by destruct b1|]. rewrite last_snoc. exists pr.
  destruct b1 as [|el1 b1 _] using rev_ind; [done|].
  destruct (seg_split _ _ _ _ _ _ H1) as (c1 & c2 & m & Hc & Hs1 & Hs2).
  destruct c2 as [|el' [|]]; [done| |by destruct Hs2 as (_ & ? & _ & ?)]. apply app_inj_tail in Hc as [<- <-].
  destruct Hs2 as (-> & next1 & Hn1 & Hnext). exists (mkHashNode el1 next1).
  assert (∃ p, pl = Block p) as [p ->].
  { unfold place_of in Hnext. destruct (next1 =? NULL); [done|]. injection Hnext as <-. by exists next1. }
  exists p. apply NoDup_app in Hnd as (Hnd1 & Hdis & (Hnin & Hnd2)%NoDup_cons).
  assert (pr ≠ Block p) as Hpr by (intros ->; apply (Hdis (Block p)); set_solver).
  split_and!; try done. eexists. split.
  - eapply (laid_out_put _ _ _ _ _ Hlo Hb) with (pls := (pls1 ++ [pr]) ++ pls2); [right; rewrite Hpl; set_solver|exact Hn1| |].
    + apply bucket_chain; [by destruct b1| |].
      * eapply seg_app; [eapply (seg_redirect _ _ _ _ _ _ _ next); [exact H1|done|reflexivity]|]. eapply seg_ext; [|exact H2].
        intros pl Hin. rewrite (load_put _ _ _ _ _ Hn1), decide_False; [done|]. intros ->. apply (Hdis pr); set_solver.
      * apply Forall_app in Hk as [? Hk2]. apply Forall_cons in Hk2 as [_ ?]. by apply Forall_app.
    + intros q Hq. left. rewrite Hpl, elem_of_app, elem_of_cons. apply elem_of_app in Hq as [|]; auto.
  - intros j. unfold with_places.  case_decide as Hd; [intros Hin|].
    + apply elem_of_app in Hin as [Hin|Hin]; [|done]. apply (Hdis _ Hin). by left.
    + intros Hin. apply Hd. symmetry. eapply (lo_apart _ _ _ Hlo i); [|exact Hin].  rewrite Hpl. set_solver.
Qed.
End unlinking.

Lemma put_el_mem pl n σ : mem (put_el pl n σ) = mem σ.
Proof. by destruct pl. Qed.
Lemma put_el_owner pl n σ : owner (put_el pl n σ) = owner σ.
Proof. by destruct pl. Qed.

Lemma unlink_leads σ ht places idx s pl prev b1 el b2 n :
  laid_out σ ht places → walking σ ht places idx (Some pl) prev b1 (el :: b2) →
  find_chain (mem σ) s (b1 ++ el :: b2) = Ok (length b1) → (6 ≤ n)%nat →
  leads_on σ (remove_rest s idx ht (mem σ)) n (unlink idx pl prev σ).
Proof.
  intros Hlo Hw Hf Hn. destruct (walking_next _ _ _ _ _ _ _ _ _ Hw) as (next & Hnext & _ & Hw').
  pose proof Hw as (Hb & _ & pls1 & pls2 & _ & Hprev & H1 & _).
  unfold unlink. rewrite Hnext. ok_step. cbn [nd_next nd_el]. rewrite (remove_rest_found _ _ _ _ _ _ _ Hb Hf).
  destruct b1 as [|el1 b1].
  - destruct pls1; [|done]. cbn [last] in Hprev. subst prev. injection H1 as <-. destruct b2 as [|el2 b2].
    + pose proof (walking_at _ _ _ _ _ _ _ _ Hw') as Hnull. cbn beta iota in Hnull. unfold place_of in Hnull.
      destruct (next =? NULL); [|done]. ok_step. rewrite (store_el_ok _ _ _ _ Hnext). ok_step.
      split; [by rewrite put_el_owner|]. exists 5%nat. split; [lia|]. eexists _, _.
      split; [by eapply clear_laid_out|]. by rewrite put_el_mem.
    + destruct (promote_laid_out _ _ _ _ Hlo _ _ _ _ _ _ Hw Hnext) as (_ & Hnn & next2 & Hn2 & places' & Hlo').
      rewrite (proj2 (Z.eqb_neq _ _)) by done. rewrite Hn2. ok_step. rewrite (store_el_ok _ _ _ _ Hnext). ok_step.
      split; [by rewrite put_el_owner|]. exists 5%nat. split; [lia|]. eexists _, places'.
      split; [exact Hlo'|]. by rewrite put_el_mem.
  - destruct (skip_laid_out _ _ _ _ Hlo _ _ _ _ _ _ Hw ltac:(done) Hnext)
      as (pr & prn & p & -> & Hprn & -> & Hpr & places' & Hlo' & Hp).
    rewrite Hprn. ok_step. rewrite (store_el_ok _ _ _ _ Hprn). ok_step.
    split; [by rewrite put_el_owner|]. exists 5%nat. split; [lia|]. eexists _, places'.
    split; [exact Hlo'|]. rewrite put_el_mem. split_and!; try done.
    exists (mkHashNode el next). rewrite (load_put _ _ _ _ _ Hprn), decide_False; done.
Qed.

Lemma remove_loop_leads σ s idx temp prev F n :
  critical σ (RemWalk s idx temp prev) F n → leads_on σ F n (remove_loop s idx temp prev σ).
Proof.
  intros (ht & places & Hlo & -> & Hcase).
  assert ((∃ b1 b2, walking σ ht places idx temp prev b1 b2 ∧ b1 ++ b2 ≠ [] ∧ (length b2 + 6 ≤ n)%nat
             ∧ find_chain (mem σ) s (b1 ++ b2) = (i ← find_chain (mem σ) s b2; Ok (length b1 + i)%nat))
          ∨ temp = Some (Slot (Z.to_nat idx)) ∧ prev = None ∧ (6 ≤ n)%nat
            ∧ (arr ht !! Z.to_nat idx = Some [] ∨ bucket_at ht idx = Undef OutOfBounds)) as [Hw|Hw].
  { destruct Hcase as [(-> & -> & Hn)|(b1 & b2 & Hw & Hb1 & Hn & Hf)]; [|left; exists b1, b2; split_and!; try done; by destruct b1].
    destruct (slot_cases _ _ _ Hlo idx) as [[Hb _]|(b & _ & Hb & _)]; [right; split_and!; auto; lia|].
    destruct b as [|el b]; [right; split_and!; auto; lia|]. left. exists [], (el :: b). split; [by apply bucket_walking|].
    split; [done|]. pose proof (longest_ge _ _ _ Hb). split; [lia|]. cbn [app length].
    by destruct (find_chain _ _ _). }
  - destruct Hw as (b1 & b2 & Hw & Hne & Hn & Hf). destruct b2 as [|el b2].
    + pose proof (walking_at _ _ _ _ _ _ _ _ Hw) as Htemp. cbn beta iota in Htemp. subst temp. split; [done|]. split; [lia|].
      eexists (_, _). split; [split; [exists places; by apply laid_out_owner|done]|].
      destruct Hw as (Hb & _). unfold remove_rest, bucket_at, remove_chain. rewrite Hb. ok_step. rewrite Hf. cbn [find_chain]. rewrite bind_Ok.
      rewrite app_nil_r in *. rewrite Nat.add_0_r. destruct b1 as [|el1 b1]; [done|]. cbn [length].
      rewrite bind_Ok, (lookup_ge_None_2 (el1 :: b1)) by done. rewrite bind_Ok. cbn [fst snd]. do 3 f_equal.
      unfold set_bucket. rewrite list_insert_id by done. by destruct ht.
    + destruct (walking_at _ _ _ _ _ _ _ _ Hw) as [pl ->]. cbn [length] in Hn.
      destruct (walking_next _ _ _ _ _ _ _ _ _ Hw) as (next & Hnext & Hel & Hw').
      unfold remove_loop. rewrite Hnext. ok_step. cbn [nd_el nd_next]. rewrite (proj2 (Z.eqb_neq _ _)) by done.
      cbn [find_chain] in Hf. unfold key_matches in Hf.
      destruct (load_str_cases (el_key el) (mem σ)) as [[t Ht]|[f Ht]]; rewrite Ht in Hf |- *.
      * rewrite !bind_Ok in Hf. ok_step. destruct (bool_decide (t = s)).
        -- rewrite bind_Ok, Nat.add_0_r in Hf. by eapply unlink_leads; [|done|done|lia].
        -- split; [done|]. exists (length b2 + 6)%nat. split; [lia|]. exists ht, places. split; [done|]. split; [done|]. right.
           exists (b1 ++ [el]), b2. split_and!; try done; [by destruct b1|]. rewrite <- app_assoc. cbn [app]. rewrite Hf.
           destruct (find_chain _ _ b2); try done. rewrite !bind_Ok, length_app. cbn [length]. f_equal. lia.
      * cbn [mbind outcome_bind leads_on] in Hf |- *. destruct Hw as (Hb & _).
        unfold remove_rest, bucket_at, remove_chain. rewrite Hb. ok_step. by rewrite Hf.
  - destruct Hw as (-> & -> & Hn & Hb). unfold remove_loop.
    destruct (slot_cases _ _ _ Hlo idx) as [[Hb' Hl]|(b & Hat & Hb' & Hbk)]; [rewrite Hl; unfold remove_rest; by rewrite Hb'|].
    destruct Hb as [Hb|Hb]; [|congruence]. rewrite Hb in Hb'. injection Hb' as <-. destruct Hbk as [_ Hl].
    rewrite Hl. ok_step. cbn [null_node nd_el el_key]. rewrite Z.eqb_refl. unfold unlink. rewrite Hl. ok_step.
    cbn [null_node nd_next]. rewrite Z.eqb_refl. ok_step. rewrite (store_el_ok _ _ _ _ Hl). ok_step.
    split; [by rewrite put_el_owner|]. exists 5%nat. split; [lia|]. eexists _, _.
    split; [by eapply clear_laid_out|]. rewrite put_el_mem. unfold remove_rest. by rewrite Hat.
Qed.

Lemma critical_insert_steps σ p F n :
  critical σ p F n → match p with InsHash _ _ | InsAlloc _ _ _ _ | InsHead _ _ _ => True | _ => False end →
  leads_on σ F n (pc_step p σ).
Proof.
  intros (ht & places & Hlo & Hp) Hpc. destruct p; try done; cbn [pc_step].
  - destruct Hp as (Hk & Hd & -> & Hn). rewrite insert_rest_eq by (done || apply Hlo).
    destruct (load_str_cases key (mem σ)) as [[s Hs]|[f Hs]]; rewrite Hs; [|done]. rewrite !bind_Ok, (hash_of_laid _ _ _ Hlo).
    destruct (hash_cases s ht) as [[idx Hidx]|[f Hidx]]; rewrite Hidx; [|done]. ok_step.
    split; [done|]. exists (longest ht + 4)%nat. split; [lia|]. by exists ht, places.
  - destruct Hp as (Hk & -> & Hn). split; [done|]. exists (longest ht + 3)%nat. split; [lia|].
    destruct (laid_out_malloc _ _ _ Hlo (mkHashNode (mkHashEl key data) NULL)) as [Hlo' Hf].
    exists ht, places. split; [done|]. exists key, data. split_and!; try done.
    + simpl. by rewrite lookup_insert_eq.
    + pose proof (lo_next _ _ _ Hlo). unfold NULL in *. simpl. lia.
  - destruct Hp as (key & data & Hk & -> & Hn & Hf & Hload & Hel). unfold insert_rest.
    destruct (slot_cases _ _ _ Hlo idx) as [[Hb Hl]|(b & Hat & Hb & Hbk)]; [rewrite Hl; by rewrite Hb|]. rewrite Hat, bind_Ok.
    destruct b as [|el0 b].
    + destruct Hbk as [_ Hl]. rewrite Hl. ok_step. cbn [null_node nd_el el_key]. rewrite Z.eqb_refl, Hload. ok_step.
      rewrite (store_el_ok _ _ _ _ Hl). ok_step. split; [done|]. exists 1%nat. split; [lia|]. eexists _, _. split; [|done].
      eapply (laid_out_put _ _ _ _ _ Hlo Hb) with (pls := [Slot (Z.to_nat idx)]); [by left|done| |by intros ? [=]%list_elem_of_singleton].
      split; [|by constructor]. split; [done|]. exists NULL. by rewrite (load_put _ _ _ _ _ Hl), decide_True.
    + pose proof (bucket_walking _ _ _ Hlo _ _ _ Hb) as Hw. destruct (walking_next _ _ _ _ _ _ _ _ _ Hw) as (next & Hl & Hel0 & _).
      rewrite Hl. ok_step. cbn [nd_el]. rewrite (proj2 (Z.eqb_neq _ _)) by done. split; [done|].
      exists (length (el0 :: b) + 2)%nat. pose proof (longest_ge _ _ _ Hb). split; [lia|]. exists ht, places. split; [done|].
      by exists key, data, idx, [], (el0 :: b).
Qed.

Lemma critical_remove_steps σ p F n :
  critical σ p F n → match p with RemHash _ | RemFree _ _ | RemDrop _ | Unlock _ => True | _ => False end →
  leads_on σ F n (pc_step p σ).
Proof.
  intros (ht & places & Hlo & Hp) Hpc. destruct p as [| | | |s| |ps el|el|a| | | | |]; try done; cbn [pc_step].
  - destruct Hp as (-> & Hn). rewrite remove_rest_eq, (hash_of_laid _ _ _ Hlo) by apply Hlo.
    destruct (hash_cases s ht) as [[idx Hidx]|[f Hidx]]; rewrite Hidx; [|done]. ok_step.
    split; [done|]. exists (longest ht + 6)%nat. split; [lia|]. exists ht, places. split; [done|]. split; [done|]. by left.
  - destruct Hp as (-> & Hn & Hel). destruct ps as [|q ps]; [destruct el as [el|]|].
    + destruct Hel as [Hout [nd Hnd]]. rewrite Hnd. ok_step. rewrite (store_el_ok _ _ _ _ Hnd). ok_step. split; [done|].
      exists 2%nat. cbn [length] in Hn. split; [lia|]. exists ht, places. split; [by eapply laid_out_block|].
      split_and!; try done. eexists. by rewrite (load_put _ _ _ _ _ Hnd), decide_True.
    + split; [done|]. exists 1%nat. cbn [length] in Hn. split; [lia|]. by exists ht, places.
    + cbn [free_all length] in *. destruct (free_cases q (mem σ)) as [[h Hh]|[f Hh]]; rewrite Hh; [|done]. ok_step.
      split; [done|]. exists (length ps + 3)%nat. split; [lia|]. exists ht, places. split; [by apply laid_out_mem|].
      split_and!; try done.
  - destruct Hp as (-> & Hn & Hout & nd & Hnd). unfold free_block. rewrite Hnd. ok_step. split; [done|]. exists 1%nat.
    split; [lia|]. exists ht, places. split; [by apply laid_out_drop|done].
  - destruct Hp as (-> & Hn). split; [done|]. split; [lia|]. eexists (_, _). split; [|done]. split; [|done]. exists places. by apply laid_out_owner.
Qed.

Lemma critical_leads σ p F n : critical σ p F n → leads_on σ F n (pc_step p σ).
Proof.
  intros Hc. destruct p; try (by apply critical_insert_steps); try (by apply critical_remove_steps);
    [by apply insert_loop_leads|by apply remove_loop_leads|..]; by destruct Hc as (? & ? & _ & ?).
Qed.

(** ** Any interleaving *)

Lemma seq_updates_snoc us u st0 rs st :
  seq_updates us st0 = Ok (rs, st) →
  seq_updates (us ++ [u]) st0 = ('(a, st') ← seq_update u st; Ok (rs ++ [a], st')).
Proof.
  revert st0 rs. induction us as [|u' us IH]; intros st0 rs; cbn [seq_updates app].
  - intros [= <- <-]. destruct (seq_update u st0) as [[a st']| | | |]; done.
  - intros H. destruct (seq_update u' st0) as [[a st1]| | | |]; try done. cbn [mbind outcome_bind] in *.
    destruct (seq_updates us st1) as [[rs1 st2]| | | |] eqn:Hus; try done. cbn [mbind outcome_bind] in *.
    injection H as <- <-. rewrite (IH _ _ Hus). by destruct (seq_update u st2) as [[a' st']| | | |].
Qed.

Lemma of_thread_snoc i l j u a :
  of_thread i (l ++ [(j, u, a)]) = of_thread i l ++ if decide (j = i) then [(j, u, a)] else [].
Proof. unfold of_thread. rewrite filter_app, filter_cons, filter_nil. cbn [fst]. by case_decide. Qed.

(** The update a thread is in the course of. *)
Definition current (cur : option (nat * update)) (i : nat) : list update :=
  match cur with Some (j, u) => if decide (j = i) then [u] else [] | None => [] end.

Section threads.
Context (progs : list (list update)) (st0 : HashTable * heap).

(** The updates of the log have been made, and one more is under way when the lock is held. *)
Record serial (c : config) (l : log) (cur : option (nat * update)) (st : HashTable * heap) (n : nat) : Prop := {
  sr_run : seq_updates (updates l) st0 = Ok (replies l, st);
  sr_length : length c.2 = length progs;
  sr_ids : Forall (λ e, is_Some (progs !! e.1.1)) l;
  sr_thread : ∀ i t, c.2 !! i = Some t → answers t = replies (of_thread i l)
    ∧ ∃ us, todo t = Update <$> us ∧ progs !! i = Some (updates (of_thread i l) ++ current cur i ++ us);
  sr_idle : ∀ i t, c.2 !! i = Some t → current cur i = [] → at_pc t = None;
  sr_shared : match cur with
    | None => owner c.1 = None ∧ in_memory c.1 st
    | Some (j, u) => ∃ t p, owner c.1 = Some j ∧ c.2 !! j = Some t ∧ at_pc t = Some p
        ∧ critical c.1 p (seq_update u st) n
    end }.

Definition pending (c : config) : nat := sum_list (length ∘ todo <$> c.2).

Lemma sum_list_insert (l : list nat) i x y :
  l !! i = Some x → (sum_list (<[i := y]> l) + x = sum_list l + y)%nat.
Proof.
  revert i. induction l as [|z l IH]; intros [|i] Hi; try done; simpl.
  - injection Hi as ->. lia.
  - specialize (IH i Hi). lia.
Qed.

Lemma pending_insert σ σ' ts i t t' :
  ts !! i = Some t → (pending (σ', <[i := t']> ts) + length (todo t) = pending (σ, ts) + length (todo t'))%nat.
Proof.
  intros Hi. unfold pending. cbn [snd]. rewrite list_fmap_insert.
  apply (sum_list_insert _ i ((length ∘ todo) t)). by rewrite list_lookup_fmap, Hi.
Qed.

Lemma serial_start σ0 :
  in_memory σ0 st0 → owner σ0 = None →
  serial (σ0, (λ us, spawn (Update <$> us)) <$> progs) [] None st0 0.
Proof.
  intros Hr Ho. split; cbn [fst snd]; [done|by rewrite length_fmap|done| | |done].
  - intros i t Hi. rewrite list_lookup_fmap in Hi. destruct (progs !! i) as [us|] eqn:Hus; [|done].
    injection Hi as <-. split; [done|]. by exists us.
  - intros i t Hi _. rewrite list_lookup_fmap in Hi. destruct (progs !! i); [|done]. by injection Hi as <-.
Qed.

(** What the steps of one thread do to the threads. *)
Lemma threads_of c l cur st n i t t' σ' l' cur' st' n' :
  serial c l cur st n → c.2 !! i = Some t →
  seq_updates (updates l') st0 = Ok (replies l', st') → Forall (λ e, is_Some (progs !! e.1.1)) l' →
  (∀ j, j ≠ i → of_thread j l' = of_thread j l ∧ current cur' j = current cur j) →
  answers t' = replies (of_thread i l') →
  (∀ us, todo t = Update <$> us → ∃ us', todo t' = Update <$> us' ∧
     updates (of_thread i l) ++ current cur i ++ us = updates (of_thread i l') ++ current cur' i ++ us') →
  (current cur' i = [] → at_pc t' = None) →
  match cur' with
  | None => owner σ' = None ∧ in_memory σ' st'
  | Some (j, u) => ∃ t1 p, owner σ' = Some j ∧ <[i := t']> c.2 !! j = Some t1 ∧ at_pc t1 = Some p
      ∧ critical σ' p (seq_update u st') n'
  end →
  serial (σ', <[i := t']> c.2) l' cur' st' n'.
Proof.
  intros [Hrun Hlen _ Hth Hidle _] Hi Hrun' Hids Hother Hans Htodo Hpc Hsh. pose proof (lookup_lt_Some _ _ _ Hi).
  split; cbn [fst snd]; [done|by rewrite length_insert|done| | |done].
  - intros j t1 Hj. destruct (decide (j = i)) as [->|Hne].
    + rewrite list_lookup_insert_eq in Hj by done. injection Hj as <-. split; [done|].
      destruct (Hth _ _ Hi) as (_ & us & Hus & ->). destruct (Htodo us Hus) as (us' & ? & ->). by exists us'.
    + rewrite list_lookup_insert_ne in Hj by done. destruct (Hother j Hne) as [-> ->]. by apply Hth.
  - intros j t1 Hj Hcur. destruct (decide (j = i)) as [->|Hne].
    + rewrite list_lookup_insert_eq in Hj by done. injection Hj as <-. auto.
    + rewrite list_lookup_insert_ne in Hj by done. rewrite (proj2 (Hother j Hne)) in Hcur. by eapply Hidle.
Qed.

(** A step of the thread that holds the lock. *)
Lemma serial_locked_step c l i u st n t p :
  serial c l (Some (i, u)) st n → c.2 !! i = Some t → at_pc t = Some p →
  (∃ c' l' cur' st' n', step_of i c = Some (Ok c') ∧ serial c' l' cur' st' n' ∧ pending c' = pending c ∧ (n' < n)%nat)
  ∨ ∃ f us, step_of i c = Some (Undef f) ∧ progs !! i = Some (updates (of_thread i l) ++ u :: us) ∧ seq_update u st = Undef f.
Proof.
  intros Hser Hi Hp. pose proof Hser as [Hrun _ Hids Hth _ (t1 & p1 & Ho & Ht1 & Hp1 & Hcrit)].
  assert (t1 = t) as -> by congruence. assert (p1 = p) as -> by congruence.
  destruct (Hth _ _ Hi) as (Hans & us & Hus & Hprog). cbn [current] in Hprog. rewrite decide_True in Hprog by done.
  pose proof (critical_leads _ _ _ _ Hcrit) as Hlead. unfold step_of, thread_step. rewrite Hi. cbn [mbind option_bind]. rewrite Hp.
  destruct (pc_step p c.1) as [[σ' [p'|a]]| | |f|]; try done; cbn [mbind outcome_bind leads_on] in *.
  - left. destruct Hlead as (Ho' & m & Hm & Hcrit').
    eexists _, l, (Some (i, u)), st, m. split; [done|]. split; [|split; [|done]].
    + eapply threads_of; [exact Hser|done|done|done|done|done| | |].
      * intros us0 Hus0. by exists us0.
      * cbn [current]. by rewrite decide_True.
      * eexists _, p'. cbn [fst]. rewrite Ho', list_lookup_insert_eq by (by eapply lookup_lt_Some). done.
    + pose proof (pending_insert c.1 σ' c.2 i t (resume t (todo t) (inl p')) Hi) as Hpend. cbn in Hpend |- *. destruct c. cbn in *. lia.
  - left. destruct Hlead as (Ho' & Hn & st' & Hr & HF). pose proof (seq_updates_snoc _ u _ _ _ Hrun) as Hrun'.
    rewrite HF in Hrun'. cbn [mbind outcome_bind] in Hrun'.
    eexists _, (l ++ [(i, u, a)]), None, st', 0%nat. split; [done|]. split; [|split; [|lia]].
    + eapply threads_of; [exact Hser|done| | | | | |done|done].
      * unfold updates, replies in *. by rewrite !fmap_app.
      * apply Forall_app. split; [done|]. constructor; [by eexists|done].
      * intros j Hj. rewrite of_thread_snoc, decide_False, app_nil_r by done. split; [done|]. cbn [current]. by rewrite decide_False.
      * rewrite of_thread_snoc, decide_True by done. unfold replies. rewrite fmap_app. cbn [resume answers]. by rewrite Hans.
      * intros us0 Hus0. exists us0. split; [done|]. rewrite of_thread_snoc, decide_True by done. cbn [current]. rewrite decide_True by done.
        unfold updates. by rewrite fmap_app, <- app_assoc.
    + pose proof (pending_insert c.1 σ' c.2 i t (resume t (todo t) (inr a)) Hi) as Hpend. cbn in Hpend |- *. destruct c. cbn in *. lia.
  - right. by exists f, us.
Qed.

Lemma serial_idle c l cur st n i t :
  serial c l cur st n → c.2 !! i = Some t → at_pc t = None → current cur i = [].
Proof.
  intros Hser Hi Hp. pose proof (sr_shared _ _ _ _ _ Hser) as Hsh. destruct cur as [[j u]|]; [|done]. cbn [current].
  case_decide as Hd; [|done]. subst j. destruct Hsh as (t1 & p & _ & Ht1 & Hp1 & _). congruence.
Qed.

(** An insertion of a null pointer returns without the lock. *)
Lemma serial_null_step c l cur st n i t u cs :
  serial c l cur st n → c.2 !! i = Some t → at_pc t = None → todo t = Update u :: cs →
  seq_update u st = Ok (Returned, st) →
  serial (c.1, <[i := mkThread (answers t ++ [Returned]) None cs]> c.2) (l ++ [(i, u, Returned)]) cur st n.
Proof.
  intros Hser Hi Hp Htodo Hu. pose proof (serial_idle _ _ _ _ _ _ _ Hser Hi Hp) as Hcur.
  pose proof Hser as [Hrun _ Hids Hth _ Hsh]. destruct (Hth _ _ Hi) as (Hans & us & Hus & Hprog).
  eapply threads_of; [exact Hser|done| | | | | |done|].
  - unfold updates, replies in *. rewrite !fmap_app. cbn. rewrite (seq_updates_snoc _ u _ _ _ Hrun), Hu. done.
  - apply Forall_app. split; [done|]. constructor; [by eexists|done].
  - intros j Hj. by rewrite of_thread_snoc, decide_False, app_nil_r.
  - rewrite of_thread_snoc, decide_True by done. unfold replies. rewrite fmap_app. cbn [answers]. by rewrite Hans.
  - intros us0 Hus0. rewrite Htodo in Hus0. destruct us0 as [|u0 us0]; [done|]. injection Hus0 as <- ->. exists us0.
    rewrite of_thread_snoc, decide_True, Hcur by done. split; [done|]. unfold updates. by rewrite fmap_app, <- app_assoc.
  - destruct cur as [[j u0]|]; [|done]. destruct Hsh as (t1 & p & Ho & Ht1 & Hp1 & Hc). exists t1, p.
    rewrite list_lookup_insert_ne by (intros ->; congruence). done.
Qed.

(** A thread takes the lock. *)
Lemma serial_lock_step c l st n i t u cs p :
  serial c l None st n → c.2 !! i = Some t → todo t = Update u :: cs → at_pc t = None →
  (∀ places, laid_out c.1 st.1 places → mem c.1 = st.2 → ∃ m, critical (set_owner (Some i) c.1) p (seq_update u st) m) →
  ∃ m, serial (set_owner (Some i) c.1, <[i := mkThread (answers t) (Some p) cs]> c.2) l (Some (i, u)) st m.
Proof.
  intros Hser Hi Htodo Hp Hcrit. pose proof Hser as [Hrun _ Hids Hth _ (_ & [[places Hlo] Hm])].
  destruct (Hth _ _ Hi) as (Hans & us & Hus & Hprog).
  destruct (Hcrit _ Hlo Hm) as [m Hc]. exists m.
  eapply threads_of; [exact Hser|done|done|done| |done| | |].
  - intros j Hj. cbn [current]. by rewrite decide_False.
  - intros us0 Hus0. rewrite Htodo in Hus0. destruct us0 as [|u0 us0]; [done|]. injection Hus0 as <- ->. exists us0.
    cbn [current]. by rewrite decide_True.
  - cbn [current]. by rewrite decide_True.
  - eexists _, p. rewrite list_lookup_insert_eq by (by eapply lookup_lt_Some). done.
Qed.

Lemma serial_idle_step c l cur st n i t u cs :
  serial c l cur st n → c.2 !! i = Some t → at_pc t = None → todo t = Update u :: cs →
  step_of i c = None ∧ cur ≠ None
  ∨ ∃ c' l' cur' n', step_of i c = Some (Ok c') ∧ serial c' l' cur' st n' ∧ (pending c' < pending c)%nat.
Proof.
  intros Hser Hi Hp Htodo. assert (∀ σ t', todo t' = cs → pending (σ, <[i := t']> c.2) < pending c)%nat as Hlt.
  { intros σ t' Ht'. pose proof (pending_insert c.1 σ c.2 i t t' Hi) as Hpend. rewrite Htodo, Ht' in Hpend.
    cbn [length] in Hpend. destruct c. cbn [fst snd] in *. lia. }
  unfold step_of, thread_step. rewrite Hi. cbn [mbind option_bind]. rewrite Hp, Htodo. unfold start.
  assert (cur = None ∧ owner c.1 = None ∨ cur ≠ None ∧ ∃ j, owner c.1 = Some j) as Hown.
  { pose proof (sr_shared _ _ _ _ _ Hser) as Hsh. destruct cur as [[j u0]|]; [right|left]; [|by destruct Hsh].
    split; [done|]. exists j. by destruct Hsh as (? & ? & ? & _). }
  destruct u as [key data|s].
  - destruct ((key =? NULL) || (data =? NULL)) eqn:Hnull.
    + right. eexists _, _, cur, n. split; [done|]. split; [|by apply Hlt].
      eapply serial_null_step; [done..|]. unfold seq_update, hash_insert. rewrite Hnull. by destruct st.
    + apply orb_false_iff in Hnull as [Hk Hd]. destruct Hown as [[-> Ho]|[Hcur [j Ho]]]; rewrite Ho; [right|by left].
      destruct (serial_lock_step _ _ _ _ _ _ _ _ (InsHash key data) Hser Hi Htodo Hp) as [m Hs].
      { intros places Hlo Hm. exists (longest st.1 + 5)%nat, st.1, places. split; [by apply laid_out_owner|].
        split_and!; [lia|lia| |done]. cbn [set_owner mem]. rewrite Hm. by destruct st. }
      eexists _, _, _, _. split; [done|]. split; [exact Hs|]. by apply Hlt.
  - destruct Hown as [[-> Ho]|[Hcur [j Ho]]]; rewrite Ho; [right|by left].
    destruct (serial_lock_step _ _ _ _ _ _ _ _ (RemHash s) Hser Hi Htodo Hp) as [m Hs].
    { intros places Hlo Hm. exists (longest st.1 + 7)%nat, st.1, places. split; [by apply laid_out_owner|].
      split; [|done]. cbn [set_owner mem]. rewrite Hm. by destruct st. }
    eexists _, _, _, _. split; [done|]. split; [exact Hs|]. by apply Hlt.
Qed.

Lemma serial_step c l cur st n i o :
  serial c l cur st n → step_of i c = Some o →
  (∃ c' l' cur' st' n', o = Ok c' ∧ serial c' l' cur' st' n'
     ∧ (pending c' < pending c ∨ pending c' = pending c ∧ n' < n)%nat)
  ∨ ∃ f u us, o = Undef f ∧ progs !! i = Some (updates (of_thread i l) ++ u :: us) ∧ seq_update u st = Undef f.
Proof.
  intros Hser Ho. destruct (c.2 !! i) as [t|] eqn:Hi; [|unfold step_of in Ho; by rewrite Hi in Ho].
  destruct (at_pc t) as [p|] eqn:Hp.
  - destruct (decide (current cur i = [])) as [Hc|Hc]; [by rewrite (sr_idle _ _ _ _ _ Hser _ _ Hi Hc) in Hp|].
    destruct cur as [[j u]|]; [|done]. cbn [current] in Hc. case_decide; [subst j|done].
    destruct (serial_locked_step _ _ _ _ _ _ _ _ Hser Hi Hp) as [(c' & l' & cur' & st' & n' & Heq & ? & ? & ?)|(f & us & Heq & ? & ?)];
      rewrite Heq in Ho; injection Ho as <-; [left; exists c', l', cur', st', n'; auto|right; by exists f, u, us].
  - destruct (sr_thread _ _ _ _ _ Hser _ _ Hi) as (_ & us & Hus & _). destruct (todo t) as [|u0 cs] eqn:Htodo.
    { unfold step_of, thread_step in Ho. rewrite Hi in Ho. cbn [mbind option_bind] in Ho. by rewrite Hp, Htodo in Ho. }
    destruct us as [|u us]; [done|]. injection Hus as -> ->.
    destruct (serial_idle_step _ _ _ _ _ _ _ _ _ Hser Hi Hp Htodo) as [[? _]|(c' & l' & cur' & n' & Heq & ? & ?)]; [congruence|].
    rewrite Heq in Ho. injection Ho as <-. left. exists c', l', cur', st, n'. auto.
Qed.

Lemma serial_reach c l cur st n c' :
  serial c l cur st n → rtc steps c c' → ∃ l' cur' st' n', serial c' l' cur' st' n'.
Proof.
  intros Hser Hr. revert l cur st n Hser. induction Hr as [c|c1 c2 c3 [i Hstep] _ IH]; intros l cur st n Hser; [eauto|].
  destruct (serial_step _ _ _ _ _ _ _ Hser Hstep) as [(? & ? & ? & ? & ? & [= ->] & ? & _)|(? & ? & ? & ? & _)]; [eauto|done].
Qed.

Lemma serial_ends c l cur st n : serial c l cur st n → sn steps c.
Proof.
  revert l cur st n. remember (pending c) as k eqn:Hk. revert c Hk. induction (lt_wf k) as [k _ IHk]. intros c -> l cur st n.
  revert c IHk l cur st. induction (lt_wf n) as [n _ IHn]. intros c IHk l cur st Hser. constructor. intros c' [i Hstep].
  destruct (serial_step _ _ _ _ _ _ _ Hser Hstep) as [(? & ? & ? & ? & ? & [= <-] & Hser' & [Hlt|[Heq Hlt]])|(? & ? & ? & ? & _)]; [..|done].
  - by eapply (IHk _ Hlt).
  - eapply (IHn _ Hlt); [|exact Hser']. intros m Hm. apply IHk. lia.
Qed.

(** When no thread has a step, none waits for the lock. *)
Lemma serial_stuck c l cur st n : serial c l cur st n → (∀ i, step_of i c = None) → Forall finished c.2.
Proof.
  intros Hser Hstuck. apply Forall_lookup. intros i t Hi.
  assert (cur = None) as ->.
  { destruct cur as [[j u]|]; [|done]. destruct (sr_shared _ _ _ _ _ Hser) as (t1 & p & _ & Ht1 & Hp1 & _).
    specialize (Hstuck j). unfold step_of, thread_step in Hstuck. rewrite Ht1 in Hstuck. cbn [mbind option_bind] in Hstuck.
    by rewrite Hp1 in Hstuck. }
  assert (at_pc t = None) as Hp by (by eapply sr_idle). split; [done|].
  destruct (sr_thread _ _ _ _ _ Hser _ _ Hi) as (_ & us & Hus & _). destruct us as [|u us]; [done|].
  destruct (serial_idle_step _ _ _ _ _ _ _ _ _ Hser Hi Hp Hus) as [[_ ?]|(? & ? & ? & ? & Hs & _)]; [done|].
  by rewrite Hstuck in Hs.
Qed.
End threads.

Definition start_threads (σ : SharedTable) (progs : list (list update)) : config :=
  (σ, (λ us, spawn (Update <$> us)) <$> progs).

Lemma threads_log σ ht h progs c :
  in_memory σ (ht, h) → owner σ = None → rtc steps (start_threads σ progs) c →
  ∃ l st, seq_updates (updates l) (ht, h) = Ok (replies l, st) ∧ Forall (λ e, is_Some (progs !! e.1.1)) l
    ∧ (∀ i t us, c.2 !! i = Some t → progs !! i = Some us →
         answers t = replies (of_thread i l) ∧ updates (of_thread i l) `prefix_of` us)
    ∧ (Forall finished c.2 → in_memory c.1 st ∧ ∀ i us, progs !! i = Some us → updates (of_thread i l) = us)
    ∧ (∀ i o, step_of i c = Some o → (∃ c', o = Ok c')
         ∨ ∃ f us u, o = Undef f ∧ progs !! i = Some us ∧ updates (of_thread i l) ++ [u] `prefix_of` us
             ∧ seq_updates (updates l ++ [u]) (ht, h) = Undef f).
Proof.
  intros Hr Ho Hreach. destruct (serial_reach progs (ht, h) _ _ _ _ _ _ (serial_start progs _ _ Hr Ho) Hreach)
    as (l & cur & st & n & Hser).
  pose proof Hser as [Hrun Hlen Hids Hth Hidle Hsh]. exists l, st. split; [done|]. split; [done|]. split; [|split].
  - intros i t us Hi Hus. destruct (Hth _ _ Hi) as (Hans & us' & _ & Hprog). split; [done|].
    rewrite Hus in Hprog. injection Hprog as ->. by eexists.
  - intros Hfin. assert (cur = None) as ->.
    { destruct cur as [[j u]|]; [|done]. destruct Hsh as (t1 & p & _ & Ht1 & Hp1 & _).
      rewrite Forall_lookup in Hfin. destruct (Hfin _ _ Ht1). congruence. }
    split; [by destruct Hsh|]. intros i us Hus.
    destruct (lookup_lt_is_Some_2 c.2 i) as [t Hi]; [rewrite Hlen; by eapply lookup_lt_Some|].
    destruct (Hth _ _ Hi) as (_ & us' & Hus' & Hprog). rewrite Forall_lookup in Hfin. destruct (Hfin _ _ Hi) as [_ Htodo].
    rewrite Htodo in Hus'. destruct us'; [|done]. rewrite Hus in Hprog. injection Hprog as ->. by rewrite !app_nil_r.
  - intros i o Hstep. destruct (serial_step _ _ _ _ _ _ _ _ _ Hser Hstep)
      as [(c' & ? & ? & ? & ? & -> & _)|(f & u & us & -> & Hprog & Hf)]; [left; by exists c'|right].
    exists f, (updates (of_thread i l) ++ u :: us), u. split_and!; try done.
    + exists us. by rewrite <- app_assoc.
    + by rewrite (seq_updates_snoc _ u _ _ _ Hrun), Hf.
Qed.

(** *** The log and the programs *)

Lemma concat_uncons {A} (ls : list (list A)) j x l :
  ls !! j = Some (x :: l) → concat ls ≡ₚ x :: concat (<[j := l]> ls).
Proof.
  revert j. induction ls as [|l0 ls IH]; intros [|j] Hj; try done; cbn.
  - by injection Hj as ->.
  - rewrite (IH j Hj). cbn. by rewrite Permutation_middle.
Qed.

(** What the threads have not done yet, and a log, are the programs. *)
Lemma log_split (l : log) (progs rests : list (list update)) :
  length rests = length progs → Forall (λ e, is_Some (progs !! e.1.1)) l →
  (∀ i us r, progs !! i = Some us → rests !! i = Some r → us = updates (of_thread i l) ++ r) →
  concat progs ≡ₚ updates l ++ concat rests.
Proof.
  revert progs. induction l as [|[[j u] a] l IH]; intros progs Hlen Hids Hi.
  - replace progs with rests; [done|]. apply list_eq_same_length with (length progs); [done|done|].
    intros i x y _ Hx Hy. by rewrite (Hi i y x Hy Hx).
  - apply Forall_cons in Hids as [[us Hus] Hids]. cbn [fst] in Hus.
    destruct (lookup_lt_is_Some_2 rests j) as [r Hr]; [rewrite Hlen; by eapply lookup_lt_Some|].
    assert (us = u :: updates (of_thread j l) ++ r) as ->.
    { rewrite (Hi j us r Hus Hr). unfold of_thread. rewrite filter_cons. cbn [fst]. by rewrite decide_True. }
    rewrite (concat_uncons _ _ _ _ Hus). cbn. constructor. apply IH.
    + by rewrite length_insert.
    + eapply Forall_impl; [exact Hids|]. intros e [us He]. destruct (decide (e.1.1 = j)) as [->|Hne].
      * rewrite list_lookup_insert_eq by (by eapply lookup_lt_Some). by eexists.
      * rewrite list_lookup_insert_ne by done. by eexists.
    + intros i us r' Hus' Hr'. destruct (decide (i = j)) as [->|Hne].
      * rewrite list_lookup_insert_eq in Hus' by (by eapply lookup_lt_Some). by simplify_eq.
      * rewrite list_lookup_insert_ne in Hus' by done. rewrite (Hi i us r' Hus' Hr'). unfold of_thread. rewrite filter_cons. cbn [fst].
        by rewrite decide_False by done.
Qed.

Lemma log_submseteq (l : log) (progs : list (list update)) :
  Forall (λ e, is_Some (progs !! e.1.1)) l →
  (∀ i us, progs !! i = Some us → updates (of_thread i l) `prefix_of` us) → updates l ⊆+ concat progs.
Proof.
  intros Hids Hpre. rewrite (log_split l progs (imap (λ i us, drop (length (updates (of_thread i l))) us) progs)); [|by rewrite length_imap|done|].
  - by apply submseteq_inserts_r.
  - intros i us r Hus Hr. rewrite list_lookup_imap, Hus in Hr. injection Hr as <-.
    destruct (Hpre i us Hus) as [k ->]. by rewrite drop_app_length.
Qed.

(** ** Insertions *)

(** Pairs to insert: the text of a key, and the addresses of key and data. *)
Definition insertions (es : list (text * HashEl)) : list update :=
  (λ e : text * HashEl, Insert (el_key e.2) (el_data e.2)) <$> es.

Definition insertable (h : heap) (ht : HashTable) (e : text * HashEl) : Prop :=
  str_at h (el_key e.2) e.1 ∧ hashable e.1 ∧ is_data h (el_data e.2) ∧ data_fresh ht (el_data e.2).

Lemma insertions_ok h es ht :
  table_ok h ht → Forall (insertable h ht) es → NoDup es.*1 → NoDup (el_data ∘ snd <$> es) →
  ∃ rs ht', seq_updates (insertions es) (ht, h) = Ok (rs, (ht', h)) ∧ table_ok h ht'
    ∧ (∀ s el, (s, el) ∈ es → hash_find s ht' h = Ok (Some el))
    ∧ (∀ s, hashable s → s ∉ es.*1 → hash_find s ht' h = hash_find s ht h).
Proof.
  revert ht. induction es as [|[s0 [key data]] es IH]; intros ht Ht Hes Hks Hds.
  - exists [], ht. split_and!; try done. by intros ? ? ?%elem_of_nil.
  - apply Forall_cons in Hes as [(Hkey & Hs0 & Hd & Hfresh) Hes]. cbn [fst snd el_key el_data] in *.
    apply NoDup_cons in Hks as [Hk0 Hks]. apply NoDup_cons in Hds as [Hd0 Hds].
    destruct (hash_insert_ok h ht key data s0 Ht Hkey Hs0 Hd Hfresh) as (ht1 & Hins & Ht1 & _ & Hfind & Hent).
    destruct (IH ht1 Ht1) as (rs & ht' & Hrun & Ht' & Hin & Hother); [|done|done|].
    { rewrite Forall_forall in Hes |- *. intros e He. destruct (Hes e He) as (? & ? & ? & Hf). split_and!; try done.
      intros i j el [->|Hel]%Hent; [|by apply (Hf i j)]. intros Heq. apply Hd0. cbn [el_data] in Heq. cbn. rewrite Heq.
      by apply (list_elem_of_fmap_2 (el_data ∘ snd)). }
    exists (Returned :: rs), ht'. split; [cbn; rewrite Hins; cbn; unfold insertions in Hrun; by rewrite Hrun|].
    split; [done|]. split.
    + intros s el [[= -> ->]|He]%elem_of_cons; [|auto]. rewrite Hother, Hfind, decide_True by done. done.
    + intros s Hs Hnin. cbn [fmap list_fmap fst] in Hnin. apply not_elem_of_cons in Hnin as [Hne Hnin].
      rewrite Hother, Hfind, decide_False by done. done.
Qed.

(** Some of the pairs, in another order. *)
Lemma insertions_sub h ht es us :
  table_ok h ht → Forall (insertable h ht) es → NoDup es.*1 → NoDup (el_data ∘ snd <$> es) →
  us ⊆+ insertions es →
  ∃ es' rs ht', us = insertions es' ∧ es' ⊆+ es ∧ seq_updates us (ht, h) = Ok (rs, (ht', h)) ∧ table_ok h ht'
    ∧ (∀ s el, (s, el) ∈ es' → hash_find s ht' h = Ok (Some el))
    ∧ (∀ s, hashable s → s ∉ es'.*1 → hash_find s ht' h = hash_find s ht h).
Proof.
  intros Ht Hes Hks Hds (k & Hk)%submseteq_Permutation. symmetry in Hk.
  apply Permutation_map_inv in Hk as (es3 & Hmap & Hperm). symmetry in Hmap.
  apply (fmap_app_inv (λ e : text * HashEl, Insert (el_key e.2) (el_data e.2))) in Hmap as (es' & es2 & -> & -> & ->).
  rewrite Hperm in Hes, Hks, Hds. rewrite fmap_app in Hks. rewrite fmap_app in Hds. apply Forall_app in Hes as [Hes _].
  apply NoDup_app in Hks as [Hks _]. apply NoDup_app in Hds as [Hds _].
  destruct (insertions_ok h es' ht Ht Hes Hks Hds) as (rs & ht' & Hrun & Ht' & Hin & Hother).
  exists es', rs, ht'. split_and!; try done. rewrite Hperm. by apply submseteq_inserts_r.
Qed.

(** ** A search while an element is removed *)

Lemma schedule_step i c o t σ' t' :
  c.2 !! i = Some t → thread_step i t c.1 = Some o → o = Ok (σ', t') → steps c (σ', <[i := t']> c.2).
Proof. intros Hi Ho ->. exists i. unfold step_of. rewrite Hi. cbn [mbind option_bind]. by rewrite Ho. Qed.

(** A thread that is in an operation, with its next step. *)
Lemma pc_steps i σ ts t p σ' r :
  ts !! i = Some t → at_pc t = Some p → pc_step p σ = Ok (σ', r) → steps (σ, ts) (σ', <[i := resume t (todo t) r]> ts).
Proof.
  intros Hi Hp Hr. eapply schedule_step; [exact Hi| |reflexivity]. unfold thread_step. rewrite Hp. cbn [fst]. by rewrite Hr.
Qed.

(** The holder of the lock runs to the release of the lock. *)
Lemma run_alone i σ ts t p a st n :
  ts !! i = Some t → at_pc t = Some p → critical σ p (Ok (a, st)) n →
  ∃ σ', rtc steps (σ, ts) (σ', <[i := resume t (todo t) (inr a)]> ts) ∧ in_memory σ' st.
Proof.
  revert σ ts t p. induction (lt_wf n) as [n _ IH]. intros σ ts t p Hi Hp Hc.
  pose proof (critical_leads _ _ _ _ Hc) as Hl. destruct (pc_step p σ) as [[σ1 [p1|a1]]| | | |] eqn:Hstep; try done; cbn [leads_on] in Hl.
  - destruct Hl as (_ & m & Hm & Hc1). pose proof (pc_steps _ _ _ _ _ _ _ Hi Hp Hstep) as Hs.
    pose proof (lookup_lt_Some _ _ _ Hi) as Hlt.
    destruct (IH m Hm σ1 (<[i := resume t (todo t) (inl p1)]> ts) (resume t (todo t) (inl p1)) p1) as (σ' & Hrun & Hr);
      [by rewrite list_lookup_insert_eq|done|exact Hc1|].
    exists σ'. split; [|done]. rewrite list_insert_insert_eq in Hrun. eapply rtc_l; [exact Hs|]. exact Hrun.
  - destruct Hl as (_ & _ & st1 & Hr & [= <- <-]). exists σ1. split; [|done]. apply rtc_once. by eapply pc_steps.
Qed.

(** A search walks past the elements of other keys. *)
Lemma find_walk i σ ts t s pls b temp temp' :
  ts !! i = Some t → at_pc t = Some (FindRead s temp) → seg σ temp pls b temp' →
  Forall (λ el, ∃ s', str_at (mem σ) (el_key el) s' ∧ s' ≠ s) b →
  rtc steps (σ, ts) (σ, <[i := mkThread (answers t) (Some (FindRead s temp')) (todo t)]> ts).
Proof.
  revert ts t temp b. induction pls as [|pl pls IH]; intros ts t temp [|el b] Hi Hp Hs Hb; try done; pose proof (lookup_lt_Some _ _ _ Hi) as Hlt.
  - cbn in Hs. subst temp'. rewrite list_insert_id; [done|]. rewrite Hi. destruct t. cbn in *. by subst.
  - destruct Hs as (-> & next & Hn & Hs). apply Forall_cons in Hb as [(s' & Hs' & Hne) Hb].
    set (at_ p := mkThread (answers t) (Some p) (todo t)).
    eapply rtc_l; [eapply pc_steps; [exact Hi|exact Hp|cbn [pc_step]; by rewrite Hn]|]. cbn [resume].
    eapply rtc_l; [eapply pc_steps; [by rewrite list_lookup_insert_eq by done|done|cbn [pc_step nd_el]; rewrite (load_str_ok _ _ _ Hs'); ok_step; by rewrite bool_decide_false]|].
    rewrite list_insert_insert_eq. cbn [resume answers todo].
    eapply rtc_l; [eapply pc_steps; [by rewrite list_lookup_insert_eq by done|done|cbn [pc_step]; by rewrite Hn]|].
    rewrite list_insert_insert_eq. cbn [resume answers todo nd_next].
    specialize (IH (<[i := at_ (FindRead s (place_of next))]> ts) (at_ (FindRead s (place_of next))) (place_of next) b).
    rewrite list_insert_insert_eq in IH. apply IH; [by rewrite list_lookup_insert_eq by done|done..].
Qed.

(** ** Theorems *)

(** C12: insertions and removals of any number of threads are serialisable. Whatever
    the order in which the steps of the threads alternate, there is an order of the
    completed calls, with those of each thread in the order of its program, such that the
    sequential operations, one after another, give the threads their answers; once all
    threads have finished, the table in memory is the one these operations make;
    and a step is a fault only if the sequential operations in that order, with the call
    of the thread added, are the same fault. *)
Theorem threads_serialise σ ht h progs c :
  in_memory σ (ht, h) → owner σ = None → rtc steps (start_threads σ progs) c →
  ∃ l st, seq_updates (updates l) (ht, h) = Ok (replies l, st) ∧ Forall (λ e, is_Some (progs !! e.1.1)) l
    ∧ (∀ i t us, c.2 !! i = Some t → progs !! i = Some us →
         answers t = replies (of_thread i l) ∧ updates (of_thread i l) `prefix_of` us)
    ∧ (Forall finished c.2 → in_memory c.1 st ∧ ∀ i us, progs !! i = Some us → updates (of_thread i l) = us)
    ∧ (∀ i o, step_of i c = Some o → (∃ c', o = Ok c')
         ∨ ∃ f us u, o = Undef f ∧ progs !! i = Some us ∧ updates (of_thread i l) ++ [u] `prefix_of` us
             ∧ seq_updates (updates l ++ [u]) (ht, h) = Undef f).
Proof. apply threads_log. Qed.

(** C31: updates by threads end. No execution of the threads is infinite, whatever the
    order of their steps, and when none of them has a step any more, all have
    finished: none waits for a lock that is not released, also after the branches
    of [hash_remove] that return early. *)
Theorem threads_end σ ht h progs :
  in_memory σ (ht, h) → owner σ = None →
  sn steps (start_threads σ progs)
  ∧ ∀ c, rtc steps (start_threads σ progs) c → (∀ i, step_of i c = None) → Forall finished c.2.
Proof.
  intros Hr Ho. pose proof (serial_start progs _ _ Hr Ho) as Hser. split; [by eapply serial_ends|].
  intros c Hreach Hstuck. destruct (serial_reach _ _ _ _ _ _ _ _ Hser Hreach) as (l & cur & st & n & Hser').
  by eapply serial_stuck.
Qed.

(** C13: what threads insert is found. When threads insert pairs of distinct keys and
    data that the table does not have, each in the order of its list, no step of any
    interleaving is a fault, and once all threads have finished, the search for
    a key ends with the pair of the key that was inserted, or for another key with
    what the table had before. *)
Theorem threads_insert σ ht h ess c :
  in_memory σ (ht, h) → owner σ = None → table_ok h ht →
  Forall (insertable h ht) (concat ess) → NoDup (concat ess).*1 → NoDup (el_data ∘ snd <$> concat ess) →
  rtc steps (start_threads σ (insertions <$> ess)) c →
  (∀ i f, step_of i c ≠ Some (Undef f))
  ∧ (Forall finished c.2 → ∃ ht', in_memory c.1 (ht', h) ∧ table_ok h ht'
       ∧ (∀ s el, (s, el) ∈ concat ess → hash_find s ht' h = Ok (Some el))
       ∧ (∀ s, hashable s → s ∉ (concat ess).*1 → hash_find s ht' h = hash_find s ht h)).
Proof.
  intros Hr Ho Ht Hes Hks Hds Hreach. destruct (threads_log _ _ _ _ _ Hr Ho Hreach) as (l & st & Hrun & Hids & Hth & Hfin & Hfault).
  assert (∀ i us, (insertions <$> ess) !! i = Some us → is_Some (c.2 !! i)) as Hlen.
  { destruct (serial_reach _ _ _ _ _ _ _ _ (serial_start _ _ _ Hr Ho) Hreach) as (l' & cur & st' & n & Hser).
    intros i us Hus. apply lookup_lt_is_Some_2. rewrite (sr_length _ _ _ _ _ _ _ Hser). by eapply lookup_lt_Some. }
  assert (concat (insertions <$> ess) = insertions (concat ess)) as Hcat.
  { unfold insertions. clear. induction ess as [|es ess IH]; [done|]. cbn. by rewrite IH, fmap_app. }
  split.
  - intros i f Hstep. destruct (Hfault _ _ Hstep) as [[c' [=]]|(f' & us & u & _ & Hus & Hpre & Hbad)].
    destruct (insertions_sub h ht (concat ess) (updates l ++ [u]) Ht Hes Hks Hds) as (es' & rs & ht' & _ & _ & Hgood & _); [|congruence].
    rewrite <- Hcat. replace (updates l ++ [u]) with (updates (l ++ [(i, u, Returned)])) by (unfold updates; by rewrite fmap_app).
    apply log_submseteq; [apply Forall_app; split; [done|by constructor; [eexists|]]|].
    intros j us' Hus'. rewrite of_thread_snoc. case_decide as Hd.
    + subst j. rewrite Hus in Hus'. injection Hus' as <-. unfold updates. by rewrite fmap_app.
    + rewrite app_nil_r. destruct (Hlen _ _ Hus') as [t Hi]. by eapply Hth.
  - intros Hdone. destruct (Hfin Hdone) as [Hrep Hall].
    assert (concat (insertions <$> ess) ≡ₚ updates l) as Hperm.
    { rewrite (log_split l _ ((λ _, []) <$> ess)); [|by rewrite !length_fmap|done|].
      - replace (concat _) with (@nil update); [by rewrite app_nil_r|]. clear. by induction ess.
      - intros i us r Hus Hr'. rewrite (Hall _ _ Hus), list_lookup_fmap in *. destruct (ess !! i); [|done].
        injection Hr' as <-. by rewrite app_nil_r. }
    destruct (insertions_sub h ht (concat ess) (updates l) Ht Hes Hks Hds) as (es' & rs & ht' & Heq & Hsub & Hgood & Ht' & Hin & Hother);
      [by rewrite <- Hcat, Hperm|].
    rewrite Hrun in Hgood. injection Hgood as _ ->. exists ht'.
    assert (es' ≡ₚ concat ess) as Hes'.
    { apply submseteq_length_Permutation; [done|]. apply Permutation_length in Hperm. rewrite Hcat, Heq in Hperm.
      unfold insertions in Hperm. rewrite !length_fmap in Hperm. lia. }
    split_and!; [done|done| |].
    + intros s el He. apply Hin. by rewrite Hes'.
    + intros s Hs Hnin. apply Hother; [done|]. by rewrite Hes'.
Qed.

Lemma index_first s ks j : (j < index s ks)%nat → ks !! j = Some s → False.
Proof.
  revert j. induction ks as [|t ks IH]; intros [|j]; cbn; [lia..| |]; case_decide as Hd; try lia.
  - by intros _ [= ->].
  - intros Hj. apply IH. lia.
Qed.

(** A search gets to the comparison with its key. *)
Lemma find_to_key σ ht h s b ks i el t1 :
  in_memory σ (ht, h) → table_ok h ht → hashable s → arr ht !! Z.to_nat (slot (size ht) s) = Some b →
  chain h b ks → index s ks = i → b !! i = Some el →
  ∃ pl, rtc steps (σ, [spawn [Find s]; t1]) (σ, [mkThread [] (Some (FindCompare s pl (el_key el))) []; t1]).
Proof.
  intros [[places Hlo] Hm] Ht Hs Hb Hc Hi Hel. cbn [fst snd] in Hlo, Hm.
  destruct (slot_cases _ _ _ Hlo (slot (size ht) s)) as [[Hno _]|(b' & _ & Hb' & _)]; [unfold bucket_at in Hno; by rewrite Hb in Hno|].
  rewrite Hb in Hb'. injection Hb' as <-. destruct b as [|el0 b]; [done|].
  destruct (lo_bucket _ _ _ Hlo _ _ Hb) as [Hseg Hk]. apply Forall_cons in Hk as [Hk0 _].
  pose proof (take_drop_middle _ _ _ Hel) as Hsplit. pose proof (seg_length _ _ _ _ _ Hseg) as Hlen.
  assert (i < length (el0 :: b))%nat as Hlt by (by eapply lookup_lt_Some).
  rewrite <- (take_drop i (places _)) in Hseg. destruct (seg_split _ _ _ _ _ _ Hseg) as (b1 & b2 & m & Hbb & H1 & H2).
  assert (b1 = take i (el0 :: b) ∧ b2 = drop i (el0 :: b)) as [-> ->].
  { apply app_inj_1; [|by rewrite take_drop, Hbb]. rewrite <- (seg_length _ _ _ _ _ H1), !length_take. lia. }
  rewrite (drop_S _ _ _ Hel) in H2. destruct (drop i (places _)) as [|pl pls]; [done|]. destruct H2 as (-> & next & Hn & _).
  exists pl. eapply rtc_l; [eapply (schedule_step 0); [done|done|reflexivity]|]. cbn [resume spawn answers].
  eapply rtc_l; [eapply (pc_steps 0); [done|done|]|].
  { cbn [pc_step fst]. rewrite (hash_of_laid _ _ _ Hlo), (hash_ok _ _ (tk_size _ _ Ht) Hs). reflexivity. }
  destruct (walking_next _ _ _ _ _ _ _ _ _ (bucket_walking _ _ _ Hlo _ _ _ Hb)) as (next0 & Hn0 & _).
  eapply rtc_l; [eapply (pc_steps 0); [done|done|]|].
  { cbn [pc_step fst]. rewrite Hn0. ok_step. cbn [nd_el]. by rewrite (proj2 (Z.eqb_neq _ _)). }
  etransitivity; [eapply (find_walk 0); [done|done|exact H1|]|].
  - apply Forall_lookup. intros j el' Hj. destruct (decide (j < i)%nat) as [Hji|]; [|by rewrite lookup_take_ge in Hj by lia].
    rewrite lookup_take_lt in Hj by done. destruct (Forall2_lookup_l _ _ _ _ _ Hc Hj) as (s' & Hs' & Hst).
    exists s'. rewrite Hm. split; [done|]. intros ->. apply (index_first s ks j); [lia|done].
  - eapply rtc_l; [eapply (pc_steps 0); [done|done|cbn [pc_step fst]; rewrite Hn; reflexivity]|]. reflexivity.
Qed.

(** What the sequential operations do with an element that is not the first of its
    chain. *)
Lemma remove_found h ht s b ks i el :
  table_ok h ht → hashable s → arr ht !! Z.to_nat (slot (size ht) s) = Some b → chain h b ks →
  index s ks = S i → b !! S i = Some el →
  seq_update (Remove s) (ht, h) = Ok (Success true, (set_bucket ht (slot (size ht) s) (delete (S i) b), free_el el h)).
Proof.
  intros Ht Hs Hb Hc Hi Hel. destruct (table_bucket _ _ _ Ht Hs) as (b' & ks' & Hb' & Hhash & Hat & Hc' & _ & _ & Hd).
  rewrite Hb in Hb'. injection Hb' as <-. rewrite remove_rest_eq, Hhash by apply Ht. ok_step.
  destruct (Forall2_lookup_l _ _ _ _ _ Hc Hel) as (t & _ & Hst). rewrite Forall_lookup in Hd.
  pose proof (free_el_ok _ _ _ Hst (Hd _ _ Hel)) as Hf. pose proof (find_chain_ok h s _ _ Hc) as Hfind. rewrite Hi in Hfind.
  pose proof (take_drop_middle _ _ _ Hel) as Hsplit. rewrite <- Hsplit in Hb, Hfind.
  assert (length (take (S i) b) = S i) as Hlen by (rewrite length_take; apply lookup_lt_Some in Hel; lia).
  replace (Ok (S i)) with (Ok (length (take (S i) b))) in Hfind by (by rewrite Hlen). rewrite (remove_rest_found _ _ _ _ _ _ _ Hb Hfind).
  rewrite delete_take_drop. destruct (take (S i) b) eqn:Htake; [done|]. rewrite <- Htake. cbn [free_all].
  destruct (free (el_key el) h) as [h1| | | |]; try done. rewrite bind_Ok in Hf. by rewrite bind_Ok, Hf.
Qed.

(** C30: [hash_find] takes no lock, so a search can use memory that a removal has
    freed. Take a key that is in the table but not first in its chain. A search for it and
    its removal succeed in either order; but when the removal runs between the step in which
    the search reads the address of the key and the one in which it compares
    the key, the search reads a freed block. *)
Theorem find_races σ ht h s b i el :
  in_memory σ (ht, h) → owner σ = None → table_ok h ht → hashable s →
  arr ht !! Z.to_nat (slot (size ht) s) = Some b → b !! S i = Some el → str_at h (el_key el) s →
  hash_find s ht h = Ok (Some el)
  ∧ (∃ ht' h', hash_remove s ht h = Ok (true, ht', h') ∧ hash_find s ht' h' = Ok None)
  ∧ ∃ c, rtc steps (σ, [spawn [Find s]; spawn [Update (Remove s)]]) c ∧ step_of 0 c = Some (Undef UseAfterFree).
Proof.
  intros Hr Ho Ht Hs Hb Hel Hkey.
  destruct (table_bucket _ _ _ Ht Hs) as (b' & ks & Hb' & Hhash & Hat & Hc & Hnd & _ & _).
  rewrite Hb in Hb'. injection Hb' as <-.
  destruct (Forall2_lookup_l _ _ _ _ _ Hc Hel) as (t & Hks & Hst). assert (t = s) as -> by (by eapply str_at_inj).
  assert (index s ks = S i) as Hi.
  { assert (s ∈ ks) as Hin by (by eapply list_elem_of_lookup_2). apply index_lt in Hin.
    destruct (lookup_lt_is_Some_2 _ _ Hin) as [t Ht']. assert (t = s) as -> by (by eapply index_lookup).
    by eapply NoDup_lookup. }
  assert (hash_find s ht h = Ok (Some el)) as Hfind by (rewrite (hash_find_ok _ _ _ _ _ Ht Hs Hb Hc), Hi; by rewrite Hel).
  split; [done|]. split.
  - assert (not_chain_head h b s) as Hhead.
    { intros el0 Hel0 Hs0. destruct (Forall2_lookup_l _ _ _ _ _ Hc Hel0) as (t0 & Ht0 & Hst0).
      assert (t0 = s) as -> by (by eapply str_at_inj). by pose proof (NoDup_lookup _ _ _ _ Hnd Hks Ht0). }
    destruct (hash_remove_ok h ht s b Ht Hs Hb Hhead) as (ok & ht' & h' & Hrem & _ & _ & Hafter & _ & _ & _ & Hok & _).
    exists ht', h'. rewrite Hok in Hrem by eauto. split; [done|]. rewrite Hafter by done. by rewrite decide_True.
  - destruct (find_to_key σ ht h s b ks _ el (spawn [Update (Remove s)]) Hr Ht Hs Hb Hc Hi Hel) as [pl Hwalk].
    pose proof (remove_found _ _ _ _ _ _ _ Ht Hs Hb Hc Hi Hel) as Hrem.
    pose proof Hr as [[places Hlo] Hm]. cbn [fst snd] in Hlo, Hm.
    set (waiting := mkThread [] (Some (FindCompare s pl (el_key el))) []).
    destruct (run_alone 1 (set_owner (Some 1%nat) σ) [waiting; mkThread [] (Some (RemHash s)) []] (mkThread [] (Some (RemHash s)) []) (RemHash s)
      (Success true) (set_bucket ht (slot (size ht) s) (delete (S i) b), free_el el h) (longest ht + 7)) as (σ' & Hrun & _ & Hm');
      [done|done|exists ht, places; split; [by apply laid_out_owner|]; cbn [set_owner mem]; rewrite Hm; by split|].
    eexists. split.
    + etransitivity; [exact Hwalk|]. eapply rtc_l; [|exact Hrun].
      refine (schedule_step 1 (σ, [waiting; spawn [Update (Remove s)]]) _ _ (set_owner (Some 1%nat) σ)
                (mkThread [] (Some (RemHash s)) []) eq_refl _ eq_refl).
      unfold thread_step. cbn [at_pc todo spawn fst start]. by rewrite Ho.
    + unfold step_of, thread_step, waiting. cbn [fst snd lookup list_lookup insert list_insert mbind option_bind at_pc pc_step].
      unfold load_str. destruct Hkey as [Hnn _]. rewrite Hm'. cbn [snd]. rewrite load_freed; [done|done|]. cbn.
      destruct (decide (el_key el = el_data el)) as [->|]; [by rewrite lookup_delete_eq|].
      rewrite lookup_delete_ne by done. by rewrite lookup_delete_eq.
Qed.

(** ** Witnesses *)

Lemma run_schedule_steps sched c c' : run_schedule sched c = Some (Ok c') → rtc steps c c'.
Proof.
  revert c. induction sched as [|i sched IH]; intros c; cbn; [by intros [= ->]|].
  destruct (step_of i c) as [[c1| | | |]|] eqn:Hs; cbn; try done. intros Hr. eapply rtc_l; [by exists i|by apply IH].
Qed.

Lemma new_table_in_memory n h : in_memory (new_table n h) (init_hash n, h).
Proof.
  split; [|done]. exists (λ _, []). cbn [fst]. split; try done.
  - by cbn; rewrite !length_replicate.
  - intros i b [-> Hi]%lookup_replicate. split; [done|]. unfold load_el, new_table. cbn [slots].
    by rewrite (proj2 (lookup_replicate (Z.to_nat (u32 n)) null_node null_node i)).
  - by intros ? ? ?%elem_of_nil.
  - by intros ? ? ? ?%elem_of_nil.
Qed.

(** One thread inserts a pair, the other one inserts a pair of the same bucket and
    removes it again. *)
Definition two_programs : list (list update) := [[Insert 70000 70001]; [Insert 70002 70003; Remove (str "11")]].
Definition two_threads : config := start_threads (new_table 5 sample_heap) two_programs.

(** The second thread waits for the lock at first, and inserts between the calls of the first. *)
Definition some_schedule : list nat :=
  [0; 0; 0; 0; 0; 1; 1; 1; 1; 1; 1; 1; 1; 1; 1; 1; 1; 1; 1; 1; 1]%nat.
Definition after_schedule : config :=
  match run_schedule some_schedule two_threads with Some (Ok c) => c | _ => two_threads end.

Lemma after_schedule_reached : rtc steps two_threads after_schedule.
Proof. apply (run_schedule_steps some_schedule). by vm_compute. Qed.

Lemma after_schedule_finished : Forall finished after_schedule.2.
Proof. vm_compute. repeat constructor. Qed.

Lemma threads_serialise_witness :
  ∃ l st, seq_updates (updates l) (init_hash 5, sample_heap) = Ok (replies l, st)
    ∧ in_memory after_schedule.1 st ∧ ∀ i us, two_programs !! i = Some us → updates (of_thread i l) = us.
Proof.
  destruct (threads_serialise (new_table 5 sample_heap) (init_hash 5) sample_heap two_programs after_schedule
    (new_table_in_memory 5 sample_heap) eq_refl after_schedule_reached) as (l & st & Hrun & _ & _ & Hfin & _).
  exists l, st. split; [exact Hrun|]. exact (Hfin after_schedule_finished).
Defined.

Lemma threads_end_witness : sn steps two_threads.
Proof. apply (threads_end _ _ _ two_programs (new_table_in_memory 5 sample_heap) eq_refl). Defined.

Definition two_insertions : list (list (text * HashEl)) :=
  [[(str "1", mkHashEl 70000 70001)]; [(str "11", mkHashEl 70002 70003)]].

Definition insert_schedule : list nat := [1; 1; 1; 1; 1; 0; 0; 0; 0; 0; 0; 0]%nat.
Definition insert_threads : config := start_threads (new_table 5 sample_heap) (insertions <$> two_insertions).
Definition after_insertions : config :=
  match run_schedule insert_schedule insert_threads with Some (Ok c) => c | _ => insert_threads end.

Lemma after_insertions_reached : rtc steps insert_threads after_insertions.
Proof. apply (run_schedule_steps insert_schedule). by vm_compute. Qed.
Lemma after_insertions_finished : Forall finished after_insertions.2.
Proof. vm_compute. repeat constructor. Qed.

Lemma threads_insert_witness :
  ∃ ht', hash_find (str "1") ht' sample_heap = Ok (Some (mkHashEl 70000 70001))
    ∧ hash_find (str "11") ht' sample_heap = Ok (Some (mkHashEl 70002 70003)).
Proof.
  destruct (threads_insert (new_table 5 sample_heap) (init_hash 5) sample_heap two_insertions after_insertions) as [_ Hfin].
  - apply new_table_in_memory.
  - done.
  - by apply init_hash_ok.
  - assert (∀ d, data_fresh (init_hash 5) d) as Hfresh.
    { intros d i j el (b & [-> _]%lookup_replicate & Hj). by rewrite lookup_nil in Hj. }
    repeat constructor; cbn; try done; try (by exists 1); try (by exists 11); try (by eexists); apply Hfresh.
  - apply (bool_decide_eq_true_1 (NoDup _)). by vm_compute.
  - apply (bool_decide_eq_true_1 (NoDup _)). by vm_compute.
  - exact after_insertions_reached.
  - destruct (Hfin after_insertions_finished) as (ht' & _ & _ & Hin & _). exists ht'. split; apply Hin; [by left|by right; left].
Defined.

(** The table of [Hash] with a chain of two, in memory. *)
Definition sample_shared : SharedTable :=
  mkShared [null_node; mkHashNode (mkHashEl 70000 70001) 65537; null_node; null_node; null_node] 5
    {[65537 := mkHashNode (mkHashEl 70002 70003) NULL]} 65538 None sample_heap.

Lemma sample_in_memory : in_memory sample_shared (sample_table, sample_heap).
Proof.
  split; [|done]. exists (λ i, if decide (i = 1%nat) then [Slot 1; Block 65537] else []).
  assert (∀ i p, Block p ∈ (if decide (i = 1%nat) then [Slot 1; Block 65537] else []) → i = 1%nat ∧ p = 65537) as Hin.
  { intros i p. case_decide; [|by intros ?%elem_of_nil]. intros [?|Hp%list_elem_of_singleton]%elem_of_cons; [done|]. by injection Hp as ->. }
  split; try done.
  - intros i b Hi. destruct i as [|[|[|[|[|i]]]]]; simplify_eq/=; try done. split; [|by repeat constructor].
    split; [done|]. exists 65537. split; [done|]. split; [done|]. by exists NULL.
  - intros i p [-> ->]%Hin. cbn. lia.
  - by intros i j p [-> _]%Hin [-> _]%Hin.
Qed.

Lemma find_races_witness :
  ∃ c, rtc steps (sample_shared, [spawn [Find (str "11")]; spawn [Update (Remove (str "11"))]]) c
    ∧ step_of 0 c = Some (Undef UseAfterFree).
Proof.
  apply (find_races sample_shared sample_table sample_heap (str "11") [mkHashEl 70000 70001; mkHashEl 70002 70003] 0 (mkHashEl 70002 70003)
    sample_in_memory eq_refl sample_table_ok); try done. by exists 11.
Defined.
