(* ===== verification/NumTable.v ===== *)
(** * NumTable: hash tables whose keys are printed numbers

    The clock replacer and the buffer pool key their tables by the decimal
    text of frame and page numbers. As long as no two of the numbers share a
    bucket, such a table is a finite map from numbers to elements on which
    [hash_remove] frees nothing; this is the interface of [Hash] the two
    components are proved against. *)
From S2P Require Import Prelude Memory Hash.

(** [num_table h ht n m]: the table [ht] of size [n] holds the elements [m], by
    their numbers, one per bucket at most. *)
Record num_table (h : heap) (ht : HashTable) (n : Z) (m : gmap Z HashEl) : Prop := {
  nt_heap : heap_ok h;
  nt_table : table_ok h ht;
  nt_size : size ht = n;
  nt_find : ∀ z, 0 ≤ z < 2 ^ 31 → hash_find (format_u z) ht h = Ok (m !! z);
  nt_dom : ∀ z el, m !! z = Some el → 0 ≤ z < 2 ^ 31 ∧ str_at h (el_key el) (format_u z)
             ∧ is_data h (el_data el);
  nt_apart : ∀ z el z' el', m !! z = Some el → m !! z' = Some el' → z mod n = z' mod n → z = z';
  nt_entries : ∀ i j el, entry ht i j el → ∃ z, m !! z = Some el;
}.

(** A number that shares no bucket with another number of the map. *)
Definition no_collision (n : Z) (m : gmap Z HashEl) (z : Z) : Prop :=
  ∀ z' el, m !! z' = Some el → z' mod n = z mod n → z' = z.

Lemma num_hashable z : 0 ≤ z < 2 ^ 31 → hashable (format_u z).
Proof. intros Hz. exists z. rewrite atoi_format_u by done. split; [done|lia]. Qed.

Lemma num_slot n z : 0 ≤ z < 2 ^ 31 → slot n (format_u z) = z mod n.
Proof. intros Hz. unfold slot. by rewrite atoi_format_u. Qed.

Lemma num_table_new h n : heap_ok h → 0 < n ≤ 65535 → num_table h (init_hash n) n ∅.
Proof.
  intros Hh Hn. split; [done|by apply init_hash_ok| |..].
  - unfold init_hash, u16. simpl. apply Z.mod_small. lia.
  - intros z Hz. rewrite lookup_empty. by apply init_hash_find, num_hashable.
  - intros z el H. by rewrite lookup_empty in H.
  - intros z el z' el' H. by rewrite lookup_empty in H.
  - intros i j el H. by apply init_hash_entry in H.
Qed.

Section num_table.
Context (h : heap) (ht : HashTable) (n : Z) (m : gmap Z HashEl).
Hypothesis Hnt : num_table h ht n m.

Lemma num_sparse i b : arr ht !! i = Some b → (length b ≤ 1)%nat.
Proof.
  intros Hb. destruct b as [|el [|el' b]]; simpl; [lia|lia|]. exfalso.
  destruct (nt_entries _ _ _ _ Hnt i 0 el) as [z Hz]; [by eexists|].
  destruct (nt_entries _ _ _ _ Hnt i 1 el') as [z' Hz']; [by eexists|].
  assert (∀ j e y, entry ht i j e → m !! y = Some e → y mod n = Z.of_nat i) as Hmod.
  { intros j e y He Hy. destruct (nt_dom _ _ _ _ Hnt _ _ Hy) as (Hr & Hs & _).
    destruct (entry_find _ _ _ _ _ (nt_table _ _ _ _ Hnt) He) as (s & _ & Hs' & _ & ->).
    pose proof (tk_size _ _ (nt_table _ _ _ _ Hnt)) as Hsz. rewrite (nt_size _ _ _ _ Hnt) in *.
    rewrite (str_at_inj _ _ _ _ Hs' Hs), num_slot by done.
    rewrite Z2Nat.id; [done|]. apply Z.mod_pos_bound. lia. }
  assert (z = z') as ->.
  { eapply (nt_apart _ _ _ _ Hnt); [done..|].
    rewrite (Hmod 0%nat el z), (Hmod 1%nat el' z'); [done| |done| |done]; by eexists. }
  assert (el = el') as -> by congruence.
  destruct (tk_data _ _ (nt_table _ _ _ _ Hnt) i 0 el' i 1 el'); [by eexists..|done|done].
Qed.

Lemma num_el z el :
  m !! z = Some el → ∃ o, cells h !! el_data el = Some o ∧ cells h !! el_key el = Some (OStr (format_u z))
    ∧ el_key el ≠ el_data el ∧ el_key el ≠ NULL ∧ el_data el ≠ NULL ∧ ∀ s, o ≠ OStr s.
Proof.
  intros Hz. destruct (nt_dom _ _ _ _ Hnt _ _ Hz) as (_ & [Hn Hs] & Hd & o & Ho & Hstr).
  exists o. split_and!; [done|done| |done|done|done]. intros Heq. rewrite Heq in Hs. congruence.
Qed.

(** Only the keys and the data of the elements matter. *)
Lemma num_table_heap h' :
  heap_ok h' →
  (∀ z el, m !! z = Some el → cells h' !! el_key el = cells h !! el_key el
                            ∧ cells h' !! el_data el = cells h !! el_data el) →
  num_table h' ht n m.
Proof.
  intros Hh' Hsame.
  assert (∀ i j el, entry ht i j el → cells h' !! el_key el = cells h !! el_key el
                              ∧ cells h' !! el_data el = cells h !! el_data el) as He.
  { intros i j el (z & Hz)%(nt_entries _ _ _ _ Hnt). by eapply Hsame. }
  split; [done|by eapply table_ok_heap, He; eapply Hnt|by eapply Hnt| | |by eapply Hnt|by eapply Hnt].
  - intros z Hz. rewrite (hash_find_heap h h'); [by apply (nt_find _ _ _ _ Hnt)| | |done].
    + by eapply Hnt.
    + by apply num_hashable.
  - intros z el Hz. destruct (nt_dom _ _ _ _ Hnt _ _ Hz) as (Hr & [Hn Hs] & Hd & o & Ho & Hstr).
    destruct (Hsame _ _ Hz) as [Hk Hdt]. split_and!; [lia|lia| |].
    + split; [done|]. by rewrite Hk.
    + split; [done|]. exists o. by rewrite Hdt.
Qed.

Lemma num_table_sub h' :
  heap_ok h' → (∀ p o, cells h !! p = Some o → cells h' !! p = Some o) → num_table h' ht n m.
Proof.
  intros Hh' Hsub. apply num_table_heap; [done|]. intros z el Hz.
  destruct (num_el _ _ Hz) as (o & Ho & Hk & _). by rewrite Ho, Hk, (Hsub _ _ Ho), (Hsub _ _ Hk).
Qed.

Lemma num_fresh p : (∀ z el, m !! z = Some el → el_data el ≠ p) → data_fresh ht p.
Proof. intros Hp i j el (z & Hz)%(nt_entries _ _ _ _ Hnt). eauto. Qed.

Lemma num_insert z kp dp :
  0 ≤ z < 2 ^ 31 → no_collision n m z → str_at h kp (format_u z) → is_data h dp →
  (∀ z' el, m !! z' = Some el → el_data el ≠ dp) →
  ∃ ht', hash_insert kp dp ht h = Ok ht' ∧ num_table h ht' n (<[z := mkHashEl kp dp]> m).
Proof.
  intros Hz Hno Hkp Hdp Hfresh.
  destruct (hash_insert_ok h ht kp dp (format_u z)) as (ht' & Hins & Ht' & Hsz & Hf & He);
    [by eapply nt_table|done|by apply num_hashable|done|by apply num_fresh|].
  exists ht'. split; [done|].
  split; [by eapply nt_heap|done|by rewrite Hsz; eapply nt_size| | | |].
  - intros y Hy. rewrite Hf by (by apply num_hashable). case_decide as Heq.
    + apply format_u_inj in Heq as ->; [|done..]. by rewrite lookup_insert_eq.
    + rewrite lookup_insert_ne by congruence. by eapply nt_find.
  - intros y el [[<- <-]|[_ Hy]]%lookup_insert_Some; [done|by eapply nt_dom].
  - intros y el y' el' [[<- <-]|[Hne Hy]]%lookup_insert_Some [[<- <-]|[Hne' Hy']]%lookup_insert_Some Heq.
    + done.
    + symmetry. by eapply Hno.
    + by eapply Hno.
    + by eapply nt_apart.
  - intros i j el He'. destruct (He i j el He') as [->|Hold]; [exists z; apply lookup_insert_eq|].
    destruct (nt_entries _ _ _ _ Hnt _ _ _ Hold) as [y Hy]. exists y.
    destruct (decide (y = z)) as [->|]; [|by rewrite lookup_insert_ne].
    destruct (entry_find _ _ _ _ _ Ht' He') as (s & Hs & Hks & Hfs & _).
    destruct (nt_dom _ _ _ _ Hnt _ _ Hy) as (_ & Hky & _).
    rewrite (str_at_inj _ _ _ _ Hks Hky), Hf, decide_True in Hfs by (done || by apply num_hashable).
    rewrite lookup_insert_eq. congruence.
Qed.

(** Nothing is freed: the bucket has no other element. *)
Lemma num_remove z :
  0 ≤ z < 2 ^ 31 →
  ∃ ok ht', hash_remove (format_u z) ht h = Ok (ok, ht', h) ∧ num_table h ht' n (delete z m)
    ∧ (no_collision n m z → ok = true).
Proof.
  intros Hz. pose proof (num_hashable z Hz) as Hh. pose proof (nt_table _ _ _ _ Hnt) as Ht.
  destruct (table_bucket _ _ _ Ht Hh) as (b & ks & Hb & _ & _ & Hc & _ & Hks & _).
  pose proof (num_sparse _ _ Hb) as Hl.
  destruct (hash_remove_ok h ht (format_u z) b Ht Hh Hb) as
    (ok & ht' & h' & Hrem & Ht' & Hsz & Hf & _ & _ & Hsame & Hok & He); [by intros ? ? ?|].
  rewrite (Hsame Hl) in *. exists ok, ht'. split; [done|]. split.
  - split; [by eapply nt_heap|done|by rewrite Hsz; eapply nt_size| | | |].
    + intros y Hy. rewrite Hf by (by apply num_hashable). case_decide as Heq.
      * apply format_u_inj in Heq as ->; [|done..]. by rewrite lookup_delete_eq.
      * rewrite lookup_delete_ne by congruence. by eapply nt_find.
    + intros y el [_ Hy]%lookup_delete_Some. by eapply nt_dom.
    + intros y el y' el' [_ Hy]%lookup_delete_Some [_ Hy']%lookup_delete_Some. by eapply nt_apart.
    + intros i j el He'. destruct (He i j el He') as [j' Hold].
      destruct (nt_entries _ _ _ _ Hnt _ _ _ Hold) as [y Hy]. exists y.
      apply lookup_delete_Some. split; [|done]. intros <-.
      destruct (entry_find _ _ _ _ _ Ht' He') as (s & Hs & Hkey & Hfs & _).
      destruct (nt_dom _ _ _ _ Hnt _ _ Hy) as (_ & Hky & _).
      by rewrite (str_at_inj _ _ _ _ Hkey Hky), Hf, decide_True in Hfs by done.
  - intros Hno. apply Hok. destruct b as [|el b]; [by left|right]. exists el.
    destruct (nt_entries _ _ _ _ Hnt (Z.to_nat (slot (size ht) (format_u z))) 0 el) as [y Hy];
      [by eexists|].
    destruct (nt_dom _ _ _ _ Hnt _ _ Hy) as (Hry & Hsy & _).
    inversion Hc as [|? t ? ks' Hst Hc']; subst.
    apply Forall_cons in Hks as [[_ Hsl] _].
    rewrite (str_at_inj _ _ _ _ Hst Hsy), !num_slot, (nt_size _ _ _ _ Hnt) in Hsl by done.
    rewrite <- (Hno y el Hy Hsl). rewrite (nt_find _ _ _ _ Hnt) by done. by rewrite Hy.
Qed.
End num_table.

(** A new block belongs to no element. *)
Lemma num_table_malloc h ht n m o p h' :
  num_table h ht n m → malloc o h = (p, h') →
  num_table h' ht n m ∧ p ≠ NULL ∧ cells h' !! p = Some o ∧ cells h !! p = None
  ∧ (∀ q o', cells h !! q = Some o' → cells h' !! q = Some o')
  ∧ (∀ z el, m !! z = Some el → el_key el ≠ p ∧ el_data el ≠ p).
Proof.
  intros Hnt Hm. destruct (heap_ok_malloc _ _ _ _ (nt_heap _ _ _ _ Hnt) Hm) as (Hh & Hp & Hn & Hc).
  assert (∀ q o', cells h !! q = Some o' → cells h' !! q = Some o') as Hsub.
  { intros q o' Hq. rewrite Hc, lookup_insert_ne; [done|congruence]. }
  split_and!; [by eapply num_table_sub|unfold NULL, HEAP_BASE in *; lia|
               by rewrite Hc, lookup_insert_eq|done|done|].
  intros z el Hz. destruct (num_el _ _ _ _ Hnt _ _ Hz) as (o' & Ho & Hk & _).
  split; congruence.
Qed.

(** A freed block that belongs to no element. *)
Lemma num_table_free h ht n m p :
  num_table h ht n m → (∀ z el, m !! z = Some el → el_key el ≠ p ∧ el_data el ≠ p) →
  num_table (mkHeap (delete p (cells h)) (brk h)) ht n m.
Proof.
  intros Hnt Hp. eapply num_table_heap; [done|by eapply heap_ok_delete, nt_heap|].
  intros z el Hz. destruct (Hp _ _ Hz). cbn [cells]. by rewrite !lookup_delete_ne by congruence.
Qed.

(** ** Numbers that share buckets *)

(** The table finds the elements [m] by their numbers. *)
Record finds (h : heap) (ht : HashTable) (m : gmap Z HashEl) : Prop := {
  fi_table : table_ok h ht;
  fi_find : ∀ z, 0 ≤ z < 2 ^ 31 → hash_find (format_u z) ht h = Ok (m !! z);
}.

Lemma finds_sub h h' ht m :
  finds h ht m → (∀ p o, cells h !! p = Some o → cells h' !! p = Some o) → finds h' ht m.
Proof.
  intros [Ht Hf] Hsub.
  assert (∀ i j el, entry ht i j el → cells h' !! el_key el = cells h !! el_key el
                                    ∧ cells h' !! el_data el = cells h !! el_data el) as Hsame.
  { intros i j el He. destruct (entry_find _ _ _ _ _ Ht He) as (s & Hs & [_ Hk] & Hfs & _).
    destruct (hash_find_total _ _ _ Ht Hs) as [Hn|(el' & Hel & _ & _ & o & Ho & _)]; [congruence|].
    assert (el' = el) as -> by congruence. by rewrite Hk, Ho, (Hsub _ _ Hk), (Hsub _ _ Ho). }
  split; [by eapply table_ok_heap|]. intros z Hz. rewrite <- Hf by done.
  eapply hash_find_heap; [done|by apply num_hashable|done].
Qed.

Lemma num_insert_finds h ht n m z kp dp :
  num_table h ht n m → 0 ≤ z < 2 ^ 31 → str_at h kp (format_u z) → is_data h dp →
  (∀ z' el, m !! z' = Some el → el_data el ≠ dp) →
  ∃ ht', hash_insert kp dp ht h = Ok ht' ∧ finds h ht' (<[z := mkHashEl kp dp]> m).
Proof.
  intros Hnt Hz Hkp Hdp Hfresh.
  destruct (hash_insert_ok h ht kp dp (format_u z)) as (ht' & Hins & Ht' & _ & Hf & _);
    [by eapply nt_table|done|by apply num_hashable|done|by eapply num_fresh|].
  exists ht'. split; [done|]. split; [done|]. intros y Hy. rewrite Hf by (by apply num_hashable). case_decide as Heq.
  - apply format_u_inj in Heq as ->; [|done..]. by rewrite lookup_insert_eq.
  - rewrite lookup_insert_ne by congruence. by eapply nt_find.
Qed.
