(* ===== verification/CircularList.v ===== *)
(** * CircularList: the list of frames of the clock replacer
    ([utils/circular_list.h], [utils/circular_list.c])

    The nodes are blocks of the heap linked by their addresses, so that a
    pointer to a node that has been removed dangles. [circular_list_next] closes
    the circle; the links themselves end in a null pointer. *)
From S2P Require Import Prelude Memory.

(** ** The code *)

Record CircularList := mkCircularList { capacity : Z; size : Z; head : Z }.

Definition circular_list_init (capacity : Z) : CircularList := mkCircularList capacity 0 NULL.

Definition circular_list_next (curr : Z) (cl : CircularList) (h : heap) : outcome Z :=
  if size cl =? 0 then Ok NULL
  else
    node ← load_node curr h;
    Ok (if node.2 =? NULL then head cl else node.2).

(** The address of the new node, or a null pointer. *)
Definition circular_list_insert (value : Z) (cl : CircularList) (h : heap)
    : Z * CircularList * heap :=
  if (size cl =? capacity cl) || (value =? NULL) then (NULL, cl, h)
  else
    let '(node, h) := malloc (ONode value (head cl)) h in
    (node, mkCircularList (capacity cl) (u64 (size cl + 1)) node, h).

(** [free_cl_node]: the value goes with the node. *)
Definition free_cl_node (node : Z) (h : heap) : outcome heap :=
  n ← load_node node h;
  h ← free n.1 h; free node h.

(** The values of the program are strings. *)
Definition are_equal (val1 val2 : Z) (h : heap) : outcome bool :=
  if val1 =? val2 then Ok true
  else s1 ← load_str val1 h; s2 ← load_str val2 h; Ok (bool_decide (s1 = s2)).

(** The loop of [circular_list_remove]: it tests the value of the head, which
    the code has just found different from [node_val]. *)
Fixpoint remove_walk (fuel : nat) (node_val : Z) (cl : CircularList) (prev curr : Z) (h : heap)
    : outcome (Z * Z) :=
  if curr =? NULL then Ok (prev, curr)
  else
    first ← load_node (head cl) h;
    eq ← are_equal first.1 node_val h;
    if (eq : bool) then
      match fuel with
      | O => OutOfFuel
      | S fuel =>
          node ← load_node curr h;
          remove_walk fuel node_val cl curr node.2 h
      end
    else Ok (prev, curr).

Definition circular_list_remove (node_val : Z) (cl : CircularList) (h : heap)
    : outcome (bool * CircularList * heap) :=
  if head cl =? NULL then Ok (false, cl, h)
  else
    first ← load_node (head cl) h;
    eq ← are_equal first.1 node_val h;
    if (eq : bool) then
      h ← free_cl_node (head cl) h;
      Ok (true, mkCircularList (capacity cl) (u64 (size cl - 1)) first.2, h)
    else
      r ← remove_walk (Z.to_nat (size cl)) node_val cl (head cl) first.2 h;
      let '(prev, curr) := r in
      node ← load_node curr h;
      before ← load_node prev h;
      h ← store prev (ONode before.1 node.2) h;
      h ← free_cl_node curr h;
      Ok (true, mkCircularList (capacity cl) (u64 (size cl - 1)) (head cl), h).

(** Removes every node by its value; the list itself is not freed. *)
Fixpoint destroy_nodes (fuel : nat) (curr : Z) (cl : CircularList) (h : heap)
    : outcome (CircularList * heap) :=
  if curr =? NULL then Ok (cl, h)
  else
    match fuel with
    | O => OutOfFuel
    | S fuel =>
        node ← load_node curr h;
        r ← circular_list_remove node.1 cl h;
        let '(_, cl, h) := r in
        destroy_nodes fuel node.2 cl h
    end.

Definition circular_list_destroy (cl : CircularList) (h : heap) : outcome (CircularList * heap) :=
  destroy_nodes (S (Z.to_nat (size cl))) (head cl) cl h.

(** ** Lists of nodes *)

(** [links h p ns]: the nodes [ns], with their values, are linked from [p] to a
    null pointer. *)
Fixpoint links (h : heap) (p : Z) (ns : list (Z * Z)) : Prop :=
  match ns with
  | [] => p = NULL
  | (a, v) :: ns => p = a ∧ a ≠ NULL ∧ ∃ q, cells h !! a = Some (ONode v q) ∧ links h q ns
  end.

Record list_ok (h : heap) (cl : CircularList) (ns : list (Z * Z)) : Prop := {
  lo_links : links h (head cl) ns;
  lo_size : size cl = zlen ns;
  lo_capacity : zlen ns ≤ capacity cl < 2 ^ 64;
  lo_values : ∀ i n, ns !! i = Some n → ∃ s, str_at h n.2 s;
  lo_nodes : NoDup ns.*1;
  lo_apart : NoDup ns.*2;
}.

Definition first_node (ns : list (Z * Z)) : Z := match ns with n :: _ => n.1 | [] => NULL end.

Lemma links_first h p ns : links h p ns → p = first_node ns.
Proof. destruct ns as [|[a v] ns]; simpl; [done|by intros [-> _]]. Qed.

Lemma links_lookup h p ns i n :
  links h p ns → ns !! i = Some n →
  n.1 ≠ NULL ∧ cells h !! n.1 = Some (ONode n.2 (first_node (drop (S i) ns))).
Proof.
  revert p i. induction ns as [|[a v] ns IH]; intros p i; [done|]. intros (-> & Ha & q & Hc & Hl) Hi.
  destruct i as [|i]; simpl in *; [|by eapply IH].
  injection Hi as <-. split; [done|]. cbn [fst snd]. rewrite drop_0. by rewrite <- (links_first _ _ _ Hl).
Qed.

(** The list depends on its nodes only. *)
Lemma links_heap h h' p ns :
  links h p ns → (∀ i n, ns !! i = Some n → cells h' !! n.1 = cells h !! n.1) → links h' p ns.
Proof.
  revert p. induction ns as [|[a v] ns IH]; intros p; [done|]. intros (-> & Ha & q & Hc & Hl) Hh.
  split_and!; [done..|]. exists q. split; [by rewrite <- Hc; apply (Hh 0%nat (a, v))|].
  apply IH; [done|]. intros i n Hi. by apply (Hh (S i)).
Qed.

Lemma list_ok_heap h h' cl ns :
  list_ok h cl ns →
  (∀ i n, ns !! i = Some n → cells h' !! n.1 = cells h !! n.1 ∧ cells h' !! n.2 = cells h !! n.2) →
  list_ok h' cl ns.
Proof.
  intros [Hl Hs Hc Hv Hn Ha] Hh. split; [|done..| |done|done].
  - eapply links_heap; [done|]. intros i n Hi. by apply (Hh i n).
  - intros i n Hi. destruct (Hv i n Hi) as (s & Hp & Hs'). exists s. split; [done|].
    by rewrite (proj2 (Hh i n Hi)).
Qed.

Lemma list_ok_sub h h' cl ns :
  list_ok h cl ns → (∀ p o, cells h !! p = Some o → cells h' !! p = Some o) → list_ok h' cl ns.
Proof.
  intros Hok Hsub. eapply list_ok_heap; [done|]. intros i n Hi.
  destruct (links_lookup _ _ _ _ _ (lo_links _ _ _ Hok) Hi) as [_ Hn].
  destruct (lo_values _ _ _ Hok _ _ Hi) as (s & _ & Hs).
  by rewrite Hn, Hs, (Hsub _ _ Hn), (Hsub _ _ Hs).
Qed.

(** No node is a value, and the addresses of a list are not null. *)
Lemma list_ok_separate h cl ns i n j n' :
  list_ok h cl ns → ns !! i = Some n → ns !! j = Some n' →
  n.1 ≠ n'.2 ∧ (i ≠ j → n.1 ≠ n'.1 ∧ n.2 ≠ n'.2).
Proof.
  intros Hok Hi Hj. destruct (links_lookup _ _ _ _ _ (lo_links _ _ _ Hok) Hi) as [_ Hn].
  destruct (lo_values _ _ _ Hok _ _ Hj) as (s & _ & Hs). split; [congruence|]. intros Hne.
  split; intros Heq; apply Hne.
  - eapply NoDup_lookup; [by eapply (lo_nodes _ _ _ Hok)|by rewrite list_lookup_fmap, Hi|].
    by rewrite list_lookup_fmap, Hj, Heq.
  - eapply NoDup_lookup; [by eapply (lo_apart _ _ _ Hok)|by rewrite list_lookup_fmap, Hi|].
    by rewrite list_lookup_fmap, Hj, Heq.
Qed.

Lemma load_node_ok h p ns i n :
  links h p ns → ns !! i = Some n →
  load_node n.1 h = Ok (n.2, first_node (drop (S i) ns)).
Proof.
  intros Hl Hi. destruct (links_lookup _ _ _ _ _ Hl Hi) as [Hn Hc].
  unfold load_node. by rewrite (load_ok _ _ _ Hn Hc).
Qed.

(** ** The operations *)

Lemma circular_list_next_ok h cl ns i n :
  list_ok h cl ns → ns !! i = Some n →
  circular_list_next n.1 cl h
  = Ok (match ns !! S i with Some n' => n'.1 | None => first_node ns end).
Proof.
  intros Hok Hi. pose proof (lo_size _ _ _ Hok) as Hs. pose proof (lookup_lt_Some _ _ _ Hi) as Hlt.
  unfold circular_list_next. rewrite (proj2 (Z.eqb_neq _ _)) by (unfold zlen in Hs; lia).
  rewrite (load_node_ok _ _ _ _ _ (lo_links _ _ _ Hok) Hi). ok_step. cbn [snd]. f_equal.
  destruct (ns !! S i) as [n'|] eqn:Hn.
  - rewrite (drop_S _ _ _ Hn). cbn [first_node].
    destruct (links_lookup _ _ _ _ _ (lo_links _ _ _ Hok) Hn) as [Hz _].
    by rewrite (proj2 (Z.eqb_neq _ _)) by done.
  - rewrite drop_ge by (by apply lookup_ge_None). by eapply links_first, lo_links.
Qed.

Lemma circular_list_insert_ok h cl ns value s :
  heap_ok h → list_ok h cl ns → str_at h value s → value ∉ ns.*2 → zlen ns < capacity cl →
  ∃ a cl' h', circular_list_insert value cl h = (a, cl', h')
    ∧ list_ok h' cl' ((a, value) :: ns) ∧ a ≠ NULL ∧ heap_ok h' ∧ cells h !! a = None
    ∧ cells h' = <[a := ONode value (head cl)]> (cells h) ∧ capacity cl' = capacity cl.
Proof.
  intros Hh Hok [Hv Hs] Hnew Hroom. pose proof (lo_size _ _ _ Hok) as Hsz.
  pose proof (lo_capacity _ _ _ Hok) as Hcap. pose proof (zlen_nonneg ns).
  unfold circular_list_insert.
  rewrite !(proj2 (Z.eqb_neq _ _)) by (done || lia). simpl orb. cbv iota.
  destruct (malloc (ONode value (head cl)) h) as [a h'] eqn:Hm.
  destruct (heap_ok_malloc _ _ _ _ Hh Hm) as (Hh' & Ha & Hn & Hc).
  assert (a ≠ NULL) as Ha0 by (unfold NULL, HEAP_BASE in *; lia).
  assert (∀ q o, cells h !! q = Some o → cells h' !! q = Some o) as Hsub.
  { intros q o Hq. rewrite Hc, lookup_insert_ne; [done|congruence]. }
  pose proof (list_ok_sub _ _ _ _ Hok Hsub) as Hok'.
  eexists a, _, h'. split_and!; [done| |done|done|done|done|done]. split; simpl.
  - split_and!; [done..|]. exists (head cl). split; [by rewrite Hc, lookup_insert_eq|by eapply lo_links].
  - rewrite Hsz, zlen_cons. unfold u64. rewrite Z.mod_small; lia.
  - rewrite zlen_cons. lia.
  - intros [|i] n Hi; simpl in Hi; [injection Hi as <-|by eapply lo_values].
    exists s. split; [done|]. by apply Hsub.
  - apply NoDup_cons. split; [|by eapply lo_nodes].
    intros (i & Hi)%list_elem_of_lookup. rewrite list_lookup_fmap in Hi.
    destruct (ns !! i) as [n|] eqn:Hni; [|done]. injection Hi as Hi.
    destruct (links_lookup _ _ _ _ _ (lo_links _ _ _ Hok) Hni) as [_ Hx]. congruence.
  - apply NoDup_cons. split; [done|by eapply lo_apart].
Qed.

Lemma circular_list_insert_full cl h value :
  size cl = capacity cl ∨ value = NULL → circular_list_insert value cl h = (NULL, cl, h).
Proof.
  intros Hf. unfold circular_list_insert.
  by destruct Hf as [-> | ->]; rewrite Z.eqb_refl, ?orb_true_r.
Qed.

(** *** Removal *)

(** The text of a value. *)
Definition text_at (h : heap) (v : Z) : text := match load_str v h with Ok s => s | _ => [] end.

Lemma text_at_ok h v s : str_at h v s → text_at h v = s.
Proof. intros Hs. unfold text_at. by rewrite (load_str_ok _ _ _ Hs). Qed.

Lemma are_equal_ok h v1 v2 s1 s2 :
  str_at h v1 s1 → str_at h v2 s2 → are_equal v1 v2 h = Ok (bool_decide (s1 = s2)).
Proof.
  intros H1 H2. unfold are_equal. case_bool.
  - assert (v1 = v2) as -> by lia. rewrite bool_decide_true; [done|by eapply str_at_inj].
  - by rewrite (load_str_ok _ _ _ H1), (load_str_ok _ _ _ H2).
Qed.

(** The heap without a node and its value. *)
Definition drop_node (n : Z * Z) (h : heap) : heap :=
  mkHeap (delete n.1 (delete n.2 (cells h))) (brk h).

Lemma drop_node_other n h p : p ≠ n.1 → p ≠ n.2 → cells (drop_node n h) !! p = cells h !! p.
Proof. intros. simpl. by rewrite !lookup_delete_ne by done. Qed.

Lemma heap_ok_drop_node n h : heap_ok h → heap_ok (drop_node n h).
Proof.
  intros Hh.
  exact (heap_ok_delete (mkHeap (delete n.2 (cells h)) (brk h)) n.1 (heap_ok_delete h n.2 Hh)).
Qed.

Lemma free_cl_node_ok h n q s :
  n.1 ≠ NULL → cells h !! n.1 = Some (ONode n.2 q) → str_at h n.2 s →
  free_cl_node n.1 h = Ok (drop_node n h).
Proof.
  intros Hn Hc [Hv Hs]. unfold free_cl_node, load_node. rewrite (load_ok _ _ _ Hn Hc). ok_step.
  cbn [mbind outcome_bind fst].
  rewrite (free_ok _ _ _ Hv Hs). ok_step. eapply free_ok; [done|].
  cbn [cells]. rewrite lookup_delete_ne by congruence. done.
Qed.

Lemma circular_list_remove_empty h cl v :
  list_ok h cl [] → circular_list_remove v cl h = Ok (false, cl, h).
Proof. intros Hok. unfold circular_list_remove. by rewrite (lo_links _ _ _ Hok). Qed.

(** The first node goes when it has the value. *)
Lemma circular_list_remove_head h cl n ns v s :
  list_ok h cl (n :: ns) → str_at h v s → str_at h n.2 s →
  ∃ cl', circular_list_remove v cl h = Ok (true, cl', drop_node n h)
    ∧ list_ok (drop_node n h) cl' ns ∧ capacity cl' = capacity cl.
Proof.
  intros Hok Hv Hn. pose proof (lo_links _ _ _ Hok) as Hl.
  destruct (links_lookup _ _ _ 0 n Hl eq_refl) as [Hn0 Hc].
  pose proof (links_first _ _ _ Hl) as Hhead. cbn [first_node] in Hhead.
  unfold circular_list_remove. rewrite Hhead, (proj2 (Z.eqb_neq _ _)) by done.
  rewrite (load_node_ok _ _ _ 0 n Hl eq_refl). ok_step. cbn [fst snd].
  rewrite (are_equal_ok _ _ _ _ _ Hn Hv), bool_decide_true by done. ok_step.
  rewrite (free_cl_node_ok _ _ _ _ Hn0 Hc Hn). ok_step.
  eexists. split; [done|]. split; [|done].
  pose proof (lo_size _ _ _ Hok) as Hsz. pose proof (lo_capacity _ _ _ Hok) as Hcap.
  rewrite zlen_cons in *. pose proof (zlen_nonneg ns).
  apply list_ok_heap with h.
  - split; simpl.
    + destruct n as [a w]. destruct Hl as (_ & _ & q & Hq & Hl). cbn [fst snd] in Hc.
      rewrite Hc in Hq. injection Hq as <-. simpl drop in Hl. by rewrite drop_0 in Hl.
    + rewrite Hsz. unfold u64. rewrite Z.mod_small; lia.
    + lia.
    + intros i m Hi. by apply (lo_values _ _ _ Hok (S i)).
    + by destruct (proj1 (NoDup_cons _ _) (lo_nodes _ _ _ Hok)).
    + by destruct (proj1 (NoDup_cons _ _) (lo_apart _ _ _ Hok)).
  - intros i m Hi.
    destruct (list_ok_separate _ _ _ (S i) m 0 n Hok Hi eq_refl) as [H1 H2].
    destruct (list_ok_separate _ _ _ 0 n (S i) m Hok eq_refl Hi) as [H3 _].
    destruct H2; [lia|]. split; apply drop_node_other; congruence.
Qed.

(** Otherwise it is the second node that goes, whatever its value. *)
Definition unlink_second (n n2 : Z * Z) (next : Z) (h : heap) : heap :=
  drop_node n2 (mkHeap (<[n.1 := ONode n.2 next]> (cells h)) (brk h)).

Lemma unlink_second_other n n2 next h p :
  p ≠ n.1 → p ≠ n2.1 → p ≠ n2.2 → cells (unlink_second n n2 next h) !! p = cells h !! p.
Proof. intros. unfold unlink_second. rewrite drop_node_other by done. simpl. by apply lookup_insert_ne. Qed.

Lemma list_ok_unlink h cl n n2 ns :
  list_ok h cl (n :: n2 :: ns) →
  list_ok (unlink_second n n2 (first_node ns) h)
    (mkCircularList (capacity cl) (u64 (size cl - 1)) (head cl)) (n :: ns).
Proof.
  intros Hok. pose proof (lo_links _ _ _ Hok) as Hl.
  pose proof (lo_size _ _ _ Hok) as Hsz. pose proof (lo_capacity _ _ _ Hok) as Hcap.
  rewrite !zlen_cons in *. pose proof (zlen_nonneg ns).
  destruct (list_ok_separate _ _ _ 0 n 1 n2 Hok eq_refl eq_refl) as [H12 [H11 H22]]; [done|].
  destruct (list_ok_separate _ _ _ 1 n2 0 n Hok eq_refl eq_refl) as [H21 _].
  assert (∀ i m, ns !! i = Some m →
    cells (unlink_second n n2 (first_node ns) h) !! m.1 = cells h !! m.1
    ∧ cells (unlink_second n n2 (first_node ns) h) !! m.2 = cells h !! m.2) as Hother.
  { intros i m Hi.
    destruct (list_ok_separate _ _ _ (S (S i)) m 0 n Hok Hi eq_refl) as [? [? ?]]; [done|].
    destruct (list_ok_separate _ _ _ (S (S i)) m 1 n2 Hok Hi eq_refl) as [? [? ?]]; [done|].
    destruct (list_ok_separate _ _ _ 0 n (S (S i)) m Hok eq_refl Hi) as [? _].
    destruct (list_ok_separate _ _ _ 1 n2 (S (S i)) m Hok eq_refl Hi) as [? _].
    split; apply unlink_second_other; congruence. }
  split; simpl.
  - destruct n as [a v], n2 as [a2 v2]. destruct Hl as (-> & Ha & q & _ & Hl).
    split_and!; [done..|]. exists (first_node ns). split.
    + rewrite !lookup_delete_ne by (by cbn in *). by rewrite lookup_insert_eq.
    + destruct Hl as (_ & _ & q2 & _ & Hl). rewrite <- (links_first _ _ _ Hl).
      eapply links_heap; [done|]. intros i m Hi.
      pose proof (proj1 (Hother i m Hi)) as Hm. by rewrite (links_first _ _ _ Hl).
  - rewrite Hsz, zlen_cons. unfold u64. rewrite Z.mod_small; lia.
  - rewrite zlen_cons. lia.
  - intros [|i] m Hi; simpl in Hi.
    + injection Hi as <-. destruct (lo_values _ _ _ Hok 0 n eq_refl) as (s & Hp & Hs).
      exists s. split; [done|]. cbn [unlink_second drop_node cells].
      destruct (list_ok_separate _ _ _ 0 n 0 n Hok eq_refl eq_refl) as [? _].
      rewrite !lookup_delete_ne by congruence. by rewrite lookup_insert_ne.
    + destruct (lo_values _ _ _ Hok (S (S i)) m Hi) as (s & Hp & Hs). exists s. split; [done|].
      rewrite <- Hs. by apply (Hother i m).
  - pose proof (lo_nodes _ _ _ Hok) as Hnd. simpl in Hnd.
    apply NoDup_cons in Hnd as [Hn0 [_ Hnd]%NoDup_cons]. apply NoDup_cons.
    split; [|done]. intros Hin. apply Hn0. by right.
  - pose proof (lo_apart _ _ _ Hok) as Hnd. simpl in Hnd.
    apply NoDup_cons in Hnd as [Hn0 [_ Hnd]%NoDup_cons]. apply NoDup_cons.
    split; [|done]. intros Hin. apply Hn0. by right.
Qed.

Lemma circular_list_remove_second h cl n n2 ns v s t :
  list_ok h cl (n :: n2 :: ns) → str_at h v s → str_at h n.2 t → s ≠ t →
  circular_list_remove v cl h
  = Ok (true, mkCircularList (capacity cl) (u64 (size cl - 1)) (head cl),
        unlink_second n n2 (first_node ns) h).
Proof.
  intros Hok Hv Hn Hne. pose proof (lo_links _ _ _ Hok) as Hl.
  destruct (links_lookup _ _ _ 0 n Hl eq_refl) as [Hn0 Hc].
  destruct (links_lookup _ _ _ 1 n2 Hl eq_refl) as [Hn1 Hc2].
  destruct (lo_values _ _ _ Hok 1 n2 eq_refl) as (s2 & Hv2 & Hs2).
  destruct (list_ok_separate _ _ _ 0 n 1 n2 Hok eq_refl eq_refl) as [H12 [H11 H22]]; [done|].
  pose proof (links_first _ _ _ Hl) as Hhead. cbn [first_node] in Hhead.
  unfold circular_list_remove. rewrite Hhead, (proj2 (Z.eqb_neq _ _)) by done.
  rewrite (load_node_ok _ _ _ 0 n Hl eq_refl). ok_step. cbn [fst snd].
  rewrite (are_equal_ok _ _ _ _ _ Hn Hv), bool_decide_false by done. ok_step.
  assert (remove_walk (Z.to_nat (size cl)) v cl n.1 (first_node (drop 1 (n :: n2 :: ns))) h
    = Ok (n.1, n2.1)) as ->.
  { cbn [drop first_node]. destruct (Z.to_nat (size cl)); cbn [remove_walk];
      rewrite (proj2 (Z.eqb_neq _ _)), Hhead by done;
      rewrite (load_node_ok _ _ _ 0 n Hl eq_refl); ok_step; cbn [fst snd];
      by rewrite (are_equal_ok _ _ _ _ _ Hn Hv), bool_decide_false by done. }
  ok_step. rewrite (load_node_ok _ _ _ 1 n2 Hl eq_refl). ok_step.
  rewrite (load_node_ok _ _ _ 0 n Hl eq_refl). ok_step. cbn [fst snd].
  unfold store. rewrite (load_ok _ _ _ Hn0 Hc). ok_step.
  cbn [drop first_node mbind outcome_bind]. rewrite drop_0.
  rewrite (free_cl_node_ok _ n2 (first_node (drop 2 (n :: n2 :: ns))) s2); [done|done|..]; cbn [cells].
  - by rewrite lookup_insert_ne.
  - split; [done|]. cbn [cells]. by rewrite lookup_insert_ne by congruence.
Qed.

Lemma circular_list_remove_single h cl n v s t :
  list_ok h cl [n] → str_at h v s → str_at h n.2 t → s ≠ t →
  circular_list_remove v cl h = Undef NullDeref.
Proof.
  intros Hok Hv Hn Hne. pose proof (lo_links _ _ _ Hok) as Hl.
  destruct (links_lookup _ _ _ 0 n Hl eq_refl) as [Hn0 Hc].
  pose proof (links_first _ _ _ Hl) as Hhead. cbn [first_node] in Hhead.
  unfold circular_list_remove. rewrite Hhead, (proj2 (Z.eqb_neq _ _)) by done.
  rewrite (load_node_ok _ _ _ 0 n Hl eq_refl). ok_step. cbn [fst snd].
  rewrite (are_equal_ok _ _ _ _ _ Hn Hv), bool_decide_false by done. ok_step.
  by destruct (Z.to_nat (size cl)).
Qed.

(** *** Destruction and iteration *)

Lemma destroy_nodes_ok h cl ns fuel :
  list_ok h cl ns → (length ns ≤ fuel)%nat →
  ∃ cl', destroy_nodes fuel (head cl) cl h = Ok (cl', foldl (λ h n, drop_node n h) h ns)
    ∧ list_ok (foldl (λ h n, drop_node n h) h ns) cl' [] ∧ capacity cl' = capacity cl.
Proof.
  revert h cl fuel. induction ns as [|n ns IH]; intros h cl fuel Hok Hf; simpl in Hf |- *.
  - exists cl. rewrite (lo_links _ _ _ Hok). by destruct fuel.
  - destruct fuel as [|fuel]; [lia|]. pose proof (lo_links _ _ _ Hok) as Hl.
    destruct (links_lookup _ _ _ 0 n Hl eq_refl) as [Hn0 Hc].
    destruct (lo_values _ _ _ Hok 0 n eq_refl) as [s Hs].
    destruct (circular_list_remove_head h cl n ns n.2 s Hok Hs Hs) as (cl1 & Hrem & Hok1 & Hcap).
    pose proof (links_first _ _ _ Hl) as Hhead. cbn [first_node] in Hhead.
    cbn [destroy_nodes]. rewrite Hhead, (proj2 (Z.eqb_neq _ _)) by done.
    rewrite (load_node_ok _ _ _ 0 n Hl eq_refl). ok_step. cbn [fst snd]. rewrite Hrem. ok_step.
    cbn [drop]. rewrite drop_0, <- (links_first _ _ _ (lo_links _ _ _ Hok1)).
    destruct (IH _ _ fuel Hok1 ltac:(lia)) as (cl' & Hd & Hok' & Hcap').
    exists cl'. split_and!; [done|done|congruence].
Qed.

Lemma drop_nodes_freed h ns p :
  (∃ i n, ns !! i = Some n ∧ (p = n.1 ∨ p = n.2)) ∨ cells h !! p = None →
  cells (foldl (λ h n, drop_node n h) h ns) !! p = None.
Proof.
  revert h. induction ns as [|n ns IH]; intros h; simpl; [by intros [(? & ? & ? & _)|]|].
  intros [(i & m & Hi & Hp)|Hp]; apply IH.
  - destruct i as [|i]; simpl in Hi; [injection Hi as <-; right|left; by exists i, m].
    simpl. destruct Hp as [-> | ->]; [by rewrite lookup_delete_eq|].
    destruct (decide (n.1 = n.2)) as [->|]; [by rewrite lookup_delete_eq|].
    rewrite lookup_delete_ne by done. by rewrite lookup_delete_eq.
  - right. simpl. by rewrite !lookup_delete_None, Hp; auto.
Qed.

(** [circular_list_next], [k] times. *)
Fixpoint next_n (k : nat) (curr : Z) (cl : CircularList) (h : heap) : outcome Z :=
  match k with
  | O => Ok curr
  | S k => p ← next_n k curr cl h; circular_list_next p cl h
  end.

Lemma next_n_ok h cl ns k :
  list_ok h cl ns → ns ≠ [] →
  ∃ n, ns !! (k mod length ns)%nat = Some n ∧ next_n k (head cl) cl h = Ok n.1.
Proof.
  intros Hok Hne. pose proof (links_first _ _ _ (lo_links _ _ _ Hok)) as Hh.
  assert (length ns ≠ 0%nat) as Hl by (by destruct ns).
  induction k as [|k (n & Hn & Hk)].
  - rewrite Nat.Div0.mod_0_l. destruct ns as [|n ns]; [done|]. exists n. by rewrite Hh.
  - cbn [next_n]. rewrite Hk. ok_step. rewrite (circular_list_next_ok _ _ _ _ _ Hok Hn).
    replace (S k) with (k + 1)%nat by lia.
    assert ((k + 1) mod length ns
      = if decide (S (k mod length ns) = length ns) then 0 else S (k mod length ns))%nat as ->.
    { pose proof (Nat.mod_upper_bound k (length ns) Hl).
      rewrite <- Nat.Div0.add_mod_idemp_l, Nat.add_1_r. case_decide as Hd.
      - rewrite Hd. apply Nat.Div0.mod_same.
      - apply Nat.mod_small. lia. }
    case_decide as Hd.
    + rewrite (lookup_ge_None_2 ns (S _)) by lia. destruct ns as [|m ns]; [done|]. by exists m.
    + destruct (lookup_lt_is_Some_2 ns (S (k mod length ns))) as [m Hm].
      { pose proof (Nat.mod_upper_bound k (length ns) Hl). lia. }
      rewrite Hm. by exists m.
Qed.

(** ** The list as a sequence *)

(** C38: the list is the sequence of its nodes: an insertion adds a node in
    front, and is refused when the list is full; [k] steps from the head lead to
    node [k] modulo the length; destroying the list frees every node with its
    value and leaves the empty list. Removing a value does nothing to the empty
    list and removes the first node when it has the value; otherwise the second node
    is removed, whatever its value and even if no node has the value, and when
    there is no second node a null pointer is dereferenced. *)
Theorem circular_list_spec h cl ns :
  heap_ok h → list_ok h cl ns →
  (∀ c, 0 ≤ c < 2 ^ 64 → list_ok h (circular_list_init c) [])
  ∧ (∀ value s, str_at h value s → value ∉ ns.*2 →
      let '(a, cl', h') := circular_list_insert value cl h in
      if decide (zlen ns < capacity cl)
      then a ≠ NULL ∧ list_ok h' cl' ((a, value) :: ns) ∧ heap_ok h'
      else a = NULL ∧ cl' = cl ∧ h' = h)
  ∧ (ns ≠ [] → ∀ k, ∃ n, ns !! (k mod length ns)%nat = Some n ∧ next_n k (head cl) cl h = Ok n.1)
  ∧ (∃ cl' h', circular_list_destroy cl h = Ok (cl', h') ∧ list_ok h' cl' []
      ∧ ∀ i n, ns !! i = Some n → cells h' !! n.1 = None ∧ cells h' !! n.2 = None)
  ∧ ∀ v s, str_at h v s →
      match ns with
      | [] => circular_list_remove v cl h = Ok (false, cl, h)
      | n :: ns =>
          if decide (text_at h n.2 = s) then
            ∃ cl' h', circular_list_remove v cl h = Ok (true, cl', h') ∧ list_ok h' cl' ns
              ∧ cells h' !! n.1 = None ∧ cells h' !! n.2 = None
          else
            match ns with
            | [] => circular_list_remove v cl h = Undef NullDeref
            | n2 :: ns =>
                ∃ cl' h', circular_list_remove v cl h = Ok (true, cl', h') ∧ list_ok h' cl' (n :: ns)
                  ∧ cells h' !! n2.1 = None ∧ cells h' !! n2.2 = None
            end
      end.
Proof.
  intros Hh Hok. split_and!.
  - intros c Hc. split; [done|done|done| |constructor..]. by intros i n Hi.
  - intros value s Hs Hnew. case_decide as Hroom.
    + destruct (circular_list_insert_ok _ _ _ _ _ Hh Hok Hs Hnew Hroom)
        as (a & cl' & h' & -> & Hok' & Ha & Hh' & _). done.
    + rewrite circular_list_insert_full; [done|]. left.
      rewrite (lo_size _ _ _ Hok). pose proof (lo_capacity _ _ _ Hok). lia.
  - intros Hne k. by apply next_n_ok.
  - unfold circular_list_destroy.
    destruct (destroy_nodes_ok h cl ns (S (Z.to_nat (size cl))) Hok) as (cl' & Hd & Hok' & _).
    { rewrite (lo_size _ _ _ Hok). unfold zlen. lia. }
    eexists cl', _. split_and!; [done|done|]. intros i n Hi.
    split; apply drop_nodes_freed; left; exists i, n; auto.
  - intros v s Hv. destruct ns as [|n ns]; [by apply circular_list_remove_empty|].
    destruct (lo_values _ _ _ Hok 0 n eq_refl) as [t Ht]. rewrite (text_at_ok _ _ _ Ht).
    case_decide as Heq; [subst t|].
    + destruct (circular_list_remove_head _ _ _ _ _ _ Hok Hv Ht) as (cl' & Hrem & Hok' & _).
      eexists cl', _. split_and!; [done|done|..]; apply (drop_nodes_freed h [n]); left; exists 0%nat, n; auto.
    + destruct ns as [|n2 ns]; [by eapply circular_list_remove_single|].
      eexists _, _. split_and!; [by eapply circular_list_remove_second|by apply list_ok_unlink|..];
        apply (drop_nodes_freed _ [n2]); left; exists 0%nat, n2; auto.
Qed.

(** Two nodes, "8" in front of "7". *)
Definition sample_list_heap : heap :=
  mkHeap (list_to_map [(70000, OStr (str "7")); (70001, ONode 70000 NULL);
                       (70002, OStr (str "8")); (70003, ONode 70002 70001);
                       (70004, OStr (str "9"))]) 70005.
Definition sample_list : CircularList := mkCircularList 3 2 70003.
Definition sample_nodes : list (Z * Z) := [(70003, 70002); (70001, 70000)].

Lemma sample_list_heap_ok : heap_ok sample_list_heap.
Proof.
  split; [done|]. intros p o Hp%elem_of_list_to_map_2. unfold HEAP_BASE. cbn [brk sample_list_heap].
  rewrite !elem_of_cons, elem_of_nil in Hp. destruct_or!; try done; injection Hp; lia.
Qed.

Lemma sample_list_ok : list_ok sample_list_heap sample_list sample_nodes.
Proof.
  split; [|done|done|..].
  - simpl. split_and!; [done..|]. exists 70001. split; [done|]. split_and!; [done..|]. by exists NULL.
  - intros [|[|i]] n Hi; simplify_eq/=; by eexists.
  - by apply (bool_decide_eq_true_1 (NoDup _)); vm_compute.
  - by apply (bool_decide_eq_true_1 (NoDup _)); vm_compute.
Qed.

(** The value "9" is in no node; removing it removes "7". *)
Lemma circular_list_spec_witness :
  (∃ cl' h', circular_list_destroy sample_list sample_list_heap = Ok (cl', h') ∧ list_ok h' cl' [])
  ∧ ∃ cl' h', circular_list_remove 70004 sample_list sample_list_heap = Ok (true, cl', h')
      ∧ list_ok h' cl' [(70003, 70002)].
Proof.
  destruct (circular_list_spec _ _ _ sample_list_heap_ok sample_list_ok) as (_ & _ & _ & (cl1 & h1 & Hd & Hok1 & _) & Hremove).
  split; [by exists cl1, h1|]. assert (str_at sample_list_heap 70004 (str "9")) as Hs by done.
  destruct (Hremove 70004 (str "9") Hs) as (cl' & h' & Hrem & Hok & _).
  exists cl', h'. exact (conj Hrem Hok).
Defined.
