(* ===== verification/ClockReplacer.v ===== *)
(** * ClockReplacer: the choice of the frame to replace
    ([disk/clock_replacer.h], [disk/clock_replacer.c])

    The frames that may be evicted are the nodes of a circular list, and a hash
    table maps them to their reference bits. A node and the element of the
    table share one key: the text of the frame number. The hand is the address
    of a node. *)
From S2P Require Import Prelude Memory Hash NumTable CircularList.

(** ** The code *)

Record ClockReplacer := mkClockReplacer {
  num_pages : Z;
  frames : CircularList;
  frame_table : HashTable;
  hand : Z;
  clock_latch : bool;
}.

Definition clock_replacer_init (capacity : Z) : ClockReplacer :=
  mkClockReplacer capacity (circular_list_init capacity) (init_hash capacity) NULL false.

Definition frame_to_str (frame_id : Z) (h : heap) : Z * heap :=
  malloc (OStr (snprintf 11 (format_d (i32 frame_id)))) h.

(** The [for] loop of [evict]. The size of the list changes only where the loop
    is left, so the number of rounds to go is an argument. *)
Fixpoint sweep (rounds : nat) (r : ClockReplacer) (h : heap) : outcome (Z * ClockReplacer * heap) :=
  match rounds with
  | O => Ok (UINT32_MAX,
             mkClockReplacer (num_pages r) (frames r) (frame_table r) (hand r) false, h)
  | S rounds =>
      node ← load_node (hand r) h;
      let curr_frame := node.1 in
      key ← load_str curr_frame h;
      found ← hash_find key (frame_table r) h;
      match found with
      | None => Undef NullDeref
      | Some frame_info =>
          ref ← load_bool (el_data frame_info) h;
          if (ref : bool) then
            let '(ref_bit, h) := malloc (OBool false) h in
            ht ← hash_insert curr_frame ref_bit (frame_table r) h;
            next ← circular_list_next (hand r) (frames r) h;
            sweep rounds (mkClockReplacer (num_pages r) (frames r) ht next (clock_latch r)) h
          else
            key' ← load_str (el_key frame_info) h;
            frame_id ← atoi key';
            rm ← hash_remove key (frame_table r) h;
            let '(_, ht, h) := rm in
            rm ← circular_list_remove curr_frame (frames r) h;
            let '(_, cl, h) := rm in
            Ok (u32 frame_id, mkClockReplacer (num_pages r) cl ht (hand r) false, h)
      end
  end.

(** The lock is not released when there is no frame. *)
Definition evict (r : ClockReplacer) (h : heap) : outcome (Z * ClockReplacer * heap) :=
  l ← wrlock (clock_latch r);
  if size (frames r) =? 0
  then Ok (UINT32_MAX, mkClockReplacer (num_pages r) (frames r) (frame_table r) (hand r) l, h)
  else
    let hand := if hand r =? NULL then head (frames r) else hand r in
    sweep (Z.to_nat (size (frames r)))
      (mkClockReplacer (num_pages r) (frames r) (frame_table r) hand l) h.

Definition clock_replacer_unpin (frame_id : Z) (r : ClockReplacer) (h : heap)
    : outcome (ClockReplacer * heap) :=
  _ ← wrlock (clock_latch r);
  let '(frame_str, h) := frame_to_str frame_id h in
  let '(node, cl, h) := circular_list_insert frame_str (frames r) h in
  if node =? NULL
  then Ok (mkClockReplacer (num_pages r) cl (frame_table r) (hand r) false, h)
  else
    let '(unpinned, h) := malloc (OBool true) h in
    ht ← hash_insert frame_str unpinned (frame_table r) h;
    Ok (mkClockReplacer (num_pages r) cl ht (hand r) false, h).

(** [if (ok)] tests the pointer, so the list is always searched. *)
Definition clock_replacer_pin (frame_id : Z) (r : ClockReplacer) (h : heap)
    : outcome (ClockReplacer * heap) :=
  _ ← wrlock (clock_latch r);
  let '(frame_str, h) := frame_to_str frame_id h in
  key ← load_str frame_str h;
  let '(ok, h) := malloc (OBool false) h in
  rm ← hash_remove key (frame_table r) h;
  let '(success, ht, h) := rm in
  h ← store ok (OBool success) h;
  if ok =? NULL
  then Ok (mkClockReplacer (num_pages r) (frames r) ht (hand r) false, h)
  else
    rm ← circular_list_remove frame_str (frames r) h;
    let '(_, cl, h) := rm in
    h ← free ok h;
    Ok (mkClockReplacer (num_pages r) cl ht (hand r) false, h).

(** ** The state of a replacer *)

(** A frame: its number and reference bit, its node, and the addresses of its
    key and its reference bit. *)
Record Frame := mkFrame { f_id : Z; f_ref : bool; f_node : Z; f_key : Z; f_bit : Z }.

Definition nodes_of (fs : list Frame) : list (Z * Z) := (λ f, (f_node f, f_key f)) <$> fs.
Definition elements_of (fs : list Frame) : gmap Z HashEl :=
  list_to_map ((λ f, (f_id f, mkHashEl (f_key f) (f_bit f))) <$> fs).
(** What the replacer decides on. *)
Definition bits_of (fs : list Frame) : list (Z * bool) := (λ f, (f_id f, f_ref f)) <$> fs.

Record clock_ok (h : heap) (r : ClockReplacer) (fs : list Frame) : Prop := {
  ck_table : num_table h (frame_table r) (num_pages r) (elements_of fs);
  ck_list : list_ok h (frames r) (nodes_of fs);
  ck_frame : ∀ i f, fs !! i = Some f →
    0 ≤ f_id f < num_pages r ∧ str_at h (f_key f) (format_u (f_id f))
    ∧ cells h !! f_bit f = Some (OBool (f_ref f));
  ck_ids : NoDup (f_id <$> fs);
  ck_pages : 0 < num_pages r ≤ 65535;
  ck_capacity : capacity (frames r) = num_pages r;
  ck_latch : clock_latch r = false;
}.

Lemma id_in (fs : list Frame) (i : nat) f : fs !! i = Some f → f_id f ∈ f_id <$> fs.
Proof. intros Hi. apply list_elem_of_lookup. exists i. by rewrite list_lookup_fmap, Hi. Qed.

Lemma elements_lookup fs i f :
  NoDup (f_id <$> fs) → fs !! i = Some f →
  elements_of fs !! f_id f = Some (mkHashEl (f_key f) (f_bit f)).
Proof.
  intros Hnd Hi. apply elem_of_list_to_map_1.
  - by rewrite <- list_fmap_compose.
  - apply list_elem_of_lookup. exists i. by rewrite list_lookup_fmap, Hi.
Qed.

Lemma elements_inv fs z el :
  elements_of fs !! z = Some el →
  ∃ i f, fs !! i = Some f ∧ z = f_id f ∧ el = mkHashEl (f_key f) (f_bit f).
Proof.
  intros Hz%elem_of_list_to_map_2. apply list_elem_of_lookup in Hz as [i Hi].
  rewrite list_lookup_fmap in Hi. destruct (fs !! i) as [f|] eqn:Hf; [|done].
  injection Hi as <- <-. by exists i, f.
Qed.

Lemma elements_fresh fs z : z ∉ f_id <$> fs → elements_of fs !! z = None.
Proof.
  intros Hz. destruct (elements_of fs !! z) eqn:E; [|done].
  apply elements_inv in E as (i & f & Hf & -> & _). exfalso. apply Hz. by apply id_in with i.
Qed.

Lemma elements_set fs i f f' :
  NoDup (f_id <$> fs) → fs !! i = Some f → f_id f' = f_id f →
  elements_of (<[i := f']> fs) = <[f_id f := mkHashEl (f_key f') (f_bit f')]> (elements_of fs).
Proof.
  intros Hnd Hi Hid. revert i Hi. induction fs as [|g fs IH]; intros i Hi; [done|].
  apply NoDup_cons in Hnd as [Hg Hnd]. destruct i as [|i]; simpl in Hi |- *.
  - injection Hi as ->. unfold elements_of. cbn [fmap list_fmap list_to_map]. cbn.
    rewrite Hid. by rewrite insert_insert_eq.
  - unfold elements_of in *. cbn. rewrite IH by done. apply insert_insert_ne.
    intros Heq. apply Hg. replace (f_id g) with (f_id f) by congruence.
    by apply id_in with i.
Qed.

Lemma elements_delete fs i f :
  NoDup (f_id <$> fs) → fs !! i = Some f →
  elements_of (delete i fs) = delete (f_id f) (elements_of fs).
Proof.
  intros Hnd Hi. revert i Hi. induction fs as [|g fs IH]; intros i Hi; [done|].
  pose proof Hnd as Hnd'. apply NoDup_cons in Hnd as [Hg Hnd].
  destruct i as [|i]; simpl in Hi |- *.
  - injection Hi as ->. unfold elements_of. cbn. rewrite delete_insert_id; [done|].
    by apply elements_fresh.
  - unfold elements_of in *. cbn. rewrite IH by done. rewrite delete_insert_ne; [done|].
    intros Heq. apply Hg. replace (f_id g) with (f_id f) by congruence.
    by apply id_in with i.
Qed.

Lemma nodes_lookup fs i f : fs !! i = Some f → nodes_of fs !! i = Some (f_node f, f_key f).
Proof. intros Hi. unfold nodes_of. by rewrite list_lookup_fmap, Hi. Qed.

Lemma nodes_inv fs i n :
  nodes_of fs !! i = Some n → ∃ f, fs !! i = Some f ∧ n = (f_node f, f_key f).
Proof.
  unfold nodes_of. rewrite list_lookup_fmap. destruct (fs !! i) as [f|]; [|done].
  intros [= <-]. by exists f.
Qed.

Lemma zlen_nodes fs : zlen (nodes_of fs) = zlen fs.
Proof. unfold zlen, nodes_of. by rewrite length_fmap. Qed.

Lemma nodes_delete fs i : nodes_of (delete i fs) = delete i (nodes_of fs).
Proof. apply list_fmap_delete. Qed.

(** A larger heap. *)
Lemma clock_ok_sub h h' r fs :
  clock_ok h r fs → heap_ok h' → (∀ p o, cells h !! p = Some o → cells h' !! p = Some o) →
  clock_ok h' r fs.
Proof.
  intros [Ht Hl Hf Hi Hp Hc Hla] Hh Hsub. split; [|by eapply list_ok_sub| |done..].
  - by eapply num_table_sub.
  - intros i f Hi'. destruct (Hf i f Hi') as (Hr & [Hn Hs] & Hb).
    split_and!; [lia|lia|split; [done|by apply Hsub]|by apply Hsub].
Qed.

(** The numbers of the frames are below the number of pages, so there is room
    for a frame that is not in the replacer. *)
Lemma clock_room h r fs z :
  clock_ok h r fs → 0 ≤ z < num_pages r → z ∉ f_id <$> fs → zlen fs < num_pages r.
Proof.
  intros Hok Hz Hnew. pose proof (ck_pages _ _ _ Hok).
  assert (z :: (f_id <$> fs) ⊆+ seqZ 0 (num_pages r)) as Hsub.
  { apply NoDup_submseteq; [constructor; [done|by eapply ck_ids]|].
    intros y [->|(i & Hi)%list_elem_of_lookup]%elem_of_cons; apply elem_of_seqZ; [lia|].
    rewrite list_lookup_fmap in Hi. destruct (fs !! i) as [f|] eqn:Hf; [|done].
    injection Hi as <-. destruct (ck_frame _ _ _ Hok i f Hf). lia. }
  apply submseteq_length in Hsub. rewrite length_seqZ in Hsub.
  cbn [length] in Hsub. rewrite length_fmap in Hsub. unfold zlen. lia.
Qed.

Lemma clock_no_collision h r fs z :
  clock_ok h r fs → 0 ≤ z < num_pages r → no_collision (num_pages r) (elements_of fs) z.
Proof.
  intros Hok Hz z' el (i & f & Hf & -> & _)%elements_inv Hmod.
  destruct (ck_frame _ _ _ Hok i f Hf) as [Hr _]. by rewrite !Z.mod_small in Hmod.
Qed.

Lemma frame_str_ok z : 0 ≤ z < 65535 → snprintf 11 (format_d (i32 z)) = format_u z.
Proof.
  intros Hz. assert (i32 z = z) as -> by (apply to_signed_id; lia).
  rewrite format_d_nonneg by lia. unfold snprintf. apply take_ge.
  apply dec_length with (k := 10%nat); simpl; lia.
Qed.

(** A new block is none of the blocks of the replacer. *)
Lemma clock_malloc h r fs o p h' :
  clock_ok h r fs → malloc o h = (p, h') →
  clock_ok h' r fs ∧ p ≠ NULL ∧ cells h' !! p = Some o ∧ cells h !! p = None
  ∧ (∀ q o', cells h !! q = Some o' → cells h' !! q = Some o')
  ∧ (∀ i f, fs !! i = Some f → f_node f ≠ p ∧ f_key f ≠ p ∧ f_bit f ≠ p).
Proof.
  intros Hok Hm.
  destruct (num_table_malloc _ _ _ _ _ _ _ (ck_table _ _ _ Hok) Hm) as (Hnt & Hp & Hc & Hn & Hsub & _).
  split_and!; [|done|done|done|done|].
  - eapply clock_ok_sub; [done|by eapply nt_heap|done].
  - intros i f Hf. destruct (ck_frame _ _ _ Hok i f Hf) as (_ & [_ Hk] & Hb).
    destruct (links_lookup _ _ _ _ _ (lo_links _ _ _ (ck_list _ _ _ Hok)) (nodes_lookup _ _ _ Hf))
      as [_ Hnode]. cbn [fst] in Hnode. split_and!; congruence.
Qed.

(** ** The operations *)

Lemma clock_replacer_init_ok h n :
  heap_ok h → 0 < n ≤ 65535 → clock_ok h (clock_replacer_init n) [].
Proof.
  intros Hh Hn. split; try done; simpl.
  - by apply num_table_new.
  - split; [done|done|cbn [capacity circular_list_init]; rewrite zlen_nil; lia| |constructor..]. by intros i f Hi.
  - constructor.
Qed.

(** What unpinning adds to the list and to the table, whether the frame was in
    the replacer or not. *)
Lemma clock_unpin_list h r fs z :
  clock_ok h r fs → 0 ≤ z < num_pages r → zlen fs < num_pages r →
  ∃ ht cl h' a kp bp,
    clock_replacer_unpin z r h = Ok (mkClockReplacer (num_pages r) cl ht (hand r) false, h')
    ∧ clock_ok h' r fs ∧ list_ok h' cl ((a, kp) :: nodes_of fs) ∧ capacity cl = num_pages r
    ∧ num_table h' ht (num_pages r) (<[z := mkHashEl kp bp]> (elements_of fs))
    ∧ str_at h' kp (format_u z) ∧ cells h' !! bp = Some (OBool true)
    ∧ (∀ p o, cells h !! p = Some o → cells h' !! p = Some o) ∧ cells h !! kp = None.
Proof.
  intros Hok Hz Hroom. pose proof (ck_pages _ _ _ Hok) as Hpages.
  unfold clock_replacer_unpin. rewrite (ck_latch _ _ _ Hok). cbn [wrlock]. ok_step.
  unfold frame_to_str. rewrite frame_str_ok by lia.
  destruct (malloc _ h) as [kp h1] eqn:Hm1.
  destruct (clock_malloc _ _ _ _ _ _ Hok Hm1) as (Hok1 & Hkn & Hkc & Hknew & Hsub1 & Hfr1).
  destruct (circular_list_insert_ok h1 (frames r) (nodes_of fs) kp (format_u z)) as
    (a & cl & h2 & Hins & Hl2 & Ha & Hh2 & Hna & Hc2 & Hcap2).
  - by eapply nt_heap, ck_table.
  - by eapply ck_list.
  - done.
  - intros (i & Hi)%list_elem_of_lookup. rewrite list_lookup_fmap in Hi.
    destruct (nodes_of fs !! i) as [n|] eqn:Hn; [|done].
    apply nodes_inv in Hn as (f & Hf & ->). injection Hi as Hi. by destruct (Hfr1 i f Hf) as (_ & ? & _).
  - by rewrite zlen_nodes, (ck_capacity _ _ _ Hok).
  - assert (∀ q o, cells h1 !! q = Some o → cells h2 !! q = Some o) as Hsub2.
    { intros q o Hq. rewrite Hc2, lookup_insert_ne; [done|congruence]. }
    pose proof (clock_ok_sub _ _ _ _ Hok1 Hh2 Hsub2) as Hok2.
    rewrite Hins. cbv beta iota zeta. rewrite (proj2 (Z.eqb_neq _ _)) by done.
    destruct (malloc (OBool true) h2) as [bp h3] eqn:Hm3.
    destruct (clock_malloc _ _ _ _ _ _ Hok2 Hm3) as (Hok3 & Hbn & Hbc & _ & Hsub3 & Hfr3).
    assert (str_at h3 kp (format_u z)) as Hkp by (split; [done|by apply Hsub3, Hsub2]).
    destruct (num_insert h3 (frame_table r) (num_pages r) (elements_of fs) (ck_table _ _ _ Hok3) z kp bp)
      as (ht & Hht & Hnt); [lia|by eapply clock_no_collision|done|split; [done|by eexists]| |].
    + intros z' el (i & f & Hf & _ & ->)%elements_inv. by destruct (Hfr3 i f Hf) as (_ & _ & ?).
    + rewrite Hht. ok_step. exists ht, cl, h3, a, kp, bp. rewrite <- (ck_capacity _ _ _ Hok).
      split_and!; [by rewrite (ck_capacity _ _ _ Hok)|done|by eapply list_ok_sub|done
        |by rewrite (ck_capacity _ _ _ Hok)|done|done|by eauto|done].
Qed.

Lemma clock_replacer_unpin_ok h r fs z :
  clock_ok h r fs → 0 ≤ z < num_pages r → z ∉ f_id <$> fs →
  ∃ r' h' f, clock_replacer_unpin z r h = Ok (r', h') ∧ clock_ok h' r' (f :: fs)
    ∧ f_id f = z ∧ f_ref f = true ∧ num_pages r' = num_pages r ∧ hand r' = hand r
    ∧ (∀ p o, cells h !! p = Some o → cells h' !! p = Some o) ∧ cells h !! f_key f = None.
Proof.
  intros Hok Hz Hnew.
  destruct (clock_unpin_list _ _ _ z Hok Hz) as (ht & cl & h' & a & kp & bp & -> & Hok' & Hl & Hcap & Hnt & Hkp & Hbp & Hsub & Hfresh);
    [by eapply clock_room|].
  eexists _, h', (mkFrame z true a kp bp). split_and!; [done| |done..].
  split; cbn [num_pages frames frame_table clock_latch]; [done|done| | |by eapply ck_pages|done|done].
  - intros [|i] f Hf; simpl in Hf; [injection Hf as <-; cbn [f_id f_key f_bit f_ref]; auto|by eapply (ck_frame _ _ _ Hok')].
  - apply NoDup_cons. split; [done|by eapply ck_ids].
Qed.

(** A full list stays as it is. *)
Lemma clock_unpin_full h r fs z :
  clock_ok h r fs → 0 ≤ z < num_pages r → zlen fs = num_pages r →
  ∃ h', clock_replacer_unpin z r h = Ok (r, h') ∧ clock_ok h' r fs
    ∧ ∀ p o, cells h !! p = Some o → cells h' !! p = Some o.
Proof.
  intros Hok Hz Hfull. unfold clock_replacer_unpin. rewrite (ck_latch _ _ _ Hok). cbn [wrlock]. ok_step.
  destruct (frame_to_str z h) as [kp h1] eqn:Hm.
  destruct (clock_malloc _ _ _ _ _ _ Hok Hm) as (Hok1 & _ & _ & _ & Hsub & _).
  rewrite circular_list_insert_full.
  - exists h1. rewrite Z.eqb_refl. split; [|done]. pose proof (ck_latch _ _ _ Hok) as Hla.
    destruct r. simpl in *. by subst.
  - left. rewrite (ck_capacity _ _ _ Hok), (lo_size _ _ _ (ck_list _ _ _ Hok)). by rewrite zlen_nodes.
Qed.

(** *** Removing a frame *)

(** The table without a frame. *)
Lemma elements_delete_frame fs i f :
  NoDup (f_id <$> fs) → fs !! i = Some f → NoDup (f_id <$> delete i fs) ∧ f_id f ∉ f_id <$> delete i fs.
Proof.
  intros Hnd Hi. rewrite list_fmap_delete.
  assert ((f_id <$> fs) !! i = Some (f_id f)) as Hid by (by rewrite list_lookup_fmap, Hi).
  split; [eapply sublist_NoDup; [done|apply sublist_delete]|].
  intros (j & Hj & Hl)%elem_of_delete. apply Hj. by eapply NoDup_lookup.
Qed.

(** The blocks of a frame are of three kinds. *)
Lemma frame_blocks h r fs i f :
  clock_ok h r fs → fs !! i = Some f →
  (∃ q, cells h !! f_node f = Some (ONode (f_key f) q))
  ∧ cells h !! f_key f = Some (OStr (format_u (f_id f)))
  ∧ cells h !! f_bit f = Some (OBool (f_ref f)).
Proof.
  intros Hok Hf. destruct (ck_frame _ _ _ Hok i f Hf) as (_ & [_ Hk] & Hb).
  destruct (links_lookup _ _ _ _ _ (lo_links _ _ _ (ck_list _ _ _ Hok)) (nodes_lookup _ _ _ Hf))
    as [_ Hnode]. split_and!; [by eexists|done|done].
Qed.

(** [same_but fs f h h']: only nodes of [fs] and the key of [f] differ. *)
Definition same_but (fs : list Frame) (f : Frame) (h h' : heap) : Prop :=
  ∀ q, q ≠ f_key f → (∀ j g, fs !! j = Some g → q ≠ f_node g) → cells h' !! q = cells h !! q.

Lemma same_but_other h h' r fs i f j g :
  clock_ok h r fs → fs !! i = Some f → fs !! j = Some g → j ≠ i → same_but fs f h h' →
  cells h' !! f_key g = cells h !! f_key g ∧ cells h' !! f_bit g = cells h !! f_bit g.
Proof.
  intros Hok Hf Hg Hne Hsame. destruct (frame_blocks _ _ _ _ _ Hok Hf) as (_ & Hk & _).
  destruct (frame_blocks _ _ _ _ _ Hok Hg) as (_ & Hkg & Hbg).
  destruct (list_ok_separate _ _ _ j _ i _ (ck_list _ _ _ Hok) (nodes_lookup _ _ _ Hg)
              (nodes_lookup _ _ _ Hf)) as [_ [_ Hkk]]; [done|]. cbn [snd] in Hkk.
  split; apply Hsame; try congruence; intros j' g' Hg';
    destruct (frame_blocks _ _ _ _ _ Hok Hg') as ((q & Hn) & _); congruence.
Qed.

Lemma clock_forget h h' r fs i f ht cl hd :
  clock_ok h r fs → fs !! i = Some f →
  num_table h ht (num_pages r) (delete (f_id f) (elements_of fs)) →
  list_ok h' cl (nodes_of (delete i fs)) → capacity cl = num_pages r →
  heap_ok h' → same_but fs f h h' →
  clock_ok h' (mkClockReplacer (num_pages r) cl ht hd false) (delete i fs).
Proof.
  intros Hok Hf Hnt Hl Hcap Hh Hsame.
  destruct (elements_delete_frame fs i f (ck_ids _ _ _ Hok) Hf) as [Hnd Hnew].
  assert (∀ j g, delete i fs !! j = Some g → ∃ j', j' ≠ i ∧ fs !! j' = Some g) as Hold.
  { intros j g Hj. rewrite list_lookup_delete in Hj. case_decide; eexists; (split; [|done]); lia. }
  split; cbn [num_pages frames frame_table clock_latch]; [|done| |done|by eapply ck_pages|done|done].
  - rewrite (elements_delete fs i f (ck_ids _ _ _ Hok) Hf).
    eapply num_table_heap; [done|done|]. intros z el [Hz Hel]%lookup_delete_Some.
    apply elements_inv in Hel as (j & g & Hg & -> & ->). cbn [el_key el_data].
    apply (same_but_other h h' r fs i f j g); [done|done|done|congruence|done].
  - intros j g (j' & Hne & Hg)%Hold. destruct (ck_frame _ _ _ Hok j' g Hg) as (Hr & [Hn Hs] & Hb).
    destruct (same_but_other _ _ _ _ _ _ _ _ Hok Hf Hg Hne Hsame) as [Hk' Hb'].
    split_and!; [lia|lia|split; [done|by rewrite Hk']|by rewrite Hb'].
Qed.

(** A number that is not the first frame's unlinks the second node. *)
Lemma clock_unlink_second h r f0 f1 fs z p :
  clock_ok h r (f0 :: f1 :: fs) → 0 ≤ z < num_pages r → z ≠ f_id f0 → str_at h p (format_u z) →
  ∃ cl h', circular_list_remove p (frames r) h = Ok (true, cl, h')
    ∧ list_ok h' cl (nodes_of (f0 :: fs)) ∧ capacity cl = num_pages r ∧ heap_ok h'
    ∧ same_but (f0 :: f1 :: fs) f1 h h' ∧ cells h' !! f_node f1 = None ∧ cells h' !! f_key f1 = None.
Proof.
  intros Hok Hz Hne Hp. pose proof (ck_list _ _ _ Hok) as Hl. pose proof (ck_pages _ _ _ Hok) as Hpg.
  destruct (nt_heap _ _ _ _ (ck_table _ _ _ Hok)) as [Hb Hc].
  destruct (ck_frame _ _ _ Hok 0 f0 eq_refl) as (Hr0 & Hs0 & _).
  eexists _, _. split_and!.
  - eapply (circular_list_remove_second _ _ (f_node f0, f_key f0)); [exact Hl|done|done|].
    intros Heq%format_u_inj; [done|lia..].
  - apply (list_ok_unlink _ _ _ _ _ Hl).
  - apply (ck_capacity _ _ _ Hok).
  - apply heap_ok_drop_node. destruct (frame_blocks _ _ _ 0 f0 Hok eq_refl) as ((q & Hq) & _).
    split; [done|]. cbn [cells brk].
    intros y o [[<- _]|[_ Hy]]%lookup_insert_Some; [by eapply Hc|by eapply Hc].
  - intros q Hq Hn. apply unlink_second_other; [by apply (Hn 0%nat f0)|by apply (Hn 1%nat f1)|done].
  - apply (drop_nodes_freed _ [(f_node f1, f_key f1)]). left. by exists 0%nat, (f_node f1, f_key f1); auto.
  - apply (drop_nodes_freed _ [(f_node f1, f_key f1)]). left. by exists 0%nat, (f_node f1, f_key f1); auto.
Qed.

(** The list without the frame [i], which is one of the first two. *)
Lemma clock_unlink h r fs i f p :
  clock_ok h r fs → fs !! i = Some f → (i < 2)%nat → str_at h p (format_u (f_id f)) →
  ∃ cl h', circular_list_remove p (frames r) h = Ok (true, cl, h')
    ∧ list_ok h' cl (nodes_of (delete i fs)) ∧ capacity cl = num_pages r ∧ heap_ok h'
    ∧ same_but fs f h h' ∧ cells h' !! f_node f = None.
Proof.
  intros Hok Hf Hi Hp. pose proof (ck_list _ _ _ Hok) as Hl. pose proof (ck_capacity _ _ _ Hok) as Hcap.
  pose proof (nt_heap _ _ _ _ (ck_table _ _ _ Hok)) as Hh.
  destruct (ck_frame _ _ _ Hok i f Hf) as (Hr & Hs & _).
  destruct fs as [|g fs]; [done|]. destruct i as [|[|i]]; [| |lia]; simpl in Hf.
  - injection Hf as ->.
    destruct (circular_list_remove_head _ _ _ _ _ _ Hl Hp Hs) as (cl & Hrem & Hl' & Hcap').
    eexists cl, _. split_and!; [done|done|congruence|by apply heap_ok_drop_node| |].
    + intros q Hq Hn. apply drop_node_other; [|done]. by apply (Hn 0%nat f).
    + apply (drop_nodes_freed h [(f_node f, f_key f)]). left. by exists 0%nat, (f_node f, f_key f); auto.
  - destruct fs as [|f' fs]; [done|]. injection Hf as ->.
    pose proof (ck_ids _ _ _ Hok) as Hnd. apply NoDup_cons in Hnd as [Hnew _].
    destruct (clock_unlink_second _ _ _ _ _ (f_id f) p Hok Hr) as (cl & h' & Hx); [|done|].
    + intros Heq. apply Hnew. rewrite <- Heq. by left.
    + destruct Hx as (? & ? & ? & ? & ? & ? & _). by exists cl, h'.
Qed.

Lemma ids_first fs i f :
  NoDup (f_id <$> fs) → fs !! i = Some f → i ≠ 0%nat → (f_id <$> fs) !! 0%nat ≠ Some (f_id f).
Proof.
  intros Hnd Hi Hne Hz. apply Hne. eapply NoDup_lookup; [done| |done].
  by rewrite list_lookup_fmap, Hi.
Qed.

(** [second_lost h cl fs]: the node of the second frame is freed with its key,
    whatever frame was asked for, and the list links the other frames. *)
Record second_lost (h : heap) (cl : CircularList) (fs : list Frame) : Prop := {
  sl_list : list_ok h cl (nodes_of (delete 1%nat fs));
  sl_freed : ∃ f, fs !! 1%nat = Some f ∧ cells h !! f_node f = None ∧ cells h !! f_key f = None;
  sl_frame : ∀ j f, fs !! j = Some f → j ≠ 1%nat →
    str_at h (f_key f) (format_u (f_id f)) ∧ cells h !! f_bit f = Some (OBool (f_ref f));
}.

Lemma clock_lose_second h r fs z p :
  clock_ok h r fs → (2 ≤ length fs)%nat → (f_id <$> fs) !! 0%nat ≠ Some z →
  0 ≤ z < num_pages r → str_at h p (format_u z) →
  ∃ cl h' f, circular_list_remove p (frames r) h = Ok (true, cl, h') ∧ second_lost h' cl fs
    ∧ heap_ok h' ∧ fs !! 1%nat = Some f ∧ same_but fs f h h'.
Proof.
  intros Hok Hlen Hne Hz Hp. destruct fs as [|f0 [|f1 fs]]; simpl in Hlen; [lia..|].
  destruct (clock_unlink_second _ _ _ _ _ z p Hok Hz) as (cl & h' & ? & ? & _ & ? & Hsame & ? & ?);
    [intros ->; by apply Hne|done|].
  exists cl, h', f1. split_and!; [done| |done|done|done]. split; [done|by exists f1|].
  intros j g Hg Hj. destruct (ck_frame _ _ _ Hok j g Hg) as (_ & [Hn Hs] & Hb).
  destruct (same_but_other _ _ _ _ 1 f1 j g Hok eq_refl Hg Hj Hsame) as [Hk' Hb'].
  split; [split; [done|by rewrite Hk']|by rewrite Hb'].
Qed.

(** [hash_remove] and [circular_list_remove] together. *)
Lemma clock_remove_ok h r fs i f p :
  clock_ok h r fs → fs !! i = Some f → (i < 2)%nat → str_at h p (format_u (f_id f)) →
  ∃ ht cl h', hash_remove (format_u (f_id f)) (frame_table r) h = Ok (true, ht, h)
    ∧ circular_list_remove p (frames r) h = Ok (true, cl, h')
    ∧ (∀ hd, clock_ok h' (mkClockReplacer (num_pages r) cl ht hd false) (delete i fs))
    ∧ same_but fs f h h' ∧ cells h' !! f_node f = None.
Proof.
  intros Hok Hf Hi Hp. destruct (ck_frame _ _ _ Hok i f Hf) as (Hr & _ & _).
  pose proof (ck_pages _ _ _ Hok) as Hpg.
  destruct (num_remove _ _ _ _ (ck_table _ _ _ Hok) (f_id f)) as (ok & ht & Hrem & Hnt & Htrue); [lia|].
  rewrite Htrue in Hrem by (by eapply clock_no_collision).
  destruct (clock_unlink _ _ _ _ _ _ Hok Hf Hi Hp) as (cl & h' & Hcl & Hl & Hcap & Hh & Hsame & Hn).
  exists ht, cl, h'. split_and!; try done. intros hd. by eapply clock_forget.
Qed.

(** A heap that differs in foreign blocks only. *)
Lemma clock_ok_heap h h' r fs :
  clock_ok h r fs → heap_ok h' →
  (∀ i f, fs !! i = Some f → cells h' !! f_node f = cells h !! f_node f
    ∧ cells h' !! f_key f = cells h !! f_key f ∧ cells h' !! f_bit f = cells h !! f_bit f) →
  clock_ok h' r fs.
Proof.
  intros Hok Hh Hsame. pose proof Hok as [Ht Hl Hf Hi Hp Hc Hla]. split; [| | |done..].
  - eapply num_table_heap; [done|done|]. intros z el (i & f & Hi' & _ & ->)%elements_inv.
    by destruct (Hsame i f Hi') as (_ & ? & ?).
  - eapply list_ok_heap; [done|]. intros i n (f & Hi' & ->)%nodes_inv.
    by destruct (Hsame i f Hi') as (? & ? & _).
  - intros i f Hi'. destruct (Hsame i f Hi') as (_ & Hk & Hb).
    destruct (Hf i f Hi') as (Hr & [Hn Hs] & Hbit).
    split_and!; [lia|lia|split; [done|by rewrite Hk]|by rewrite Hb].
Qed.

Lemma clock_ok_foreign h r fs p g :
  clock_ok h r fs → (∀ i f, fs !! i = Some f → f_node f ≠ p ∧ f_key f ≠ p ∧ f_bit f ≠ p) →
  heap_ok (mkHeap (partial_alter g p (cells h)) (brk h)) →
  clock_ok (mkHeap (partial_alter g p (cells h)) (brk h)) r fs.
Proof.
  intros Hok Hp Hh. apply clock_ok_heap with h; [done|done|]. intros i f Hf.
  destruct (Hp i f Hf) as (? & ? & ?). cbn [cells]. by rewrite !lookup_partial_alter_ne by done.
Qed.

Lemma heap_ok_store h p o o' :
  heap_ok h → cells h !! p = Some o' → heap_ok (mkHeap (<[p := o]> (cells h)) (brk h)).
Proof.
  intros [Hb Hc] Hp. split; [done|]. cbn [cells brk].
  intros q o'' [[<- _]|[_ Hq]]%lookup_insert_Some; eauto.
Qed.

(** Pinning up to the removal from the list: the key and the flag are new blocks
    and the table has lost the frame. *)
Lemma clock_pin_start h r fs z :
  clock_ok h r fs → 0 ≤ z < num_pages r →
  ∃ kp ht okp b h3,
    clock_replacer_pin z r h
    = (rm ← circular_list_remove kp (frames r) h3;
       let '(_, cl, h) := rm in
       h ← free okp h;
       Ok (mkClockReplacer (num_pages r) cl ht (hand r) false, h))
    ∧ clock_ok h3 r fs ∧ str_at h3 kp (format_u z)
    ∧ num_table h3 ht (num_pages r) (delete z (elements_of fs))
    ∧ okp ≠ NULL ∧ cells h3 !! okp = Some (OBool b)
    ∧ (∀ i f, fs !! i = Some f → f_node f ≠ okp ∧ f_key f ≠ okp ∧ f_bit f ≠ okp)
    ∧ (∀ q, is_Some (cells h !! q) → q ≠ okp ∧ cells h3 !! q = cells h !! q).
Proof.
  intros Hok Hz. pose proof (ck_pages _ _ _ Hok) as Hpg. unfold clock_replacer_pin.
  rewrite (ck_latch _ _ _ Hok). cbn [wrlock]. ok_step. unfold frame_to_str.
  rewrite frame_str_ok by lia. destruct (malloc _ h) as [kp h1] eqn:Hm1.
  destruct (clock_malloc _ _ _ _ _ _ Hok Hm1) as (Hok1 & Hkn & Hkc & Hknew & Hsub1 & _).
  rewrite (load_str_ok h1 kp (format_u z)) by done. ok_step.
  destruct (malloc (OBool false) h1) as [okp h2] eqn:Hm2.
  destruct (clock_malloc _ _ _ _ _ _ Hok1 Hm2) as (Hok2 & Hon & Hoc & Honew & Hsub2 & Hfr2).
  destruct (num_remove _ _ _ _ (ck_table _ _ _ Hok2) z) as (b & ht & Hrem & Hnt & _); [lia|].
  rewrite Hrem. ok_step. unfold store. rewrite (load_ok _ _ _ Hon Hoc). ok_step.
  rewrite (proj2 (Z.eqb_neq _ _)) by done. set (h3 := mkHeap _ _).
  assert (heap_ok h3) as Hh3 by (eapply heap_ok_store; [by eapply nt_heap, ck_table|done]).
  exists kp, ht, okp, b, h3. split_and!; [done|by apply clock_ok_foreign| | |done|by apply lookup_insert_eq|done|].
  - split; [done|]. cbn [h3 cells]. rewrite lookup_insert_ne; [by apply Hsub2|congruence].
  - eapply num_table_heap; [exact Hnt|done|]. intros y el [_ Hel]%lookup_delete_Some.
    apply elements_inv in Hel as (j & g & Hg & _ & ->). destruct (Hfr2 j g Hg) as (_ & ? & ?).
    cbn [h3 cells el_key el_data]. by rewrite !lookup_insert_ne by congruence.
  - intros q [o Hq]. assert (q ≠ okp) by (intros ->; apply Hsub1 in Hq; congruence).
    split; [done|]. cbn [h3 cells]. rewrite lookup_insert_ne, Hq by done. by apply Hsub2, Hsub1.
Qed.

Lemma clock_replacer_pin_ok h r fs i f :
  clock_ok h r fs → fs !! i = Some f → (i < 2)%nat →
  ∃ r' h', clock_replacer_pin (f_id f) r h = Ok (r', h') ∧ clock_ok h' r' (delete i fs)
    ∧ num_pages r' = num_pages r ∧ hand r' = hand r
    ∧ ∀ q, is_Some (cells h !! q) → q ≠ f_key f → (∀ j g, fs !! j = Some g → q ≠ f_node g) →
        cells h' !! q = cells h !! q.
Proof.
  intros Hok Hf Hi. destruct (ck_frame _ _ _ Hok i f Hf) as (Hr & _ & _).
  destruct (clock_pin_start _ _ _ _ Hok Hr)
    as (kp & ht & okp & b & h3 & -> & Hok3 & Hkp & Hnt & Hon & Hoc & Hfr & Hsub).
  destruct (clock_unlink _ _ _ _ _ _ Hok3 Hf Hi Hkp) as (cl & h4 & Hcl & Hl & Hcap & Hh4 & Hsame & _).
  rewrite Hcl. ok_step.
  assert (cells h4 !! okp = Some (OBool b)) as Hok4.
  { rewrite Hsame; [done| |]; [|intros j g Hg]; intros ->.
    - by destruct (Hfr i f Hf) as (_ & ? & _).
    - by destruct (Hfr j g Hg) as (? & _). }
  rewrite (free_ok _ _ _ Hon Hok4). ok_step.
  eexists _, _. split_and!; [done| |done|done|].
  - apply clock_ok_foreign; [by eapply clock_forget| |by apply heap_ok_delete].
    intros j g Hg. rewrite list_lookup_delete in Hg. case_decide; by eapply Hfr.
  - intros q Hq Hqf Hqn. destruct (Hsub q Hq) as [? Hq3].
    cbn [cells]. rewrite lookup_delete_ne by done. by rewrite Hsame.
Qed.

(** With no frame in the replacer there is nothing to pin. *)
Lemma clock_replacer_pin_empty h r z :
  clock_ok h r [] → 0 ≤ z < num_pages r →
  ∃ r' h', clock_replacer_pin z r h = Ok (r', h') ∧ clock_ok h' r' []
    ∧ num_pages r' = num_pages r ∧ hand r' = hand r
    ∧ ∀ q, is_Some (cells h !! q) → cells h' !! q = cells h !! q.
Proof.
  intros Hok Hz. pose proof (ck_pages _ _ _ Hok) as Hpg.
  destruct (clock_pin_start _ _ _ _ Hok Hz)
    as (kp & ht & okp & b & h3 & -> & Hok3 & _ & Hnt & Hon & Hoc & _ & Hsub).
  rewrite (circular_list_remove_empty h3) by apply (ck_list _ _ _ Hok3). ok_step.
  rewrite (free_ok _ _ _ Hon Hoc). ok_step. eexists _, _. split_and!; [done| |done|done|].
  - apply clock_ok_foreign; [|done|apply heap_ok_delete; by eapply nt_heap].
    split; cbn [num_pages frames frame_table clock_latch];
      [|apply (ck_list _ _ _ Hok3)|done|constructor|done|by eapply ck_capacity|done].
    change (elements_of []) with (∅ : gmap Z HashEl) in *. by rewrite delete_empty in Hnt.
  - intros q Hq. destruct (Hsub q Hq). cbn [cells]. by rewrite lookup_delete_ne.
Qed.

(** A single other frame. *)
Lemma clock_pin_other h r f z :
  clock_ok h r [f] → 0 ≤ z < num_pages r → f_id f ≠ z → clock_replacer_pin z r h = Undef NullDeref.
Proof.
  intros Hok Hz Hne. pose proof (ck_pages _ _ _ Hok) as Hpg.
  destruct (clock_pin_start _ _ _ _ Hok Hz) as (kp & ht & okp & b & h3 & -> & Hok3 & Hkp & _).
  destruct (ck_frame _ _ _ Hok3 0 f eq_refl) as (Hr & Hs & _).
  erewrite circular_list_remove_single; [done|exact (ck_list _ _ _ Hok3)|exact Hkp|exact Hs|].
  intros Heq%format_u_inj; [done|lia..].
Qed.

(** Another frame than the first two. *)
Lemma clock_pin_loses h r fs z :
  clock_ok h r fs → 0 ≤ z < num_pages r → (2 ≤ length fs)%nat → (f_id <$> fs) !! 0%nat ≠ Some z →
  ∃ r' h', clock_replacer_pin z r h = Ok (r', h') ∧ second_lost h' (frames r') fs ∧ hand r' = hand r.
Proof.
  intros Hok Hz Hlen Hne. destruct (clock_pin_start _ _ _ _ Hok Hz)
    as (kp & ht & okp & b & h3 & -> & Hok3 & Hkp & _ & Hon & Hoc & Hfr & _).
  destruct (clock_lose_second _ _ _ _ _ Hok3 Hlen Hne Hz Hkp)
    as (cl & h4 & f & Hcl & [Hl (f' & Hf' & Hn1 & Hn2) Hfs] & _ & Hf & Hsame).
  assert (f' = f) as -> by congruence. rewrite Hcl. ok_step.
  assert (cells h4 !! okp = Some (OBool b)) as Hok4.
  { rewrite Hsame; [done| |]; [|intros j g Hg]; intros ->.
    - by destruct (Hfr 1%nat f Hf) as (_ & ? & _).
    - by destruct (Hfr j g Hg) as (? & _). }
  rewrite (free_ok _ _ _ Hon Hok4). ok_step.
  eexists _, _. split_and!; [done| |done]. split; cbn [frames].
  - eapply list_ok_heap; [done|]. intros i n (g & Hg & ->)%nodes_inv.
    rewrite list_lookup_delete in Hg. cbn [cells fst snd].
    case_decide; destruct (Hfr _ g Hg) as (? & ? & _); by rewrite !lookup_delete_ne by done.
  - exists f. cbn [cells]. rewrite !lookup_delete_None. auto.
  - intros j g Hg Hj. destruct (Hfs j g Hg Hj) as [[Hn Hs] Hb].
    destruct (Hfr j g Hg) as (_ & ? & ?). cbn [cells].
    split; [split; [done|]|]; cbn [cells]; by rewrite lookup_delete_ne.
Qed.

(** The replacer holds no frame, or the frame is one of the first two. *)
Definition pinnable (fs : list Frame) (z : Z) : Prop :=
  fs = [] ∨ ∃ j g, fs !! j = Some g ∧ f_id g = z ∧ (j < 2)%nat.

Lemma clock_pin_any h r fs z :
  clock_ok h r fs → 0 ≤ z < num_pages r → pinnable fs z →
  ∃ r' h' j, clock_replacer_pin z r h = Ok (r', h') ∧ clock_ok h' r' (delete j fs)
    ∧ (z ∉ f_id <$> delete j fs) ∧ (length (delete j fs) = length fs - 1)%nat
    ∧ num_pages r' = num_pages r
    ∧ ∀ q, is_Some (cells h !! q) → (∀ i g, fs !! i = Some g → q ≠ f_key g ∧ q ≠ f_node g) →
        cells h' !! q = cells h !! q.
Proof.
  intros Hok Hz [->|(j & g & Hg & <- & Hj)].
  - destruct (clock_replacer_pin_empty _ _ _ Hok Hz) as (r' & h' & ? & ? & ? & _ & ?).
    exists r', h', 0%nat. split_and!; auto using not_elem_of_nil.
  - destruct (clock_replacer_pin_ok _ _ _ _ _ Hok Hg Hj) as (r' & h' & ? & ? & ? & _ & Hsame).
    exists r', h', j. split_and!; [done|done| | |done|].
    + by destruct (elements_delete_frame fs j g (ck_ids _ _ _ Hok) Hg).
    + rewrite length_delete by done. lia.
    + intros q Hq Hn. apply Hsame; [done|by apply (Hn j g)|]. intros i g' Hg'. by apply (Hn i g').
Qed.

(** *** Eviction *)

(** The clock algorithm on numbers and reference bits, from the hand [i]: the
    place of the victim, the place of the hand and the bits. *)
Fixpoint clock (rounds : nat) (i : nat) (bits : list (Z * bool)) : option nat * nat * list (Z * bool) :=
  match rounds with
  | O => (None, i, bits)
  | S rounds =>
      match bits !! i with
      | Some (z, true) => clock rounds (S i mod length bits)%nat (<[i := (z, false)]> bits)
      | _ => (Some i, i, bits)
      end
  end.

Lemma clock_length rounds i bits o j bits' :
  clock rounds i bits = (o, j, bits') → length bits' = length bits.
Proof.
  revert i bits. induction rounds as [|n IH]; intros i bits; cbn [clock]; [by intros [= _ _ <-]|].
  destruct (bits !! i) as [[z []]|]; [|by intros [= _ _ <-]..].
  intros Hx%IH. by rewrite length_insert in Hx.
Qed.

(** Bits that are all set from the hand on. *)
Lemma clock_set k i bits :
  (i < length bits)%nat → (k ≤ length bits)%nat →
  (∀ j, (j < k)%nat → ∃ z, bits !! ((i + j) mod length bits)%nat = Some (z, true)) →
  ∃ bits', clock k i bits = (None, ((i + k) mod length bits)%nat, bits') ∧ bits'.*1 = bits.*1
    ∧ ∀ p z, bits' !! p = Some (z, true) →
        bits !! p = Some (z, true) ∧ ∀ j, (j < k)%nat → p ≠ ((i + j) mod length bits)%nat.
Proof.
  revert i bits. induction k as [|k IH]; intros i bits Hi Hk Hset; cbn [clock].
  { exists bits. rewrite Nat.add_0_r, Nat.mod_small by done. split_and!; [done..|]. intros p z Hp. split; [done|]. intros j Hj. lia. }
  destruct (Hset 0%nat ltac:(lia)) as (z & Hz). rewrite Nat.add_0_r, Nat.mod_small in Hz by done. rewrite Hz.
  set (n := length bits) in *. set (bits1 := <[i := (z, false)]> bits).
  assert (length bits1 = n) as Hn by apply length_insert.
  assert (∀ j, ((S i mod n + j) mod n = (i + S j) mod n)%nat) as Hmod.
  { intros j. rewrite Nat.Div0.add_mod_idemp_l. f_equal. lia. }
  assert (∀ j, (0 < j < n)%nat → ((i + j) mod n ≠ i)%nat) as Hne.
  { intros j Hj Heq. pose proof (Nat.div_mod_eq (i + j) n) as Hd. rewrite Heq in Hd.
    destruct ((i + j) / n)%nat as [|[|q]]; lia. }
  destruct (IH (S i mod n)%nat bits1) as (bits' & Hc & Hid & Hfalse).
  - rewrite Hn. apply Nat.mod_upper_bound. lia.
  - lia.
  - intros j Hj. rewrite Hn, Hmod. unfold bits1. rewrite list_lookup_insert_ne by (intros Heq; by apply (Hne (S j)); lia).
    apply Hset. lia.
  - exists bits'. rewrite Hc, Hn, Hmod. split; [done|]. split.
    { rewrite Hid. unfold bits1. rewrite list_fmap_insert. apply list_insert_id. by rewrite list_lookup_fmap, Hz. }
    intros p y [Hp Hv]%Hfalse. unfold bits1 in Hp.
    apply list_lookup_insert_Some in Hp as [(_ & [=] & _)|[Hpi Hp]]. split; [done|].
    intros [|j] Hj; [rewrite Nat.add_0_r, Nat.mod_small by done; congruence|].
    specialize (Hv j ltac:(lia)). by rewrite Hn, Hmod in Hv.
Qed.

Lemma clock_all_set i bits :
  (i < length bits)%nat → Forall (λ b, b.2 = true) bits →
  clock (length bits) i bits = (None, i, (λ b, (b.1, false)) <$> bits).
Proof.
  intros Hi Hall. rewrite Forall_lookup in Hall.
  destruct (clock_set (length bits) i bits Hi ltac:(done)) as (bits' & Hc & Hid & Hfalse).
  { intros j _. destruct (lookup_lt_is_Some_2 bits ((i + j) mod length bits)%nat) as [[z b] Hb];
      [apply Nat.mod_upper_bound; lia|]. exists z. rewrite Hb. f_equal. by rewrite <- (Hall _ _ Hb). }
  rewrite Hc. f_equal; [f_equal|].
  - rewrite <- (Nat.mul_1_l (length bits)) at 1. by rewrite Nat.Div0.mod_add, Nat.mod_small.
  - apply list_eq. intros p. rewrite list_lookup_fmap.
    assert (bits'.*1 !! p = bits.*1 !! p) as Hp by (by rewrite Hid). rewrite !list_lookup_fmap in Hp.
    destruct (bits' !! p) as [[z b]|] eqn:Hb'; destruct (bits !! p) as [[y c]|] eqn:Hb; simplify_eq/=; [|done].
    destruct b; [|done]. exfalso. destruct (Hfalse _ _ Hb') as [_ Hv].
    pose proof (lookup_lt_Some _ _ _ Hb) as Hlt.
    destruct (decide (i ≤ p)%nat) as [Hle|Hgt].
    + apply (Hv (p - i)%nat); [lia|]. rewrite Nat.mod_small; lia.
    + apply (Hv (length bits + p - i)%nat); [lia|].
      replace (i + (length bits + p - i))%nat with (p + 1 * length bits)%nat by lia.
      by rewrite Nat.Div0.mod_add, Nat.mod_small.
Qed.

Lemma bits_lookup fs i f : fs !! i = Some f → bits_of fs !! i = Some (f_id f, f_ref f).
Proof. intros Hi. unfold bits_of. by rewrite list_lookup_fmap, Hi. Qed.

(** The code looks at the frame under the hand. *)
Lemma frame_found h r fs i f :
  clock_ok h r fs → fs !! i = Some f →
  load_node (f_node f) h = Ok (f_key f, first_node (drop (S i) (nodes_of fs)))
  ∧ load_str (f_key f) h = Ok (format_u (f_id f))
  ∧ hash_find (format_u (f_id f)) (frame_table r) h = Ok (Some (mkHashEl (f_key f) (f_bit f)))
  ∧ load_bool (f_bit f) h = Ok (f_ref f) ∧ atoi (format_u (f_id f)) = Ok (f_id f).
Proof.
  intros Hok Hf. destruct (ck_frame _ _ _ Hok i f Hf) as (Hr & Hs & Hb).
  pose proof (ck_pages _ _ _ Hok). split_and!.
  - apply (load_node_ok _ _ _ _ _ (lo_links _ _ _ (ck_list _ _ _ Hok)) (nodes_lookup _ _ _ Hf)).
  - by apply load_str_ok.
  - rewrite (nt_find _ _ _ _ (ck_table _ _ _ Hok)) by lia.
    by rewrite (elements_lookup _ _ _ (ck_ids _ _ _ Hok) Hf).
  - unfold load_bool. by rewrite (load_ok _ _ _ (heap_ok_nonnull _ _ _ (nt_heap _ _ _ _ (ck_table _ _ _ Hok)) Hb) Hb).
  - apply atoi_format_u. lia.
Qed.

(** The hand moves to the next frame, in a circle. *)
Lemma clock_next h r fs i f :
  clock_ok h r fs → fs !! i = Some f →
  ∃ g, fs !! (S i mod length fs)%nat = Some g
    ∧ circular_list_next (f_node f) (frames r) h = Ok (f_node g).
Proof.
  intros Hok Hf. pose proof (lookup_lt_Some _ _ _ Hf) as Hlt.
  destruct (lookup_lt_is_Some_2 fs (S i mod length fs)%nat) as [g Hg].
  { apply Nat.mod_upper_bound. lia. }
  exists g. split; [done|].
  pose proof (circular_list_next_ok _ _ _ _ _ (ck_list _ _ _ Hok) (nodes_lookup _ _ _ Hf)) as Hn.
  cbn [fst] in Hn. rewrite Hn. f_equal. destruct (nodes_of fs !! S i) as [n|] eqn:Hs.
  - apply nodes_inv in Hs as (g' & Hg' & ->). pose proof (lookup_lt_Some _ _ _ Hg').
    rewrite Nat.mod_small in Hg by lia. by simplify_eq.
  - unfold nodes_of in Hs. rewrite list_lookup_fmap, fmap_None, lookup_ge_None in Hs.
    replace (S i) with (length fs) in Hg by lia. rewrite Nat.Div0.mod_same in Hg.
    destruct fs as [|g' fs]; [done|]. by injection Hg as ->.
Qed.

(** Clearing a reference bit. *)
Lemma clock_clear h r fs i f bp h' :
  clock_ok h r fs → fs !! i = Some f → malloc (OBool false) h = (bp, h') →
  ∃ ht, hash_insert (f_key f) bp (frame_table r) h' = Ok ht
    ∧ ∀ hd, clock_ok h' (mkClockReplacer (num_pages r) (frames r) ht hd false)
        (<[i := mkFrame (f_id f) false (f_node f) (f_key f) bp]> fs).
Proof.
  intros Hok Hf Hm. destruct (clock_malloc _ _ _ _ _ _ Hok Hm) as (Hok' & Hbn & Hbc & _ & _ & Hfr).
  destruct (ck_frame _ _ _ Hok' i f Hf) as (Hr & Hs & _). pose proof (ck_pages _ _ _ Hok) as Hpg.
  destruct (num_insert h' (frame_table r) (num_pages r) (elements_of fs) (ck_table _ _ _ Hok')
              (f_id f) (f_key f) bp) as (ht & Hht & Hnt).
  - lia.
  - by eapply clock_no_collision.
  - done.
  - split; [done|]. by eexists.
  - intros z' el (j & g & Hg & _ & ->)%elements_inv. by destruct (Hfr j g Hg) as (_ & _ & ?).
  - exists ht. split; [done|]. intros hd. set (f' := mkFrame _ _ _ _ _).
    assert (∀ A (F : Frame → A), F f' = F f → F <$> <[i := f']> fs = F <$> fs) as Hmap.
    { intros A F HF. rewrite list_fmap_insert, HF. apply list_insert_id.
      by rewrite list_lookup_fmap, Hf. }
    split; cbn [num_pages frames frame_table clock_latch]; [| | | |done|by eapply ck_capacity|done].
    + by rewrite (elements_set fs i f f' (ck_ids _ _ _ Hok) Hf eq_refl).
    + unfold nodes_of. rewrite (Hmap _ (λ f, (f_node f, f_key f))) by done. apply (ck_list _ _ _ Hok').
    + intros j g Hg. destruct (decide (j = i)) as [->|Hne].
      * rewrite list_lookup_insert_eq in Hg by (by eapply lookup_lt_Some). by injection Hg as <-.
      * rewrite list_lookup_insert_ne in Hg by done. by eapply (ck_frame _ _ _ Hok').
    + rewrite (Hmap _ f_id) by done. by eapply ck_ids.
Qed.

(** What eviction leaves of a heap. *)
Definition kept (fs : list Frame) (h h' : heap) : Prop :=
  ∀ q, is_Some (cells h !! q) → (∀ j g, fs !! j = Some g → q ≠ f_node g ∧ q ≠ f_key g) →
    cells h' !! q = cells h !! q.

Lemma kept_malloc fs h o p h' : heap_ok h → malloc o h = (p, h') → kept fs h h'.
Proof.
  intros Hh Hm q [o' Hq] _. destruct (heap_ok_malloc _ _ _ _ Hh Hm) as (_ & _ & Hn & ->).
  rewrite lookup_insert_ne; [done|congruence].
Qed.

Lemma sweep_ok rounds h np cl ht hd fs i f l :
  clock_ok h (mkClockReplacer np cl ht hd false) fs → fs !! i = Some f → hd = f_node f →
  match clock rounds i (bits_of fs) with
  | (None, j, bits) =>
      ∃ ht' hd' h' fs' g, sweep rounds (mkClockReplacer np cl ht hd l) h
        = Ok (UINT32_MAX, mkClockReplacer np cl ht' hd' false, h')
        ∧ clock_ok h' (mkClockReplacer np cl ht' hd' false) fs' ∧ bits_of fs' = bits
        ∧ fs' !! j = Some g ∧ hd' = f_node g ∧ kept fs h h' ∧ f_key <$> fs' = f_key <$> fs
  | (Some v, _, bits) =>
      ((v < 2)%nat →
      ∃ cl' ht' h' fs' g, sweep rounds (mkClockReplacer np cl ht hd l) h
        = Ok (f_id g, mkClockReplacer np cl' ht' (f_node g) false, h')
        ∧ clock_ok h' (mkClockReplacer np cl' ht' (f_node g) false) (delete v fs')
        ∧ bits_of fs' = bits ∧ fs' !! v = Some g
        ∧ f_node g ≠ NULL ∧ cells h' !! f_node g = None ∧ kept fs h h')
      ∧ ((2 ≤ v)%nat →
      ∃ cl' ht' h' fs' g, sweep rounds (mkClockReplacer np cl ht hd l) h
        = Ok (f_id g, mkClockReplacer np cl' ht' (f_node g) false, h')
        ∧ second_lost h' cl' fs' ∧ bits_of fs' = bits ∧ fs' !! v = Some g)
  end.
Proof.
  revert h ht hd fs i f. induction rounds as [|rounds IH]; intros h ht hd fs i f Hok Hf Hhd; cbn [clock].
  { eexists ht, hd, h, fs, f. by split_and!. }
  destruct (frame_found _ _ _ _ _ Hok Hf) as (Hnode & Hkey & Hfind & Hbit & Hid).
  rewrite (bits_lookup _ _ _ Hf). cbn [sweep hand frame_table]. rewrite Hhd, Hnode. ok_step. cbn [fst].
  rewrite Hkey. ok_step. cbn [frame_table] in Hfind. rewrite Hfind. ok_step. cbn [el_data el_key].
  rewrite Hbit. ok_step.
  pose proof (nt_heap _ _ _ _ (ck_table _ _ _ Hok)) as Hh.
  destruct (f_ref f).
  - destruct (malloc (OBool false) h) as [bp h1] eqn:Hm.
    destruct (clock_clear _ _ _ _ _ _ _ Hok Hf Hm) as (ht1 & Hins & Hok1).
    cbn [frame_table] in Hins. rewrite Hins. ok_step. cbn [frames num_pages clock_latch] in *.
    set (f' := mkFrame (f_id f) false (f_node f) (f_key f) bp) in *. set (fs1 := <[i := f']> fs) in *.
    assert (fs1 !! i = Some f') as Hf1 by (apply list_lookup_insert_eq; by eapply lookup_lt_Some).
    assert (length fs1 = length fs) as Hlen by apply length_insert.
    destruct (clock_next _ _ _ _ _ (Hok1 NULL) Hf1) as (g & Hg & Hnext).
    cbn [frames] in Hnext. change (f_node f') with (f_node f) in Hnext.
    rewrite Hlen in Hg. rewrite Hnext. ok_step.
    specialize (IH h1 ht1 (f_node g) fs1 (S i mod length fs)%nat g (Hok1 _) Hg eq_refl).
    assert (bits_of fs1 = <[i := (f_id f, false)]> (bits_of fs)) as Hbits
      by (unfold fs1, bits_of; by rewrite list_fmap_insert).
    rewrite Hbits in IH. unfold bits_of at 1. rewrite length_fmap.
    assert (∀ h', kept fs1 h1 h' → kept fs h h') as Hkept.
    { intros h' Hk q Hq Hn. rewrite <- (kept_malloc fs _ _ _ _ Hh Hm q Hq Hn).
      apply Hk; [by rewrite (kept_malloc fs _ _ _ _ Hh Hm q Hq Hn)|]. intros j g' Hg'.
      destruct (decide (j = i)) as [->|Hne]; [rewrite Hf1 in Hg'; injection Hg' as <-; by apply (Hn i f)|].
      unfold fs1 in Hg'. rewrite list_lookup_insert_ne in Hg' by done. by apply (Hn j). }
    destruct (clock rounds _ _) as [[[v|] j] bits].
    + destruct IH as [IH IH2]. split; [|done].
      intros Hv. destruct (IH Hv) as (cl' & ht' & h' & fs' & g' & ? & ? & ? & ? & ? & ? & ?).
      exists cl', ht', h', fs', g'. split_and!; eauto.
    + destruct IH as (ht' & hd' & h' & fs' & g' & ? & ? & ? & ? & ? & ? & Hkeys).
      exists ht', hd', h', fs', g'. split_and!; eauto. rewrite Hkeys. unfold fs1. rewrite list_fmap_insert.
      apply list_insert_id. by rewrite list_lookup_fmap, Hf.
  - rewrite Hkey. ok_step. rewrite Hid. ok_step.
    destruct (ck_frame _ _ _ Hok i f Hf) as (Hr & Hs & _). pose proof (ck_pages _ _ _ Hok) as Hpg.
    assert (u32 (f_id f) = f_id f) as Hu by (apply Z.mod_small; simpl in *; lia). rewrite Hu.
    split; intros Hi.
    + destruct (clock_remove_ok _ _ _ _ _ _ Hok Hf Hi Hs) as (ht1 & cl1 & h1 & Hrem & Hcl & Hok1 & Hsame & Hnone).
      cbn [frame_table frames num_pages] in *. rewrite Hrem. ok_step. rewrite Hcl. ok_step.
      exists cl1, ht1, h1, fs, f. split_and!; [done..| |done|].
      * destruct (frame_blocks _ _ _ _ _ Hok Hf) as ((q & Hq) & _). by eapply heap_ok_nonnull.
      * intros q _ Hq. apply Hsame; [by apply (Hq i f)|]. intros j g Hg. by apply (Hq j g).
    + destruct (num_remove _ _ _ _ (ck_table _ _ _ Hok) (f_id f)) as (ok & ht1 & Hrem & _); [lia|].
      pose proof (lookup_lt_Some _ _ _ Hf) as Hlt.
      destruct (clock_lose_second _ _ _ _ _ Hok ltac:(lia) (ids_first _ _ _ (ck_ids _ _ _ Hok) Hf ltac:(lia)) Hr Hs)
        as (cl1 & h1 & g & Hcl & Hsl & _).
      cbn [frame_table frames num_pages] in *. rewrite Hrem. ok_step. rewrite Hcl. ok_step.
      by exists cl1, ht1, h1, fs, f.
Qed.

(** The place of the hand; a hand that was never set starts at the head. *)
Definition hand_at (r : ClockReplacer) (fs : list Frame) (i : nat) : Prop :=
  (hand r = NULL ∧ i = 0%nat) ∨ ∃ f, fs !! i = Some f ∧ hand r = f_node f.

Lemma evict_sweep h r fs i :
  clock_ok h r fs → fs ≠ [] → hand_at r fs i →
  ∃ f, fs !! i = Some f
    ∧ evict r h = sweep (length fs) (mkClockReplacer (num_pages r) (frames r) (frame_table r) (f_node f) true) h
    ∧ clock_ok h (mkClockReplacer (num_pages r) (frames r) (frame_table r) (f_node f) false) fs.
Proof.
  intros Hok Hne Hi. pose proof (lo_size _ _ _ (ck_list _ _ _ Hok)) as Hs. rewrite zlen_nodes in Hs.
  assert (length fs ≠ 0%nat) as Hl by (by destruct fs).
  assert (∃ f, fs !! i = Some f ∧ (if hand r =? NULL then head (frames r) else hand r) = f_node f)
    as (f & Hf & Hhand).
  { destruct Hi as [[-> ->]|(f & Hf & ->)].
    - destruct fs as [|f fs]; [done|]. exists f. split; [done|]. rewrite Z.eqb_refl.
      apply (links_first _ _ _ (lo_links _ _ _ (ck_list _ _ _ Hok))).
    - exists f. split; [done|]. rewrite (proj2 (Z.eqb_neq _ _)); [done|].
      destruct (frame_blocks _ _ _ _ _ Hok Hf) as ((q & Hq) & _).
      by eapply heap_ok_nonnull, Hq; eapply nt_heap, ck_table. }
  exists f. split; [done|]. split.
  - unfold evict. rewrite (ck_latch _ _ _ Hok). cbn [wrlock]. ok_step.
    rewrite (proj2 (Z.eqb_neq _ _)) by (unfold zlen in Hs; lia). rewrite Hhand, Hs.
    unfold zlen. by rewrite Nat2Z.id.
  - destruct Hok. by split.
Qed.

Lemma evict_ok h r fs i v j bits :
  clock_ok h r fs → fs ≠ [] → hand_at r fs i →
  clock (length fs) i (bits_of fs) = (Some v, j, bits) → (v < 2)%nat →
  ∃ r' h' fs' g, evict r h = Ok (f_id g, r', h') ∧ clock_ok h' r' (delete v fs')
    ∧ bits_of fs' = bits ∧ fs' !! v = Some g
    ∧ hand r' = f_node g ∧ f_node g ≠ NULL ∧ cells h' !! f_node g = None
    ∧ num_pages r' = num_pages r ∧ kept fs h h'.
Proof.
  intros Hok Hne Hi Hc Hv. destruct (evict_sweep _ _ _ _ Hok Hne Hi) as (f & Hf & -> & Hok').
  pose proof (sweep_ok (length fs) _ _ _ _ _ _ _ _ true Hok' Hf eq_refl) as Hs. rewrite Hc in Hs.
  destruct (proj1 Hs Hv) as (cl' & ht' & h' & fs' & g & ? & ? & ? & ? & ? & ? & ?).
  eexists _, h', fs', g. by split_and!.
Qed.

(** C27: on a replacer that is not empty, with the hand unset or on the node of
    one of its frames, eviction decides by the clock algorithm: from the hand, it
    clears the reference bits that are set, in the order of the circle and at
    most once around, and returns the number of the first frame whose bit is
    clear; if all bits were set it returns [UINT32_MAX] and the hand is back
    where it was. When the victim is one of the first two of the list it is
    removed and the replacer stays well formed. When it stands further behind,
    the second node of the list is freed with its key in place of the
    victim's. *)
Theorem evict_clock h r fs i :
  clock_ok h r fs → fs ≠ [] → hand_at r fs i →
  match clock (length fs) i (bits_of fs) with
  | (None, j, bits) =>
      ∃ r' h' fs', evict r h = Ok (UINT32_MAX, r', h') ∧ clock_ok h' r' fs'
        ∧ bits_of fs' = bits ∧ hand_at r' fs' j
  | (Some v, _, bits) =>
      ∃ z r' h' fs', evict r h = Ok (z, r', h') ∧ (∃ ref, bits !! v = Some (z, ref))
        ∧ if decide (v < 2)%nat then clock_ok h' r' fs' ∧ bits_of fs' = delete v bits
          else second_lost h' (frames r') fs' ∧ bits_of fs' = bits
  end.
Proof.
  intros Hok Hne Hi. destruct (clock (length fs) i (bits_of fs)) as [[[v|] j] bits] eqn:Hc.
  - case_decide as Hv.
    + destruct (evict_ok _ _ _ _ _ _ _ Hok Hne Hi Hc Hv)
        as (r' & h' & fs' & g & He & Hok' & Hb & Hg & _).
      exists (f_id g), r', h', (delete v fs'). rewrite <- Hb. split_and!; [done| |done|apply list_fmap_delete].
      exists (f_ref g). by apply bits_lookup.
    + destruct (evict_sweep _ _ _ _ Hok Hne Hi) as (f & Hf & -> & Hok').
      pose proof (sweep_ok (length fs) _ _ _ _ _ _ _ _ true Hok' Hf eq_refl) as Hs. rewrite Hc in Hs.
      destruct (proj2 Hs ltac:(lia)) as (cl' & ht' & h' & fs' & g & He & Hsl & Hb & Hg).
      eexists (f_id g), _, h', fs'. rewrite He, <- Hb. split_and!; [done| |done|done].
      exists (f_ref g). by apply bits_lookup.
  - destruct (evict_sweep _ _ _ _ Hok Hne Hi) as (f & Hf & -> & Hok').
    pose proof (sweep_ok (length fs) _ _ _ _ _ _ _ _ true Hok' Hf eq_refl) as Hs. rewrite Hc in Hs.
    destruct Hs as (ht' & hd' & h' & fs' & g & ? & ? & ? & ? & -> & _ & _).
    eexists _, h', fs'. split_and!; [done|done|done|]. right. by exists g.
Qed.

(** An eviction leaves the hand on the node it has freed. The next one
    reads that node; or, when no frame is left, it returns [UINT32_MAX] without
    releasing the lock, and every later operation deadlocks. *)
Theorem evict_twice h r fs i v j bits :
  clock_ok h r fs → fs ≠ [] → hand_at r fs i →
  clock (length fs) i (bits_of fs) = (Some v, j, bits) → (v < 2)%nat →
  ∃ z r' h', evict r h = Ok (z, r', h') ∧
    if decide (length fs = 1%nat) then
      ∃ r'', evict r' h' = Ok (UINT32_MAX, r'', h')
        ∧ ∀ h'' y, evict r'' h'' = Undef SelfDeadlock
          ∧ clock_replacer_pin y r'' h'' = Undef SelfDeadlock
          ∧ clock_replacer_unpin y r'' h'' = Undef SelfDeadlock
    else evict r' h' = Undef UseAfterFree.
Proof.
  intros Hok Hne Hi Hc Hv. destruct (evict_ok _ _ _ _ _ _ _ Hok Hne Hi Hc Hv)
    as (r' & h' & fs' & g & He & Hok' & Hb & Hg & Hhand & Hn & Hfreed & _).
  exists (f_id g), r', h'. split; [done|].
  assert (length fs' = length fs) as Hl.
  { apply clock_length in Hc. rewrite <- Hb in Hc. unfold bits_of in Hc. by rewrite !length_fmap in Hc. }
  pose proof (lo_size _ _ _ (ck_list _ _ _ Hok')) as Hs. rewrite zlen_nodes in Hs.
  pose proof (length_delete fs' v (mk_is_Some _ _ Hg)) as Hld.
  unfold evict at 1 3. rewrite (ck_latch _ _ _ Hok'). cbn [wrlock]. ok_step. unfold zlen in Hs.
  pose proof (lookup_lt_Some _ _ _ Hg) as Hlt.
  case_decide as Hone.
  - rewrite (proj2 (Z.eqb_eq _ _)) by lia. eexists. by split.
  - rewrite (proj2 (Z.eqb_neq _ _)) by lia. rewrite Hhand, (proj2 (Z.eqb_neq _ _)) by done.
    rewrite Hs. replace (Z.to_nat _) with (S (length fs' - 2)) by lia. cbn [sweep hand].
    unfold load_node. by rewrite load_freed.
Qed.

(** C28: a new replacer holds no frame; unpinning a frame that is not in the replacer
    adds it in front with its reference bit set, and pinning one of the first two
    frames removes it. In a replacer of at least two frames, pinning any other
    number, of a frame further behind or of none, frees the second node of the list
    with its key; in a replacer of one other frame it dereferences a null pointer.
    The numbers are below the capacity. *)
Theorem replacer_pin_unpin h r fs z :
  clock_ok h r fs → 0 ≤ z < num_pages r →
  (∀ h0 n, heap_ok h0 → 0 < n ≤ 65535 → clock_ok h0 (clock_replacer_init n) [])
  ∧ (z ∉ (bits_of fs).*1 →
      ∃ r' h' fs', clock_replacer_unpin z r h = Ok (r', h') ∧ clock_ok h' r' fs'
        ∧ bits_of fs' = (z, true) :: bits_of fs)
  ∧ (∀ i ref, bits_of fs !! i = Some (z, ref) → (i < 2)%nat →
      ∃ r' h' fs', clock_replacer_pin z r h = Ok (r', h') ∧ clock_ok h' r' fs'
        ∧ bits_of fs' = delete i (bits_of fs))
  ∧ ((2 ≤ length fs)%nat → z ∉ take 2 (bits_of fs).*1 →
      ∃ r' h', clock_replacer_pin z r h = Ok (r', h') ∧ second_lost h' (frames r') fs
        ∧ hand r' = hand r)
  ∧ (∀ y ref, bits_of fs = [(y, ref)] → y ≠ z → clock_replacer_pin z r h = Undef NullDeref).
Proof.
  intros Hok Hz. pose proof (ck_pages _ _ _ Hok) as Hpg.
  assert ((bits_of fs).*1 = f_id <$> fs) as Hids by (unfold bits_of; by rewrite <- list_fmap_compose).
  split_and!.
  - intros h0 n Hh Hn. by apply clock_replacer_init_ok.
  - rewrite Hids. intros Hnew.
    destruct (clock_replacer_unpin_ok _ _ _ _ Hok Hz Hnew) as (r' & h' & f & ? & ? & Hid & Href & _).
    exists r', h', (f :: fs). split_and!; [done|done|]. cbn. by rewrite Hid, Href.
  - intros i ref Hb Hi. unfold bits_of in Hb. rewrite list_lookup_fmap in Hb.
    destruct (fs !! i) as [f|] eqn:Hf; [|done]. injection Hb as <- <-.
    destruct (clock_replacer_pin_ok _ _ _ _ _ Hok Hf Hi) as (r' & h' & ? & ? & _).
    exists r', h', (delete i fs). split_and!; [done|done|]. apply list_fmap_delete.
  - rewrite Hids. intros Hlen Hnew. apply clock_pin_loses; [done|done|done|]. intros Hx. apply Hnew.
    destruct fs as [|f fs]; simpl in *; [done|]. injection Hx as ->. by left.
  - intros y ref Hb Hne. destruct fs as [|f [|f' fs]]; [done| |done]. injection Hb as <- <-.
    by apply (clock_pin_other _ _ f).
Qed.

(** ** A replacer of eight frames *)

Lemma sample_replacer :
  ∃ r h f, clock_replacer_unpin 5 (clock_replacer_init 8) new_heap = Ok (r, h)
    ∧ clock_ok h r [f] ∧ bits_of [f] = [(5, true)] ∧ hand r = NULL ∧ num_pages r = 8.
Proof.
  pose proof (clock_replacer_init_ok new_heap 8 new_heap_ok ltac:(lia)) as Hok.
  destruct (clock_replacer_unpin_ok _ _ _ 5 Hok) as (r & h & f & Hu & Hok' & Hid & Href & Hn & Hh & _).
  - done.
  - by intros ?%elem_of_nil.
  - exists r, h, f. cbn. rewrite Hid, Href. by split_and!.
Qed.

(** One more frame in front of the others. *)
Lemma unpin_in_front h r fs i z :
  clock_ok h r fs → hand_at r fs i → hand r ≠ NULL → 0 ≤ z < num_pages r → z ∉ (bits_of fs).*1 →
  ∃ r' h' fs', clock_ok h' r' fs' ∧ hand_at r' fs' (S i) ∧ hand r' ≠ NULL
    ∧ num_pages r' = num_pages r ∧ bits_of fs' = (z, true) :: bits_of fs.
Proof.
  intros Hok Hi Hn Hz Hnew. unfold bits_of in Hnew. rewrite <- list_fmap_compose in Hnew.
  destruct (clock_replacer_unpin_ok _ _ _ z Hok Hz Hnew) as (r' & h' & f & _ & Hok' & Hid & Href & Hp & Hh & _).
  exists r', h', (f :: fs). split_and!; [done| |congruence|done|cbn; by rewrite Hid, Href].
  destruct Hi as [[? _]|(g & Hg & Hgh)]; [done|]. right. exists g. split; [done|congruence].
Qed.

(** The frame under the hand is the third of the list and its bit is clear. *)
Lemma sample_behind :
  ∃ r h fs, clock_ok h r fs ∧ bits_of fs = [(7, true); (6, true); (5, false)] ∧ hand_at r fs 2
    ∧ num_pages r = 8.
Proof.
  destruct sample_replacer as (r & h & f & _ & Hok & Hbits & Hhand & Hn).
  destruct (evict_sweep h r [f] 0 Hok ltac:(done) (or_introl (conj Hhand eq_refl))) as (f' & Hf & _ & Hok').
  pose proof (sweep_ok 1 _ _ _ _ _ _ 0 f' true Hok' Hf eq_refl) as Hs. rewrite Hbits in Hs.
  destruct Hs as (ht' & hd' & h1 & fs1 & g & _ & Hok1 & Hb1 & Hg & Hhd & _).
  destruct (frame_blocks _ _ _ _ _ Hok1 Hg) as ((q & Hq) & _).
  pose proof (heap_ok_nonnull _ _ _ (nt_heap _ _ _ _ (ck_table _ _ _ Hok1)) Hq) as Hnn.
  destruct (unpin_in_front _ _ _ 0 6 Hok1) as (r2 & h2 & fs2 & Hok2 & Hi2 & Hn2 & Hp2 & Hb2).
  - right. by exists g.
  - cbn [hand]. congruence.
  - cbn [num_pages]. lia.
  - rewrite Hb1. by apply (bool_decide_unpack _).
  - cbn [num_pages] in Hp2.
    destruct (unpin_in_front _ _ _ 1 7 Hok2 Hi2 Hn2) as (r3 & h3 & fs3 & Hok3 & Hi3 & Hn3 & Hp3 & Hb3).
    + lia.
    + rewrite Hb2, Hb1. by apply (bool_decide_unpack _).
    + exists r3, h3, fs3. split_and!; [done|by rewrite Hb3, Hb2, Hb1|done|lia].
Qed.

(** The first round clears the bit, the second one evicts the frame. And with
    three frames, the one under the hand at the end of the list is returned and
    the second node is freed. *)
Lemma evict_clock_witness :
  (∃ r h r1 h1 r2 h2, clock_replacer_unpin 5 (clock_replacer_init 8) new_heap = Ok (r, h)
    ∧ evict r h = Ok (UINT32_MAX, r1, h1) ∧ evict r1 h1 = Ok (5, r2, h2))
  ∧ (∃ r h fs r' h' fs', clock_ok h r fs ∧ evict r h = Ok (5, r', h')
      ∧ second_lost h' (frames r') fs' ∧ bits_of fs' = [(7, true); (6, true); (5, false)]).
Proof.
  split; [|destruct sample_behind as (r & h & fs & Hok & Hb & Hi & _);
    pose proof (evict_clock h r fs 2 Hok ltac:(by intros ->) Hi) as H1;
    assert (length fs = 3%nat) as Hl by (apply (f_equal length) in Hb; unfold bits_of in Hb;
      by rewrite length_fmap in Hb);
    rewrite Hl, Hb in H1; cbn in H1;
    destruct H1 as (z & r' & h' & fs' & He & (ref & [= <- _]) & Hsl & Hb');
    exists r, h, fs, r', h', fs'; exact (conj Hok (conj He (conj Hsl Hb')))].
  destruct sample_replacer as (r & h & f & Hu & Hok & Hbits & Hhand & _).
  pose proof (evict_clock h r [f] 0 Hok ltac:(done) (or_introl (conj Hhand eq_refl))) as H1.
  rewrite Hbits in H1. destruct H1 as (r1 & h1 & fs1 & He & Hok1 & Hb1 & Hhand1).
  assert (fs1 ≠ []) as Hne by (by intros ->).
  assert (length fs1 = 1%nat) as Hl.
  { apply (f_equal length) in Hb1. unfold bits_of in Hb1. by rewrite length_fmap in Hb1. }
  pose proof (evict_clock h1 r1 fs1 _ Hok1 Hne Hhand1) as H2. rewrite Hb1, Hl in H2.
  cbn in H2. destruct H2 as (z & r2 & h2 & fs2 & He2 & (ref & Hz) & _).
  injection Hz as <- _. exists r, h, r1, h1, r2, h2. exact (conj Hu (conj He He2)).
Defined.

Lemma evict_twice_witness :
  ∃ r h r1 h1 r2 h2 r3, clock_replacer_unpin 5 (clock_replacer_init 8) new_heap = Ok (r, h)
    ∧ evict r h = Ok (UINT32_MAX, r1, h1) ∧ (∃ z, evict r1 h1 = Ok (z, r2, h2))
    ∧ evict r2 h2 = Ok (UINT32_MAX, r3, h2) ∧ evict r3 h2 = Undef SelfDeadlock.
Proof.
  destruct sample_replacer as (r & h & f & Hu & Hok & Hbits & Hhand & _).
  destruct (evict_sweep h r [f] 0 Hok ltac:(done) (or_introl (conj Hhand eq_refl)))
    as (f' & Hf & He & Hok').
  pose proof (sweep_ok 1 _ _ _ _ _ _ 0 f' true Hok' Hf eq_refl) as Hs. rewrite Hbits in Hs.
  destruct Hs as (ht' & hd' & h1 & fs1 & g & Hs & Hok1 & Hb1 & Hg & Hhd & _).
  assert (length fs1 = 1%nat) as Hl.
  { apply (f_equal length) in Hb1. unfold bits_of in Hb1. by rewrite length_fmap in Hb1. }
  assert (clock (length fs1) 0 (bits_of fs1) = (Some 0%nat, 0%nat, [(5, false)])) as Hc
    by (by rewrite Hl, Hb1).
  destruct (evict_twice h1 _ fs1 0 0 0 _ Hok1 ltac:(by intros ->)
              (or_intror (ex_intro _ g (conj Hg Hhd))) Hc ltac:(lia)) as (z & r2 & h2 & He2 & Htwice).
  rewrite Hl in Htwice. destruct Htwice as (r3 & He3 & Hdead).
  exists r, h. eexists. exists h1, r2, h2, r3. rewrite He.
  exact (conj Hu (conj Hs (conj (ex_intro _ z He2) (conj He3 (proj1 (Hdead h2 0)))))).
Defined.

Lemma replacer_pin_unpin_witness :
  ∃ r h, clock_replacer_unpin 5 (clock_replacer_init 8) new_heap = Ok (r, h)
    ∧ (∃ r1 h1 fs1, clock_replacer_unpin 6 r h = Ok (r1, h1) ∧ clock_ok h1 r1 fs1
        ∧ bits_of fs1 = [(6, true); (5, true)])
    ∧ clock_replacer_pin 6 r h = Undef NullDeref
    ∧ (∃ r2 h2 fs2 r3 h3, clock_ok h2 r2 fs2 ∧ (bits_of fs2).*1 = [7; 6; 5]
        ∧ clock_replacer_pin 5 r2 h2 = Ok (r3, h3) ∧ second_lost h3 (frames r3) fs2).
Proof.
  destruct sample_behind as (r2 & h2 & fs2 & Hok2 & Hb2 & _ & Hn2).
  destruct (replacer_pin_unpin h2 r2 fs2 5 Hok2 ltac:(lia)) as (_ & _ & _ & Hlose & _).
  destruct Hlose as (r3 & h3 & Hp3 & Hsl & _).
  { apply (f_equal length) in Hb2. unfold bits_of in Hb2. rewrite length_fmap in Hb2. simpl in Hb2. lia. }
  { rewrite Hb2. by apply (bool_decide_unpack _). }
  destruct sample_replacer as (r & h & f & Hu & Hok & Hbits & Hhand & Hn).
  destruct (replacer_pin_unpin h r [f] 6 Hok ltac:(lia)) as (_ & Hun & _ & _ & Hpin).
  rewrite Hbits in Hun, Hpin. exists r, h. split; [done|]. split; [|split].
  - apply Hun. by intros [?|?%elem_of_nil]%elem_of_cons.
  - by apply (Hpin 5 true).
  - exists r2, h2, fs2, r3, h3. split; [done|]. split; [by rewrite Hb2|done].
Defined.
