(* ===== verification/Disk.v ===== *)
(** * Disk: the disk manager ([disk/disk_manager.h], [disk/disk_manager.c])

    The file system is a map from paths to contents. The model is of a system
    on which [open], [lseek], [write] and [fsync] on regular files succeed and
    a [read] or [write] is not cut short except by the end of the file. *)
From S2P Require Import Prelude Serialize Memory Hash.

(** The bytes that a block of a page holds when [malloc] returns it: any. *)
Class Uninit := {
  uninit : list Z;
  uninit_length : zlen uninit = 4096;
  uninit_bytes : Forall is_byte uninit;
}.

(** ** The code *)

Abbreviation disk := (gmap text (list Z)).

Definition MAX_PAGES : Z := 500.
Definition DBFILES_DIR : text := str "db_files".

Record DiskManager := mkDiskManager {
  page_directory : HashTable;
  table_name : text;
  dm_latch : bool;
}.

(** Opens the file, creating it when it does not exist; the descriptor stands
    for its path, and the directory is created when it is missing. *)
Definition table_file (name : text) (d : disk) : outcome (text * disk) :=
  path ← sprintf 40 (DBFILES_DIR ++ str "/" ++ name ++ str ".db");
  Ok (path, match d !! path with Some _ => d | None => <[path := []]> d end).

(** The contents of an open file, and [write] or [pwrite] at an offset: a gap
    past the end reads as zeros. *)
Definition contents (path : text) (d : disk) : list Z := default [] (d !! path).
Definition file_write (off : Z) (bs content : list Z) : list Z :=
  splice (content ++ zeros (off + zlen bs - zlen content)) off bs.
Definition pwrite (path : text) (bs : list Z) (off : Z) (d : disk) : disk :=
  <[path := file_write off bs (contents path d)]> d.

Section disk.
Context {U : Uninit}.

(** The product is a 32-bit unsigned one. *)
Definition write_page (page_id : Z) (disk_manager : DiskManager) (data : list Z) (d : disk)
    : outcome disk :=
  _ ← sprintf 11 (format_d (i32 page_id));
  r ← table_file (table_name disk_manager) d;
  let '(fd, d) := r in
  Ok (pwrite fd data (u32 (page_id * PAGE_SIZE)) d).

(** The offset is an [int]; [lseek] refuses a negative one. What a short read
    leaves of the page is what the block held. *)
Definition read_page (page_id : Z) (disk_manager : DiskManager) (d : disk)
    : outcome (list Z * disk) :=
  r ← table_file (table_name disk_manager) d;
  let '(fd, d) := r in
  let offset := i32 (u32 (page_id * PAGE_SIZE)) in
  let fsize := zlen (contents fd d) in
  if fsize <=? offset then Exit 1
  else if offset <? 0 then Exit 1
  else
    let bs := slice (contents fd d) offset PAGE_SIZE in
    Ok (bs ++ drop (length bs) uninit, d).

(** Opening may create the file. *)
Definition close_table_file (disk_manager : DiskManager) (d : disk) : outcome disk :=
  r ← table_file (table_name disk_manager) d; Ok r.2.

Definition remove_table (name : text) (d : disk) : outcome disk :=
  path ← sprintf 40 (DBFILES_DIR ++ str "/" ++ name ++ str ".db");
  Ok (delete path d).

Definition new_btree_index_page (disk_manager : DiskManager) (is_leaf : bool) (d : disk)
    : outcome (Z * disk) :=
  r ← read_page 0 disk_manager d;
  let '(metadata_page, d) := r in
  magic ← decode_uint32 metadata_page 0;
  if negb (magic =? BTREE_INDEX) then Undef AssertFail
  else
    curr_node_num ← decode_uint16 metadata_page NODE_COUNT_OFFSET;
    let new_node_num := u16 (curr_node_num + 1) in
    metadata_page ← encode_uint16 new_node_num metadata_page NODE_COUNT_OFFSET;
    d ← write_page 0 disk_manager metadata_page d;
    page ← wr (zeros PAGE_SIZE) IS_LEAF_OFFSET (if is_leaf then 1 else 0);
    d ← write_page new_node_num disk_manager page d;
    Ok (new_node_num, d).

(** [page_directory] is left uninitialised; an index does not use it. The
    answer is a null pointer when the file has contents. *)
Definition create_btree_index (idx_name : text) (max_keys : Z) (d : disk)
    : outcome (option DiskManager * disk) :=
  name ← sprintf 25 idx_name;
  r ← table_file name d;
  let '(fd, d) := r in
  if negb (zlen (contents fd d) =? 0) then Ok (None, d)
  else
    index_buf ← encode_uint32 BTREE_INDEX (zeros PAGE_SIZE) 0;
    index_buf ← encode_uint16 0 index_buf 4;
    index_buf ← wr index_buf 6 max_keys;
    Ok (Some (mkDiskManager (mkHashTable [] 0 false) name false), pwrite fd index_buf 0 d).
End disk.

(** ** Files *)

Definition path_of (name : text) : text := DBFILES_DIR ++ str "/" ++ name ++ str ".db".
Definition short_name (name : text) : Prop := zlen name ≤ 27.

Lemma zlen_path name : zlen (path_of name) = 12 + zlen name.
Proof.
  unfold path_of, zlen. rewrite !length_app. simpl length. lia.
Qed.

Lemma table_file_ok name d :
  short_name name →
  table_file name d
  = Ok (path_of name, match d !! path_of name with Some _ => d | None => <[path_of name := []]> d end).
Proof.
  intros Hn. unfold table_file, sprintf, short_name in *. fold (path_of name).
  rewrite zlen_path. by rewrite (proj2 (Z.leb_le _ _)) by lia.
Qed.

(** What opening creates is invisible in the contents. *)
Lemma contents_open name path d :
  contents path (match d !! path_of name with Some _ => d | None => <[path_of name := []]> d end)
  = contents path d.
Proof.
  destruct (d !! path_of name) eqn:E; [done|]. unfold contents.
  destruct (decide (path = path_of name)) as [->|]; [by rewrite lookup_insert_eq, E|].
  by rewrite lookup_insert_ne by done.
Qed.

Lemma zlen_file_write off bs content :
  0 ≤ off → zlen (file_write off bs content) = Z.max (zlen content) (off + zlen bs).
Proof.
  intros Ho. unfold file_write. pose proof (zlen_nonneg bs). pose proof (zlen_nonneg content).
  destruct (Z.le_ge_cases (off + zlen bs) (zlen content)).
  - assert (zeros (off + zlen bs - zlen content) = []) as -> by
      (unfold zeros; by replace (Z.to_nat _) with 0%nat by lia).
    rewrite app_nil_r, zlen_splice by lia. lia.
  - assert (zlen (content ++ zeros (off + zlen bs - zlen content)) = off + zlen bs) as Hz by
      (rewrite zlen_app, zlen_zeros; lia).
    rewrite zlen_splice; lia.
Qed.

(** A write is read back, and leaves the other ranges of the file alone. *)
Lemma slice_file_write_same off bs content :
  0 ≤ off → slice (file_write off bs content) off (zlen bs) = bs.
Proof.
  intros Ho. unfold file_write. pose proof (zlen_nonneg bs). pose proof (zlen_nonneg content).
  apply slice_splice_same; [done| |done]. rewrite zlen_app.
  destruct (Z.le_ge_cases 0 (off + zlen bs - zlen content)); [rewrite zlen_zeros; lia|].
  pose proof (zlen_nonneg (zeros (off + zlen bs - zlen content))). lia.
Qed.

Lemma slice_app_l (l1 l2 : list Z) off len :
  0 ≤ off → 0 ≤ len → off + len ≤ zlen l1 → slice (l1 ++ l2) off len = slice l1 off len.
Proof.
  unfold slice, zlen. intros. rewrite drop_app_le, take_app_le; [done| |lia].
  rewrite length_drop. lia.
Qed.

Lemma slice_file_write_other off bs content off' len :
  0 ≤ off → 0 ≤ off' → 0 ≤ len → off' + len ≤ zlen content →
  off' + len ≤ off ∨ off + zlen bs ≤ off' →
  slice (file_write off bs content) off' len = slice content off' len.
Proof.
  intros Ho Ho' Hl Hin Hd. unfold file_write. pose proof (zlen_nonneg bs).
  rewrite slice_splice_other; [by apply slice_app_l|done| |done..].
  rewrite zlen_app. destruct (Z.le_ge_cases 0 (off + zlen bs - zlen content));
    [rewrite zlen_zeros; lia|].
  pose proof (zlen_nonneg (zeros (off + zlen bs - zlen content))). lia.
Qed.

(** ** Pages *)

(** Page numbers whose offset fits an [int]. *)
Definition MAX_PID : Z := 524287.

Section pages.
Context {U : Uninit}.
Implicit Types (dm : DiskManager) (d : disk).

Definition file_of dm d : list Z := contents (path_of (table_name dm)) d.
Definition page_of dm (pid : Z) d : list Z := slice (file_of dm d) (pid * PAGE_SIZE) PAGE_SIZE.
Definition has_page dm (pid : Z) d : Prop := (pid + 1) * PAGE_SIZE ≤ zlen (file_of dm d).

Lemma page_offset pid :
  0 ≤ pid ≤ MAX_PID → u32 (pid * PAGE_SIZE) = pid * PAGE_SIZE
    ∧ i32 (u32 (pid * PAGE_SIZE)) = pid * PAGE_SIZE.
Proof.
  unfold MAX_PID, PAGE_SIZE, u32, i32. intros Hp.
  rewrite (Z.mod_small (pid * 4096)) by lia. split; [done|]. apply to_signed_id; lia.
Qed.

Lemma pid_str_ok pid : 0 ≤ pid < 10 ^ 9 → sprintf 11 (format_d (i32 pid)) = Ok (format_u pid).
Proof.
  intros Hp. assert (i32 pid = pid) as -> by (apply to_signed_id; lia).
  rewrite format_d_nonneg by lia. unfold sprintf, zlen, format_u.
  assert (length (dec 10 pid) ≤ 9)%nat by (apply dec_length; [exact Hp|lia]).
  by rewrite (proj2 (Z.leb_le _ _)) by lia.
Qed.

Lemma read_page_ok dm pid d :
  short_name (table_name dm) → 0 ≤ pid ≤ MAX_PID → has_page dm pid d →
  ∃ d', read_page pid dm d = Ok (page_of dm pid d, d') ∧ ∀ p, contents p d' = contents p d.
Proof.
  intros Hn Hp Hh. unfold has_page, file_of, PAGE_SIZE in Hh.
  eexists. split; cycle 1; [intros p; apply (contents_open (table_name dm) p d)|].
  unfold read_page. rewrite table_file_ok by done. cbn [mbind outcome_bind].
  destruct (page_offset pid Hp) as [_ ->]. rewrite contents_open. unfold PAGE_SIZE.
  rewrite (proj2 (Z.leb_gt _ _)), (proj2 (Z.ltb_ge _ _)) by lia.
  do 2 f_equal. unfold page_of, file_of, PAGE_SIZE.
  pose proof (zlen_slice (contents (path_of (table_name dm)) d) (pid * 4096) 4096
                ltac:(lia) ltac:(lia) ltac:(lia)) as Hl.
  rewrite (drop_ge uninit), app_nil_r; [done|].
  pose proof uninit_length. unfold zlen in *. lia.
Qed.

Lemma write_page_ok dm pid data d :
  short_name (table_name dm) → 0 ≤ pid ≤ MAX_PID → zlen data = PAGE_SIZE →
  ∃ d', write_page pid dm data d = Ok d'
    ∧ contents (path_of (table_name dm)) d'
      = file_write (pid * PAGE_SIZE) data (contents (path_of (table_name dm)) d)
    ∧ ∀ p, p ≠ path_of (table_name dm) → contents p d' = contents p d.
Proof.
  intros Hn Hp Hdata. unfold MAX_PID in *. eexists. split_and!.
  - unfold write_page. rewrite pid_str_ok, table_file_ok by (done || lia).
    cbn [mbind outcome_bind]. by destruct (page_offset pid Hp) as [-> _].
  - unfold pwrite. rewrite contents_open. unfold contents at 1. by rewrite lookup_insert_eq.
  - intros p Hne. unfold pwrite. unfold contents at 1. rewrite lookup_insert_ne by done.
    apply (contents_open (table_name dm) p d).
Qed.

(** The page views of a write. *)
Lemma page_of_write dm pid data d d' :
  0 ≤ pid → zlen data = PAGE_SIZE →
  file_of dm d' = file_write (pid * PAGE_SIZE) data (file_of dm d) →
  page_of dm pid d' = data ∧ has_page dm pid d'
  ∧ (∀ q, 0 ≤ q → q ≠ pid → has_page dm q d → page_of dm q d' = page_of dm q d)
  ∧ (∀ q, has_page dm q d → has_page dm q d').
Proof.
  unfold page_of, has_page, PAGE_SIZE. intros Hp Hdata ->. rewrite zlen_file_write by lia.
  rewrite Hdata. split_and!.
  - rewrite <- Hdata at 3. apply slice_file_write_same. lia.
  - lia.
  - intros q Hq Hne Hh. apply slice_file_write_other; lia.
  - intros q. lia.
Qed.
End pages.

(** ** Properties *)

Section properties.
Context {U : Uninit}.
Implicit Types (dm : DiskManager) (d : disk).

(** C34: a page written to the file of a table is read back as it was
    written; the other pages of the file and the other files keep their
    contents. *)
Theorem write_page_read_page dm pid data d q :
  short_name (table_name dm) → 0 ≤ pid ≤ MAX_PID → zlen data = PAGE_SIZE →
  0 ≤ q ≤ MAX_PID → q = pid ∨ has_page dm q d →
  ∃ d1 d2, write_page pid dm data d = Ok d1
    ∧ read_page q dm d1 = Ok (if decide (q = pid) then data else page_of dm q d, d2)
    ∧ ∀ p, p ≠ path_of (table_name dm) → contents p d2 = contents p d.
Proof.
  intros Hn Hp Hdata Hq Hpage.
  destruct (write_page_ok dm pid data d) as (d1 & Hw & Hf & Hother); [done..|].
  destruct (page_of_write dm pid data d d1) as (Hsame & Hhas & Hrest & Hkeep); [lia|done|done|].
  destruct (read_page_ok dm q d1) as (d2 & Hr & Hd2); [done|done| |].
  { destruct Hpage as [->|Hh]; auto. }
  exists d1, d2. split_and!; [done| |].
  - rewrite Hr. case_decide as Heq; [by subst q; rewrite Hsame|].
    destruct Hpage as [Hq'|Hh]; [by destruct Heq|]. by rewrite (Hrest q (proj1 Hq) Heq Hh).
  - intros p Hne. rewrite Hd2. by apply Hother.
Qed.

(** Reading a page that the file does not reach ends the program with
    status 1, and so does reading a page number whose offset is negative as
    an [int]. *)
Theorem read_page_past_end dm pid d :
  short_name (table_name dm) →
  (0 ≤ pid ≤ MAX_PID ∧ zlen (contents (path_of (table_name dm)) d) ≤ pid * PAGE_SIZE)
  ∨ MAX_PID < pid < 2 ^ 20 →
  read_page pid dm d = Exit 1.
Proof.
  intros Hn Hp. unfold read_page. rewrite table_file_ok by done. cbn [mbind outcome_bind].
  rewrite contents_open. destruct Hp as [[Hp Hl]|Hp].
  - destruct (page_offset pid Hp) as [_ ->]. by rewrite (proj2 (Z.leb_le _ _)) by lia.
  - case_bool; [done|]. unfold MAX_PID, PAGE_SIZE, i32, to_signed, u32 in *.
    rewrite (proj2 (Z.ltb_lt _ _)); [done|].
    rewrite (Z.mod_small (pid * 4096)) by lia.
    replace ((pid * 4096 + 2 ^ (32 - 1)) mod 2 ^ 32) with (pid * 4096 - 2 ^ 31); [lia|].
    apply Z.mod_unique_pos with 1; lia.
Qed.

(** C40: page numbers wrap around at 2^20: the offset is a 32-bit product, so
    writing page [pid + 2^20] writes page [pid]. *)
Theorem write_page_wraps dm pid data d :
  0 ≤ pid < 10 ^ 8 → write_page (pid + 2 ^ 20) dm data d = write_page pid dm data d.
Proof.
  intros Hp. unfold write_page. rewrite !pid_str_ok by lia. cbn [mbind outcome_bind].
  assert (u32 ((pid + 2 ^ 20) * PAGE_SIZE) = u32 (pid * PAGE_SIZE)) as ->; [|done].
  unfold u32, PAGE_SIZE. replace ((pid + 2 ^ 20) * 4096) with (pid * 4096 + 1 * 2 ^ 32) by lia.
  apply Z.mod_add. lia.
Qed.
End properties.

(** ** Index files *)

Section index_files.
Context {U : Uninit}.
Implicit Types (dm : DiskManager) (d : disk).

(** The metadata page of an index with [count] pages besides it. *)
Record index_file (dm : DiskManager) (count max_keys : Z) (d : disk) : Prop := {
  if_name : short_name (table_name dm);
  if_page : has_page dm 0 d;
  if_magic : slice (file_of dm d) 0 4 = be32 BTREE_INDEX;
  if_count : slice (file_of dm d) 4 2 = be16 count;
  if_max_keys : slice (file_of dm d) 6 1 = [max_keys];
}.

Definition blank_page (is_leaf : bool) : list Z :=
  splice (zeros PAGE_SIZE) IS_LEAF_OFFSET [if is_leaf then 1 else 0].

Lemma blank_page_length is_leaf : zlen (blank_page is_leaf) = PAGE_SIZE.
Proof. by vm_compute. Qed.

(** What the metadata page is, after the count was changed. *)
Lemma page_of_slice dm pid d off len :
  0 ≤ pid → 0 ≤ off → 0 ≤ len → off + len ≤ PAGE_SIZE →
  slice (page_of dm pid d) off len = slice (file_of dm d) (pid * PAGE_SIZE + off) len.
Proof. intros. unfold page_of, PAGE_SIZE in *. apply slice_slice; lia. Qed.

Lemma new_btree_index_page_ok dm count max_keys is_leaf d :
  index_file dm count max_keys d → 0 ≤ count < 2 ^ 16 →
  ∃ d', new_btree_index_page dm is_leaf d = Ok (u16 (count + 1), d')
    ∧ page_of dm (u16 (count + 1)) d' = blank_page is_leaf
    ∧ (∀ q, 0 < q → q ≠ u16 (count + 1) → has_page dm q d → page_of dm q d' = page_of dm q d)
    ∧ (∀ q, has_page dm q d → has_page dm q d')
    ∧ (u16 (count + 1) ≠ 0 → index_file dm (count + 1) max_keys d').
Proof.
  intros [Hn Hpage Hmagic Hcount Hmax] Hc.
  destruct (read_page_ok dm 0 d) as (d1 & Hread & Hd1); [done|done|done|].
  assert (zlen (page_of dm 0 d) = PAGE_SIZE) as Hlen.
  { unfold page_of, has_page in *. rewrite zlen_slice; [done|done|done|lia]. }
  unfold new_btree_index_page. rewrite Hread. ok_step.
  set (meta := page_of dm 0 d) in *.
  assert (slice meta 0 4 = be32 BTREE_INDEX ∧ slice meta 4 2 = be16 count
          ∧ slice meta 6 1 = [max_keys]) as (Hm0 & Hm4 & Hm6).
  { unfold meta. by rewrite !page_of_slice. }
  rewrite (decode_uint32_at BTREE_INDEX meta 0) by done. ok_step.
  change (negb (u32 BTREE_INDEX =? BTREE_INDEX)) with false. cbv iota.
  change NODE_COUNT_OFFSET with 4. rewrite (decode_uint16_at count meta 4) by done.
  ok_step.
  assert (u16 count = count) as -> by (unfold u16; rewrite Z.mod_small; lia).
  set (n := u16 (count + 1)).
  assert (0 ≤ n < 2 ^ 16) as Hnb by (apply Z.mod_pos_bound; lia).
  rewrite encode_uint16_ok by (rewrite ?Hlen; unfold PAGE_SIZE; lia). ok_step.
  assert (zlen (splice meta 4 (be16 n)) = PAGE_SIZE) as Hlen'.
  { rewrite zlen_splice by (rewrite ?Hlen; done). done. }
  destruct (write_page_ok dm 0 (splice meta 4 (be16 n)) d1) as (d2 & Hw2 & Hf2 & _); [done..|].
  rewrite Hw2. ok_step.
  rewrite (wr_ok (zeros PAGE_SIZE)) by (rewrite zlen_zeros; done). ok_step.
  fold (blank_page is_leaf).
  destruct (write_page_ok dm n (blank_page is_leaf) d2) as (d3 & Hw3 & Hf3 & _);
    [done|unfold MAX_PID; lia|apply blank_page_length|].
  rewrite Hw3. ok_step. exists d3. split; [done|].
  rewrite Hd1 in Hf2.
  destruct (page_of_write dm 0 (splice meta 4 (be16 n)) d d2) as (Hp2 & Hh2 & Ho2 & Hk2); [done..|].
  destruct (page_of_write dm n (blank_page is_leaf) d2 d3) as (Hp3 & Hh3 & Ho3 & Hk3);
    [lia|apply blank_page_length|done|].
  split_and!; [done| |by auto|].
  - intros q Hq Hne Hh. rewrite Ho3, Ho2; [done|lia|lia|done|lia|done|by apply Hk2].
  - intros Hn0. fold n in Hn0.
    assert (n = count + 1) as Hn1.
    { unfold n, u16. apply Z.mod_small. destruct (decide (count = 65535)) as [->|]; [done|lia]. }
    assert (page_of dm 0 d3 = splice meta 4 (be16 n)) as Hmeta by (by rewrite Ho3, Hp2).
    rewrite <- Hn1.
    split; [done|by auto|..].
    + change 0 with (0 * PAGE_SIZE + 0) at 1. rewrite <- page_of_slice, Hmeta by done.
      rewrite slice_splice_other; [done|done|rewrite Hlen; done|done|done|by left].
    + change 4 with (0 * PAGE_SIZE + 4) at 1. rewrite <- page_of_slice, Hmeta by done.
      apply slice_splice_same; [done|rewrite Hlen; done|done].
    + change 6 with (0 * PAGE_SIZE + 6) at 1. rewrite <- page_of_slice, Hmeta by done.
      rewrite slice_splice_other; [done|done|rewrite Hlen; done|done|done|by right].
Qed.


(** C35: allocating an index page of a file of [count] pages returns page
    [count + 1], blank but for its leaf flag; the metadata counts it and every
    other page keeps its contents. *)
Theorem new_btree_index_page_spec dm count max_keys is_leaf d :
  index_file dm count max_keys d → 0 ≤ count < 65535 →
  ∃ d', new_btree_index_page dm is_leaf d = Ok (count + 1, d')
    ∧ index_file dm (count + 1) max_keys d'
    ∧ page_of dm (count + 1) d' = blank_page is_leaf
    ∧ ∀ q, 0 < q → q ≠ count + 1 → has_page dm q d → page_of dm q d' = page_of dm q d.
Proof.
  intros Hf Hc. destruct (new_btree_index_page_ok dm count max_keys is_leaf d Hf)
    as (d' & Hnew & Hblank & Hother & _ & Hf'); [lia|].
  assert (u16 (count + 1) = count + 1) as Hu by (unfold u16; rewrite Z.mod_small; lia).
  rewrite Hu in *. exists d'. split_and!; [done|apply Hf'; lia|done|done].
Qed.

(** The count of pages is 16 bits wide: the 65536th allocation returns
    page 0 and overwrites the metadata with a blank page, after which every
    further allocation fails its assertion. *)
Theorem new_btree_index_page_wraps dm max_keys is_leaf d :
  index_file dm 65535 max_keys d →
  ∃ d', new_btree_index_page dm is_leaf d = Ok (0, d') ∧ page_of dm 0 d' = blank_page is_leaf
    ∧ ∀ is_leaf', new_btree_index_page dm is_leaf' d' = Undef AssertFail.
Proof.
  intros Hf. destruct (new_btree_index_page_ok dm 65535 max_keys is_leaf d Hf)
    as (d' & Hnew & Hblank & _ & Hkeep & _); [lia|].
  change (u16 (65535 + 1)) with 0 in *. exists d'. split_and!; [done|done|]. intros is_leaf'.
  unfold new_btree_index_page.
  destruct (read_page_ok dm 0 d') as (d1 & -> & _);
    [by eapply if_name|done|by apply Hkeep; eapply if_page|].
  rewrite Hblank. by destruct is_leaf.
Qed.

(** The metadata of a new index. *)
Definition new_index_page (max_keys : Z) : list Z :=
  splice (splice (splice (zeros PAGE_SIZE) 0 (be32 BTREE_INDEX)) 4 (be16 0)) 6 [max_keys].

Lemma create_btree_index_ok name max_keys d :
  zlen name < 25 → is_byte max_keys → contents (path_of name) d = [] →
  ∃ d', create_btree_index name max_keys d = Ok (Some (mkDiskManager (mkHashTable [] 0 false) name false), d')
    ∧ contents (path_of name) d' = new_index_page max_keys.
Proof.
  intros Hname Hmax He. unfold create_btree_index, sprintf.
  rewrite (proj2 (Z.leb_le _ _)) by lia. ok_step.
  assert (short_name name) as Hs by (unfold short_name; lia).
  rewrite table_file_ok by done. ok_step. rewrite contents_open, He.
  change (negb (zlen (@nil Z) =? 0)) with false. cbv iota.
  rewrite (encode_uint32_ok _ (zeros PAGE_SIZE)) by (rewrite ?zlen_zeros; done). ok_step.
  rewrite encode_uint16_ok by by_compute. ok_step. rewrite wr_ok by by_compute. ok_step.
  eexists. split; [done|]. unfold pwrite. rewrite contents_open.
  unfold contents at 1. rewrite lookup_insert_eq, He. by vm_compute.
Qed.

Lemma new_index_file name max_keys d :
  short_name name → contents (path_of name) d = new_index_page max_keys →
  index_file (mkDiskManager (mkHashTable [] 0 false) name false) 0 max_keys d.
Proof.
  intros Hs Hf. split; [done|unfold has_page, file_of; cbn [table_name]; by rewrite Hf|..];
    unfold file_of; cbn [table_name]; rewrite Hf; by vm_compute.
Qed.

(** A new index file holds the magic number, a count of 0 and the
    maximal number of keys; a file that has contents already is refused and
    not changed. *)
Theorem create_btree_index_spec name max_keys d :
  zlen name < 25 → is_byte max_keys →
  (contents (path_of name) d = [] →
    ∃ dm d', create_btree_index name max_keys d = Ok (Some dm, d') ∧ table_name dm = name
      ∧ index_file dm 0 max_keys d')
  ∧ (contents (path_of name) d ≠ [] →
    ∃ d', create_btree_index name max_keys d = Ok (None, d')
      ∧ ∀ p, contents p d' = contents p d).
Proof.
  intros Hname Hmax. assert (short_name name) as Hs by (unfold short_name; lia). split.
  - intros He. destruct (create_btree_index_ok name max_keys d Hname Hmax He) as (d' & -> & Hf).
    eexists _, d'. split_and!; [done|done|]. by apply new_index_file.
  - intros Hne. unfold create_btree_index, sprintf. rewrite (proj2 (Z.leb_le _ _)) by lia. ok_step.
    rewrite table_file_ok by done. ok_step. rewrite contents_open.
    destruct (zlen (contents (path_of name) d) =? 0) eqn:E.
    { apply Z.eqb_eq in E. unfold zlen in E. destruct (contents (path_of name) d); [done|].
      simpl in E. lia. }
    eexists. split; [done|]. intros p. apply (contents_open name p d).
Qed.

(** A table name longer than 27 characters overruns the 40 bytes of the
    path, in every operation that opens the file. *)
Theorem long_name_overflows dm name pid data d :
  27 < zlen name → table_name dm = name → 0 ≤ pid < 10 ^ 9 →
  table_file name d = Undef OutOfBounds ∧ remove_table name d = Undef OutOfBounds
  ∧ read_page pid dm d = Undef OutOfBounds ∧ write_page pid dm data d = Undef OutOfBounds.
Proof.
  intros Hn Hdm Hp.
  assert (sprintf 40 (path_of name) = Undef OutOfBounds) as Hs.
  { unfold sprintf. rewrite zlen_path. by rewrite (proj2 (Z.leb_gt _ _)) by lia. }
  unfold remove_table, read_page, write_page, table_file. rewrite Hdm, pid_str_ok by done.
  fold (path_of name). by rewrite Hs.
Qed.
End index_files.

(** ** Concrete instances *)

Definition zero_uninit : Uninit.
Proof. refine {| uninit := zeros 4096 |}; [done|]. by apply Forall_replicate. Defined.

Definition sample_dm : DiskManager := mkDiskManager (mkHashTable [] 0 false) (str "idx") false.
Definition sample_disk : disk := {[ path_of (str "idx") := zeros 8192 ]}.
Definition sample_page : list Z := replicate (Z.to_nat 4096) 7.

Lemma write_page_read_page_witness :
  ∃ d1 d2, write_page 5 sample_dm sample_page sample_disk = Ok d1
    ∧ read_page (U:=zero_uninit) 5 sample_dm d1
      = Ok (if decide (5 = 5) then sample_page else page_of sample_dm 5 sample_disk, d2)
    ∧ ∀ p, p ≠ path_of (table_name sample_dm) → contents p d2 = contents p sample_disk.
Proof.
  refine (write_page_read_page (U:=zero_uninit) sample_dm 5 sample_page sample_disk 5 _ _ _ _ _);
    [by_compute..|by left].
Defined.

Lemma read_page_past_end_witness :
  read_page (U:=zero_uninit) 2 sample_dm sample_disk = Exit 1
  ∧ read_page (U:=zero_uninit) 600000 sample_dm sample_disk = Exit 1.
Proof.
  split; refine (read_page_past_end (U:=zero_uninit) _ _ _ _ _); [by_compute|left| |right];
    by_compute.
Defined.

Lemma write_page_wraps_witness :
  write_page (3 + 2 ^ 20) sample_dm sample_page sample_disk
  = write_page 3 sample_dm sample_page sample_disk.
Proof. apply write_page_wraps. by_compute. Defined.

(** The metadata page of an index with [count] pages of at most 4 keys. *)
Definition sample_meta (count : Z) : list Z :=
  splice (zeros PAGE_SIZE) 0 (be32 BTREE_INDEX ++ be16 count ++ [4]).
Definition sample_index (count : Z) : disk := {[ path_of (str "idx") := sample_meta count ]}.

Lemma sample_index_file count : index_file sample_dm count 4 (sample_index count).
Proof.
  assert (file_of sample_dm (sample_index count) = sample_meta count) as Hf.
  { unfold file_of, sample_index, contents. by rewrite lookup_singleton_eq. }
  split; [done|unfold has_page|..]; rewrite Hf; try (by vm_compute).
Qed.

Lemma new_btree_index_page_spec_witness :
  ∃ d', new_btree_index_page (U:=zero_uninit) sample_dm true (sample_index 6) = Ok (6 + 1, d')
    ∧ index_file sample_dm (6 + 1) 4 d'
    ∧ page_of sample_dm (6 + 1) d' = blank_page true
    ∧ ∀ q, 0 < q → q ≠ 6 + 1 → has_page sample_dm q (sample_index 6) →
        page_of sample_dm q d' = page_of sample_dm q (sample_index 6).
Proof.
  apply (new_btree_index_page_spec (U:=zero_uninit)); [apply sample_index_file|by_compute].
Defined.

Lemma new_btree_index_page_wraps_witness :
  ∃ d', new_btree_index_page (U:=zero_uninit) sample_dm false (sample_index 65535) = Ok (0, d')
    ∧ page_of sample_dm 0 d' = blank_page false
    ∧ ∀ is_leaf',
        new_btree_index_page (U:=zero_uninit) sample_dm is_leaf' d' = Undef AssertFail.
Proof. apply (new_btree_index_page_wraps _ 4). apply sample_index_file. Defined.

Lemma create_btree_index_spec_witness :
  ∃ dm d', create_btree_index (str "new_index") 4 sample_disk = Ok (Some dm, d')
    ∧ table_name dm = str "new_index" ∧ index_file dm 0 4 d'.
Proof.
  refine (proj1 (create_btree_index_spec (str "new_index") 4 sample_disk _ _) _); [by_compute..|].
  by vm_compute.
Defined.

Lemma long_name_overflows_witness :
  let name := str "a_table_name_of_28_charactrs" in
  let dm := mkDiskManager (mkHashTable [] 0 false) name false in
  table_file name ∅ = Undef OutOfBounds ∧ remove_table name ∅ = Undef OutOfBounds
  ∧ read_page (U:=zero_uninit) 1 dm ∅ = Undef OutOfBounds
  ∧ write_page 1 dm sample_page ∅ = Undef OutOfBounds.
Proof. apply (long_name_overflows (U:=zero_uninit)); by_compute. Defined.
