(* ===== verification/Heapfile.v ===== *)
(** * Heapfile: tables as files of slotted pages ([disk/heapfile.h],
    [disk/heapfile.c])

    Page 0 of a table file is the page directory, page 1 the schema, the pages
    from 2 on hold tuples. The operations work on the file of the table, on
    the in-memory page directory of its disk manager (a hash table from page
    numbers to free space) and on the heap that holds the directory's keys and
    data. *)
From S2P Require Import Prelude Serialize Memory Hash Disk.

(** ** The code *)

Definition START_USER_PAGE : Z := 2.
Definition START_COLUMNS_INFO : Z := 1.
Definition COMPACTABLE : Z := Z.shiftl 1 7.
Definition PAGE_HEADER_SIZE : Z := 5.
Definition TUPLE_PTR_SIZE : Z := 4.
(** The product is a 32-bit unsigned one. *)
Definition TUPLE_INDEX_TO_TUPLE_POINTER_OFFSET (idx : Z) : Z :=
  PAGE_HEADER_SIZE + u32 (idx * TUPLE_PTR_SIZE).
Definition TUPLE_POINTER_OFFSET_TO_TUPLE_INDEX (offset : Z) : Z :=
  (offset - PAGE_HEADER_SIZE) / TUPLE_PTR_SIZE.
Definition PID_TO_PAGE_DIRECTORY_OFFSET (pid : Z) : Z := pid * 2.
Definition SCHEMA_COLUMN_SIZE (col_name_len : Z) : Z := 1 + col_name_len + 1.

Record Header := mkHeader { id : Z; free_start : Z; free_end : Z; flags : Z }.
Record TuplePtr := mkTuplePtr { start_offset : Z; tuple_size : Z }.

Inductive ColumnType := BOOLEAN | STRING | INTEGER | DECIMAL.
Definition type_code (t : ColumnType) : Z :=
  match t with BOOLEAN => 1 | STRING => 2 | INTEGER => 3 | DECIMAL => 4 end.
#[export] Instance ColumnType_eq_dec : EqDecision ColumnType.
Proof. solve_decision. Defined.

(** A [double] is its 64-bit representation; reading a member that was not
    written is outside the model. *)
Inductive ColumnValue :=
  | boolean (b : Z)
  | integer (z : Z)
  | decimal (w : Z)
  | string_ (s : text).

Record Column := mkColumn { name_len : Z; name : list Z; column_type : ColumnType }.

Inductive TupleAction := TUPLE_ADD | TUPLE_REMOVE.

Record AddTupleArgs := mkAddTupleArgs {
  column_names : list text;
  column_values : list ColumnValue;
  column_types : list ColumnType;
  num_columns : Z;
}.

Definition nth_at {A} (l : list A) (i : nat) : outcome A :=
  match l !! i with Some a => Ok a | None => Undef OutOfBounds end.

(** *** Headers and tuple pointers *)

Definition extract_header (page : list Z) (page_id : Z) : outcome Header :=
  fs ← decode_uint16 page 0;
  fe ← decode_uint16 page 2;
  fl ← rd page 4;
  Ok (mkHeader page_id fs fe fl).

Definition extract_tuple_ptr (page : list Z) (slot_num : Z) : outcome TuplePtr :=
  tuple_ptr_buf ← rd_bytes page (TUPLE_INDEX_TO_TUPLE_POINTER_OFFSET slot_num) TUPLE_PTR_SIZE;
  start ← decode_uint16 tuple_ptr_buf 0;
  size ← decode_uint16 tuple_ptr_buf 2;
  Ok (mkTuplePtr start size).

Definition construct_page_header_buf (page : list Z) (header : Header) : outcome (list Z) :=
  page ← encode_uint16 (free_start header) page 0;
  page ← encode_uint16 (free_end header) page 2;
  wr page 4 (flags header).

Definition construct_page_tuple_ptr (page : list Z) (slot_num : Z) (p : TuplePtr)
    : outcome (list Z) :=
  let off := TUPLE_INDEX_TO_TUPLE_POINTER_OFFSET slot_num in
  page ← encode_uint16 (start_offset p) page off;
  encode_uint16 (tuple_size p) page (off + 2).

(** *** The page directory *)

(** The comparison with the needed size is one of the {e address} of the free
    space, as the code has it. *)
Fixpoint find_page_from (pids : list Z) (size_needed : Z) (ht : HashTable) (h : heap)
    : outcome (option Z) :=
  match pids with
  | [] => Ok None
  | i :: pids =>
      pid_key ← sprintf 11 (format_d i);
      found ← hash_find pid_key ht h;
      match found with
      | Some el => if size_needed <=? el_data el then Ok (Some i)
                   else find_page_from pids size_needed ht h
      | None => find_page_from pids size_needed ht h
      end
  end.
Definition user_pages : list Z := seqZ START_USER_PAGE (MAX_PAGES - START_USER_PAGE).
Definition find_spacious_page (size_needed : Z) (dm : DiskManager) (h : heap)
    : outcome (option Z) :=
  find_page_from user_pages size_needed (page_directory dm) h.

Definition set_directory (dm : DiskManager) (ht : HashTable) : DiskManager :=
  mkDiskManager ht (table_name dm) (dm_latch dm).
Definition set_dm_latch (dm : DiskManager) (l : bool) : DiskManager :=
  mkDiskManager (page_directory dm) (table_name dm) l.

Definition update_page_dir (dm : DiskManager) (pid tuple_size : Z) (act : TupleAction)
    (h : heap) (d : disk) : outcome (DiskManager * heap * disk) :=
  s ← sprintf 11 (format_u pid);
  let '(pid_key, h) := malloc (OStr s) h in
  found ← hash_find s (page_directory dm) h;
  match found with
  | None => Undef NullDeref
  | Some el =>
      curr_free_space ← load_u16 (el_data el) h;
      r ← hash_remove s (page_directory dm) h;
      let '(_, ht, h) := r in
      let space := u16 (match act with
                        | TUPLE_ADD => curr_free_space - tuple_size
                        | TUPLE_REMOVE => curr_free_space + tuple_size
                        end) in
      let '(free_space, h) := malloc (OU16 space) h in
      ht ← hash_insert pid_key free_space ht h;
      r ← table_file (table_name dm) d;
      let '(fd, d) := r in
      total_buf ← encode_uint16 (u16 pid) (zeros 4) 0;
      total_buf ← encode_uint16 space total_buf 2;
      Ok (set_directory dm ht, h,
          pwrite fd total_buf (u32 (PID_TO_PAGE_DIRECTORY_OFFSET pid)) d)
  end.

(** *** Tables *)

(** The directory of the file, with the entry of a page in memory for every
    user page. *)
Fixpoint create_directory (pids : list Z) (content : list Z) (ht : HashTable) (h : heap)
    : outcome (list Z * HashTable * heap) :=
  match pids with
  | [] => Ok (content, ht, h)
  | pid :: pids =>
      pid_buf ← encode_uint16 (u16 pid) (zeros 2) 0;
      free_space_buf ← encode_uint16 PAGE_SIZE (zeros 2) 0;
      let content := content ++ pid_buf ++ free_space_buf in
      if pid <? START_USER_PAGE then create_directory pids content ht h
      else
        let '(free_space, h) := malloc (OU16 PAGE_SIZE) h in
        s ← sprintf 7 (format_d pid);
        let '(pid_str, h) := malloc (OStr s) h in
        ht ← hash_insert pid_str free_space ht h;
        create_directory pids content ht h
  end.

(** Column [j] goes to [j] times the size of the column before it. *)
Fixpoint write_columns (columns : list Column) (j col_size : Z) (col_buf : list Z)
    : outcome (list Z) :=
  match columns with
  | [] => Ok col_buf
  | c :: columns =>
      let buf_offset := START_COLUMNS_INFO + j * col_size in
      col_buf ← wr col_buf buf_offset (name_len c);
      col_name ← rd_bytes (name c) 0 (name_len c);
      col_buf ← wr_bytes col_buf (buf_offset + 1) col_name;
      col_buf ← wr col_buf (buf_offset + 1 + name_len c) (type_code (column_type c));
      write_columns columns (j + 1) (SCHEMA_COLUMN_SIZE (name_len c)) col_buf
  end.

(** [columns] has [n_columns] elements at least. *)
Definition create_table (tname : text) (columns : list Column) (n_columns : Z)
    (h : heap) (d : disk) : outcome (option DiskManager * heap * disk) :=
  tname ← sprintf 15 tname;
  r ← table_file tname d;
  let '(fd, d) := r in
  if negb (zlen (contents fd d) =? 0) then Ok (None, h, d)
  else
    r ← create_directory (seqZ 0 MAX_PAGES) [] (init_hash MAX_PAGES) h;
    let '(directory, ht, h) := r in
    let fill := zeros (u16 (PAGE_SIZE - MAX_PAGES * 4)) in
    let col_buf := n_columns :: zeros (PAGE_SIZE - 1) in
    (if zlen columns <? n_columns then Undef OutOfBounds
     else
       col_buf ← write_columns (take (Z.to_nat n_columns) columns) 0 0 col_buf;
       Ok (Some (mkDiskManager ht tname false), h, pwrite fd (directory ++ fill ++ col_buf) 0 d)).

(** *** Tuples *)

Definition text_bytes (s : text) : list Z := code <$> s.

(** The size of a tuple, in 16 bits. *)
Fixpoint tuple_length (types : list ColumnType) (values : list ColumnValue) (n : nat) (size : Z)
    : outcome Z :=
  match n with
  | O => Ok size
  | S n =>
      match types, values with
      | STRING :: types, string_ s :: values =>
          tuple_length types values n (u16 (size + (2 + u16 (zlen s))))
      | STRING :: _, _ :: _ => Undef WrongMember
      | INTEGER :: types, _ :: values => tuple_length types values n (u16 (size + 4))
      | DECIMAL :: types, _ :: values => tuple_length types values n (u16 (size + 8))
      | BOOLEAN :: types, _ :: values => tuple_length types values n (u16 (size + 1))
      | _, _ => Undef OutOfBounds
      end
  end.

Fixpoint write_values (types : list ColumnType) (values : list ColumnValue) (n : nat)
    (tuple_buf_offset : Z) (tuple_buf : list Z) : outcome (list Z) :=
  match n with
  | O => Ok tuple_buf
  | S n =>
      match types, values with
      | STRING :: types, string_ s :: values =>
          let size := u16 (zlen s) in
          tuple_buf ← encode_uint16 size tuple_buf tuple_buf_offset;
          bs ← rd_bytes (text_bytes s) 0 size;
          tuple_buf ← wr_bytes tuple_buf (tuple_buf_offset + 2) bs;
          write_values types values n (u16 (tuple_buf_offset + (2 + size))) tuple_buf
      | INTEGER :: types, integer z :: values =>
          tuple_buf ← encode_int32 z tuple_buf tuple_buf_offset;
          write_values types values n (u16 (tuple_buf_offset + 4)) tuple_buf
      | DECIMAL :: types, decimal w :: values =>
          tuple_buf ← encode_double w tuple_buf tuple_buf_offset;
          write_values types values n (u16 (tuple_buf_offset + 8)) tuple_buf
      | BOOLEAN :: types, boolean b :: values =>
          tuple_buf ← encode_bool (negb (b =? 0)) tuple_buf tuple_buf_offset;
          write_values types values n (u16 (tuple_buf_offset + 1)) tuple_buf
      | _ :: _, _ :: _ => Undef WrongMember
      | _, _ => Undef OutOfBounds
      end
  end.

(** [strncmp(a, b, n) == 0] for an array [a] of [n] bytes and a string [b]
    with its NUL. *)
Fixpoint strncmp_equal (a b : list Z) : bool :=
  match a, b with
  | [], _ => true
  | x :: a, y :: b => (x =? y) && ((x =? 0) || strncmp_equal a b)
  | _ :: _, [] => true
  end.

(** The loop that validates the columns against the schema: [false] is a
    rejection. The message about a wrong name prints the array [col_name_buf],
    which has no NUL of its own. *)
Fixpoint check_columns (args : AddTupleArgs) (schema : list Z) (cols_num : Z) (n : nat)
    (i : nat) (schema_curr_offset : Z) : outcome bool :=
  match n with
  | O => Ok true
  | S n =>
      prev_len ← rd schema schema_curr_offset;
      let schema_curr_offset := Z.of_nat i * (1 + prev_len + 1) in
      col_name_len ← rd schema schema_curr_offset;
      col_name_buf ← rd_bytes schema (schema_curr_offset + 1) col_name_len;
      col_type ← rd schema (schema_curr_offset + col_name_len + 1);
      if negb (num_columns args =? cols_num) then Ok false
      else
        column_name ← nth_at (column_names args) i;
        if negb (strncmp_equal col_name_buf (text_bytes column_name ++ [0])) then
          if bool_decide (0 ∈ col_name_buf) then Ok false else Undef OutOfBounds
        else
          column_type ← nth_at (column_types args) i;
          if negb (type_code column_type =? col_type) then Ok false
          else check_columns args schema cols_num n (S i) schema_curr_offset
  end.

(** The slot and the contents of a tuple, written into its page. *)
Definition write_tuple (page : list Z) (header : Header) (tuple_buf : list Z) (tuple_size : Z)
    : outcome (TuplePtr * list Z) :=
  let start_off := u16 (free_end header - tuple_size) in
  tuple_ptr_buf ← encode_uint16 start_off (zeros TUPLE_PTR_SIZE) 0;
  tuple_ptr_buf ← encode_uint16 tuple_size tuple_ptr_buf 2;
  page ← wr_bytes page (free_start header) tuple_ptr_buf;
  page ← wr_bytes page (free_end header - tuple_size) tuple_buf;
  let header := mkHeader (id header) (u16 (free_start header + TUPLE_PTR_SIZE))
                  (u16 (free_end header - tuple_size)) (flags header) in
  page ← construct_page_header_buf page header;
  Ok (mkTuplePtr start_off tuple_size, page).

Section heapfile.
Context {U : Uninit}.

(** 0 is returned when no page is found. *)
Definition new_heap_page (dm : DiskManager) (h : heap) (d : disk) : outcome (Z * disk) :=
  found ← find_spacious_page PAGE_SIZE dm h;
  match found with
  | None => Ok (0, d)
  | Some pid =>
      _ ← wrlock (dm_latch dm);
      page ← construct_page_header_buf uninit
               (mkHeader pid PAGE_HEADER_SIZE (PAGE_SIZE - 1) 0);
      d ← write_page pid dm page d;
      Ok (pid, d)
  end.

(** The answer is what is stored through [tup_ptr_out]: nothing when the
    columns are rejected. The page number is read uninitialised when no page
    is found: the code tests the address of the variable. *)
Definition add_tuple (args : AddTupleArgs) (dm : DiskManager) (h : heap) (d : disk)
    : outcome (option TuplePtr * DiskManager * heap * disk) :=
  let n := Z.to_nat (num_columns args) in
  tuple_size ← tuple_length (column_types args) (column_values args) n 0;
  tuple_buf ← write_values (column_types args) (column_values args) n 0 (zeros tuple_size);
  _ ← wrlock (dm_latch dm);
  found ← find_spacious_page tuple_size dm h;
  match found with
  | None => Undef Indeterminate
  | Some pid =>
      r ← read_page pid dm d;
      let '(page, d) := r in
      header ← extract_header page pid;
      r ← read_page 1 dm d;
      let '(schema, d) := r in
      cols_num ← rd schema 0;
      ok ← check_columns args (drop 1 schema) cols_num (Z.to_nat cols_num) 0 0;
      if negb ok then Ok (None, dm, h, d)
      else
        r ← write_tuple page header tuple_buf tuple_size;
        let '(tuple_ptr, page) := r in
        d ← write_page pid dm page d;
        r ← update_page_dir dm pid tuple_size TUPLE_ADD h d;
        let '(dm, h, d) := r in
        Ok (Some tuple_ptr, dm, h, d)
  end.

(** The page with a slot marked as removed. *)
Definition mark_removed (page : list Z) (rid : RID) : outcome (list Z) :=
  tuple_ptr ← extract_tuple_ptr page (slot_num rid);
  header ← extract_header page (pid rid);
  let header := mkHeader (id header) (free_start header) (free_end header)
                  (Z.lor (flags header) COMPACTABLE) in
  page ← construct_page_tuple_ptr page (slot_num rid) (mkTuplePtr 0 (tuple_size tuple_ptr));
  construct_page_header_buf page header.

Definition remove_tuple (dm : DiskManager) (rid : RID) (d : disk) : outcome disk :=
  _ ← wrlock (dm_latch dm);
  r ← read_page (pid rid) dm d;
  let '(page, d) := r in
  page ← mark_removed page rid;
  write_page (pid rid) dm page d.

(** The page from the start of the tuple on, or a null pointer. *)
Definition get_tuple (rid : RID) (dm : DiskManager) (d : disk) : outcome (option (list Z)) :=
  r ← read_page (pid rid) dm d;
  let '(page, d) := r in
  tuple_ptr ← extract_tuple_ptr page (slot_num rid);
  if start_offset tuple_ptr =? 0 then Ok None
  else Ok (Some (drop (Z.to_nat (start_offset tuple_ptr)) page)).

(** The loop of [defragment]: [temp] is the old page, [page] the new one. The
    tuple pointer is copied as it is. *)
Fixpoint compact (fuel : nat) (temp : list Z) (old_header : Header) (temp_tup_ptr_offset : Z)
    (page : list Z) (header : Header) : outcome (list Z * Header) :=
  tup_ptr ← extract_tuple_ptr temp (u32 (TUPLE_POINTER_OFFSET_TO_TUPLE_INDEX temp_tup_ptr_offset));
  if (tuple_size tup_ptr =? 0) || (free_start old_header <? temp_tup_ptr_offset)
  then Ok (page, header)
  else match fuel with
  | O => OutOfFuel
  | S fuel =>
      let next := u16 (temp_tup_ptr_offset + TUPLE_PTR_SIZE) in
      if start_offset tup_ptr =? 0 then compact fuel temp old_header next page header
      else
        bs ← rd_bytes temp (start_offset tup_ptr) (tuple_size tup_ptr);
        page ← wr_bytes page (free_end header - tuple_size tup_ptr) bs;
        ptr ← rd_bytes temp temp_tup_ptr_offset TUPLE_PTR_SIZE;
        page ← wr_bytes page (free_start header) ptr;
        compact fuel temp old_header next page
          (mkHeader (id header) (u16 (free_start header + TUPLE_PTR_SIZE))
             (u16 (free_end header - tuple_size tup_ptr)) (flags header))
  end.

(** A page has room for 1022 tuple pointers. *)
Definition defragment_page (page_id : Z) (temp : list Z) (old_header : Header)
    : outcome (list Z) :=
  r ← compact 1024 temp old_header PAGE_HEADER_SIZE uninit
        (mkHeader page_id PAGE_HEADER_SIZE (PAGE_SIZE - 1) 0);
  let '(page, header) := r in
  construct_page_header_buf page
    (mkHeader (id header) (free_start header) (free_end header)
       (Z.land (flags old_header) (Z.lnot COMPACTABLE))).

Definition defragment (page_id : Z) (dm : DiskManager) (d : disk) : outcome disk :=
  r ← read_page page_id dm d;
  let '(page, d) := r in
  old_header ← extract_header page page_id;
  if Z.land (flags old_header) COMPACTABLE =? 0 then Ok d
  else
    r ← read_page page_id dm d;
    let '(temp, d) := r in
    page ← defragment_page page_id temp old_header;
    write_page page_id dm page d.
End heapfile.

(** ** Slotted pages *)

(** [slotted page fe fl slots]: the header of [page] holds the end of its free
    space [fe] and its flags, and is followed by the tuple pointers [slots]; a
    pointer with offset 0 is a removed tuple, and any other points between the
    free space and the last byte. *)
Record slotted (page : list Z) (fe fl : Z) (slots : list TuplePtr) : Prop := {
  sl_page : zlen page = PAGE_SIZE;
  sl_start : slice page 0 2 = be16 (PAGE_HEADER_SIZE + 4 * zlen slots);
  sl_end : slice page 2 2 = be16 fe;
  sl_flags : slice page 4 1 = [fl];
  sl_room : PAGE_HEADER_SIZE + 4 * zlen slots ≤ fe ≤ PAGE_SIZE - 1;
  sl_slots : ∀ i p, slots !! i = Some p →
    slice page (PAGE_HEADER_SIZE + 4 * Z.of_nat i) 4 = be16 (start_offset p) ++ be16 (tuple_size p)
    ∧ 0 ≤ tuple_size p < 2 ^ 16
    ∧ (start_offset p = 0
       ∨ fe ≤ start_offset p ∧ start_offset p + tuple_size p ≤ PAGE_SIZE - 1);
}.

(** The bytes a slot points to. *)
Definition tuple_bytes (page : list Z) (p : TuplePtr) : list Z :=
  slice page (start_offset p) (tuple_size p).

Lemma u16_id z : 0 ≤ z < 2 ^ 16 → u16 z = z.
Proof. intros. by apply Z.mod_small. Qed.

Ltac page_lia := unfold PAGE_SIZE, PAGE_HEADER_SIZE, TUPLE_PTR_SIZE in *; lia.

Lemma extract_header_ok page fe fl slots page_id :
  slotted page fe fl slots →
  extract_header page page_id = Ok (mkHeader page_id (PAGE_HEADER_SIZE + 4 * zlen slots) fe fl).
Proof.
  intros [Hl Hs He Hf Hr _]. pose proof (zlen_nonneg slots). unfold extract_header.
  rewrite (decode_uint16_at _ page 0 ltac:(lia) Hs). cbn [mbind outcome_bind].
  rewrite (decode_uint16_at _ page 2 ltac:(lia) He). cbn [mbind outcome_bind].
  rewrite (rd_slice page 4 fl) by (done || lia). cbn [mbind outcome_bind].
  by rewrite !u16_id by page_lia.
Qed.

Lemma slot_offset i :
  0 ≤ i < 2 ^ 29 → TUPLE_INDEX_TO_TUPLE_POINTER_OFFSET i = PAGE_HEADER_SIZE + 4 * i.
Proof.
  intros. unfold TUPLE_INDEX_TO_TUPLE_POINTER_OFFSET, TUPLE_PTR_SIZE, u32.
  rewrite Z.mod_small; lia.
Qed.

Lemma slots_bound page fe fl slots i p :
  slotted page fe fl slots → slots !! i = Some p →
  PAGE_HEADER_SIZE + 4 * Z.of_nat i + 4 ≤ fe ∧ fe ≤ PAGE_SIZE - 1
  ∧ 0 ≤ start_offset p < 2 ^ 16.
Proof.
  intros H Hi. pose proof (sl_room _ _ _ _ H). pose proof (lookup_lt_Some _ _ _ Hi).
  destruct (sl_slots _ _ _ _ H i p Hi) as (_ & ? & ?). unfold zlen in *. page_lia.
Qed.

Lemma extract_tuple_ptr_ok page fe fl slots i p :
  slotted page fe fl slots → slots !! i = Some p →
  extract_tuple_ptr page (Z.of_nat i) = Ok p.
Proof.
  intros H Hi. destruct (slots_bound _ _ _ _ _ _ H Hi) as (Hb1 & Hb2 & Hb3).
  destruct (sl_slots _ _ _ _ H i p Hi) as (Hs & Hz & _).
  unfold extract_tuple_ptr. rewrite slot_offset by page_lia.
  rewrite rd_bytes_ok by (rewrite ?(sl_page _ _ _ _ H); page_lia). cbn [mbind outcome_bind].
  change TUPLE_PTR_SIZE with 4. rewrite Hs.
  rewrite (decode_uint16_at (start_offset p) _ 0) by done. cbn [mbind outcome_bind].
  rewrite (decode_uint16_at (tuple_size p) _ 2) by done. cbn [mbind outcome_bind].
  rewrite !u16_id by done. by destruct p.
Qed.

Lemma construct_page_header_buf_ok page hdr :
  zlen page = PAGE_SIZE →
  construct_page_header_buf page hdr
  = Ok (splice (splice (splice page 0 (be16 (free_start hdr))) 2 (be16 (free_end hdr))) 4
          [flags hdr]).
Proof.
  unfold PAGE_SIZE. intros Hl. unfold construct_page_header_buf.
  rewrite encode_uint16_ok by lia. cbn [mbind outcome_bind].
  rewrite encode_uint16_ok by blen. cbn [mbind outcome_bind]. by rewrite wr_ok by blen.
Qed.

(** Writing the header of a page. *)
Definition with_header (page : list Z) (fs fe fl : Z) : list Z :=
  splice (splice (splice page 0 (be16 fs)) 2 (be16 fe)) 4 [fl].

Lemma with_header_slices page fs fe fl :
  zlen page = PAGE_SIZE →
  zlen (with_header page fs fe fl) = PAGE_SIZE
  ∧ slice (with_header page fs fe fl) 0 2 = be16 fs
  ∧ slice (with_header page fs fe fl) 2 2 = be16 fe
  ∧ slice (with_header page fs fe fl) 4 1 = [fl]
  ∧ ∀ off len, PAGE_HEADER_SIZE ≤ off → 0 ≤ len →
      slice (with_header page fs fe fl) off len = slice page off len.
Proof.
  unfold PAGE_SIZE, PAGE_HEADER_SIZE, with_header. intros Hl.
  split_and!; [blen|by bslice..|]. intros off len Ho Hlen. by bslice.
Qed.

(** The tuple is put in front of the others, its pointer after the others. *)
Lemma write_tuple_ok page fe fl slots tuple_buf page_id :
  slotted page fe fl slots →
  PAGE_HEADER_SIZE + 4 * zlen slots + 4 + zlen tuple_buf ≤ fe →
  let p := mkTuplePtr (fe - zlen tuple_buf) (zlen tuple_buf) in
  ∃ page', write_tuple page (mkHeader page_id (PAGE_HEADER_SIZE + 4 * zlen slots) fe fl)
             tuple_buf (zlen tuple_buf) = Ok (p, page')
    ∧ slotted page' (fe - zlen tuple_buf) fl (slots ++ [p])
    ∧ tuple_bytes page' p = tuple_buf
    ∧ (∀ off len, fe ≤ off → 0 ≤ len → slice page' off len = slice page off len).
Proof.
  intros [Hl Hs He Hf Hr Hslots] Hfit p. unfold PAGE_SIZE, PAGE_HEADER_SIZE in *.
  pose proof (zlen_nonneg slots). pose proof (zlen_nonneg tuple_buf).
  unfold write_tuple. cbn [free_start free_end id flags].
  rewrite (u16_id (fe - _)) by lia.
  rewrite (encode_uint16_ok _ (zeros TUPLE_PTR_SIZE)) by done. cbn [mbind outcome_bind].
  rewrite encode_uint16_ok by done. cbn [mbind outcome_bind].
  assert (splice (splice (zeros TUPLE_PTR_SIZE) 0 (be16 (fe - zlen tuple_buf))) 2 (be16 (zlen tuple_buf))
          = be16 (fe - zlen tuple_buf) ++ be16 (zlen tuple_buf)) as -> by done.
  set (ptr := be16 _ ++ be16 _). assert (zlen ptr = 4) as Hptr by done.
  rewrite wr_bytes_ok by lia. cbn [mbind outcome_bind].
  rewrite wr_bytes_ok by blen. cbn [mbind outcome_bind].
  set (fs := 5 + 4 * zlen slots) in *.
  set (page2 := splice (splice page fs ptr) (fe - zlen tuple_buf) tuple_buf).
  assert (zlen page2 = 4096) as Hl2 by (unfold page2; blen).
  rewrite construct_page_header_buf_ok by done. cbn [mbind outcome_bind free_start free_end flags].
  rewrite !u16_id by (unfold TUPLE_PTR_SIZE; lia). fold (with_header page2 (fs + TUPLE_PTR_SIZE) (fe - zlen tuple_buf) fl).
  destruct (with_header_slices page2 (fs + TUPLE_PTR_SIZE) (fe - zlen tuple_buf) fl) as
    (Hl3 & Hw0 & Hw2 & Hw4 & Hrest); [done|].
  eexists. split; [done|]. split_and!.
  - split; unfold PAGE_SIZE, PAGE_HEADER_SIZE in *; [done| |done|done| |].
    + rewrite Hw0. f_equal. unfold TUPLE_PTR_SIZE, fs. rewrite zlen_app. change (zlen [p]) with 1. lia.
    + rewrite zlen_app. change (zlen [p]) with 1. lia.
    + intros i q Hi. apply lookup_app_Some in Hi as [Hi|[Hge Hi]].
      * pose proof (lookup_lt_Some _ _ _ Hi). destruct (Hslots _ _ Hi) as (Hq & Hsz & Hoff).
        split_and!; [|lia|lia|destruct Hoff; [by left|right; lia]].
        assert (5 + 4 * Z.of_nat i + 4 ≤ fs) by (unfold fs, zlen; lia).
        rewrite Hrest by lia. unfold page2. by bslice.
      * apply list_lookup_singleton_Some in Hi as [Hi <-]. unfold p. simpl.
        split_and!; [|lia|lia|right; lia]. rewrite Hrest by lia.
        replace (5 + 4 * Z.of_nat i) with fs by (unfold fs, zlen; lia).
        unfold page2. bslice. done.
  - unfold tuple_bytes, p. simpl. rewrite Hrest by (unfold PAGE_HEADER_SIZE; lia). unfold page2. by bslice.
  - intros off len Ho Hlen. rewrite Hrest by (unfold PAGE_HEADER_SIZE; lia). unfold page2. by bslice.
Qed.

Lemma splice_be16_2 page off a b :
  0 ≤ off → off + 4 ≤ zlen page →
  splice (splice page off (be16 a)) (off + 2) (be16 b) = splice page off (be16 a ++ be16 b).
Proof. intros. apply splice_adj; rewrite ?zlen_be16; lia. Qed.

Lemma slice_prefix buf off off' len bs :
  0 ≤ off → off ≤ off' → 0 ≤ len → off' + len ≤ off + zlen bs →
  slice buf off (zlen bs) = bs → slice buf off' len = slice bs (off' - off) len.
Proof.
  intros Ho Ho' Hl Hle Hs. rewrite <- Hs, slice_slice by lia. f_equal. lia.
Qed.

(** The slot loses its offset and keeps its size; the flag tells that the page
    can be compacted. *)
Lemma mark_removed_ok page fe fl slots i p page_id :
  slotted page fe fl slots → slots !! i = Some p →
  ∃ page', mark_removed page (mkRID page_id (Z.of_nat i)) = Ok page'
    ∧ slotted page' fe (Z.lor fl COMPACTABLE) (<[i := mkTuplePtr 0 (tuple_size p)]> slots)
    ∧ (∀ off len, PAGE_HEADER_SIZE + 4 * zlen slots ≤ off → 0 ≤ len →
        slice page' off len = slice page off len).
Proof.
  intros H Hi. destruct (slots_bound _ _ _ _ _ _ H Hi) as (Hb1 & Hb2 & Hb3).
  unfold mark_removed. cbn [slot_num pid].
  rewrite (extract_tuple_ptr_ok _ _ _ _ _ _ H Hi). cbn [mbind outcome_bind].
  rewrite (extract_header_ok _ _ _ _ _ H). cbn [mbind outcome_bind id free_start free_end flags].
  destruct H as [Hl Hs He Hf Hr Hslots]. unfold PAGE_SIZE, PAGE_HEADER_SIZE in *.
  unfold construct_page_tuple_ptr. rewrite slot_offset by lia. unfold PAGE_HEADER_SIZE.
  cbn [start_offset tuple_size].
  set (off := 5 + 4 * Z.of_nat i) in *. set (fs := 5 + 4 * zlen slots) in *.
  pose proof (lookup_lt_Some _ _ _ Hi).
  assert (off + 4 ≤ fs) by (unfold off, fs, zlen; lia). assert (5 ≤ off) by (unfold off; lia).
  rewrite encode_uint16_ok by lia. cbn [mbind outcome_bind].
  rewrite encode_uint16_ok by blen. cbn [mbind outcome_bind].
  rewrite splice_be16_2 by lia. set (ptr := be16 0 ++ be16 (tuple_size p)).
  assert (zlen ptr = 4) as Hptr by done.
  set (page2 := splice page off ptr). assert (zlen page2 = 4096) as Hl2 by (unfold page2; blen).
  rewrite construct_page_header_buf_ok by done. cbn [free_start free_end flags].
  fold (with_header page2 fs fe (Z.lor fl COMPACTABLE)).
  destruct (with_header_slices page2 fs fe (Z.lor fl COMPACTABLE)) as
    (Hl3 & Hw0 & Hw2 & Hw4 & Hrest); [done|].
  eexists. split; [done|]. split.
  - assert (zlen (<[i:=mkTuplePtr 0 (tuple_size p)]> slots) = zlen slots) as Hz
      by (unfold zlen; by rewrite length_insert).
    split; unfold PAGE_SIZE, PAGE_HEADER_SIZE in *; rewrite ?Hz; [done|done|done|done|done|].
    intros j q Hj. destruct (decide (j = i)) as [->|Hne].
    + rewrite list_lookup_insert_eq in Hj by done. injection Hj as <-. simpl.
      destruct (Hslots _ _ Hi) as (_ & ? & _). split_and!; [|lia|lia|by left].
      fold off. rewrite Hrest by lia. unfold page2. by bslice.
    + rewrite list_lookup_insert_ne in Hj by done. destruct (Hslots _ _ Hj) as (Hq & Hsz & Hoff).
      split_and!; [|lia..|done]. rewrite Hrest by lia. rewrite <- Hq. unfold page2.
      apply slice_splice_other; [lia|lia|lia|lia|]. unfold off. rewrite Hptr. lia.
  - intros off' len Ho Hlen. rewrite Hrest by (unfold PAGE_HEADER_SIZE; lia). unfold page2. by bslice.
Qed.

(** ** The bytes of a tuple *)

Definition encode_value (t : ColumnType) (v : ColumnValue) : option (list Z) :=
  match t, v with
  | STRING, string_ s =>
      if zlen s <=? 65535 then Some (be16 (zlen s) ++ text_bytes s) else None
  | INTEGER, integer z => Some (be32 (u32 z))
  | DECIMAL, decimal w => Some (le_bytes 8 w)
  | BOOLEAN, boolean b => Some [if b =? 0 then 0 else 1]
  | _, _ => None
  end.

Fixpoint encode_tuple (types : list ColumnType) (values : list ColumnValue) : option (list Z) :=
  match types, values with
  | [], [] => Some []
  | t :: types, v :: values =>
      bs ← encode_value t v; rest ← encode_tuple types values; Some (bs ++ rest)
  | _, _ => None
  end.

Lemma zlen_text_bytes s : zlen (text_bytes s) = zlen s.
Proof. unfold zlen, text_bytes. by rewrite length_fmap. Qed.

Lemma encode_tuple_cons t types values bs :
  encode_tuple (t :: types) values = Some bs →
  ∃ v values' bs1 bs2, values = v :: values' ∧ encode_value t v = Some bs1
    ∧ encode_tuple types values' = Some bs2 ∧ bs = bs1 ++ bs2.
Proof.
  destruct values as [|v values]; [done|]. cbn [encode_tuple].
  destruct (encode_value t v) as [bs1|] eqn:H1; [|done].
  destruct (encode_tuple types values) as [bs2|] eqn:H2; [|done]. intros [= <-]. by exists v, values, bs1, bs2.
Qed.

Lemma tuple_length_ok types values bs size :
  encode_tuple types values = Some bs → 0 ≤ size → size + zlen bs ≤ 65535 →
  tuple_length types values (length types) size = Ok (size + zlen bs).
Proof.
  revert values bs size. induction types as [|t types IH]; intros values bs size He Hs Hb.
  { destruct values; [|done]. injection He as <-. simpl. f_equal. rewrite zlen_nil. lia. }
  destruct (encode_tuple_cons _ _ _ _ He) as (v & values' & bs1 & bs2 & -> & Hv & Hrest & ->).
  rewrite zlen_app in *. pose proof (zlen_nonneg bs2).
  destruct t, v; try done; cbn [encode_value] in Hv.
  - apply (inj Some) in Hv as <-. cbn [length tuple_length]. change (zlen [_]) with 1 in *.
    rewrite u16_id, (IH values' bs2) by (done || lia). f_equal. lia.
  - destruct (zlen s <=? 65535) eqn:E; [|done]. apply (inj Some) in Hv as <-. cbn [length tuple_length].
    rewrite ?zlen_app, ?zlen_be16, ?zlen_text_bytes in *. pose proof (zlen_nonneg s).
    rewrite (u16_id (zlen s)), u16_id, (IH values' bs2) by (done || lia). f_equal. lia.
  - apply (inj Some) in Hv as <-. cbn [length tuple_length]. rewrite ?zlen_be32 in *.
    rewrite u16_id, (IH values' bs2) by (done || lia). f_equal. lia.
  - apply (inj Some) in Hv as <-. cbn [length tuple_length].
    assert (zlen (le_bytes 8 w) = 8) as Hz by done. rewrite ?Hz in *.
    rewrite u16_id, (IH values' bs2) by (done || lia). f_equal. lia.
Qed.

Lemma write_values_ok types values bs off buf :
  encode_tuple types values = Some bs → 0 ≤ off → off + zlen bs ≤ zlen buf → zlen buf ≤ 65535 →
  write_values types values (length types) off buf = Ok (splice buf off bs).
Proof.
  revert values bs off buf. induction types as [|t types IH]; intros values bs off buf He Ho Hb Hl.
  { destruct values; [|done]. injection He as <-. by rewrite splice_nil. }
  destruct (encode_tuple_cons _ _ _ _ He) as (v & values' & bs1 & bs2 & -> & Hv & Hrest & ->).
  rewrite zlen_app in *. pose proof (zlen_nonneg bs2).
  assert (∀ n, zlen bs1 = n →
    write_values types values' (length types) (u16 (off + n)) (splice buf off bs1)
    = Ok (splice buf off (bs1 ++ bs2))) as Hnext.
  { intros n <-. pose proof (zlen_nonneg bs1). rewrite u16_id by lia.
    rewrite (IH values' bs2) by (try rewrite zlen_splice; done || lia).
    by rewrite splice_splice_adj by lia. }
  destruct t, v; try done; cbn [encode_value] in Hv; cbn [length write_values].
  - apply (inj Some) in Hv as <-. change (zlen [_]) with 1 in *. unfold encode_bool.
    rewrite wr_ok by lia. cbn [mbind outcome_bind]. rewrite <- (Hnext 1) by done.
    by destruct (b =? 0).
  - destruct (zlen s <=? 65535) eqn:E; [|done]. apply (inj Some) in Hv as <-.
    rewrite ?zlen_app, ?zlen_be16 in *.
    rewrite ?zlen_text_bytes in *. pose proof (zlen_text_bytes s) as Hz. pose proof (zlen_nonneg s). rewrite (u16_id (zlen s)) by lia.
    rewrite encode_uint16_ok by lia. cbn [mbind outcome_bind].
    rewrite rd_bytes_ok by lia. cbn [mbind outcome_bind].
    assert (slice (text_bytes s) 0 (zlen s) = text_bytes s) as -> by (rewrite <- Hz; apply slice_full).
    rewrite wr_bytes_ok by (rewrite ?zlen_splice by (rewrite ?zlen_be16; lia); lia).
    cbn [mbind outcome_bind]. rewrite (splice_adj buf off (off + 2)) by (rewrite ?zlen_be16; lia).
    apply Hnext. lia.
  - apply (inj Some) in Hv as <-. rewrite ?zlen_be32 in *. unfold encode_int32.
    rewrite encode_uint32_ok by lia. cbn [mbind outcome_bind]. by apply Hnext.
  - apply (inj Some) in Hv as <-. assert (zlen (le_bytes 8 w) = 8) as Hz by done. rewrite ?Hz in *.
    unfold encode_double. rewrite wr_bytes_ok by lia. cbn [mbind outcome_bind]. by apply Hnext.
Qed.

Lemma splice_zeros bs : splice (zeros (zlen bs)) 0 bs = bs.
Proof.
  unfold splice, zeros, zlen. simpl. rewrite Nat2Z.id, drop_ge, app_nil_r; [done|].
  by rewrite length_replicate.
Qed.

(** ** Defragmentation *)

Definition live (slots : list TuplePtr) : list TuplePtr :=
  filter (λ p, start_offset p ≠ 0) slots.
Fixpoint total_size (slots : list TuplePtr) : Z :=
  match slots with [] => 0 | p :: slots => tuple_size p + total_size slots end.

(** The bytes of a slot. *)
Definition ptr_bytes (p : TuplePtr) : list Z := be16 (start_offset p) ++ be16 (tuple_size p).

(** [packed page temp base i ps]: from slot [i] on, [page] has the tuple
    pointers [ps] as they are in [temp], and below [base] the tuples they point
    to in [temp], one below the other. *)
Fixpoint packed (page temp : list Z) (base i : Z) (ps : list TuplePtr) : Prop :=
  match ps with
  | [] => True
  | p :: ps =>
      slice page (PAGE_HEADER_SIZE + 4 * i) 4 = ptr_bytes p
      ∧ slice page (base - tuple_size p) (tuple_size p) = tuple_bytes temp p
      ∧ packed page temp (base - tuple_size p) (i + 1) ps
  end.

Lemma packed_frame page page' temp base i ps :
  (∀ off, PAGE_HEADER_SIZE + 4 * i ≤ off → off + 4 ≤ PAGE_HEADER_SIZE + 4 * (i + zlen ps) →
    slice page' off 4 = slice page off 4) →
  (∀ off len, base - total_size ps ≤ off → 0 ≤ len → off + len ≤ base →
    slice page' off len = slice page off len) →
  Forall (λ p, 0 ≤ tuple_size p) ps →
  packed page temp base i ps → packed page' temp base i ps.
Proof.
  revert base i. induction ps as [|p ps IH]; intros base i Hptr Htup Hsz; [done|].
  apply Forall_cons in Hsz as [Hp Hsz]. rewrite zlen_cons in Hptr. pose proof (zlen_nonneg ps).
  assert (0 ≤ total_size ps) by (clear -Hsz; induction Hsz; simpl; lia).
  intros (H1 & H2 & H3). cbn [total_size] in Htup. split_and!.
  - rewrite Hptr by lia. done.
  - rewrite Htup by lia. done.
  - apply IH; [| |done|done].
    + intros off Ho Ho'. apply Hptr; lia.
    + intros off len Ho Hl Ho'. apply Htup; lia.
Qed.

Section defragment.
Context (temp : list Z) (fe fl : Z) (slots : list TuplePtr).
Hypothesis Htemp : slotted temp fe fl slots.
Hypothesis Hsizes : Forall (λ p, 0 < tuple_size p) slots.
(** The loop ends at the free space only if the size it finds there is 0. *)
Hypothesis Hstop : PAGE_HEADER_SIZE + 4 * zlen slots + 4 ≤ PAGE_SIZE.
Hypothesis Hzero : slice temp (PAGE_HEADER_SIZE + 4 * zlen slots + 2) 2 = be16 0.

Abbreviation old_header page_id := (mkHeader page_id (PAGE_HEADER_SIZE + 4 * zlen slots) fe fl).

Lemma live_sizes rest : Forall (λ p, 0 < tuple_size p) rest → 0 ≤ total_size (live rest)
  ∧ Forall (λ p, 0 ≤ tuple_size p) (live rest).
Proof.
  induction 1 as [|p rest Hp _ [IH1 IH2]]; [by split|].
  destruct (decide (start_offset p ≠ 0)).
  - unfold live. rewrite filter_cons_True by done. split; [cbn [total_size]; unfold live in *; lia|].
    constructor; [lia|done].
  - unfold live. by rewrite filter_cons_False by done.
Qed.

Lemma compact_end page_id page hdr :
  ∃ p, extract_tuple_ptr temp (u32 (TUPLE_POINTER_OFFSET_TO_TUPLE_INDEX
         (PAGE_HEADER_SIZE + 4 * zlen slots))) = Ok p ∧ tuple_size p = 0
    ∧ ∀ fuel, compact fuel temp (old_header page_id) (PAGE_HEADER_SIZE + 4 * zlen slots) page hdr
              = Ok (page, hdr).
Proof.
  pose proof (zlen_nonneg slots). pose proof (sl_page _ _ _ _ Htemp) as Hl.
  pose proof (sl_room _ _ _ _ Htemp) as Hroom.
  assert (u32 (TUPLE_POINTER_OFFSET_TO_TUPLE_INDEX (PAGE_HEADER_SIZE + 4 * zlen slots)) = zlen slots)
    as Hidx.
  { unfold TUPLE_POINTER_OFFSET_TO_TUPLE_INDEX, TUPLE_PTR_SIZE.
    replace (PAGE_HEADER_SIZE + 4 * zlen slots - PAGE_HEADER_SIZE) with (zlen slots * 4) by lia.
    rewrite Z.div_mul by lia. apply Z.mod_small. page_lia. }
  assert (∃ v, extract_tuple_ptr temp (zlen slots) = Ok (mkTuplePtr v 0)) as [v Hv].
  { unfold extract_tuple_ptr. rewrite slot_offset by page_lia.
    rewrite rd_bytes_ok by (rewrite ?Hl; page_lia). ok_step. change TUPLE_PTR_SIZE with 4.
    set (buf := slice temp _ 4). assert (zlen buf = 4) as Hb by (unfold buf; rewrite zlen_slice; page_lia).
    destruct (decode_uint16_in buf 0) as [v ->]; [lia|lia|]. ok_step.
    rewrite (decode_uint16_at 0 buf 2); [by exists v|lia|].
    unfold buf. rewrite slice_slice by page_lia. exact Hzero. }
  exists (mkTuplePtr v 0). rewrite Hidx. split_and!; [done|done|].
  intros fuel. destruct fuel; cbn [compact]; rewrite Hidx, Hv; by ok_step.
Qed.

Lemma tuple_bytes_size pre p rest :
  slots = pre ++ p :: rest → start_offset p ≠ 0 → zlen (tuple_bytes temp p) = tuple_size p.
Proof.
  intros Hs Hne. assert (slots !! length pre = Some p) as Hp by (rewrite Hs, lookup_app_r, Nat.sub_diag by lia; done).
  destruct (slots_bound _ _ _ _ _ _ Htemp Hp) as (_ & Hb2 & Hb3). pose proof (sl_page _ _ _ _ Htemp).
  destruct (sl_slots _ _ _ _ Htemp _ _ Hp) as (_ & Hsz & Hin). unfold tuple_bytes. rewrite zlen_slice; page_lia.
Qed.

(** An iteration of [compact] at slot [p]. *)
Lemma compact_slot page_id pre p rest page fs fe' fuel :
  slots = pre ++ p :: rest → zlen page = PAGE_SIZE → PAGE_HEADER_SIZE ≤ fs → fe' ≤ PAGE_SIZE - 1 →
  (start_offset p ≠ 0 → fs + 4 ≤ fe' - tuple_size p) →
  compact (S fuel) temp (old_header page_id) (PAGE_HEADER_SIZE + 4 * zlen pre) page (mkHeader page_id fs fe' 0)
  = let next := PAGE_HEADER_SIZE + 4 * zlen (pre ++ [p]) in
    if start_offset p =? 0 then compact fuel temp (old_header page_id) next page (mkHeader page_id fs fe' 0)
    else compact fuel temp (old_header page_id) next
           (splice (splice page (fe' - tuple_size p) (tuple_bytes temp p)) fs (ptr_bytes p))
           (mkHeader page_id (fs + 4) (fe' - tuple_size p) 0).
Proof.
  intros Hs Hl Hfs Hfe Hroom.
  assert (slots !! length pre = Some p) as Hp by (rewrite Hs, lookup_app_r, Nat.sub_diag by lia; done).
  destruct (slots_bound _ _ _ _ _ _ Htemp Hp) as (Hb1 & Hb2 & Hb3).
  destruct (sl_slots _ _ _ _ Htemp _ _ Hp) as (Hptr & Hsz & Hin).
  pose proof (extract_tuple_ptr_ok _ _ _ _ _ _ Htemp Hp) as Hext.
  change (Z.of_nat (length pre)) with (zlen pre) in Hb1, Hptr, Hext.
  pose proof (sl_page _ _ _ _ Htemp) as Htl. pose proof (zlen_nonneg pre).
  assert (0 < tuple_size p) as Hsz0 by (rewrite Forall_lookup in Hsizes; by apply (Hsizes (length pre))).
  assert (u32 (TUPLE_POINTER_OFFSET_TO_TUPLE_INDEX (PAGE_HEADER_SIZE + 4 * zlen pre)) = zlen pre) as Hidx.
  { unfold TUPLE_POINTER_OFFSET_TO_TUPLE_INDEX, TUPLE_PTR_SIZE.
    replace (PAGE_HEADER_SIZE + 4 * zlen pre - PAGE_HEADER_SIZE) with (zlen pre * 4) by lia.
    rewrite Z.div_mul by lia. apply Z.mod_small. page_lia. }
  assert (zlen pre + 1 ≤ zlen slots) as Hpre by (rewrite Hs, zlen_app, zlen_cons; pose proof (zlen_nonneg rest); lia).
  cbn [compact]. rewrite Hidx, Hext. ok_step.
  cbn [free_start]. rewrite (proj2 (Z.eqb_neq _ _)), (proj2 (Z.ltb_ge _ _)) by lia. cbn [orb].
  assert (u16 (PAGE_HEADER_SIZE + 4 * zlen pre + TUPLE_PTR_SIZE) = PAGE_HEADER_SIZE + 4 * zlen (pre ++ [p])) as ->.
  { rewrite zlen_app. change (zlen [p]) with 1. rewrite u16_id; page_lia. }
  destruct (Z.eqb_spec (start_offset p) 0) as [|Hne]; [done|].
  rewrite (rd_bytes_ok temp (start_offset p)) by (rewrite ?Htl; page_lia). ok_step. fold (tuple_bytes temp p).
  pose proof (tuple_bytes_size _ _ _ Hs Hne) as Htb.
  cbn [free_end free_start id flags]. rewrite wr_bytes_ok by (rewrite ?Htb; page_lia). ok_step.
  change TUPLE_PTR_SIZE with 4. rewrite (rd_bytes_ok temp (PAGE_HEADER_SIZE + 4 * zlen pre)) by (rewrite ?Htl; page_lia). ok_step.
  rewrite Hptr. fold (ptr_bytes p). assert (zlen (ptr_bytes p) = 4) as Hpb by done.
  rewrite wr_bytes_ok by (rewrite ?zlen_splice, ?Hpb; page_lia). ok_step. by rewrite !u16_id by page_lia.
Qed.

Lemma compact_ok page_id rest : ∀ pre page fs fe' fuel,
  slots = pre ++ rest → zlen page = PAGE_SIZE → PAGE_HEADER_SIZE ≤ fs →
  fs + 4 * zlen (live rest) ≤ fe' - total_size (live rest) → fe' ≤ PAGE_SIZE - 1 →
  (length rest ≤ fuel)%nat →
  ∃ page', compact fuel temp (old_header page_id) (PAGE_HEADER_SIZE + 4 * zlen pre) page
             (mkHeader page_id fs fe' 0)
           = Ok (page', mkHeader page_id (fs + 4 * zlen (live rest)) (fe' - total_size (live rest)) 0)
    ∧ zlen page' = PAGE_SIZE
    ∧ (∀ i, fs = PAGE_HEADER_SIZE + 4 * i → packed page' temp fe' i (live rest))
    ∧ (∀ off len, PAGE_HEADER_SIZE ≤ off → 0 ≤ len → off + len ≤ fs ∨ fe' ≤ off →
        slice page' off len = slice page off len).
Proof.
  induction rest as [|p rest IH]; intros pre page fs fe' fuel Hs Hl Hfs Hroom Hfe Hfuel.
  - rewrite app_nil_r in Hs. subst pre. exists page.
    destruct (compact_end page_id page (mkHeader page_id fs fe' 0)) as (_ & _ & _ & ->).
    cbn. rewrite Z.add_0_r, Z.sub_0_r. by split_and!.
  - destruct fuel as [|fuel]; [simpl in Hfuel; lia|].
    assert (Forall (λ p, 0 < tuple_size p) (p :: rest)) as [Hsz0 Hrest]%Forall_cons
      by (rewrite Hs in Hsizes; by apply Forall_app in Hsizes as [_ ?]).
    destruct (live_sizes rest Hrest) as [Htot _]. pose proof (zlen_nonneg (live rest)).
    assert (zlen (ptr_bytes p) = 4) as Hpb by done.
    rewrite (compact_slot page_id pre p rest); [|done..|].
    + cbv zeta. unfold live in *. destruct (Z.eqb_spec (start_offset p) 0) as [Hz|Hne].
      * rewrite filter_cons_False in Hroom |- * by (by intros ?). apply IH; [by rewrite <- app_assoc|done|lia|done|lia|simpl in Hfuel; lia].
      * rewrite filter_cons_True in Hroom |- * by done. cbn [total_size] in *. rewrite zlen_cons in *. fold (live rest) in *.
        assert (zlen (tuple_bytes temp p) = tuple_size p) as Htb by (by eapply tuple_bytes_size).
        set (page1 := splice page (fe' - tuple_size p) (tuple_bytes temp p)).
        assert (zlen page1 = PAGE_SIZE) as Hl1 by (unfold page1; rewrite zlen_splice; page_lia).
        destruct (IH (pre ++ [p]) (splice page1 fs (ptr_bytes p)) (fs + 4) (fe' - tuple_size p) fuel) as
          (page' & -> & Hl' & Hpacked & Hframe);
          [by rewrite <- app_assoc|rewrite zlen_splice; page_lia|lia|lia|lia|simpl in Hfuel; lia|].
        exists page'. split_and!; [do 3 f_equal; lia|done| |].
        -- intros i Hi. cbn [packed]. split_and!; [| |apply Hpacked; lia].
           ++ rewrite Hframe, <- Hi by lia. apply slice_splice_same; page_lia.
           ++ rewrite Hframe by page_lia. rewrite slice_splice_other by page_lia. apply slice_splice_same; page_lia.
        -- intros off len Ho Hlen Hd. rewrite Hframe by lia.
           rewrite slice_splice_other by page_lia. apply slice_splice_other; page_lia.
    + intros Hne. unfold live in Hroom. rewrite filter_cons_True in Hroom by done. cbn [total_size] in Hroom.
      rewrite zlen_cons in Hroom. fold (live rest) in Hroom. lia.
Qed.
End defragment.
