(* ===== verification/HeapTable.v ===== *)
(** * HeapTable: tables on top of slotted pages

    The page directory, the table as a list of rows, and the operations of
    [disk/heapfile.c] as operations on the rows; the model of the code is in
    Heapfile. *)
From S2P Require Import Prelude Serialize Memory Hash Disk Heapfile.

(** ** The page directory in memory *)

(** [directory_ok h ht ps space]: the table maps the numbers of the pages [ps],
    printed, to cells with their free space. *)
Record directory_ok (h : heap) (ht : HashTable) (ps : list Z) (space : Z → Z) : Prop := {
  dir_heap : heap_ok h;
  dir_table : table_ok h ht;
  dir_size : size ht = MAX_PAGES;
  dir_keys : ∀ i j el, entry ht i j el → ∃ p, p ∈ ps ∧ str_at h (el_key el) (format_u p);
  dir_pages : ∀ p, p ∈ ps → 0 ≤ p < MAX_PAGES
    ∧ ∃ el, hash_find (format_u p) ht h = Ok (Some el)
        ∧ cells h !! el_data el = Some (OU16 (space p));
}.

Lemma pid_hashable p : 0 ≤ p < 2 ^ 31 → hashable (format_u p).
Proof. intros Hp. exists p. rewrite atoi_format_u by done. split; [done|lia]. Qed.

Lemma pid_slot p : 0 ≤ p < MAX_PAGES → slot MAX_PAGES (format_u p) = p.
Proof.
  unfold MAX_PAGES. intros Hp. unfold slot. rewrite atoi_format_u by lia. apply Z.mod_small. lia.
Qed.

(** No two pages share a bucket. *)
Lemma directory_sparse h ht ps space i b :
  directory_ok h ht ps space → arr ht !! i = Some b → (length b ≤ 1)%nat.
Proof.
  intros Hd Hb. destruct b as [|el [|el' b]]; simpl; [lia|lia|]. exfalso.
  assert (∀ j el, entry ht i j el → str_at h (el_key el) (format_u (Z.of_nat i))) as Hkey.
  { intros j e He. destruct (dir_keys _ _ _ _ Hd _ _ _ He) as (p & Hp & Hs).
    destruct (dir_pages _ _ _ _ Hd _ Hp) as [Hr _].
    destruct (entry_find _ _ _ _ _ (dir_table _ _ _ _ Hd) He) as (s & _ & Hs' & _ & ->).
    rewrite (str_at_inj _ _ _ _ Hs' Hs), (dir_size _ _ _ _ Hd), pid_slot by done.
    by rewrite Z2Nat.id by lia. }
  assert (entry ht i 0 el ∧ entry ht i 1 el') as [H0 H1] by (split; by eexists).
  destruct (tk_bucket _ _ (dir_table _ _ _ _ Hd) _ _ Hb) as (ks & Hc & Hnd & _).
  inversion Hc as [|? k ? ks' Hk Hc']; subst. inversion Hc' as [|? k' ? ? Hk' _]; subst.
  pose proof (str_at_inj _ _ _ _ Hk (Hkey _ _ H0)). pose proof (str_at_inj _ _ _ _ Hk' (Hkey _ _ H1)).
  subst. apply NoDup_cons in Hnd as [Hnd _]. set_solver.
Qed.

(** A cell that no element refers to. *)
Lemma directory_heap h h' ht ps space :
  directory_ok h ht ps space → heap_ok h' →
  (∀ p o, cells h !! p = Some o → cells h' !! p = Some o) → directory_ok h' ht ps space.
Proof.
  intros [Hh Ht Hsz Hk Hp] Hh' Hsub.
  assert (∀ i j el, entry ht i j el → cells h' !! el_key el = cells h !! el_key el
                              ∧ cells h' !! el_data el = cells h !! el_data el) as Hsame.
  { intros i j el (b & Hb & Hj). destruct (tk_bucket _ _ Ht _ _ Hb) as (ks & Hc & _ & _ & Hd).
    destruct (Forall2_lookup_l _ _ _ _ _ Hc Hj) as (t & _ & [_ Hs]).
    rewrite Forall_lookup in Hd. destruct (Hd _ _ Hj) as (_ & o & Ho & _).
    by rewrite (Hsub _ _ Hs), (Hsub _ _ Ho), Hs, Ho. }
  split; [done|by eapply table_ok_heap|done| |].
  - intros i j el He. destruct (Hk _ _ _ He) as (p & Hin & Hn & Hs). exists p. split; [done|].
    split; [done|]. by apply Hsub.
  - intros p Hin. destruct (Hp p Hin) as [Hr (el & Hf & Hc)]. split; [done|]. exists el.
    rewrite (hash_find_heap h h'); [|done|apply pid_hashable; unfold MAX_PAGES in *; lia|done].
    split; [done|]. by apply Hsub.
Qed.

(** A new block. *)
Lemma directory_malloc h ht ps space o p h' :
  directory_ok h ht ps space → malloc o h = (p, h') →
  directory_ok h' ht ps space ∧ p ≠ NULL ∧ cells h' !! p = Some o ∧ data_fresh ht p
  ∧ (∀ q o', cells h !! q = Some o' → cells h' !! q = Some o').
Proof.
  intros Hd Hm. destruct (heap_ok_malloc _ _ _ _ (dir_heap _ _ _ _ Hd) Hm) as (Hh & Hp & Hn & Hc).
  assert (∀ q o', cells h !! q = Some o' → cells h' !! q = Some o') as Hsub.
  { intros q o' Hq. rewrite Hc, lookup_insert_ne; [done|congruence]. }
  split_and!; [by eapply directory_heap|unfold NULL, HEAP_BASE in *; lia|
               by rewrite Hc, lookup_insert_eq| |done].
  intros i j el (b & Hb & Hj) Heq.
  destruct (tk_bucket _ _ (dir_table _ _ _ _ Hd) _ _ Hb) as (ks & _ & _ & _ & Hdd).
  rewrite Forall_lookup in Hdd. destruct (Hdd _ _ Hj) as (_ & o' & Ho & _). congruence.
Qed.

(** Entering the free space of a page that is not in the table. *)
Lemma directory_insert h ht ps space p z kp dp :
  directory_ok h ht ps space → 0 ≤ p < MAX_PAGES → p ∉ ps →
  str_at h kp (format_u p) → dp ≠ NULL → cells h !! dp = Some (OU16 z) → data_fresh ht dp →
  ∃ ht', hash_insert kp dp ht h = Ok ht'
    ∧ directory_ok h ht' (p :: ps) (λ q, if decide (q = p) then z else space q).
Proof.
  intros Hd Hp Hnew Hkey Hdn Hdata Hfresh. unfold MAX_PAGES in *.
  destruct (hash_insert_ok h ht kp dp (format_u p)) as (ht' & Hins & Ht' & Hsz & Hf & He);
    [by eapply dir_table|done|apply pid_hashable; lia|by split; [|eexists]|done|].
  exists ht'. split; [done|].
  split; [by eapply dir_heap|done|by rewrite Hsz; eapply dir_size| |].
  - intros i j el [->|He']%He.
    + exists p. split; [by left|done].
    + destruct (dir_keys _ _ _ _ Hd _ _ _ He') as (q & Hq & Hs). exists q. split; [by right|done].
  - intros q [->|Hq]%elem_of_cons.
    + split; [done|]. exists (mkHashEl kp dp). rewrite Hf by (apply pid_hashable; lia).
      rewrite decide_True by done. split; [done|]. simpl. by rewrite decide_True by done.
    + destruct (dir_pages _ _ _ _ Hd q Hq) as [Hr (el & Hfind & Hcell)]. split; [done|].
      unfold MAX_PAGES in *. assert (q ≠ p) by congruence.
      exists el. rewrite Hf by (apply pid_hashable; lia). rewrite decide_False.
      * split; [done|]. by rewrite decide_False by done.
      * intros Heq%format_u_inj; [done|lia..].
Qed.

(** Removing a page frees nothing: its bucket has no other element. *)
Lemma directory_remove h ht ps space p :
  directory_ok h ht ps space → p ∈ ps →
  ∃ ht', hash_remove (format_u p) ht h = Ok (true, ht', h)
    ∧ directory_ok h ht' (filter (.≠ p) ps) space.
Proof.
  intros Hd Hp. destruct (dir_pages _ _ _ _ Hd p Hp) as [Hr (el & Hfind & _)].
  unfold MAX_PAGES in *. pose proof (pid_hashable p ltac:(lia)) as Hh.
  pose proof (dir_table _ _ _ _ Hd) as Ht.
  destruct (table_bucket _ _ _ Ht Hh) as (b & _ & Hb & _).
  pose proof (directory_sparse _ _ _ _ _ _ Hd Hb) as Hl.
  destruct (hash_remove_ok h ht (format_u p) b Ht Hh Hb) as
    (ok & ht' & h' & Hrem & Ht' & Hsz & Hf & _ & _ & Hsame & Hok & He); [by intros ? ? ?|].
  rewrite (Hsame Hl) in *. rewrite Hok in Hrem by eauto.
  exists ht'. split; [done|]. split; [by eapply dir_heap|done|by rewrite Hsz; eapply dir_size| |].
  - intros i j e He'. destruct (He _ _ _ He') as (j' & He0).
    destruct (dir_keys _ _ _ _ Hd _ _ _ He0) as (q & Hq & Hs). exists q. split; [|done].
    apply list_elem_of_filter. split; [|done]. intros ->.
    destruct (entry_find _ _ _ _ _ Ht' He') as (s & Hsh & Hs' & Hfs & _).
    rewrite (str_at_inj _ _ _ _ Hs' Hs), Hf, decide_True in Hfs by done. done.
  - intros q [Hq Hin]%list_elem_of_filter. destruct (dir_pages _ _ _ _ Hd q Hin) as [Hrq (e & Hfq & Hcq)].
    split; [done|]. exists e. unfold MAX_PAGES in *. rewrite Hf by (apply pid_hashable; lia).
    rewrite decide_False; [done|]. intros Heq%format_u_inj; [done|lia..].
Qed.

Lemma directory_equiv h ht ps ps' space :
  (∀ p, p ∈ ps ↔ p ∈ ps') → directory_ok h ht ps space → directory_ok h ht ps' space.
Proof.
  intros Heq [Hh Ht Hsz Hk Hp]. split; [done..| |].
  - intros i j el He. destruct (Hk i j el He) as (p & Hin & Hs). exists p. by rewrite <- Heq.
  - intros p. rewrite <- Heq. apply Hp.
Qed.

(** The search for a page compares addresses, so it stops at the first page. *)
Lemma find_spacious_page_ok h dm space size_needed :
  directory_ok h (page_directory dm) user_pages space → 0 ≤ size_needed ≤ 65535 →
  find_spacious_page size_needed dm h = Ok (Some START_USER_PAGE).
Proof.
  intros Hd Hs. unfold find_spacious_page. change user_pages with (2 :: seqZ 3 497).
  cbn [find_page_from]. change (sprintf 11 (format_d 2)) with (Ok (format_u 2)).
  cbn [mbind outcome_bind].
  destruct (dir_pages _ _ _ _ Hd 2) as [_ (el & -> & Hc)].
  { apply elem_of_seqZ. unfold START_USER_PAGE, MAX_PAGES. lia. }
  cbn [mbind outcome_bind]. apply (proj2 (dir_heap _ _ _ _ Hd)) in Hc. unfold HEAP_BASE in Hc.
  by rewrite (proj2 (Z.leb_le _ _)) by lia.
Qed.

Definition changed (act : TupleAction) (space size : Z) : Z :=
  u16 (match act with TUPLE_ADD => space - size | TUPLE_REMOVE => space + size end).

(** The directory entry in the file is four bytes long, but is written at twice
    the number of the page. *)
Lemma update_page_dir_ok h dm space pid size act d :
  directory_ok h (page_directory dm) user_pages space → pid ∈ user_pages →
  short_name (table_name dm) →
  ∃ ht' h' d', update_page_dir dm pid size act h d = Ok (set_directory dm ht', h', d')
    ∧ directory_ok h' ht' user_pages
        (λ q, if decide (q = pid) then changed act (space pid) size else space q)
    ∧ file_of dm d' = file_write (pid * 2) (be16 pid ++ be16 (changed act (space pid) size)) (file_of dm d).
Proof.
  intros Hd Hpid Hname. destruct (dir_pages _ _ _ _ Hd pid Hpid) as [Hr _].
  unfold MAX_PAGES in Hr. unfold update_page_dir.
  assert (sprintf 11 (format_u pid) = Ok (format_u pid)) as ->.
  { pose proof (pid_str_ok pid ltac:(lia)) as Hs.
    assert (i32 pid = pid) as Hi by (apply to_signed_id; lia).
    by rewrite Hi, format_d_nonneg in Hs by lia. }
  cbn [mbind outcome_bind].
  destruct (malloc (OStr (format_u pid)) h) as [kp h1] eqn:Hm1.
  destruct (directory_malloc _ _ _ _ _ _ _ Hd Hm1) as (Hd1 & Hkn & Hkc & _ & _).
  destruct (dir_pages _ _ _ _ Hd1 pid Hpid) as [_ (el & Hfind & Hcell)].
  rewrite Hfind. cbn [mbind outcome_bind]. unfold load_u16.
  rewrite (load_ok _ _ _ (heap_ok_nonnull _ _ _ (dir_heap _ _ _ _ Hd1) Hcell) Hcell).
  cbn [mbind outcome_bind].
  destruct (directory_remove _ _ _ _ _ Hd1 Hpid) as (ht1 & -> & Hd2). cbn [mbind outcome_bind].
  fold (changed act (space pid) size). set (z := changed act (space pid) size).
  destruct (malloc (OU16 z) h1) as [dp h2] eqn:Hm2.
  destruct (directory_malloc _ _ _ _ _ _ _ Hd2 Hm2) as (Hd3 & Hdn & Hdc & Hfresh & Hsub).
  destruct (directory_insert h2 ht1 _ space pid z kp dp Hd3) as (ht2 & -> & Hd4);
    [unfold MAX_PAGES; lia| |by split; [|apply Hsub]|done..|].
  { by intros [? _]%list_elem_of_filter. }
  cbn [mbind outcome_bind]. rewrite table_file_ok by done. cbn [mbind outcome_bind].
  rewrite (encode_uint16_ok _ (zeros 4)) by done. cbn [mbind outcome_bind].
  rewrite encode_uint16_ok by done. cbn [mbind outcome_bind].
  rewrite (u16_id pid) by lia.
  eexists ht2, h2, _. split; [done|]. split.
  - apply directory_equiv with (2 := Hd4). intros q. rewrite elem_of_cons, list_elem_of_filter.
    destruct (decide (q = pid)) as [->|]; [by split; [|left]|].
    split; [by intros [|[_ ?]]|by right].
  - unfold file_of, pwrite, contents at 1. simpl table_name. rewrite lookup_insert_eq. simpl default.
    rewrite contents_open. f_equal. unfold PID_TO_PAGE_DIRECTORY_OFFSET, u32. apply Z.mod_small. lia.
Qed.

(** ** A table and its user page *)

(** The state of a table whose tuples are [slots] of page 2, which is the only
    page the code ever chooses. *)
Section table.
Context {U : Uninit}.
Implicit Types (dm : DiskManager) (d : disk) (h : heap).

Record table_state (dm : DiskManager) (h : heap) (d : disk) (space : Z → Z)
    (fe fl : Z) (slots : list TuplePtr) : Prop := {
  ts_name : short_name (table_name dm);
  ts_latch : dm_latch dm = false;
  ts_dir : directory_ok h (page_directory dm) user_pages space;
  ts_page : has_page dm START_USER_PAGE d;
  ts_slots : slotted (page_of dm START_USER_PAGE d) fe fl slots;
}.

Lemma user_page_in : START_USER_PAGE ∈ user_pages.
Proof. apply elem_of_seqZ. unfold START_USER_PAGE, MAX_PAGES. lia. Qed.

Lemma has_page_below dm p q d : 0 ≤ q ≤ p → has_page dm p d → has_page dm q d.
Proof. unfold has_page, PAGE_SIZE. lia. Qed.

Lemma page_of_contents dm dm' pid d d' :
  table_name dm' = table_name dm → (∀ p, contents p d' = contents p d) →
  page_of dm' pid d' = page_of dm pid d.
Proof. intros Hn Hc. unfold page_of, file_of. by rewrite Hn, Hc. Qed.

(** What an update of the directory does to the pages of the file: it stays
    within page 0. *)
Lemma directory_write_pages dm pid bs d d' q :
  0 ≤ pid < MAX_PAGES → zlen bs = 4 → has_page dm q d → 0 < q →
  file_of dm d' = file_write (pid * 2) bs (file_of dm d) →
  page_of dm q d' = page_of dm q d ∧ has_page dm q d'.
Proof.
  unfold page_of, has_page, MAX_PAGES, PAGE_SIZE. intros Hp Hbs Hq Hq0 ->.
  rewrite zlen_file_write by lia. split; [|lia].
  apply slice_file_write_other; lia.
Qed.

(** *** The operations on the user page *)

Definition accepts (args : AddTupleArgs) (dm : DiskManager) (d : disk) : Prop :=
  ∃ n, rd (page_of dm 1 d) 0 = Ok n
    ∧ check_columns args (drop 1 (page_of dm 1 d)) n (Z.to_nat n) 0 0 = Ok true.

(** A rewritten user page, with the directory left alone. *)
Lemma write_user_page dm page d :
  short_name (table_name dm) → has_page dm START_USER_PAGE d → zlen page = PAGE_SIZE →
  ∃ d', write_page START_USER_PAGE dm page d = Ok d'
    ∧ page_of dm START_USER_PAGE d' = page ∧ has_page dm START_USER_PAGE d'
    ∧ (∀ q, 0 ≤ q → q ≠ START_USER_PAGE → has_page dm q d → page_of dm q d' = page_of dm q d).
Proof.
  intros Hn Hp Hl.
  destruct (write_page_ok dm START_USER_PAGE page d) as (d' & Hw & Hf & _); [done..|].
  destruct (page_of_write dm START_USER_PAGE page d d') as (H1 & H2 & H3 & H4); [done..|].
  by exists d'.
Qed.

Lemma add_tuple_ok args dm h d space fe fl slots bs :
  table_state dm h d space fe fl slots →
  encode_tuple (column_types args) (column_values args) = Some bs →
  num_columns args = zlen (column_types args) → accepts args dm d →
  PAGE_HEADER_SIZE + 4 * zlen slots + 4 + zlen bs ≤ fe →
  let p := mkTuplePtr (fe - zlen bs) (zlen bs) in
  ∃ dm' h' d', add_tuple args dm h d = Ok (Some p, dm', h', d')
    ∧ table_state dm' h' d'
        (λ q, if decide (q = START_USER_PAGE) then changed TUPLE_ADD (space START_USER_PAGE) (zlen bs)
              else space q)
        (fe - zlen bs) fl (slots ++ [p])
    ∧ table_name dm' = table_name dm
    ∧ tuple_bytes (page_of dm START_USER_PAGE d') p = bs
    ∧ (∀ off len, fe ≤ off → 0 ≤ len →
        slice (page_of dm START_USER_PAGE d') off len = slice (page_of dm START_USER_PAGE d) off len)
    ∧ page_of dm 1 d' = page_of dm 1 d.
Proof.
  intros [Hname Hlatch Hdir Hpage Hslots] Henc Hnum (n & Hn & Hcheck) Hfit p.
  pose proof (zlen_nonneg slots). pose proof (zlen_nonneg bs).
  pose proof (sl_room _ _ _ _ Hslots) as Hroom.
  assert (zlen bs ≤ 4095) as Hbs by page_lia.
  unfold add_tuple. assert (Z.to_nat (num_columns args) = length (column_types args)) as ->.
  { rewrite Hnum. unfold zlen. lia. }
  rewrite (tuple_length_ok _ _ _ 0 Henc) by lia. ok_step.
  rewrite Z.add_0_l, (write_values_ok _ _ _ 0 _ Henc) by (rewrite ?zlen_zeros; lia).
  ok_step. rewrite splice_zeros, Hlatch. cbn [wrlock mbind outcome_bind].
  rewrite (find_spacious_page_ok _ _ _ _ Hdir) by lia. ok_step.
  destruct (read_page_ok dm START_USER_PAGE d) as (d1 & -> & Hd1); [done..|].
  ok_step. rewrite (extract_header_ok _ _ _ _ _ Hslots). ok_step.
  assert (has_page dm 1 d1) as Hp1.
  { unfold has_page, file_of. rewrite Hd1. by apply (has_page_below dm START_USER_PAGE). }
  destruct (read_page_ok dm 1 d1) as (d2 & -> & Hd2); [done..|]. ok_step.
  rewrite (page_of_contents dm dm 1 d d1 eq_refl Hd1), Hn. ok_step.
  rewrite Hcheck. cbn [mbind outcome_bind negb].
  destruct (write_tuple_ok _ _ _ _ bs START_USER_PAGE Hslots Hfit) as (page' & -> & Hs' & Hb & Hrest).
  ok_step.
  assert (∀ q, contents q d2 = contents q d) as Hd12 by (intros q; by rewrite Hd2, Hd1).
  destruct (write_user_page dm page' d2) as (d3 & -> & Hp3 & Hh3 & Ho3);
    [done|unfold has_page, file_of; by rewrite Hd12|by eapply sl_page|].
  ok_step.
  destruct (update_page_dir_ok h dm space START_USER_PAGE (zlen bs) TUPLE_ADD d3 Hdir user_page_in)
    as (ht' & h' & d4 & -> & Hdir' & Hf4); [done|]. ok_step.
  destruct (λ H1 H2, directory_write_pages dm START_USER_PAGE _ d3 d4 START_USER_PAGE H1 H2
              Hh3 eq_refl Hf4) as [Hp4 Hh4]; [done..|].
  exists (set_directory dm ht'), h', d4. split_and!; [done| |done|by rewrite Hp4, Hp3| |].
  - split; [done..|]. change (page_of (set_directory dm ht')) with (page_of dm). by rewrite Hp4, Hp3.
  - intros off len. rewrite Hp4, Hp3. apply Hrest.
  - assert (has_page dm 1 d3) as Hh31 by (by apply (has_page_below dm START_USER_PAGE)).
    destruct (λ H1 H2, directory_write_pages dm START_USER_PAGE _ d3 d4 1 H1 H2
                Hh31 eq_refl Hf4) as [-> _]; [done..|].
    rewrite Ho3; [by apply page_of_contents|done|done|].
    unfold has_page, file_of. rewrite Hd12. by apply (has_page_below dm START_USER_PAGE).
Qed.

Lemma remove_tuple_ok dm h d space fe fl slots i p :
  table_state dm h d space fe fl slots → slots !! i = Some p →
  ∃ d', remove_tuple dm (mkRID START_USER_PAGE (Z.of_nat i)) d = Ok d'
    ∧ table_state dm h d' space fe (Z.lor fl COMPACTABLE) (<[i := mkTuplePtr 0 (tuple_size p)]> slots)
    ∧ (∀ off len, PAGE_HEADER_SIZE + 4 * zlen slots ≤ off → 0 ≤ len →
        slice (page_of dm START_USER_PAGE d') off len = slice (page_of dm START_USER_PAGE d) off len)
    ∧ page_of dm 1 d' = page_of dm 1 d.
Proof.
  intros [Hname Hlatch Hdir Hpage Hslots] Hi. unfold remove_tuple. rewrite Hlatch.
  cbn [wrlock mbind outcome_bind pid].
  destruct (read_page_ok dm START_USER_PAGE d) as (d1 & -> & Hd1); [done..|].
  ok_step.
  destruct (mark_removed_ok _ _ _ _ _ _ START_USER_PAGE Hslots Hi) as (page' & -> & Hs' & Hrest).
  ok_step.
  destruct (write_user_page dm page' d1) as (d2 & -> & Hp2 & Hh2 & Hother);
    [done|unfold has_page, file_of; by rewrite Hd1|by eapply sl_page|].
  exists d2. split; [done|]. split; [split; [done..|by rewrite Hp2]|]. split.
  - intros off len. rewrite Hp2. apply Hrest.
  - rewrite Hother; [by apply page_of_contents|done|done|]. unfold has_page, file_of. rewrite Hd1.
    by apply (has_page_below dm START_USER_PAGE).
Qed.

Lemma get_tuple_ok dm h d space fe fl slots i p :
  table_state dm h d space fe fl slots → slots !! i = Some p →
  get_tuple (mkRID START_USER_PAGE (Z.of_nat i)) dm d
  = Ok (if start_offset p =? 0 then None
        else Some (drop (Z.to_nat (start_offset p)) (page_of dm START_USER_PAGE d))).
Proof.
  intros [Hname Hlatch Hdir Hpage Hslots] Hi. unfold get_tuple. cbn [pid slot_num].
  destruct (read_page_ok dm START_USER_PAGE d) as (d1 & -> & _); [done..|].
  ok_step. rewrite (extract_tuple_ptr_ok _ _ _ _ _ _ Hslots Hi).
  ok_step. by destruct (start_offset p =? 0).
Qed.

Lemma new_heap_page_ok dm h d space :
  short_name (table_name dm) → dm_latch dm = false →
  directory_ok h (page_directory dm) user_pages space → has_page dm 1 d →
  ∃ d', new_heap_page dm h d = Ok (START_USER_PAGE, d')
    ∧ table_state dm h d' space (PAGE_SIZE - 1) 0 []
    ∧ page_of dm 1 d' = page_of dm 1 d.
Proof.
  intros Hname Hlatch Hdir Hpage. unfold new_heap_page.
  rewrite (find_spacious_page_ok _ _ _ _ Hdir) by done. ok_step.
  rewrite Hlatch. cbn [wrlock mbind outcome_bind].
  pose proof uninit_length as Hu.
  rewrite construct_page_header_buf_ok by done. cbn [mbind outcome_bind free_start free_end flags].
  fold (with_header uninit PAGE_HEADER_SIZE (PAGE_SIZE - 1) 0).
  destruct (with_header_slices uninit PAGE_HEADER_SIZE (PAGE_SIZE - 1) 0) as (Hl & H0 & H2 & H4 & _);
    [done|].
  set (page := with_header _ _ _ _) in *.
  destruct (write_page_ok dm START_USER_PAGE page d) as (d' & -> & Hf & _); [done..|].
  ok_step.
  destruct (page_of_write dm START_USER_PAGE page d d') as (Hp & Hh & Ho & Hk); [done..|].
  exists d'. split_and!; [done| |by apply Ho].
  split; [done..|]. rewrite Hp. by split.
Qed.
End table.

(** ** Creating a table *)

Definition directory_bytes (pids : list Z) : list Z :=
  concat ((λ pid, be16 pid ++ be16 PAGE_SIZE) <$> pids).

Lemma zlen_directory_bytes pids : zlen (directory_bytes pids) = 4 * zlen pids.
Proof.
  unfold directory_bytes. induction pids as [|p pids IH]; [done|].
  cbn [fmap list_fmap concat]. rewrite zlen_app, zlen_cons. unfold directory_bytes in IH.
  rewrite IH. change (zlen (be16 p ++ be16 PAGE_SIZE)) with 4. lia.
Qed.

Lemma directory_space h ht ps space space' :
  (∀ p, p ∈ ps → space p = space' p) → directory_ok h ht ps space → directory_ok h ht ps space'.
Proof.
  intros Heq [Hh Ht Hsz Hk Hp]. split; [done..|]. intros p Hin. rewrite <- Heq by done. by apply Hp.
Qed.

Lemma create_directory_ok pids content ht h ps :
  directory_ok h ht ps (λ _, PAGE_SIZE) → NoDup pids →
  (∀ p, p ∈ pids → 0 ≤ p < MAX_PAGES ∧ p ∉ ps) →
  ∃ ht' h', create_directory pids content ht h = Ok (content ++ directory_bytes pids, ht', h')
    ∧ directory_ok h' ht' (filter (λ p, START_USER_PAGE ≤ p) pids ++ ps) (λ _, PAGE_SIZE).
Proof.
  revert content ht h ps. induction pids as [|p pids IH]; intros content ht h ps Hd Hnd Hpids.
  { exists ht, h. by rewrite app_nil_r. }
  apply NoDup_cons in Hnd as [Hnew Hnd]. destruct (Hpids p) as [Hr Hps]; [by left|].
  unfold MAX_PAGES in Hr. cbn [create_directory].
  rewrite (encode_uint16_ok (u16 p) (zeros 2)) by done. ok_step.
  rewrite (encode_uint16_ok PAGE_SIZE (zeros 2)) by done. ok_step. rewrite (u16_id p) by lia.
  assert (∀ c : list Z, c ++ directory_bytes (p :: pids)
    = (c ++ splice (zeros 2) 0 (be16 p) ++ splice (zeros 2) 0 (be16 PAGE_SIZE)) ++ directory_bytes pids)
    as Hc.
  { intros c. rewrite <- app_assoc. f_equal. }
  rewrite Hc. destruct (p <? START_USER_PAGE) eqn:Hlt.
  - rewrite filter_cons_False by lia. apply IH; [done|done|]. intros q Hq. apply Hpids. by right.
  - rewrite filter_cons_True by lia.
    destruct (malloc (OU16 PAGE_SIZE) h) as [dp h1] eqn:Hm1.
    destruct (directory_malloc _ _ _ _ _ _ _ Hd Hm1) as (Hd1 & Hdn & Hdc & Hfresh & _).
    assert (sprintf 7 (format_d p) = Ok (format_u p)) as ->.
    { rewrite format_d_nonneg by lia. unfold sprintf, zlen, format_u.
      assert (length (dec 10 p) ≤ 3)%nat by (apply dec_length; [simpl; lia|lia]).
      by rewrite (proj2 (Z.leb_le _ _)) by lia. }
    ok_step. destruct (malloc (OStr (format_u p)) h1) as [kp h2] eqn:Hm2.
    destruct (directory_malloc _ _ _ _ _ _ _ Hd1 Hm2) as (Hd2 & Hkn & Hkc & _ & Hsub).
    destruct (directory_insert h2 ht ps (λ _, PAGE_SIZE) p PAGE_SIZE kp dp Hd2) as (ht' & -> & Hd3);
      [unfold MAX_PAGES; lia|done|done|done|by apply Hsub|done|].
    ok_step.
    assert (directory_ok h2 ht' (p :: ps) (λ _, PAGE_SIZE)) as Hd4.
    { eapply directory_space; [|done]. intros q _. simpl. by case_decide. }
    destruct (IH (content ++ splice (zeros 2) 0 (be16 p) ++ splice (zeros 2) 0 (be16 PAGE_SIZE))
                ht' h2 (p :: ps) Hd4 Hnd) as (ht'' & h'' & Heq & Hd5).
    { intros q Hq. destruct (Hpids q) as [Hrq Hpq]; [by right|]. split; [done|].
      rewrite elem_of_cons. intros [->|]; done. }
    exists ht'', h''. split; [done|]. eapply directory_equiv; [|done].
    intros q. rewrite !elem_of_app, !elem_of_cons. tauto.
Qed.

(** *** The schema *)

Definition column_of (c : text * ColumnType) : Column :=
  mkColumn (zlen c.1) (text_bytes c.1) c.2.
Definition column_bytes (c : text * ColumnType) : list Z :=
  zlen c.1 :: text_bytes c.1 ++ [type_code c.2].
(** The columns of a table, as the caller of [add_tuple] names them. *)
Definition args_for (cols : list (text * ColumnType)) (values : list ColumnValue) : AddTupleArgs :=
  mkAddTupleArgs cols.*1 values cols.*2 (zlen cols).

#[local] Hint Rewrite zlen_text_bytes : buf.

Lemma zlen_column_bytes c : zlen (column_bytes c) = zlen c.1 + 2.
Proof. unfold column_bytes. rewrite zlen_cons, zlen_app, zlen_text_bytes. change (zlen [_]) with 1. lia. Qed.

Lemma zlen_columns L cols :
  Forall (λ c : text * ColumnType, zlen c.1 = L) cols →
  zlen (concat (column_bytes <$> cols)) = zlen cols * (L + 2).
Proof.
  induction 1 as [|c cols Hc _ IH]; [done|]. rewrite fmap_cons. cbn [concat].
  rewrite zlen_app, zlen_cons, zlen_column_bytes, IH. lia.
Qed.

(** Columns with names of one length are laid out one after the other. *)
Lemma write_columns_ok L cols j s buf :
  0 ≤ L → Forall (λ c : text * ColumnType, zlen c.1 = L) cols → 0 ≤ j → j = 0 ∨ s = L + 2 →
  1 + (j + zlen cols) * (L + 2) ≤ zlen buf →
  write_columns (column_of <$> cols) j s buf
  = Ok (splice buf (1 + j * (L + 2)) (concat (column_bytes <$> cols))).
Proof.
  intros HL Hc. revert j s buf. induction Hc as [|c cols Hc Hcols IH]; intros j s buf Hj Hs Hb.
  { cbn. by rewrite splice_nil. }
  rewrite !fmap_cons. cbn [write_columns concat].
  change (name_len (column_of c)) with (zlen c.1). change (name (column_of c)) with (text_bytes c.1).
  change (column_type (column_of c)) with (c.2).
  rewrite zlen_cons in Hb. pose proof (zlen_nonneg cols).
  assert (START_COLUMNS_INFO + j * s = 1 + j * (L + 2)) as ->.
  { unfold START_COLUMNS_INFO. destruct Hs as [->| ->]; lia. }
  set (off := 1 + j * (L + 2)). assert (1 ≤ off) by (unfold off; nia).
  assert (off + (L + 2) ≤ zlen buf) by (unfold off; nia).
  rewrite wr_ok by lia. ok_step. rewrite rd_bytes_ok by blen. ok_step.
  assert (slice (text_bytes c.1) 0 (zlen c.1) = text_bytes c.1) as ->.
  { rewrite <- zlen_text_bytes. apply slice_full. }
  rewrite wr_bytes_ok by blen. ok_step. rewrite (splice_adj buf off (off + 1)) by blen.
  rewrite wr_ok by blen. ok_step. rewrite (splice_adj buf off) by blen.
  assert (([zlen c.1] ++ text_bytes c.1) ++ [type_code c.2] = column_bytes c) as -> by done.
  rewrite IH; [|lia|right; unfold SCHEMA_COLUMN_SIZE; lia|].
  - f_equal. apply splice_adj; [rewrite zlen_column_bytes; unfold off; lia|lia|].
    rewrite (zlen_columns L), zlen_column_bytes by done. unfold off. nia.
  - rewrite zlen_splice by (rewrite ?zlen_column_bytes; lia). lia.
Qed.

Lemma strncmp_equal_refl a b : strncmp_equal a (a ++ b) = true.
Proof.
  induction a as [|x a IH]; simpl; [by destruct b|]. rewrite Z.eqb_refl, IH. by destruct (x =? 0).
Qed.

Lemma slice_middle (a b c : list Z) : slice (a ++ b ++ c) (zlen a) (zlen b) = b.
Proof.
  unfold slice, zlen. rewrite !Nat2Z.id, drop_app_length. apply take_app_length.
Qed.

Lemma schema_column L pre c cols rest :
  Forall (λ c : text * ColumnType, zlen c.1 = L) (pre ++ c :: cols) →
  slice (concat (column_bytes <$> (pre ++ c :: cols)) ++ rest) (zlen pre * (L + 2)) (L + 2)
  = column_bytes c.
Proof.
  intros [Hpre [Hc Hcols]%Forall_cons]%Forall_app.
  rewrite fmap_app, fmap_cons, concat_app. cbn [concat]. rewrite <- !app_assoc.
  rewrite <- (zlen_columns L pre) by done.
  replace (L + 2) with (zlen (column_bytes c)) by (rewrite zlen_column_bytes; lia).
  apply slice_middle.
Qed.

(** The columns of the table are accepted. *)
Lemma check_columns_ok L all values rest pre cols o :
  all = pre ++ cols → Forall (λ c : text * ColumnType, zlen c.1 = L) all →
  rd (concat (column_bytes <$> all) ++ rest) o = Ok L →
  check_columns (args_for all values) (concat (column_bytes <$> all) ++ rest) (zlen all)
    (length cols) (length pre) o = Ok true.
Proof.
  revert pre o. induction cols as [|c cols IH]; intros pre o Hall HL Ho; [done|].
  cbn [check_columns length]. rewrite Ho. ok_step.
  assert (0 ≤ L) as HL0.
  { subst all. apply Forall_app in HL as [_ [<- _]%Forall_cons]. apply zlen_nonneg. }
  set (schema := concat _ ++ rest) in *. set (off := Z.of_nat (length pre) * (1 + L + 1)).
  assert (0 ≤ off) by (unfold off; nia).
  assert (slice schema off (L + 2) = column_bytes c) as Hcol.
  { unfold schema, off. rewrite Hall in HL |- *.
    replace (Z.of_nat (length pre) * (1 + L + 1)) with (zlen pre * (L + 2)) by (unfold zlen; lia).
    by apply schema_column. }
  assert (zlen c.1 = L) as Hc.
  { subst all. by apply Forall_app in HL as [_ [? _]%Forall_cons]. }
  unfold column_bytes in Hcol. rewrite Hc in Hcol.
  change (L :: text_bytes c.1 ++ [type_code c.2]) with ([L] ++ text_bytes c.1 ++ [type_code c.2]) in Hcol.
  apply slice_app_inv in Hcol as [Hlen Hcol]; [|lia|blen].
  change (zlen [L]) with 1 in *.
  apply slice_app_inv in Hcol as [Hname Htype]; [|lia|by rewrite zlen_app].
  rewrite zlen_text_bytes, Hc in *. change (zlen [type_code c.2]) with 1 in Htype.
  rewrite (rd_slice schema off L) by (done || lia). ok_step.
  assert (rd_bytes schema (off + 1) L = Ok (text_bytes c.1)) as ->.
  { rewrite rd_bytes_ok; [by rewrite Hname|lia|done|].
    apply (f_equal length) in Htype. unfold slice in Htype. rewrite length_take, length_drop in Htype.
    change (length [_]) with 1%nat in Htype. unfold zlen. lia. }
  ok_step. rewrite (rd_slice schema (off + L + 1) (type_code c.2));
    [|lia|replace (off + L + 1) with (off + 1 + L) by lia; done]. ok_step.
  cbn [args_for num_columns column_names column_types]. rewrite Z.eqb_refl. cbn [negb].
  assert (all !! length pre = Some c) as Hat.
  { rewrite Hall, lookup_app_r, Nat.sub_diag by lia. done. }
  unfold nth_at. rewrite !list_lookup_fmap, Hat. cbn [fmap option_fmap option_map]. ok_step.
  rewrite strncmp_equal_refl. cbn [negb]. ok_step. rewrite Z.eqb_refl. cbn [negb].
  replace (S (length pre)) with (length (pre ++ [c])) by (rewrite length_app; simpl; lia).
  apply IH; [by rewrite Hall, <- app_assoc|done|].
  by apply rd_slice; [lia|].
Qed.

(** The metadata of a new table. *)
Definition schema_page (cols : list (text * ColumnType)) : list Z :=
  zlen cols :: concat (column_bytes <$> cols)
    ++ zeros (PAGE_SIZE - 1 - zlen (concat (column_bytes <$> cols))).

Lemma file_write_new bs : file_write 0 bs [] = bs.
Proof.
  unfold file_write. change ([] ++ zeros (0 + zlen bs - zlen [])) with (zeros (zlen bs - 0)).
  rewrite Z.sub_0_r. apply splice_zeros.
Qed.

Lemma create_table_ok tname L cols h d :
  zlen tname < 15 → heap_ok h → contents (path_of tname) d = [] →
  Forall (λ c : text * ColumnType, zlen c.1 = L) cols → 0 ≤ L →
  1 + zlen cols * (L + 2) ≤ PAGE_SIZE →
  ∃ dm h' d', create_table tname (column_of <$> cols) (zlen cols) h d = Ok (Some dm, h', d')
    ∧ table_name dm = tname ∧ dm_latch dm = false
    ∧ directory_ok h' (page_directory dm) user_pages (λ _, PAGE_SIZE)
    ∧ file_of dm d' = directory_bytes (seqZ 0 MAX_PAGES) ++ zeros 2096 ++ schema_page cols.
Proof.
  intros Hname Hh Hempty Hcols HL Hroom. unfold create_table, sprintf.
  rewrite (proj2 (Z.leb_le _ _)) by lia. ok_step.
  rewrite table_file_ok by (unfold short_name; lia). ok_step. rewrite contents_open, Hempty.
  change (negb (zlen (@nil Z) =? 0)) with false. cbv iota.
  assert (directory_ok h (init_hash MAX_PAGES) [] (λ _, PAGE_SIZE)) as Hd0.
  { split; [done|by apply init_hash_ok|done|by intros ? ? ? ?%init_hash_entry|].
    intros p Hp. by apply elem_of_nil in Hp. }
  destruct (create_directory_ok (seqZ 0 MAX_PAGES) [] _ _ _ Hd0) as (ht & h' & -> & Hd1).
  { apply NoDup_seqZ. }
  { intros p Hp%elem_of_seqZ. split; [lia|]. by intros ?%elem_of_nil. }
  ok_step.
  assert (zlen (column_of <$> cols) = zlen cols) as Hz by (unfold zlen; by rewrite length_fmap).
  rewrite Hz, (proj2 (Z.ltb_ge _ _)) by lia.
  rewrite take_ge by (unfold zlen; rewrite length_fmap; lia).
  pose proof (zlen_columns L cols Hcols) as Hsize. pose proof (zlen_nonneg cols).
  rewrite (write_columns_ok L) by
    (try done; try lia; try (by left); rewrite zlen_cons, zlen_zeros by done; unfold PAGE_SIZE in *; lia).
  ok_step. eexists _, h', _. split_and!; [done|done|done| |].
  - eapply directory_equiv; [|exact Hd1]. intros p.
    unfold user_pages. rewrite elem_of_app, list_elem_of_filter, !elem_of_seqZ. unfold START_USER_PAGE, MAX_PAGES. cbv beta.
    rewrite elem_of_nil. split; [intros [?|?]; [lia|done]|intros; left; lia].
  - unfold file_of, pwrite. simpl table_name. unfold contents at 1. rewrite lookup_insert_eq.
    cbn [from_option Datatypes.id]. rewrite contents_open, Hempty, file_write_new, app_nil_l.
    change (u16 (PAGE_SIZE - MAX_PAGES * 4)) with 2096. do 2 f_equal.
    unfold schema_page. change (1 + 0 * (L + 2)) with 1.
    assert (splice (zlen cols :: zeros (PAGE_SIZE - 1)) 1 (concat (column_bytes <$> cols))
            = zlen cols :: splice (zeros (PAGE_SIZE - 1)) 0 (concat (column_bytes <$> cols))) as -> by done.
    f_equal. unfold splice, zeros. change (Z.to_nat 0) with 0%nat.
    rewrite take_0, Nat.add_0_l, drop_replicate. cbn [app]. do 2 f_equal.
    unfold zlen, PAGE_SIZE in *. lia.
Qed.

(** ** The table as a list of rows *)

Section rows.
Context {U : Uninit}.
Implicit Types (dm : DiskManager) (d : disk) (h : heap).

(** A slot is a tuple, or nothing once the tuple was removed. *)
Definition row (page : list Z) (p : TuplePtr) : option (list Z) :=
  if start_offset p =? 0 then None else Some (tuple_bytes page p).

(** The table has the rows [rows], in slot order, and [room] free bytes in
    its page. *)
Definition heap_table dm h d (room : Z) (rows : list (option (list Z))) : Prop :=
  ∃ space fe fl slots, table_state dm h d space fe fl slots
    ∧ rows = row (page_of dm START_USER_PAGE d) <$> slots
    ∧ room = fe - (PAGE_HEADER_SIZE + 4 * zlen slots).

Lemma row_same page page' p :
  tuple_bytes page' p = tuple_bytes page p → row page' p = row page p.
Proof. intros H. unfold row. by rewrite H. Qed.

Lemma rows_same page page' fe fl slots :
  slotted page fe fl slots →
  (∀ off len, fe ≤ off → 0 ≤ len → slice page' off len = slice page off len) →
  row page' <$> slots = row page <$> slots.
Proof.
  intros Hs Hsame. apply list_eq. intros i. rewrite !list_lookup_fmap.
  destruct (slots !! i) as [p|] eqn:Hi; [|done]. simpl. f_equal.
  destruct (sl_slots _ _ _ _ Hs _ _ Hi) as (_ & Hsz & Hoff). unfold row.
  destruct (Z.eqb_spec (start_offset p) 0); [done|].
  unfold tuple_bytes. rewrite Hsame by lia. done.
Qed.

Lemma new_table_ok tname L cols h d :
  zlen tname < 15 → heap_ok h → contents (path_of tname) d = [] →
  Forall (λ c : text * ColumnType, zlen c.1 = L) cols → 0 ≤ L →
  1 + zlen cols * (L + 2) ≤ PAGE_SIZE →
  ∃ dm h' d1 d2,
    create_table tname (column_of <$> cols) (zlen cols) h d = Ok (Some dm, h', d1)
    ∧ new_heap_page dm h' d1 = Ok (START_USER_PAGE, d2)
    ∧ table_state dm h' d2 (λ _, PAGE_SIZE) 4095 0 []
    ∧ ∀ values, accepts (args_for cols values) dm d2.
Proof.
  intros Hname Hh Hempty Hcols HL Hroom.
  destruct (create_table_ok tname L cols h d) as (dm & h' & d1 & Hc & Htn & Hlatch & Hdir & Hfile);
    [done..|].
  pose proof (zlen_columns L cols Hcols) as Hsize.
  assert (zlen (schema_page cols) = PAGE_SIZE) as Hschema.
  { unfold schema_page. rewrite zlen_cons, zlen_app, zlen_zeros by page_lia. lia. }
  assert (zlen (file_of dm d1) = 2 * PAGE_SIZE) as Hlen.
  { rewrite Hfile, !zlen_app, zlen_directory_bytes, Hschema. done. }
  assert (page_of dm 1 d1 = schema_page cols) as Hpage.
  { unfold page_of. rewrite Hfile, app_assoc.
    rewrite <- (app_nil_r (schema_page cols)) at 1. rewrite <- Hschema at 2. apply slice_middle. }
  destruct (new_heap_page_ok dm h' d1 (λ _, PAGE_SIZE)) as (d2 & Hnew & Hstate & Hsame);
    [rewrite Htn; unfold short_name; lia|done|done|unfold has_page; lia|].
  exists dm, h', d1, d2. split_and!; [done..|].
  intros values. exists (zlen cols). rewrite Hsame, Hpage. split; [done|].
  change (drop 1 (schema_page cols)) with
    (concat (column_bytes <$> cols) ++ zeros (PAGE_SIZE - 1 - zlen (concat (column_bytes <$> cols)))).
  replace (Z.to_nat (zlen cols)) with (length cols) by (unfold zlen; lia).
  destruct cols as [|c cols]; [done|].
  apply (check_columns_ok L _ _ _ []); [done|done|].
  apply Forall_cons in Hcols as [<- _]. done.
Qed.

(** Adding a tuple that fits appends its encoding to the rows: the rows before it
    are untouched, and so is the schema. *)
Lemma add_row args dm h d room rows bs :
  heap_table dm h d room rows →
  encode_tuple (column_types args) (column_values args) = Some bs →
  num_columns args = zlen (column_types args) → accepts args dm d → 4 + zlen bs ≤ room →
  ∃ p dm' h' d', add_tuple args dm h d = Ok (Some p, dm', h', d')
    ∧ heap_table dm' h' d' (room - 4 - zlen bs) (rows ++ [Some bs])
    ∧ ∀ args', accepts args' dm d → accepts args' dm' d'.
Proof.
  intros (space & fe & fl & slots & Hstate & -> & ->) Henc Hnum Hacc Hroom.
  destruct (add_tuple_ok args dm h d space fe fl slots bs Hstate Henc Hnum Hacc)
    as (dm' & h' & d' & Hadd & Hstate' & Hname & Hbytes & Hsame & Hschema); [lia|].
  set (p := mkTuplePtr (fe - zlen bs) (zlen bs)) in *.
  assert (∀ q, page_of dm' q d' = page_of dm q d') as Hpo by
    (intros q; unfold page_of, file_of; by rewrite Hname).
  eexists p, dm', h', d'. split_and!; [done| |].
  - eexists _, _, fl, _. split_and!; [done| |].
    + rewrite Hpo, fmap_app, (rows_same _ _ _ _ _ (ts_slots _ _ _ _ _ _ _ Hstate) Hsame).
      f_equal. cbn [fmap list_fmap]. f_equal. unfold row. rewrite Hbytes.
      unfold p. cbn [start_offset]. pose proof (zlen_nonneg slots).
      by rewrite (proj2 (Z.eqb_neq _ _)) by page_lia.
    + rewrite zlen_app. change (zlen [p]) with 1. lia.
  - intros args' (n & Hn & Hc). exists n. by rewrite Hpo, Hschema.
Qed.

(** A row is read at its slot number: the address of its first byte, or
    a null pointer for a removed one. *)
Lemma get_row dm h d room rows i r :
  heap_table dm h d room rows → rows !! i = Some r →
  ∃ o, get_tuple (mkRID START_USER_PAGE (Z.of_nat i)) dm d = Ok o
    ∧ match r with
      | None => o = None
      | Some bs => ∃ rest, o = Some (bs ++ rest)
      end.
Proof.
  intros (space & fe & fl & slots & Hstate & -> & _) Hi. rewrite list_lookup_fmap in Hi.
  destruct (slots !! i) as [p|] eqn:Hp; [|done]. injection Hi as <-.
  rewrite (get_tuple_ok _ _ _ _ _ _ _ _ _ Hstate Hp). eexists. split; [done|]. unfold row.
  destruct (start_offset p =? 0); [done|].
  exists (drop (Z.to_nat (start_offset p) + Z.to_nat (tuple_size p)) (page_of dm START_USER_PAGE d)).
  unfold tuple_bytes, slice. by rewrite <- drop_drop, take_drop.
Qed.

(** Removing a tuple empties its row and no other, and leaves the schema. *)
Lemma remove_row dm h d room rows i r :
  heap_table dm h d room rows → rows !! i = Some r →
  ∃ d', remove_tuple dm (mkRID START_USER_PAGE (Z.of_nat i)) d = Ok d'
    ∧ heap_table dm h d' room (<[i := None]> rows) ∧ page_of dm 1 d' = page_of dm 1 d.
Proof.
  intros (space & fe & fl & slots & Hstate & -> & ->) Hi. rewrite list_lookup_fmap in Hi.
  destruct (slots !! i) as [p|] eqn:Hp; [|done].
  destruct (remove_tuple_ok _ _ _ _ _ _ _ _ _ Hstate Hp) as (d' & Hrem & Hstate' & Hsame & Hschema).
  exists d'. split; [done|]. split; [|done]. eexists _, _, _, _. split_and!; [done| |].
  - rewrite list_fmap_insert. unfold row at 3. cbn [start_offset Z.eqb]. f_equal.
    symmetry. eapply rows_same; [by eapply ts_slots|]. intros off len Ho Hl. apply Hsame; [|done].
    pose proof (sl_room _ _ _ _ (ts_slots _ _ _ _ _ _ _ Hstate)). lia.
  - unfold zlen. by rewrite length_insert.
Qed.

(** Allocating a page takes page 2 whatever it holds: all rows of the
    table are lost. *)
Theorem new_heap_page_wipes dm h d room rows :
  heap_table dm h d room rows →
  ∃ d', new_heap_page dm h d = Ok (START_USER_PAGE, d') ∧ heap_table dm h d' 4090 [].
Proof.
  intros (space & fe & fl & slots & [Hn Hl Hd Hp Hs] & _ & _).
  destruct (new_heap_page_ok dm h d space) as (d' & Hnew & Hstate & _);
    [done..|by apply (has_page_below dm START_USER_PAGE)|].
  exists d'. split; [done|]. by exists space, 4095, 0, [].
Qed.

(** A full page is not noticed: adding a tuple longer than the offset of
    the end of the free space writes before the start of the page. *)
Theorem add_tuple_full args dm h d space fe fl slots bs :
  table_state dm h d space fe fl slots →
  encode_tuple (column_types args) (column_values args) = Some bs →
  num_columns args = zlen (column_types args) → accepts args dm d →
  fe < zlen bs ≤ 65535 →
  add_tuple args dm h d = Undef OutOfBounds.
Proof.
  intros [Hname Hlatch Hdir Hpage Hslots] Henc Hnum (n & Hn & Hcheck) Hfit.
  pose proof (zlen_nonneg slots). pose proof (zlen_nonneg bs).
  pose proof (sl_room _ _ _ _ Hslots) as Hroom. pose proof (sl_page _ _ _ _ Hslots) as Hl.
  unfold add_tuple. assert (Z.to_nat (num_columns args) = length (column_types args)) as ->.
  { rewrite Hnum. unfold zlen. lia. }
  rewrite (tuple_length_ok _ _ _ 0 Henc) by lia. ok_step.
  rewrite Z.add_0_l, (write_values_ok _ _ _ 0 _ Henc) by (rewrite ?zlen_zeros; lia).
  ok_step. rewrite splice_zeros, Hlatch. cbn [wrlock]. ok_step.
  rewrite (find_spacious_page_ok _ _ _ _ Hdir) by lia. ok_step.
  destruct (read_page_ok dm START_USER_PAGE d) as (d1 & -> & Hd1); [done..|].
  ok_step. rewrite (extract_header_ok _ _ _ _ _ Hslots). ok_step.
  destruct (read_page_ok dm 1 d1) as (d2 & -> & _); [done|done| |].
  { unfold has_page, file_of. rewrite Hd1. by apply (has_page_below dm START_USER_PAGE). }
  ok_step. rewrite (page_of_contents dm dm 1 d d1 eq_refl Hd1), Hn. ok_step.
  rewrite Hcheck. ok_step. cbn [negb]. unfold write_tuple. cbn [free_start free_end].
  rewrite (encode_uint16_ok _ (zeros TUPLE_PTR_SIZE)) by done. ok_step.
  rewrite encode_uint16_ok by done. ok_step.
  match goal with |- context [wr_bytes ?page ?off ?ptr] =>
    assert (wr_bytes page off ptr = Undef OutOfBounds ∨ ∃ p1, wr_bytes page off ptr = Ok p1)
      as [->|[p1 ->]] by (unfold wr_bytes; case_bool; eauto) end; [done|].
  ok_step. unfold wr_bytes at 1. by rewrite (proj2 (Z.leb_gt _ _)) by lia.
Qed.

(** The entry of a page in the directory of the file is four bytes long,
    but the free space of the page is recorded at twice its number, which is
    the entry of another page; its own entry keeps its old value. *)
Theorem update_page_dir_misplaced h dm space pid size act d :
  directory_ok h (page_directory dm) user_pages space → START_USER_PAGE ≤ pid < MAX_PAGES →
  short_name (table_name dm) → has_page dm 0 d →
  ∃ dm' h' d', update_page_dir dm pid size act h d = Ok (dm', h', d')
    ∧ slice (file_of dm d') (pid * 2) 4 = be16 pid ++ be16 (changed act (space pid) size)
    ∧ slice (file_of dm d') (pid * 4) 4 = slice (file_of dm d) (pid * 4) 4.
Proof.
  intros Hd Hp Hn Hpage. unfold START_USER_PAGE, MAX_PAGES, has_page, PAGE_SIZE in *.
  destruct (update_page_dir_ok h dm space pid size act d Hd) as (ht' & h' & d' & Hup & _ & Hf);
    [apply elem_of_seqZ; unfold START_USER_PAGE, MAX_PAGES; lia|done|].
  exists (set_directory dm ht'), h', d'. split; [done|]. rewrite Hf. split.
  - change 4 with (zlen (be16 pid ++ be16 (changed act (space pid) size))).
    apply slice_file_write_same. lia.
  - apply slice_file_write_other; [lia|lia|lia|lia|right].
    change (zlen (be16 pid ++ be16 (changed act (space pid) size))) with 4. lia.
Qed.

(** C33: defragmentation of a well-formed page that is marked for it, whose tuples
    are not empty, which has 4 more bytes after its last slot of which the last two
    are 0, and whose live slots and tuples fit it: the removed slots are gone, the
    tuples are packed against the end of the page and the flag is cleared; but every
    tuple pointer is the old one, so it does not point to where its tuple is now. *)
Theorem defragment_spec dm h d space fe fl slots :
  table_state dm h d space fe fl slots →
  Z.land fl COMPACTABLE ≠ 0 →
  Forall (λ p, 0 < tuple_size p) slots →
  PAGE_HEADER_SIZE + 4 * zlen slots + 4 ≤ PAGE_SIZE →
  slice (page_of dm START_USER_PAGE d) (PAGE_HEADER_SIZE + 4 * zlen slots + 2) 2 = be16 0 →
  PAGE_HEADER_SIZE + 4 * zlen (live slots) + total_size (live slots) ≤ PAGE_SIZE - 1 →
  ∃ d', defragment START_USER_PAGE dm d = Ok d'
    ∧ extract_header (page_of dm START_USER_PAGE d') START_USER_PAGE
      = Ok (mkHeader START_USER_PAGE (PAGE_HEADER_SIZE + 4 * zlen (live slots))
             (PAGE_SIZE - 1 - total_size (live slots)) (Z.land fl (Z.lnot COMPACTABLE)))
    ∧ packed (page_of dm START_USER_PAGE d') (page_of dm START_USER_PAGE d)
        (PAGE_SIZE - 1) 0 (live slots).
Proof.
  intros [Hname Hlatch Hdir Hpage Hslots] Hflag Hsizes Hstop Hzero Hroom.
  destruct (live_sizes slots Hsizes) as [Htot Hlive]. pose proof (zlen_nonneg (live slots)).
  unfold defragment.
  destruct (read_page_ok dm START_USER_PAGE d) as (d1 & -> & Hd1); [done..|].
  ok_step. rewrite (extract_header_ok _ _ _ _ _ Hslots). ok_step. cbn [flags].
  rewrite (proj2 (Z.eqb_neq _ _)) by done.
  destruct (read_page_ok dm START_USER_PAGE d1) as (d2 & -> & Hd2);
    [done|done|unfold has_page, file_of; by rewrite Hd1|].
  ok_step. rewrite (page_of_contents dm dm START_USER_PAGE d d1 eq_refl Hd1).
  assert (length slots ≤ 1024)%nat as Hfuel by (unfold zlen in *; page_lia).
  destruct (compact_ok (page_of dm START_USER_PAGE d) fe fl slots Hslots Hsizes Hstop Hzero
              START_USER_PAGE slots [] uninit PAGE_HEADER_SIZE (PAGE_SIZE - 1) 1024)
    as (page' & Hcompact & Hl' & Hpacked & _); [done|apply uninit_length|lia|lia|lia|done|].
  unfold defragment_page. change (PAGE_HEADER_SIZE + 4 * zlen []) with PAGE_HEADER_SIZE in Hcompact.
  rewrite Hcompact. ok_step. rewrite construct_page_header_buf_ok by done. ok_step.
  cbn [free_start free_end flags id].
  set (fs' := PAGE_HEADER_SIZE + 4 * zlen (live slots)).
  set (fe2 := PAGE_SIZE - 1 - total_size (live slots)).
  set (fl' := Z.land fl (Z.lnot COMPACTABLE)).
  fold (with_header page' fs' fe2 fl').
  destruct (with_header_slices page' fs' fe2 fl' Hl') as (Hwl & Hw0 & Hw2 & Hw4 & Hrest).
  destruct (write_user_page dm (with_header page' fs' fe2 fl') d2) as (d3 & Hw & Hp3 & _);
    [done|unfold has_page, file_of; by rewrite Hd2, Hd1|done|].
  exists d3. split_and!; [done| |]; rewrite Hp3.
  - unfold extract_header. rewrite (decode_uint16_at fs' _ 0) by done. ok_step.
    rewrite (decode_uint16_at fe2 _ 2) by done. ok_step.
    rewrite (rd_slice _ 4 fl') by done. ok_step. rewrite !u16_id by (unfold fs', fe2; page_lia). done.
  - apply packed_frame with page'; [| |done|by apply Hpacked].
    + intros off Ho _. apply Hrest; page_lia.
    + intros off len Ho Hlen _. apply Hrest; page_lia.
Qed.
End rows.

Definition overlapping_columns : list (text * ColumnType) :=
  [(str "name", STRING); (str "age", INTEGER); (str "x", BOOLEAN)].
(** Column [j] is written at [j] times the size of column [j - 1], so a
    name shorter than the ones before it makes the next column overwrite the
    type of its predecessor: the columns "name", "age" and "x" make a table
    that rejects its own columns. *)
Theorem schema_columns_overlap :
  ∃ col_buf, write_columns (column_of <$> overlapping_columns) 0 0 (3 :: zeros (PAGE_SIZE - 1)) = Ok col_buf
    ∧ check_columns (args_for overlapping_columns [string_ (str "Pero"); integer 21; boolean 1])
        (drop 1 col_buf) 3 3 0 0 = Ok false.
Proof. eexists. split; [by vm_compute|by vm_compute]. Qed.

(** ** A concrete table *)

#[local] Existing Instance zero_uninit.

Definition sample_cols : list (text * ColumnType) := [(str "name", STRING); (str "year", INTEGER)].
Definition sample_values : list ColumnValue := [string_ (str "Pero"); integer 21].
Definition sample_args : AddTupleArgs := args_for sample_cols sample_values.
Definition sample_tuple : list Z := be16 4 ++ text_bytes (str "Pero") ++ be32 21.

Definition sample_table : outcome (DiskManager * heap * disk) :=
  r ← create_table (str "people") (column_of <$> sample_cols) 2 new_heap ∅;
  let '(dm, h, d) := r in
  match dm with
  | Some dm => r ← new_heap_page dm h d; Ok (dm, h, r.2)
  | None => Undef NullDeref
  end.

Lemma sample_heap_table_ok :
  ∃ dm h d, sample_table = Ok (dm, h, d) ∧ table_state dm h d (λ _, PAGE_SIZE) 4095 0 []
    ∧ ∀ values, accepts (args_for sample_cols values) dm d.
Proof.
  destruct (new_table_ok (str "people") 4 sample_cols new_heap ∅) as
    (dm & h & d1 & d2 & Hc & Hn & Hs & Ha);
    [by_compute|apply new_heap_ok|done|by repeat constructor|done|by_compute|].
  exists dm, h, d2. split_and!; [|done|done]. unfold sample_table.
  change 2 with (zlen sample_cols). rewrite Hc. ok_step. rewrite Hn. by ok_step.
Qed.

(** The same table with one tuple. *)
Lemma sample_one_tuple :
  ∃ dm h d space, table_state dm h d space 4085 0 [mkTuplePtr 4085 10]
    ∧ (∀ values, accepts (args_for sample_cols values) dm d)
    ∧ heap_table dm h d 4076 [Some sample_tuple].
Proof.
  destruct sample_heap_table_ok as (dm & h & d & _ & Hs & Ha).
  destruct (add_tuple_ok sample_args dm h d _ 4095 0 [] sample_tuple Hs eq_refl eq_refl (Ha _))
    as (dm' & h' & d' & _ & Hs' & Hname & Hb & _ & Hschema); [by_compute|].
  assert (∀ q, page_of dm' q d' = page_of dm q d') as Hpo by
    (intros q; unfold page_of, file_of; by rewrite Hname).
  eexists dm', h', d', _. split_and!; [exact Hs'| |].
  - intros values. destruct (Ha values) as (n & Hn & Hc). exists n. by rewrite Hpo, Hschema.
  - eexists _, _, _, _. split_and!; [exact Hs'| |done]. rewrite Hpo. cbn [app fmap list_fmap].
    f_equal. unfold row. rewrite Hb. done.
Qed.

Lemma new_heap_page_wipes_witness :
  ∃ dm h d d', heap_table dm h d 4076 [Some sample_tuple]
    ∧ new_heap_page dm h d = Ok (START_USER_PAGE, d') ∧ heap_table dm h d' 4090 [].
Proof.
  destruct sample_one_tuple as (dm & h & d & _ & _ & _ & Ht).
  destruct (new_heap_page_wipes dm h d 4076 [Some sample_tuple] Ht) as (d' & Hn & Hw).
  by exists dm, h, d, d'.
Defined.

Definition long_values : list ColumnValue :=
  [string_ (replicate (Z.to_nat 5000) "x"%char); integer 21].
Lemma add_tuple_full_witness :
  ∃ dm h d, add_tuple (args_for sample_cols long_values) dm h d = Undef OutOfBounds.
Proof.
  destruct sample_heap_table_ok as (dm & h & d & _ & Hs & Ha). exists dm, h, d.
  refine (add_tuple_full (args_for sample_cols long_values) dm h d _ 4095 0 []
            (be16 5000 ++ text_bytes (replicate (Z.to_nat 5000) "x"%char) ++ be32 21)
            Hs _ eq_refl (Ha _) _); [by vm_compute|by_compute].
Defined.

Lemma update_page_dir_misplaced_witness :
  ∃ dm h d dm' h' d', update_page_dir dm 2 10 TUPLE_ADD h d = Ok (dm', h', d')
    ∧ slice (file_of dm d') (2 * 2) 4 = be16 2 ++ be16 4086
    ∧ slice (file_of dm d') (2 * 4) 4 = slice (file_of dm d) (2 * 4) 4.
Proof.
  destruct sample_heap_table_ok as (dm & h & d & _ & [Hn Hl Hd Hp Hs] & _). exists dm, h, d.
  refine (update_page_dir_misplaced h dm (λ _, PAGE_SIZE) 2 10 TUPLE_ADD d Hd _ Hn _); [by_compute|].
  by apply (has_page_below dm START_USER_PAGE).
Defined.

(** A page whose first tuple was removed. *)
Definition fragmented_slots : list TuplePtr := [mkTuplePtr 0 4; mkTuplePtr 4085 6].
Definition fragmented_page : list Z :=
  splice (with_header (splice (zeros PAGE_SIZE) 5 (concat (ptr_bytes <$> fragmented_slots)))
            13 4085 128) 4085 [1; 2; 3; 4; 5; 6; 7; 8; 9; 10].

Lemma fragmented_page_ok : slotted fragmented_page 4085 128 fragmented_slots.
Proof.
  split; [by vm_compute..|by_compute|]. intros i p Hi.
  destruct i as [|[|i]]; simplify_eq/=; split_and!; try (by vm_compute); [by left|by right].
Qed.

Lemma defragment_spec_witness :
  ∃ dm d d', page_of dm START_USER_PAGE d = fragmented_page
    ∧ defragment START_USER_PAGE dm d = Ok d'
    ∧ extract_header (page_of dm START_USER_PAGE d') START_USER_PAGE
      = Ok (mkHeader START_USER_PAGE 9 4089 0)
    ∧ slice (page_of dm START_USER_PAGE d') 5 4 = be16 4085 ++ be16 6
    ∧ slice (page_of dm START_USER_PAGE d') 4089 6 = [1; 2; 3; 4; 5; 6].
Proof.
  destruct (create_table_ok (str "people") 4 sample_cols new_heap ∅) as
    (dm & h & _ & _ & Hn & Hl & Hd & _);
    [by_compute|apply new_heap_ok|done|by repeat constructor|done|by_compute|].
  set (d := {[ path_of (table_name dm) := zeros 8192 ++ fragmented_page ]} : disk).
  assert (file_of dm d = zeros 8192 ++ fragmented_page) as Hf.
  { unfold file_of, contents, d. by rewrite lookup_singleton_eq. }
  assert (page_of dm START_USER_PAGE d = fragmented_page) as Hp.
  { unfold page_of. rewrite Hf. by vm_compute. }
  destruct (defragment_spec dm h d (λ _, PAGE_SIZE) 4085 128 fragmented_slots) as
    (d' & Hdef & Hh & Hp1 & Hp2 & _).
  - split; [rewrite Hn; by_compute|done|done|unfold has_page; rewrite Hf; by_compute|].
    rewrite Hp. apply fragmented_page_ok.
  - by_compute.
  - by repeat constructor.
  - by_compute.
  - rewrite Hp. by vm_compute.
  - by_compute.
  - exists dm, d, d'. split_and!; [done..|]. change (4089) with (PAGE_SIZE - 1 - 6).
    rewrite Hp in Hp2. etransitivity; [exact Hp2|]. by vm_compute.
Defined.
