(* ===== verification/TableRuns.v ===== *)
(** * TableRuns: a table as a list of rows

    Tuples are added to a new table, read and removed in any order. The table
    refines the list of the rows that were added, in which a removed row is
    empty, for as long as the rows fit its page. *)
From S2P Require Import Prelude Serialize Memory Hash NumTable Disk Heapfile HeapTable.

(** ** Clients of a table *)

Inductive table_op := AddRow (values : list ColumnValue) | GetRow (i : nat) | RemoveRow (i : nat).

Definition table_store : Type := DiskManager * heap * disk.

Section clients.
Context `{U : Uninit} (cols : list (text * ColumnType)).

Definition rid_of (i : nat) : RID := mkRID START_USER_PAGE (Z.of_nat i).

(** The result is the address of a row, for an operation that reads one. *)
Definition run_table_op (op : table_op) (s : table_store) : outcome (option (list Z) * table_store) :=
  let '(dm, h, d) := s in
  match op with
  | AddRow values =>
      r ← add_tuple (args_for cols values) dm h d;
      let '(_, dm, h, d) := r in Ok (None, (dm, h, d))
  | GetRow i => o ← get_tuple (rid_of i) dm d; Ok (o, s)
  | RemoveRow i => d ← remove_tuple dm (rid_of i) d; Ok (None, (dm, h, d))
  end.
Fixpoint run_table (ops : list table_op) (s : table_store) : outcome (list (option (list Z)) * table_store) :=
  match ops with
  | [] => Ok ([], s)
  | op :: ops => x ← run_table_op op s; xs ← run_table ops x.2; Ok (x.1 :: xs.1, xs.2)
  end.

(** ** The specification *)

(** The free bytes of the page and the rows. *)
Definition rows_state : Type := Z * list (option (list Z)).

Definition spec_table_op (op : table_op) (s : rows_state) : option (option (list Z) * rows_state) :=
  let '(room, rows) := s in
  match op with
  | AddRow values =>
      bs ← encode_tuple cols.*2 values;
      if 4 + zlen bs <=? room then Some (None, (room - 4 - zlen bs, rows ++ [Some bs])) else None
  | GetRow i => r ← rows !! i; Some (r, s)
  | RemoveRow i => _ ← rows !! i; Some (None, (room, <[i := None]> rows))
  end.
Fixpoint spec_table (ops : list table_op) (s : rows_state) : option (list (option (list Z)) * rows_state) :=
  match ops with
  | [] => Some ([], s)
  | op :: ops => x ← spec_table_op op s; xs ← spec_table ops x.2; Some (x.1 :: xs.1, xs.2)
  end.

(** An address at which the bytes of a row start, or a null pointer. *)
Definition points_to (r o : option (list Z)) : Prop :=
  match r with None => o = None | Some bs => ∃ rest, o = Some (bs ++ rest) end.

(** ** Refinement *)

(** The table has the rows, and takes values for its columns. *)
Definition table_of (s : table_store) (t : rows_state) : Prop :=
  let '(dm, h, d) := s in heap_table dm h d t.1 t.2 ∧ ∀ values, accepts (args_for cols values) dm d.

Lemma accepts_same dm d d' args :
  page_of dm 1 d' = page_of dm 1 d → accepts args dm d → accepts args dm d'.
Proof. intros Hp (n & Hn & Hc). exists n. by rewrite Hp. Qed.

Lemma table_op_ok op s t r t' :
  table_of s t → spec_table_op op t = Some (r, t') →
  ∃ o s', run_table_op op s = Ok (o, s') ∧ points_to r o ∧ table_of s' t'.
Proof.
  destruct s as [[dm h] d], t as [room rows]. intros [Ht Hacc] Hspec. cbn [fst snd] in *.
  destruct op as [values|i|i]; cbn [spec_table_op run_table_op] in *.
  - destruct (encode_tuple cols.*2 values) as [bs|] eqn:E; [|done]. cbn [mbind option_bind] in Hspec.
    destruct (Z.leb_spec (4 + zlen bs) room) as [Hroom|]; [|done]. injection Hspec as <- <-.
    destruct (add_row (args_for cols values) dm h d room rows bs Ht E) as (p & dm' & h' & d' & Hadd & Ht' & Hacc');
      [cbn; unfold zlen; by rewrite length_fmap|apply Hacc|done|].
    rewrite Hadd. eexists None, (dm', h', d'). split; [done|]. split; [done|]. split; [done|].
    intros values'. by apply Hacc'.
  - destruct (rows !! i) as [x|] eqn:Hi; [|done]. injection Hspec as <- <-.
    destruct (get_row dm h d room rows i x Ht Hi) as (o & Hget & Ho). unfold rid_of. rewrite Hget.
    exists o, (dm, h, d). split; [done|]. split; [|done]. by destruct x.
  - destruct (rows !! i) as [x|] eqn:Hi; [|done]. injection Hspec as <- <-.
    destruct (remove_row dm h d room rows i x Ht Hi) as (d' & Hrem & Ht' & Hpage). unfold rid_of. rewrite Hrem.
    exists None, (dm, h, d'). split; [done|]. split; [done|]. split; [done|].
    intros values. by eapply accepts_same.
Qed.

Lemma table_ops_ok ops s t rs t' :
  table_of s t → spec_table ops t = Some (rs, t') →
  ∃ os s', run_table ops s = Ok (os, s') ∧ Forall2 points_to rs os ∧ table_of s' t'.
Proof.
  revert s t rs. induction ops as [|op ops IH]; intros s t rs Ht Hspec; [injection Hspec as <- <-; by exists [], s|].
  cbn [spec_table run_table] in *. destruct (spec_table_op op t) as [[r t1]|] eqn:E; [|done]. cbn in Hspec.
  destruct (spec_table ops t1) as [[rs1 t2]|] eqn:E2; [|done]. injection Hspec as <- <-.
  destruct (table_op_ok op s t r t1 Ht E) as (o & s1 & Hrun & Ho & Ht1). rewrite Hrun. cbn.
  destruct (IH s1 t1 rs1 Ht1 E2) as (os & s2 & Hrun2 & Hos & Ht2). rewrite Hrun2. cbn.
  exists (o :: os), s2. split; [done|]. split; [by constructor|done].
Qed.

(** C32: a new table whose column names have one length, whose schema fits a page and
    whose name has fewer than 15 characters is a list of rows. Whatever sequence of
    rows is added to it, read and removed by their numbers, in any order and as long
    as the rows fit the page of tuples, the calls succeed; a read returns the address
    of the bytes of the row with that number, or a null pointer for a row that was
    removed; and the table has the rows of the list in the end. *)
Theorem table_runs_spec tname L h d :
  zlen tname < 15 → heap_ok h → contents (path_of tname) d = [] →
  Forall (λ c : text * ColumnType, zlen c.1 = L) cols → 0 ≤ L → 1 + zlen cols * (L + 2) ≤ PAGE_SIZE →
  ∃ dm h' d1 d2,
    create_table tname (column_of <$> cols) (zlen cols) h d = Ok (Some dm, h', d1)
    ∧ new_heap_page dm h' d1 = Ok (START_USER_PAGE, d2)
    ∧ ∀ ops rs room rows, spec_table ops (4090, []) = Some (rs, (room, rows)) →
        ∃ os dm2 h2 d3, run_table ops (dm, h', d2) = Ok (os, (dm2, h2, d3))
          ∧ Forall2 points_to rs os ∧ heap_table dm2 h2 d3 room rows.
Proof.
  intros Hname Hh Hempty Hcols HL Hroom.
  destruct (new_table_ok tname L cols h d) as (dm & h' & d1 & d2 & Hc & Hnew & Hstate & Hacc); [done..|].
  exists dm, h', d1, d2. split; [done|]. split; [done|]. intros ops rs room rows Hspec.
  assert (table_of (dm, h', d2) (4090, [])) as Ht by (split; [by exists (λ _, PAGE_SIZE), 4095, 0, []|done]).
  destruct (table_ops_ok ops _ _ rs _ Ht Hspec) as (os & [[dm2 h2] d3] & Hrun & Hos & [Ht' _]).
  by exists os, dm2, h2, d3.
Qed.
End clients.

(** ** Witness *)

#[local] Existing Instance zero_uninit.

Definition person (name : string) (year : Z) : list ColumnValue := [string_ (str name); integer year].
Definition person_bytes (name : string) (year : Z) : list Z := be16 (zlen (str name)) ++ text_bytes (str name) ++ be32 year.
Definition people : list table_op :=
  [AddRow (person "Pero" 21); AddRow (person "Ana" 42); RemoveRow 0; GetRow 0; AddRow (person "Ivo" 7); GetRow 1; GetRow 2].

Lemma table_runs_spec_witness :
  ∃ dm h d1 d2 os s', create_table (str "people") (column_of <$> sample_cols) (zlen sample_cols) new_heap ∅ = Ok (Some dm, h, d1)
    ∧ new_heap_page dm h d1 = Ok (START_USER_PAGE, d2) ∧ run_table sample_cols people (dm, h, d2) = Ok (os, s')
    ∧ Forall2 points_to [None; None; None; None; None; Some (person_bytes "Ana" 42); Some (person_bytes "Ivo" 7)] os.
Proof.
  destruct (table_runs_spec sample_cols (str "people") 4 new_heap ∅) as (dm & h & d1 & d2 & Hc & Hn & Hruns);
    [by_compute|apply new_heap_ok|done|by repeat constructor|done|by_compute|].
  destruct (Hruns people _ _ _ eq_refl) as (os & dm2 & h2 & d3 & Hrun & Hos & _).
  exists dm, h, d1, d2, os, (dm2, h2, d3). split; [exact Hc|]. split; [exact Hn|]. split; [exact Hrun|exact Hos].
Defined.
