(* ===== verification/Bpm.v ===== *)
(** * Bpm: the buffer pool ([disk/bpm.h], [disk/bpm.c])

    The pool caches pages of one file in frames. A hash table maps page numbers
    to frames, [free_list] marks the frames that hold no page, and the clock
    replacer keeps the frames that may be evicted. The code hands out the
    addresses of frames; here a frame is its index. The elements of the page
    table refer to blocks that hold the index. *)
From S2P Require Import Prelude Serialize Memory Hash NumTable CircularList ClockReplacer Disk Heapfile.

(** ** The code *)

Record BpmPage := mkBpmPage { data : list Z; page_id : Z; pin_count : Z; is_dirty : bool }.

Record BufferPoolManager := mkBpm {
  pool_size : Z;
  pages : list BpmPage;
  page_table : HashTable;
  free_list : list bool;
  replacer : ClockReplacer;
  disk_manager : DiskManager;
}.

Inductive PageType := HEAP_PAGE | BTREE_INDEX_PAGE | INVALID.

(** [bpm->pages[f]] and [bpm->free_list[f]]. *)
Definition get_page (f : Z) (bpm : BufferPoolManager) : outcome BpmPage :=
  nth_at (pages bpm) (Z.to_nat f).
Definition set_page (f : Z) (p : BpmPage) (bpm : BufferPoolManager) : BufferPoolManager :=
  mkBpm (pool_size bpm) (<[Z.to_nat f := p]> (pages bpm)) (page_table bpm) (free_list bpm)
    (replacer bpm) (disk_manager bpm).
Definition set_free (f : Z) (b : bool) (bpm : BufferPoolManager) : outcome BufferPoolManager :=
  _ ← nth_at (free_list bpm) (Z.to_nat f);
  Ok (mkBpm (pool_size bpm) (pages bpm) (page_table bpm) (<[Z.to_nat f := b]> (free_list bpm))
        (replacer bpm) (disk_manager bpm)).
Definition set_table (ht : HashTable) (bpm : BufferPoolManager) : BufferPoolManager :=
  mkBpm (pool_size bpm) (pages bpm) ht (free_list bpm) (replacer bpm) (disk_manager bpm).
Definition set_replacer (r : ClockReplacer) (bpm : BufferPoolManager) : BufferPoolManager :=
  mkBpm (pool_size bpm) (pages bpm) (page_table bpm) (free_list bpm) r (disk_manager bpm).

Definition new_bpm (n : Z) (dm : DiskManager) : BufferPoolManager :=
  mkBpm n (replicate (Z.to_nat n) (mkBpmPage (zeros PAGE_SIZE) 0 0 false)) (init_hash n)
    (replicate (Z.to_nat n) true) (clock_replacer_init n) dm.

(** The buffer for the key has five bytes. *)
Definition add_to_pagetable (key val : Z) (bpm : BufferPoolManager) (h : heap)
    : outcome (BufferPoolManager * heap) :=
  s ← sprintf 5 (format_u key);
  let '(key_str, h) := malloc (OStr s) h in
  ht ← hash_insert key_str val (page_table bpm) h;
  Ok (set_table ht bpm, h).

Definition pid_str (size pid : Z) : outcome text := sprintf size (format_d (i32 pid)).

(** The page is unpinned in the replacer whatever its pin count; the number of
    its frame is read again after its element has been removed from the table. *)
Definition flush_page (pid : Z) (bpm : BufferPoolManager) (h : heap) (d : disk)
    : outcome (bool * BufferPoolManager * heap * disk) :=
  key ← pid_str 11 pid;
  entry ← hash_find key (page_table bpm) h;
  match entry with
  | None => Ok (false, bpm, h, d)
  | Some el =>
      fid ← load_u32 (el_data el) h;
      page ← get_page fid bpm;
      d ← write_page pid (disk_manager bpm) (data page) d;
      rm ← hash_remove key (page_table bpm) h;
      let '(_, ht, h) := rm in
      fid ← load_u32 (el_data el) h;
      bpm ← set_free fid true (set_table ht bpm);
      r ← clock_replacer_unpin fid (replacer bpm) h;
      let '(r, h) := r in
      Ok (true, set_replacer r bpm, h, d)
  end.

(** The first free frame. *)
Fixpoint first_free (free : list bool) : option nat :=
  match free with
  | [] => None
  | b :: free => if (b : bool) then Some 0%nat else S <$> first_free free
  end.

(** A frame for a page that is not in the pool: a free one, or an evicted one,
    whose page is flushed when it is dirty. The argument of [flush_page] is the
    number of the frame. No frame is [UINT32_MAX]. *)
Definition choose_frame (bpm : BufferPoolManager) (h : heap) (d : disk)
    : outcome (Z * BufferPoolManager * heap * disk) :=
  match first_free (free_list bpm) with
  | Some i =>
      bpm ← set_free (Z.of_nat i) false bpm;
      Ok (u32 (Z.of_nat i), bpm, h, d)
  | None =>
      r ← evict (replacer bpm) h;
      let '(fid, r, h) := r in
      let bpm := set_replacer r bpm in
      if fid =? UINT32_MAX then Ok (fid, bpm, h, d)
      else
        page ← get_page fid bpm;
        if is_dirty page then
          r ← flush_page fid bpm h d;
          let '(_, bpm, h, d) := r in
          Ok (fid, bpm, h, d)
        else Ok (fid, bpm, h, d)
  end.

(** The frame of the page, or a null pointer. *)
Definition new_bpm_page (pid : Z) (bpm : BufferPoolManager) (h : heap) (d : disk)
    : outcome (option Z * BufferPoolManager * heap * disk) :=
  key ← pid_str 11 pid;
  found ← hash_find key (page_table bpm) h;
  match found with
  | Some el => fid ← load_u32 (el_data el) h; Ok (Some fid, bpm, h, d)
  | None =>
      let '(fid_ptr, h) := malloc (OU32 UINT32_MAX) h in
      r ← choose_frame bpm h d;
      let '(fid, bpm, h, d) := r in
      h ← store fid_ptr (OU32 fid) h;
      if fid =? UINT32_MAX then Ok (None, bpm, h, d)
      else
        _ ← get_page fid bpm;
        let bpm := set_page fid (mkBpmPage (zeros PAGE_SIZE) pid 1 false) bpm in
        r ← add_to_pagetable pid fid_ptr bpm h;
        let '(bpm, h) := r in
        r ← clock_replacer_pin fid (replacer bpm) h;
        let '(r, h) := r in
        Ok (Some fid, set_replacer r bpm, h, d)
  end.

(** [while (bpm_page == NULL)]. *)
Fixpoint allocate_loop (fuel : nat) (pid : Z) (bpm : BufferPoolManager) (h : heap) (d : disk)
    : outcome (Z * BufferPoolManager * heap * disk) :=
  match fuel with
  | O => OutOfFuel
  | S fuel =>
      r ← new_bpm_page pid bpm h d;
      let '(page, bpm, h, d) := r in
      match page with
      | Some fid => Ok (fid, bpm, h, d)
      | None => allocate_loop fuel pid bpm h d
      end
  end.

Section bpm.
Context {U : Uninit}.

Definition allocate_new_page (fuel : nat) (type : PageType) (bpm : BufferPoolManager) (h : heap) (d : disk)
    : outcome (Z * BufferPoolManager * heap * disk) :=
  match type with
  | HEAP_PAGE =>
      r ← new_heap_page (disk_manager bpm) h d;
      let '(pid, d) := r in allocate_loop fuel pid bpm h d
  | BTREE_INDEX_PAGE =>
      r ← new_btree_index_page (disk_manager bpm) false d;
      let '(pid, d) := r in allocate_loop fuel pid bpm h d
  | INVALID => Undef AssertFail
  end.

Definition unpin_page (pid : Z) (dirty : bool) (bpm : BufferPoolManager) (h : heap)
    : outcome (bool * BufferPoolManager * heap) :=
  key ← pid_str 15 pid;
  el ← hash_find key (page_table bpm) h;
  match el with
  | None => Ok (false, bpm, h)
  | Some el =>
      fid ← load_u32 (el_data el) h;
      page ← get_page fid bpm;
      if pin_count page =? 0 then Ok (false, bpm, h)
      else
        pins ← int_result (pin_count page - 1);
        let bpm := set_page fid (mkBpmPage (data page) (page_id page) pins dirty) bpm in
        if pins =? 0 then
          r ← clock_replacer_unpin fid (replacer bpm) h;
          let '(r, h) := r in
          Ok (true, set_replacer r bpm, h)
        else Ok (true, bpm, h)
  end.

Definition write_to_frame (fid : Z) (bs : list Z) (bpm : BufferPoolManager) : outcome BufferPoolManager :=
  page ← get_page fid bpm;
  bs ← rd_bytes bs 0 PAGE_SIZE;
  Ok (set_page fid (mkBpmPage bs (page_id page) (pin_count page) true) bpm).

Definition pin_page (fid : Z) (bpm : BufferPoolManager) : outcome BufferPoolManager :=
  page ← get_page fid bpm;
  pins ← int_result (pin_count page + 1);
  Ok (set_page fid (mkBpmPage (data page) (page_id page) pins (is_dirty page)) bpm).

(** A page that is fetched from disk is pinned by [new_bpm_page] and again
    here. When there is no frame for it, the search in the table fails. *)
Definition fetch_bpm_page (pid : Z) (bpm : BufferPoolManager) (h : heap) (d : disk)
    : outcome (Z * BufferPoolManager * heap * disk) :=
  key ← pid_str 11 pid;
  entry ← hash_find key (page_table bpm) h;
  match entry with
  | Some el =>
      fid ← load_u32 (el_data el) h;
      bpm ← pin_page fid bpm;
      Ok (fid, bpm, h, d)
  | None =>
      r ← new_bpm_page pid bpm h d;
      let '(newp, bpm, h, d) := r in
      found ← hash_find key (page_table bpm) h;
      match found with
      | None => Undef NullDeref
      | Some el =>
          fid ← load_u32 (el_data el) h;
          bpm ← pin_page fid bpm;
          r ← read_page pid (disk_manager bpm) d;
          let '(bytes, d) := r in
          match newp with
          | None => Undef NullDeref
          | Some f =>
              page ← get_page f bpm;
              Ok (f, set_page f (mkBpmPage bytes (page_id page) (pin_count page) (is_dirty page)) bpm, h, d)
          end
      end
  end.
End bpm.

(** ** The state of a pool *)

(** [pool_ok h bpm m fs]: the page table holds the elements [m], by page number,
    each with the frame its page is in, and the replacer holds the frames [fs]. *)
Record pool_ok (h : heap) (bpm : BufferPoolManager) (m : gmap Z HashEl) (fs : list Frame) : Prop := {
  po_table : num_table h (page_table bpm) (pool_size bpm) m;
  po_clock : clock_ok h (replacer bpm) fs;
  po_size : num_pages (replacer bpm) = pool_size bpm;
  po_pages : zlen (pages bpm) = pool_size bpm;
  po_free : zlen (free_list bpm) = pool_size bpm;
  po_data : ∀ i p, pages bpm !! i = Some p → zlen (data p) = PAGE_SIZE;
  po_frame : ∀ pid el, m !! pid = Some el → ∃ f p,
    cells h !! el_data el = Some (OU32 f) ∧ 0 ≤ f
    ∧ pages bpm !! Z.to_nat f = Some p ∧ page_id p = pid
    ∧ free_list bpm !! Z.to_nat f = Some false;
  po_apart : ∀ pid el i f, m !! pid = Some el → fs !! i = Some f → el_key el ≠ f_key f;
}.

(** The page [pid] is in frame [f]. *)
Definition in_frame (h : heap) (m : gmap Z HashEl) (pid f : Z) : Prop :=
  ∃ el, m !! pid = Some el ∧ cells h !! el_data el = Some (OU32 f).

Lemma new_bpm_ok h n dm :
  heap_ok h → 0 < n ≤ 65535 → pool_ok h (new_bpm n dm) ∅ [].
Proof.
  intros Hh Hn. split; cbn [new_bpm pool_size pages page_table free_list replacer].
  - by apply num_table_new.
  - by apply clock_replacer_init_ok.
  - done.
  - unfold zlen. rewrite length_replicate. lia.
  - unfold zlen. rewrite length_replicate. lia.
  - intros i p [-> _]%lookup_replicate. by vm_compute.
  - intros pid el H. by rewrite lookup_empty in H.
  - intros pid el i f H. by rewrite lookup_empty in H.
Qed.

Lemma get_page_ok f p bpm : pages bpm !! Z.to_nat f = Some p → get_page f bpm = Ok p.
Proof. intros Hp. unfold get_page, nth_at. by rewrite Hp. Qed.

Lemma set_free_ok f b b' bpm :
  free_list bpm !! Z.to_nat f = Some b' →
  set_free f b bpm = Ok (mkBpm (pool_size bpm) (pages bpm) (page_table bpm)
                           (<[Z.to_nat f := b]> (free_list bpm)) (replacer bpm) (disk_manager bpm)).
Proof. intros Hf. unfold set_free, nth_at. by rewrite Hf. Qed.

Lemma pid_str_long size pid : 11 ≤ size → 0 ≤ pid < 10 ^ 9 → pid_str size pid = Ok (format_u pid).
Proof.
  intros Hs Hp. pose proof (pid_str_ok pid Hp) as H11. unfold pid_str, sprintf in *.
  assert (i32 pid = pid) as Hi by (apply to_signed_id; lia).
  rewrite Hi, format_d_nonneg in * by lia.
  destruct (zlen (format_u pid) + 1 <=? 11) eqn:E; [|done]. by rewrite (proj2 (Z.leb_le _ _)) by lia.
Qed.

(** The element of a page in the pool, as the code finds it. *)
Lemma pool_find h bpm m fs pid :
  pool_ok h bpm m fs → 0 ≤ pid < 10 ^ 9 → hash_find (format_u pid) (page_table bpm) h = Ok (m !! pid).
Proof. intros Hok Hp. apply (nt_find _ _ _ _ (po_table _ _ _ _ Hok)). lia. Qed.

Lemma pool_load h bpm m fs pid el f :
  pool_ok h bpm m fs → m !! pid = Some el → cells h !! el_data el = Some (OU32 f) →
  load_u32 (el_data el) h = Ok f.
Proof.
  intros Hok Hel Hf. unfold load_u32.
  by rewrite (load_ok _ _ _ (heap_ok_nonnull _ _ _ (nt_heap _ _ _ _ (po_table _ _ _ _ Hok)) Hf) Hf).
Qed.

Lemma in_frame_page h bpm m fs pid f :
  pool_ok h bpm m fs → in_frame h m pid f →
  0 ≤ f < pool_size bpm ∧ ∃ p, pages bpm !! Z.to_nat f = Some p ∧ page_id p = pid
    ∧ free_list bpm !! Z.to_nat f = Some false ∧ zlen (data p) = PAGE_SIZE.
Proof.
  intros Hok (el & Hel & Hc). destruct (po_frame _ _ _ _ Hok _ _ Hel) as (f' & p & Hc' & Hf & Hp & Hid & Hfree).
  assert (f' = f) as -> by congruence. split.
  - pose proof (po_pages _ _ _ _ Hok). apply lookup_lt_Some in Hp. unfold zlen in *. lia.
  - exists p. split_and!; [done|done|done|]. by eapply po_data.
Qed.

(** A page whose number, frame and size stay. *)
Lemma pool_set_page h bpm m fs f p p' :
  pool_ok h bpm m fs → pages bpm !! Z.to_nat f = Some p → page_id p' = page_id p →
  zlen (data p') = PAGE_SIZE → pool_ok h (set_page f p' bpm) m fs.
Proof.
  intros Hok Hp Hid Hd. destruct Hok. split; try done; cbn [set_page pages].
  - unfold zlen in *. by rewrite length_insert.
  - intros i q. intros [(_ & <- & _)|[_ Hi]]%list_lookup_insert_Some; [done|by eapply po_data0].
  - intros pid el Hel. destruct (po_frame0 pid el Hel) as (g & q & Hc & Hg & Hq & Hidq & Hfree).
    destruct (decide (Z.to_nat g = Z.to_nat f)) as [Heq|Hne].
    + exists g, p'. split_and!; [done|done| | |done].
      * rewrite Heq. apply list_lookup_insert_eq. by eapply lookup_lt_Some.
      * rewrite Heq in Hq. congruence.
    + exists g, q. split_and!; [done|done|by rewrite list_lookup_insert_ne by done|done|done].
Qed.

(** ** Pages in the pool *)

Lemma pin_page_ok h bpm m fs f p :
  pool_ok h bpm m fs → pages bpm !! Z.to_nat f = Some p → 0 ≤ pin_count p < 2 ^ 31 - 1 →
  let p' := mkBpmPage (data p) (page_id p) (pin_count p + 1) (is_dirty p) in
  pin_page f bpm = Ok (set_page f p' bpm) ∧ pool_ok h (set_page f p' bpm) m fs.
Proof.
  intros Hok Hp Hpin p'. unfold pin_page. rewrite (get_page_ok _ _ _ Hp). ok_step.
  unfold int_result. rewrite (proj2 (Z.leb_le _ _)), (proj2 (Z.ltb_lt _ _)) by lia.
  split; [done|]. eapply pool_set_page; [done|done|done|]. exact (po_data _ _ _ _ Hok _ _ Hp).
Qed.

Section hits.
Context {U : Uninit}.

Lemma fetch_hit h bpm m fs pid f d :
  pool_ok h bpm m fs → 0 ≤ pid < 10 ^ 9 → in_frame h m pid f →
  (∀ p, pages bpm !! Z.to_nat f = Some p → 0 ≤ pin_count p < 2 ^ 31 - 1) →
  ∃ p, pages bpm !! Z.to_nat f = Some p ∧
    let p' := mkBpmPage (data p) pid (pin_count p + 1) (is_dirty p) in
    fetch_bpm_page pid bpm h d = Ok (f, set_page f p' bpm, h, d)
    ∧ pool_ok h (set_page f p' bpm) m fs.
Proof.
  intros Hok Hpid Hin Hpin. destruct (in_frame_page _ _ _ _ _ _ Hok Hin) as (_ & p & Hp & <- & _).
  exists p. split; [done|]. destruct (pin_page_ok _ _ _ _ _ _ Hok Hp (Hpin p Hp)) as [Hpp Hok'].
  split; [|done]. unfold fetch_bpm_page. rewrite pid_str_long by (done || lia). ok_step.
  rewrite (pool_find _ _ _ _ _ Hok Hpid). ok_step. destruct Hin as (el & Hel & Hc). rewrite Hel.
  rewrite (pool_load _ _ _ _ _ _ _ Hok Hel Hc). ok_step. by rewrite Hpp.
Qed.
End hits.

Lemma write_to_frame_ok h bpm m fs f p bs :
  pool_ok h bpm m fs → pages bpm !! Z.to_nat f = Some p → zlen bs = PAGE_SIZE →
  let p' := mkBpmPage bs (page_id p) (pin_count p) true in
  write_to_frame f bs bpm = Ok (set_page f p' bpm) ∧ pool_ok h (set_page f p' bpm) m fs.
Proof.
  intros Hok Hp Hbs p'. unfold write_to_frame. rewrite (get_page_ok _ _ _ Hp). ok_step.
  rewrite rd_bytes_ok by (rewrite ?Hbs; done). ok_step.
  rewrite <- Hbs, slice_full. split; [done|]. by eapply pool_set_page.
Qed.

Lemma flush_ok h bpm m fs pid f p d :
  pool_ok h bpm m fs → 0 ≤ pid ≤ MAX_PID → short_name (table_name (disk_manager bpm)) →
  in_frame h m pid f → pages bpm !! Z.to_nat f = Some p → f ∉ f_id <$> fs →
  ∃ bpm' h' d' g, flush_page pid bpm h d = Ok (true, bpm', h', d')
    ∧ pool_ok h' bpm' (delete pid m) (g :: fs) ∧ f_id g = f
    ∧ pages bpm' = pages bpm ∧ free_list bpm' = <[Z.to_nat f := true]> (free_list bpm)
    ∧ disk_manager bpm' = disk_manager bpm ∧ pool_size bpm' = pool_size bpm
    ∧ write_page pid (disk_manager bpm) (data p) d = Ok d'
    ∧ (∀ q o, cells h !! q = Some o → cells h' !! q = Some o).
Proof.
  intros Hok Hpid Hname Hin Hp Hnew.
  destruct (in_frame_page _ _ _ _ _ _ Hok Hin) as (Hf & p0 & Hp0 & Hid & Hfree & Hdata).
  assert (p0 = p) as -> by congruence. destruct Hin as (el & Hel & Hc). unfold MAX_PID in *.
  unfold flush_page. rewrite pid_str_long by lia. ok_step.
  rewrite (pool_find _ _ _ _ _ Hok) by lia. ok_step. rewrite Hel.
  rewrite (pool_load _ _ _ _ _ _ _ Hok Hel Hc). ok_step. rewrite (get_page_ok _ _ _ Hp). ok_step.
  destruct (write_page_ok (disk_manager bpm) pid (data p) d) as (d' & Hw & _); [done..|].
  rewrite Hw. ok_step.
  destruct (num_remove _ _ _ _ (po_table _ _ _ _ Hok) pid) as (ok & ht & Hrem & Hnt & _); [lia|].
  rewrite Hrem. ok_step. rewrite (pool_load _ _ _ _ _ _ _ Hok Hel Hc). ok_step.
  rewrite (set_free_ok f true false (set_table ht bpm)) by done. ok_step. cbn [set_table replacer].
  destruct (clock_replacer_unpin_ok h (replacer bpm) fs f (po_clock _ _ _ _ Hok))
    as (r' & h' & g & Hun & Hclock & Hg & _ & Hnum & _ & Hsub & Hgnew);
    [by rewrite (po_size _ _ _ _ Hok)|done|].
  rewrite Hun. ok_step. eexists _, h', d', g. split_and!; [done| |done..].
  pose proof (nt_heap _ _ _ _ (ck_table _ _ _ Hclock)) as Hh'.
  split; cbn [set_replacer set_table pool_size pages page_table free_list replacer].
  - by eapply num_table_sub.
  - done.
  - by rewrite Hnum, (po_size _ _ _ _ Hok).
  - by eapply po_pages.
  - pose proof (po_free _ _ _ _ Hok). unfold zlen in *. by rewrite length_insert.
  - by eapply po_data.
  - intros pid' el' [Hne Hel']%lookup_delete_Some.
    destruct (po_frame _ _ _ _ Hok _ _ Hel') as (f' & p' & Hc' & Hf' & Hp' & Hid' & Hfree').
    exists f', p'. split_and!; [by apply Hsub|done|done|done|].
    rewrite list_lookup_insert_ne; [done|]. intros Heq. rewrite Heq in Hp. congruence.
  - intros pid' el' i g' [_ Hel']%lookup_delete_Some Hg'. destruct i as [|i]; simpl in Hg'.
    + injection Hg' as <-. destruct (num_el _ _ _ _ (po_table _ _ _ _ Hok) _ _ Hel') as (o & _ & Hk & _).
      congruence.
    + by eapply po_apart.
Qed.

(** ** A page that is not in the pool *)

Lemma first_free_lookup free i : first_free free = Some i → free !! i = Some true.
Proof.
  revert i. induction free as [|[] free IH]; intros i; simpl; [done|by intros [= <-]|].
  destruct (first_free free) as [j|]; [|done]. intros [= <-]. by apply IH.
Qed.

(** A new frame of the page table, after the frame [i] has been taken. *)
Lemma pool_insert h bpm m fs pid i key ptr r h' fs' :
  pool_ok h bpm m fs → 0 ≤ pid < 2 ^ 31 → no_collision (pool_size bpm) m pid → m !! pid = None →
  free_list bpm !! i = Some true → heap_ok h' →
  (∀ pid' el, m !! pid' = Some el → cells h' !! el_key el = cells h !! el_key el
                                  ∧ cells h' !! el_data el = cells h !! el_data el) →
  cells h !! key = None → cells h !! ptr = None →
  str_at h' key (format_u pid) → ptr ≠ NULL → cells h' !! ptr = Some (OU32 (Z.of_nat i)) →
  clock_ok h' r fs' → num_pages r = pool_size bpm →
  (∀ j g, fs' !! j = Some g → f_key g ≠ key ∧ ∃ j', fs !! j' = Some g) →
  ∃ ht, hash_insert key ptr (page_table bpm) h' = Ok ht
    ∧ pool_ok h'
        (mkBpm (pool_size bpm) (<[i := mkBpmPage (zeros PAGE_SIZE) pid 1 false]> (pages bpm)) ht
           (<[i := false]> (free_list bpm)) r (disk_manager bpm))
        (<[pid := mkHashEl key ptr]> m) fs'.
Proof.
  intros Hok Hpid Hcol Hnew Hfree Hh' Hsame Hkn Hpn Hkey Hptr Hcell Hclock Hnum Hfs.
  pose proof (num_table_heap _ _ _ _ (po_table _ _ _ _ Hok) h' Hh' Hsame) as Hnt.
  destruct (num_insert _ _ _ _ Hnt pid key ptr Hpid Hcol Hkey) as (ht & Hht & Hnt').
  { split; [done|]. by eexists. }
  { intros pid' el Hel Heq. destruct (num_el _ _ _ _ (po_table _ _ _ _ Hok) _ _ Hel) as (o & Ho & _).
    congruence. }
  exists ht. split; [done|].
  split; cbn [pool_size pages page_table free_list replacer]; [done|done|done|..].
  - pose proof (po_pages _ _ _ _ Hok). unfold zlen in *. by rewrite length_insert.
  - pose proof (po_free _ _ _ _ Hok). unfold zlen in *. by rewrite length_insert.
  - intros j p [(_ & <- & _)|[_ Hj]]%list_lookup_insert_Some; [by vm_compute|by eapply po_data].
  - intros pid' el [[<- <-]|[Hne Hel]]%lookup_insert_Some.
    + exists (Z.of_nat i), (mkBpmPage (zeros PAGE_SIZE) pid 1 false). rewrite Nat2Z.id.
      pose proof (lookup_lt_Some _ _ _ Hfree).
      pose proof (po_pages _ _ _ _ Hok). pose proof (po_free _ _ _ _ Hok). unfold zlen in *.
      split_and!; [done|lia|apply list_lookup_insert_eq; lia|done|apply list_lookup_insert_eq; lia].
    + destruct (po_frame _ _ _ _ Hok _ _ Hel) as (f & p & Hc & Hf & Hp & Hid & Hfr).
      assert (Z.to_nat f ≠ i) by (intros Heq; congruence).
      exists f, p. rewrite !list_lookup_insert_ne by done. split_and!; try done.
      by rewrite (proj2 (Hsame _ _ Hel)).
  - intros pid' el j g [[<- <-]|[Hne Hel]]%lookup_insert_Some Hg.
    + by destruct (Hfs j g Hg).
    + destruct (Hfs j g Hg) as [_ [j' Hg']]. by eapply (po_apart _ _ _ _ Hok).
Qed.

(** Pinning a frame in the replacer of the pool. *)
Lemma pool_pin h bpm m fs z :
  pool_ok h bpm m fs → 0 ≤ z < pool_size bpm → pinnable fs z →
  ∃ r h' j, clock_replacer_pin z (replacer bpm) h = Ok (r, h')
    ∧ pool_ok h' (set_replacer r bpm) m (delete j fs)
    ∧ (z ∉ f_id <$> delete j fs) ∧ (length (delete j fs) = length fs - 1)%nat
    ∧ (∀ pid el o, m !! pid = Some el → cells h !! el_data el = Some o → cells h' !! el_data el = Some o).
Proof.
  intros Hok Hz Hpin. pose proof (po_clock _ _ _ _ Hok) as Hck.
  destruct (clock_pin_any _ _ _ z Hck) as (r & h' & j & Hrp & Hck' & Hni & Hlen & Hnum & Hsame);
    [by rewrite (po_size _ _ _ _ Hok)|done|].
  assert (∀ pid el, m !! pid = Some el → cells h' !! el_key el = cells h !! el_key el
                                      ∧ cells h' !! el_data el = cells h !! el_data el) as Hel.
  { intros pid el Hel. destruct (po_frame _ _ _ _ Hok _ _ Hel) as (f & p & Hc & _).
    destruct (num_el _ _ _ _ (po_table _ _ _ _ Hok) _ _ Hel) as (o & Ho & Hk & _).
    split; apply Hsame; [by eexists| |by eexists|]; intros i g Hg;
      destruct (frame_blocks _ _ _ _ _ Hck Hg) as ((q & Hn) & Hgk & _);
      (split; [|congruence]); [by eapply po_apart|congruence]. }
  exists r, h', j. split_and!; [done| |done|done|].
  - split; cbn [set_replacer pool_size pages page_table free_list replacer];
      [| | |by eapply po_pages|by eapply po_free|by eapply po_data| |].
    + eapply num_table_heap; [by eapply po_table|by eapply nt_heap, ck_table|done].
    + done.
    + by rewrite Hnum, (po_size _ _ _ _ Hok).
    + intros pid el Hm. destruct (po_frame _ _ _ _ Hok _ _ Hm) as (f & p & Hc & Hrest).
      exists f, p. by rewrite (proj2 (Hel _ _ Hm)).
    + intros pid el i g Hm Hg. rewrite list_lookup_delete in Hg.
      case_decide; by eapply (po_apart _ _ _ _ Hok).
  - intros pid el o Hm Ho. by rewrite (proj2 (Hel _ _ Hm)).
Qed.

(** Up to the call that takes the frame out of the replacer. *)
Lemma new_bpm_page_start h bpm m fs pid i d :
  pool_ok h bpm m fs → 0 ≤ pid < 10000 → m !! pid = None → no_collision (pool_size bpm) m pid →
  first_free (free_list bpm) = Some i →
  ∃ bpm' h' el, new_bpm_page pid bpm h d
      = (r ← clock_replacer_pin (Z.of_nat i) (replacer bpm') h';
         let '(r, h) := r in Ok (Some (Z.of_nat i), set_replacer r bpm', h, d))
    ∧ pool_ok h' bpm' (<[pid := el]> m) fs ∧ cells h' !! el_data el = Some (OU32 (Z.of_nat i))
    ∧ pages bpm' = <[i := mkBpmPage (zeros PAGE_SIZE) pid 1 false]> (pages bpm)
    ∧ free_list bpm' = <[i := false]> (free_list bpm)
    ∧ disk_manager bpm' = disk_manager bpm ∧ pool_size bpm' = pool_size bpm
    ∧ 0 ≤ Z.of_nat i < pool_size bpm.
Proof.
  intros Hok Hpid Hnew Hcol Hfirst.
  pose proof (first_free_lookup _ _ Hfirst) as Hfree. pose proof (lookup_lt_Some _ _ _ Hfree) as Hlt.
  pose proof (po_pages _ _ _ _ Hok) as Hpg. pose proof (po_free _ _ _ _ Hok) as Hfl.
  pose proof (ck_pages _ _ _ (po_clock _ _ _ _ Hok)) as Hnp. rewrite (po_size _ _ _ _ Hok) in Hnp.
  unfold zlen in Hpg, Hfl.
  unfold new_bpm_page. rewrite pid_str_long by lia. ok_step.
  rewrite (pool_find _ _ _ _ _ Hok) by lia. ok_step. rewrite Hnew.
  destruct (malloc (OU32 UINT32_MAX) h) as [ptr h1] eqn:Hm1.
  destruct (clock_malloc _ _ _ _ _ _ (po_clock _ _ _ _ Hok) Hm1) as (Hck1 & Hpn & Hpc & Hpnew & Hsub1 & Hfr1).
  unfold choose_frame. rewrite Hfirst, (set_free_ok _ _ true) by (by rewrite Nat2Z.id). ok_step.
  rewrite Nat2Z.id. assert (u32 (Z.of_nat i) = Z.of_nat i) as -> by (unfold u32; apply Z.mod_small; lia).
  ok_step. unfold store. rewrite (load_ok _ _ _ Hpn Hpc). ok_step. set (h2 := mkHeap _ _).
  rewrite (proj2 (Z.eqb_neq _ _)) by (unfold UINT32_MAX; lia).
  destruct (lookup_lt_is_Some_2 (pages bpm) i) as [p0 Hp0]; [lia|].
  erewrite get_page_ok by (cbn [pages]; rewrite Nat2Z.id; exact Hp0). ok_step.
  unfold add_to_pagetable. assert (sprintf 5 (format_u pid) = Ok (format_u pid)) as ->.
  { unfold sprintf. rewrite (proj2 (Z.leb_le _ _)); [done|].
    pose proof (dec_length 10 4 pid ltac:(lia) ltac:(lia)). unfold format_u, zlen. lia. }
  ok_step. rewrite bind_Ok. destruct (malloc (OStr (format_u pid)) h2) as [key h3] eqn:Hm3.
  assert (heap_ok h2) as Hh2 by (eapply heap_ok_store; [by eapply nt_heap, ck_table|done]).
  assert (clock_ok h2 (replacer bpm) fs) as Hck2 by (by apply clock_ok_foreign).
  destruct (clock_malloc _ _ _ _ _ _ Hck2 Hm3) as (Hck3 & Hkn & Hkc & Hknew & Hsub3 & Hfr3).
  assert (∀ q o, cells h !! q = Some o → cells h3 !! q = Some o) as Hsub.
  { intros q o Hq. apply Hsub3. cbn [h2 cells]. rewrite lookup_insert_ne; [by apply Hsub1|congruence]. }
  destruct (pool_insert h bpm m fs pid i key ptr (replacer bpm) h3 fs Hok) as (ht & Hht & Hok3);
    [lia|done|done|done|by eapply nt_heap, ck_table| | |done|done|done| |done|by eapply po_size| |].
  { intros pid' el Hel. destruct (num_el _ _ _ _ (po_table _ _ _ _ Hok) _ _ Hel) as (o & Ho & Hk & _).
    by rewrite Ho, Hk, (Hsub _ _ Ho), (Hsub _ _ Hk). }
  { destruct (cells h !! key) eqn:E; [|done]. rewrite <- (Hsub _ _ E) in E.
    exfalso. cbn [h2 cells] in Hknew. rewrite lookup_insert_None in Hknew. destruct Hknew as [Hknew _].
    destruct (cells h !! key) eqn:E'; [|congruence]. by rewrite (Hsub1 _ _ E') in Hknew. }
  { apply Hsub3. cbn [h2 cells]. apply lookup_insert_eq. }
  { intros j g Hg. split; [by apply (Hfr3 j g)|by exists j]. }
  cbn [set_page page_table]. rewrite Hht. do 2 ok_step.
  cbn [set_table set_page replacer].
  unfold set_replacer, set_table, set_page.
  cbn [pool_size pages page_table free_list replacer disk_manager]. rewrite Nat2Z.id.
  match type of Hok3 with pool_ok _ ?b _ _ => exists b end.
  exists h3, (mkHashEl key ptr). split; [reflexivity|]. split_and!; [exact Hok3| |done..|lia|lia].
  apply Hsub3. cbn [h2 cells]. apply lookup_insert_eq.
Qed.

Lemma new_bpm_page_ok h bpm m fs pid i d :
  pool_ok h bpm m fs → 0 ≤ pid < 10000 → m !! pid = None → no_collision (pool_size bpm) m pid →
  first_free (free_list bpm) = Some i → pinnable fs (Z.of_nat i) →
  ∃ bpm' h' el j, new_bpm_page pid bpm h d = Ok (Some (Z.of_nat i), bpm', h', d)
    ∧ pool_ok h' bpm' (<[pid := el]> m) (delete j fs)
    ∧ in_frame h' (<[pid := el]> m) pid (Z.of_nat i)
    ∧ (Z.of_nat i ∉ f_id <$> delete j fs) ∧ (length (delete j fs) = length fs - 1)%nat
    ∧ pages bpm' = <[i := mkBpmPage (zeros PAGE_SIZE) pid 1 false]> (pages bpm)
    ∧ free_list bpm' = <[i := false]> (free_list bpm)
    ∧ disk_manager bpm' = disk_manager bpm ∧ pool_size bpm' = pool_size bpm.
Proof.
  intros Hok Hpid Hnew Hcol Hfirst Hpin.
  destruct (new_bpm_page_start _ _ _ _ _ _ d Hok Hpid Hnew Hcol Hfirst)
    as (bpm3 & h3 & el & -> & Hok3 & Hc & Hpages & Hfree & Hdm & Hsize & Hi).
  destruct (pool_pin _ _ _ _ (Z.of_nat i) Hok3) as (r' & h4 & j & Hrp & Hok4 & Hni & Hlen & Hdata4);
    [lia|done|].
  rewrite Hrp. ok_step. eexists _, h4, el, j. split_and!; [reflexivity|exact Hok4| |done..].
  exists el. split; [apply lookup_insert_eq|]. eapply Hdata4; [apply lookup_insert_eq|done].
Qed.

(** The only frame of the replacer is another one. *)
Lemma fetch_unpinnable `{Uninit} h bpm m f pid i d :
  pool_ok h bpm m [f] → 0 ≤ pid < 10000 → m !! pid = None → no_collision (pool_size bpm) m pid →
  first_free (free_list bpm) = Some i → f_id f ≠ Z.of_nat i →
  fetch_bpm_page pid bpm h d = Undef NullDeref.
Proof.
  intros Hok Hpid Hnew Hcol Hfirst Hne.
  destruct (new_bpm_page_start _ _ _ _ _ _ d Hok Hpid Hnew Hcol Hfirst)
    as (bpm3 & h3 & el & Hnp & Hok3 & _ & _ & _ & _ & Hsize & Hi).
  unfold fetch_bpm_page. rewrite pid_str_long by lia. ok_step.
  rewrite (pool_find _ _ _ _ _ Hok) by lia. ok_step. rewrite Hnew, Hnp.
  rewrite (clock_pin_other _ _ _ _ (po_clock _ _ _ _ Hok3)); [done| |done].
  rewrite (po_size _ _ _ _ Hok3). lia.
Qed.

Section fetch.
Context {U : Uninit}.

Lemma zlen_page_of dm pid d : 0 ≤ pid → has_page dm pid d → zlen (page_of dm pid d) = PAGE_SIZE.
Proof. unfold page_of, has_page, PAGE_SIZE. intros. rewrite zlen_slice; lia. Qed.

Lemma fetch_miss h bpm m fs pid i d :
  pool_ok h bpm m fs → 0 ≤ pid < 10000 → m !! pid = None → no_collision (pool_size bpm) m pid →
  first_free (free_list bpm) = Some i → pinnable fs (Z.of_nat i) →
  short_name (table_name (disk_manager bpm)) → has_page (disk_manager bpm) pid d →
  ∃ bpm' h' el j d', fetch_bpm_page pid bpm h d = Ok (Z.of_nat i, bpm', h', d')
    ∧ pool_ok h' bpm' (<[pid := el]> m) (delete j fs)
    ∧ in_frame h' (<[pid := el]> m) pid (Z.of_nat i)
    ∧ (Z.of_nat i ∉ f_id <$> delete j fs) ∧ (length (delete j fs) = length fs - 1)%nat
    ∧ pages bpm' = <[i := mkBpmPage (page_of (disk_manager bpm) pid d) pid 2 false]> (pages bpm)
    ∧ free_list bpm' = <[i := false]> (free_list bpm)
    ∧ disk_manager bpm' = disk_manager bpm ∧ pool_size bpm' = pool_size bpm
    ∧ ∀ p, contents p d' = contents p d.
Proof.
  intros Hok Hpid Hnew Hcol Hfirst Hpin Hname Hpage.
  destruct (new_bpm_page_ok _ _ _ _ _ _ d Hok Hpid Hnew Hcol Hfirst Hpin)
    as (bpm1 & h1 & el & j & Hnp & Hok1 & Hin & Hni & Hlen & Hpages & Hfree & Hdm & Hsize).
  assert (i < length (pages bpm))%nat as Hi.
  { apply first_free_lookup, lookup_lt_Some in Hfirst. pose proof (po_pages _ _ _ _ Hok).
    pose proof (po_free _ _ _ _ Hok). unfold zlen in *. lia. }
  set (p1 := mkBpmPage (zeros PAGE_SIZE) pid 1 false) in *.
  assert (pages bpm1 !! Z.to_nat (Z.of_nat i) = Some p1) as Hp1.
  { rewrite Hpages, Nat2Z.id. by apply list_lookup_insert_eq. }
  unfold fetch_bpm_page. rewrite pid_str_long by lia. ok_step.
  rewrite (pool_find _ _ _ _ _ Hok) by lia. ok_step. rewrite Hnew, Hnp. ok_step.
  rewrite (pool_find _ _ _ _ _ Hok1), lookup_insert_eq by lia. ok_step.
  destruct Hin as (el' & Hel' & Hc). rewrite lookup_insert_eq in Hel'. injection Hel' as <-.
  rewrite (pool_load _ _ _ _ _ _ _ Hok1 (lookup_insert_eq _ _ _) Hc). ok_step.
  destruct (pin_page_ok _ _ _ _ _ _ Hok1 Hp1) as [Hpp Hok2]; [by cbn|]. rewrite Hpp. ok_step.
  cbn [set_page disk_manager]. rewrite Hdm.
  destruct (read_page_ok (disk_manager bpm) pid d) as (d' & Hread & Hd'); [done|unfold MAX_PID; lia|done|].
  rewrite Hread. ok_step.
  set (p2 := mkBpmPage (data p1) (page_id p1) (pin_count p1 + 1) (is_dirty p1)) in *.
  assert (pages (set_page (Z.of_nat i) p2 bpm1) !! Z.to_nat (Z.of_nat i) = Some p2) as Hp2.
  { apply list_lookup_insert_eq. by eapply lookup_lt_Some. }
  erewrite get_page_ok by exact Hp2. ok_step.
  set (p3 := mkBpmPage (page_of (disk_manager bpm) pid d) pid 2 false).
  pose proof (pool_set_page _ _ _ _ _ _ p3 Hok2 Hp2 eq_refl (zlen_page_of _ _ _ (proj1 Hpid) Hpage)) as Hok3.
  eexists _, h1, el, j, d'. split_and!; [reflexivity|exact Hok3| |done|done| |done..].
  - exists el. by rewrite lookup_insert_eq.
  - cbn [set_page pages]. by rewrite Nat2Z.id, list_insert_insert_eq, Hpages, list_insert_insert_eq.
Qed.

(** What is on disk after a page was written. *)
Lemma written_page dm pid bs d d' :
  short_name (table_name dm) → 0 ≤ pid ≤ MAX_PID → zlen bs = PAGE_SIZE → write_page pid dm bs d = Ok d' →
  page_of dm pid d' = bs ∧ has_page dm pid d'
  ∧ (∀ q, 0 ≤ q → q ≠ pid → has_page dm q d → page_of dm q d' = page_of dm q d)
  ∧ (∀ q, has_page dm q d → has_page dm q d').
Proof.
  intros Hname Hpid Hbs Hw. destruct (write_page_ok dm pid bs d) as (d1 & Hw1 & Hf & _); [done..|].
  assert (d1 = d') as -> by congruence. apply page_of_write; [unfold MAX_PID in *; lia|done|done].
Qed.

(** C24: fetching a page that is in the file. A page that is in the pool is
    found in its frame, with one more pin and no access to the disk. A page that
    is not, and shares no bucket of the page table with one that is, is read into
    the first free frame when the replacer can pin that frame (it is empty, or the
    frame is one of its first two): there the page is pinned twice, the frame
    leaves the replacer and the other frames keep their pages. When the replacer
    holds just one frame and it is another one, a null pointer is
    dereferenced. *)
Theorem fetch_bpm_page_spec h bpm m fs pid d :
  pool_ok h bpm m fs → 0 ≤ pid < 10000 → short_name (table_name (disk_manager bpm)) →
  has_page (disk_manager bpm) pid d →
  (∀ f p, in_frame h m pid f → pages bpm !! Z.to_nat f = Some p → 0 ≤ pin_count p < 2 ^ 31 - 1 →
    fetch_bpm_page pid bpm h d
    = Ok (f, set_page f (mkBpmPage (data p) pid (pin_count p + 1) (is_dirty p)) bpm, h, d))
  ∧ (∀ i, m !! pid = None → no_collision (pool_size bpm) m pid →
      first_free (free_list bpm) = Some i → pinnable fs (Z.of_nat i) →
      ∃ bpm' h' m' fs' d', fetch_bpm_page pid bpm h d = Ok (Z.of_nat i, bpm', h', d')
        ∧ pool_ok h' bpm' m' fs' ∧ in_frame h' m' pid (Z.of_nat i) ∧ (Z.of_nat i ∉ f_id <$> fs')
        ∧ (∀ q, q ≠ pid → m' !! q = m !! q)
        ∧ pages bpm' = <[i := mkBpmPage (page_of (disk_manager bpm) pid d) pid 2 false]> (pages bpm)
        ∧ free_list bpm' = <[i := false]> (free_list bpm)
        ∧ ∀ p, contents p d' = contents p d)
  ∧ (∀ i f, m !! pid = None → no_collision (pool_size bpm) m pid →
      first_free (free_list bpm) = Some i → fs = [f] → f_id f ≠ Z.of_nat i →
      fetch_bpm_page pid bpm h d = Undef NullDeref).
Proof.
  intros Hok Hpid Hname Hpage. split_and!.
  - intros f p Hin Hp Hpin. destruct (fetch_hit _ _ _ _ pid f d Hok ltac:(lia) Hin) as (p' & Hp' & Hf & _).
    { intros p' Hp'. by simplify_eq. }
    by simplify_eq.
  - intros i Hnew Hcol Hfirst Hpin.
    destruct (fetch_miss _ _ _ _ _ _ d Hok Hpid Hnew Hcol Hfirst Hpin Hname Hpage)
      as (bpm' & h' & el & j & d' & ? & ? & ? & ? & _ & ? & ? & _ & _ & ?).
    exists bpm', h', (<[pid := el]> m), (delete j fs), d'. split_and!; try done.
    intros q Hq. by rewrite lookup_insert_ne.
  - intros i f Hnew Hcol Hfirst -> Hne. by eapply fetch_unpinnable.
Qed.

(** Flushing a page writes the contents of its frame to its place in the
    file, whether they were changed or not, and to no other page; the page is
    no longer in the pool, its frame is free and may be evicted. A page that is
    not in the pool is not flushed. *)
Theorem flush_page_spec h bpm m fs pid d :
  pool_ok h bpm m fs → 0 ≤ pid ≤ MAX_PID → short_name (table_name (disk_manager bpm)) →
  (m !! pid = None → flush_page pid bpm h d = Ok (false, bpm, h, d))
  ∧ (∀ f p, in_frame h m pid f → pages bpm !! Z.to_nat f = Some p → f ∉ f_id <$> fs →
      ∃ bpm' h' d' g, flush_page pid bpm h d = Ok (true, bpm', h', d')
        ∧ pool_ok h' bpm' (delete pid m) (g :: fs) ∧ f_id g = f
        ∧ free_list bpm' !! Z.to_nat f = Some true
        ∧ page_of (disk_manager bpm) pid d' = data p
        ∧ ∀ q, 0 ≤ q → q ≠ pid → has_page (disk_manager bpm) q d →
            page_of (disk_manager bpm) q d' = page_of (disk_manager bpm) q d).
Proof.
  intros Hok Hpid Hname. unfold MAX_PID in *. split.
  - intros Hnone. unfold flush_page. rewrite pid_str_long by lia. ok_step.
    rewrite (pool_find _ _ _ _ _ Hok) by lia. ok_step. by rewrite Hnone.
  - intros f p Hin Hp Hnew.
    destruct (flush_ok _ _ _ _ _ _ _ d Hok Hpid Hname Hin Hp Hnew)
      as (bpm' & h' & d' & g & Hfl & Hok' & Hg & Hpages & Hfree & Hdm & _ & Hw & _).
    destruct (in_frame_page _ _ _ _ _ _ Hok Hin) as (_ & p0 & Hp0 & _ & Hfr & Hlen). simplify_eq.
    assert (zlen (data p) = PAGE_SIZE) as Hdata by congruence.
    destruct (written_page (disk_manager bpm) pid (data p) d d') as (H1 & _ & H3 & _); [done..|].
    exists bpm', h', d', g. split_and!; [done..| |done|done].
    rewrite Hfree. apply list_lookup_insert_eq. by eapply lookup_lt_Some.
Qed.

End fetch.

(** ** Pools of eight frames and of one frame *)

Lemma sample_pool n :
  0 < n ≤ 65535 → ∃ bpm h m d, fetch_bpm_page (U:=zero_uninit) 1 (new_bpm n sample_dm) new_heap sample_disk
      = Ok (0, bpm, h, d)
    ∧ pool_ok h bpm m [] ∧ in_frame h m 1 0 ∧ (∀ q, q ≠ 1 → m !! q = None)
    ∧ free_list bpm = <[0%nat := false]> (free_list (new_bpm n sample_dm))
    ∧ disk_manager bpm = sample_dm ∧ contents (path_of (str "idx")) d = zeros 8192.
Proof.
  intros Hn.
  destruct (fetch_miss (U:=zero_uninit) new_heap (new_bpm n sample_dm) ∅ [] 1 0%nat sample_disk)
    as (bpm & h & el & j & d & Hf & Hok & Hin & _ & _ & _ & Hfree & Hdm & _ & Hd).
  - apply new_bpm_ok; [apply new_heap_ok|lia].
  - lia.
  - done.
  - intros z el Hel. by rewrite lookup_empty in Hel.
  - cbn [new_bpm free_list]. by replace (Z.to_nat n) with (S (Z.to_nat (n - 1))) by lia.
  - by left.
  - done.
  - by_compute.
  - exists bpm, h, (<[1 := el]> ∅), d. split_and!; [done..| |done|done|by rewrite Hd].
    intros q Hq. by rewrite lookup_insert_ne.
Qed.

Lemma fetch_bpm_page_spec_witness :
  ∃ bpm h m fs d, fetch_bpm_page (U:=zero_uninit) 1 (new_bpm 8 sample_dm) new_heap sample_disk
      = Ok (0, bpm, h, d)
    ∧ pool_ok h bpm m fs ∧ in_frame h m 1 0.
Proof.
  destruct (fetch_bpm_page_spec (U:=zero_uninit) new_heap (new_bpm 8 sample_dm) ∅ [] 1 sample_disk)
    as (_ & H & _); [apply new_bpm_ok; [apply new_heap_ok|by_compute]|by_compute|by_compute|by_compute|].
  destruct (H 0%nat) as (bpm & h & m & fs & d & Hf & Hok & Hin & _); [done| |done|by left|].
  - intros z el Hel. by rewrite lookup_empty in Hel.
  - exists bpm, h, m, fs, d. exact (conj Hf (conj Hok Hin)).
Defined.

Lemma flush_page_spec_witness :
  ∃ bpm h d bpm' h' d', fetch_bpm_page (U:=zero_uninit) 1 (new_bpm 8 sample_dm) new_heap sample_disk
      = Ok (0, bpm, h, d)
    ∧ flush_page 1 bpm h d = Ok (true, bpm', h', d')
    ∧ flush_page 2 bpm h d = Ok (false, bpm, h, d).
Proof.
  destruct (sample_pool 8 ltac:(lia)) as (bpm & h & m & d & Hf & Hok & Hin & Hm & _ & Hdm & _).
  destruct (in_frame_page _ _ _ _ _ _ Hok Hin) as (_ & p & Hp & _).
  assert (short_name (table_name (disk_manager bpm))) as Hname by (by rewrite Hdm).
  destruct (proj2 (flush_page_spec h bpm m [] 1 d Hok ltac:(by_compute) Hname)
    0 p Hin Hp ltac:(by intros ?%elem_of_nil)) as (bpm' & h' & d' & _ & Hfl & _).
  pose proof (proj1 (flush_page_spec h bpm m [] 2 d Hok ltac:(by_compute) Hname)
    (Hm 2 ltac:(done))) as Hno.
  exists bpm, h, d, bpm', h', d'. exact (conj Hf (conj Hfl Hno)).
Defined.
