(* ===== verification/Eviction.v ===== *)
(** * Eviction: a buffer pool without a free frame

    A page that is not in the pool then takes the frame of a page that is not
    pinned. The replacer gives every frame a second chance, and the pool does
    not forget the page that was in the frame. *)
From S2P Require Import Prelude Serialize Memory Hash NumTable CircularList ClockReplacer Disk Heapfile Bpm.

(** ** The pool in a heap that changes *)

Lemma pool_heap h h' bpm m fs fs' r :
  pool_ok h bpm m fs → clock_ok h' r fs' → num_pages r = pool_size bpm →
  (∀ pid el, m !! pid = Some el → cells h' !! el_key el = cells h !! el_key el
                                ∧ cells h' !! el_data el = cells h !! el_data el) →
  f_key <$> fs' ⊆ f_key <$> fs → pool_ok h' (set_replacer r bpm) m fs'.
Proof.
  intros Hok Hck Hnum Hsame Hkeys.
  split; cbn [set_replacer pool_size pages page_table free_list replacer];
    [|done|done|by eapply po_pages|by eapply po_free|by eapply po_data| |].
  - eapply num_table_heap; [by eapply po_table|by eapply nt_heap, ck_table|done].
  - intros pid el Hel. destruct (po_frame _ _ _ _ Hok _ _ Hel) as (f & p & Hc & Hrest).
    exists f, p. by rewrite (proj2 (Hsame _ _ Hel)).
  - intros pid el i g Hel Hg Heq.
    assert (f_key g ∈ f_key <$> fs) as (g' & Hk & (j & Hg')%list_elem_of_lookup)%list_elem_of_fmap.
    { apply Hkeys, list_elem_of_fmap. exists g. split; [done|]. by eapply list_elem_of_lookup_2. }
    apply (po_apart _ _ _ _ Hok _ _ _ _ Hel Hg'). congruence.
Qed.

(** The elements of the page table are none of the blocks a sweep changes. *)
Lemma pool_kept h h' bpm m fs :
  pool_ok h bpm m fs → kept fs h h' →
  ∀ pid el, m !! pid = Some el → cells h' !! el_key el = cells h !! el_key el
                                ∧ cells h' !! el_data el = cells h !! el_data el.
Proof.
  intros Hok Hk pid el Hel. destruct (po_frame _ _ _ _ Hok _ _ Hel) as (f & p & Hc & _).
  destruct (num_el _ _ _ _ (po_table _ _ _ _ Hok) _ _ Hel) as (o & Ho & Hkey & _).
  split; apply Hk; [by eexists| |by eexists|]; intros i g Hg;
    destruct (frame_blocks _ _ _ _ _ (po_clock _ _ _ _ Hok) Hg) as ((q & Hn) & Hgk & _);
    (split; [congruence|]); [by eapply po_apart|congruence].
Qed.

(** A larger heap. *)
Lemma pool_sub h h' bpm m fs :
  pool_ok h bpm m fs → heap_ok h' → (∀ p o, cells h !! p = Some o → cells h' !! p = Some o) → pool_ok h' bpm m fs.
Proof.
  intros Hok Hh Hsub.
  assert (bpm = set_replacer (replacer bpm) bpm) as -> by (by destruct bpm).
  eapply pool_heap; [done|by eapply clock_ok_sub; [eapply po_clock|..]|by eapply po_size| |done].
  intros pid el Hel. destruct (po_frame _ _ _ _ Hok _ _ Hel) as (f & p & Hc & _).
  destruct (num_el _ _ _ _ (po_table _ _ _ _ Hok) _ _ Hel) as (o & Ho & Hkey & _).
  by rewrite (Hsub _ _ Hc), (Hsub _ _ Hkey).
Qed.

(** A new block is none of those of the pool, so it may be written. *)
Lemma pool_malloc h bpm m fs o ptr h' :
  pool_ok h bpm m fs → malloc o h = (ptr, h') →
  pool_ok h' bpm m fs ∧ ptr ≠ NULL ∧ cells h !! ptr = None ∧ cells h' !! ptr = Some o
  ∧ (∀ q o', cells h !! q = Some o' → cells h' !! q = Some o')
  ∧ ∀ o', pool_ok (mkHeap (<[ptr := o']> (cells h')) (brk h')) bpm m fs.
Proof.
  intros Hok Hm. destruct (clock_malloc _ _ _ _ _ _ (po_clock _ _ _ _ Hok) Hm) as (Hck & Hn & Hc & Hnew & Hsub & _).
  pose proof (nt_heap _ _ _ _ (ck_table _ _ _ Hck)) as Hh.
  split_and!; [by eapply pool_sub|done..|]. intros o'. eapply pool_sub; [exact Hok|by eapply heap_ok_store|].
  intros q o'' Hq. cbn [cells]. rewrite lookup_insert_ne; [by apply Hsub|congruence].
Qed.

(** A sweep leaves new blocks alone. *)
Lemma kept_fresh h h1 h2 bpm m fs ptr o :
  pool_ok h bpm m fs → cells h !! ptr = None → cells h1 !! ptr = Some o → kept fs h1 h2 → cells h2 !! ptr = Some o.
Proof.
  intros Hok Hnew Hc Hk. rewrite Hk; [done|by eexists|]. intros j g Hg.
  destruct (frame_blocks _ _ _ _ _ (po_clock _ _ _ _ Hok) Hg) as ((q & Hq) & Hgk & _). split; congruence.
Qed.

(** ** The second chance *)

Lemma evict_all_set h bpm m fs i :
  pool_ok h bpm m fs → fs ≠ [] → hand_at (replacer bpm) fs i → Forall (λ f, f_ref f = true) fs →
  ∃ r h' fs', evict (replacer bpm) h = Ok (UINT32_MAX, r, h') ∧ pool_ok h' (set_replacer r bpm) m fs'
    ∧ bits_of fs' = (λ f, (f_id f, false)) <$> fs ∧ hand_at r fs' i ∧ kept fs h h'.
Proof.
  intros Hok Hne Hi Hset. pose proof (po_clock _ _ _ _ Hok) as Hck.
  destruct (evict_sweep _ _ _ _ Hck Hne Hi) as (f & Hf & He & Hck').
  pose proof (sweep_ok (length fs) _ _ _ _ _ _ _ _ true Hck' Hf eq_refl) as Hs.
  assert (clock (length fs) i (bits_of fs) = (None, i, (λ f, (f_id f, false)) <$> fs)) as Hc.
  { replace (length fs) with (length (bits_of fs)) by apply length_fmap.
    rewrite clock_all_set; [|unfold bits_of; rewrite length_fmap; by eapply lookup_lt_Some|].
    - f_equal. unfold bits_of. by rewrite <- list_fmap_compose.
    - unfold bits_of. by rewrite Forall_fmap. }
  rewrite Hc in Hs. destruct Hs as (ht & hd & h' & fs' & g & Hsw & Hck2 & Hb & Hg & -> & Hk & Hkeys).
  eexists _, h', fs'. rewrite He. split; [exact Hsw|]. split; [|split; [done|split; [right; by exists g|done]]].
  eapply pool_heap; [done|done|by eapply po_size|by eapply pool_kept|by rewrite Hkeys].
Qed.

(** A page that finds no frame. *)
Lemma new_bpm_page_none h bpm m fs i pid d :
  pool_ok h bpm m fs → 0 ≤ pid < 10 ^ 9 → m !! pid = None → first_free (free_list bpm) = None →
  fs ≠ [] → hand_at (replacer bpm) fs i → Forall (λ f, f_ref f = true) fs →
  ∃ r h' fs', new_bpm_page pid bpm h d = Ok (None, set_replacer r bpm, h', d)
    ∧ pool_ok h' (set_replacer r bpm) m fs'
    ∧ bits_of fs' = (λ f, (f_id f, false)) <$> fs ∧ hand_at r fs' i
    ∧ ∀ q el, m !! q = Some el → cells h' !! el_data el = cells h !! el_data el.
Proof.
  intros Hok Hpid Hnew Hfull Hne Hi Hset.
  unfold new_bpm_page. rewrite pid_str_long by lia. ok_step.
  rewrite (pool_find _ _ _ _ _ Hok) by lia. ok_step. rewrite Hnew.
  destruct (malloc (OU32 UINT32_MAX) h) as [ptr h1] eqn:Hm.
  destruct (pool_malloc _ _ _ _ _ _ _ Hok Hm) as (Hok1 & Hpn & Hpf & Hpc & Hsub & _).
  destruct (evict_all_set _ _ _ _ _ Hok1 Hne Hi Hset) as (r & h2 & fs' & He & Hok2 & Hb & Hi' & Hk).
  unfold choose_frame. rewrite Hfull, He. ok_step. rewrite Z.eqb_refl. cbv iota. ok_step.
  pose proof (kept_fresh _ _ _ _ _ _ _ _ Hok Hpf Hpc Hk) as Hpc2.
  unfold store. rewrite (load_ok _ _ _ Hpn Hpc2). do 2 ok_step. rewrite Z.eqb_refl.
  exists r, h2, fs'. split_and!; [|done..|]. { rewrite insert_id by done. by destruct h2. }
  intros q el Hel. rewrite (proj2 (pool_kept _ _ _ _ _ Hok1 Hk _ _ Hel)).
  destruct (po_frame _ _ _ _ Hok _ _ Hel) as (f & p & Hc & _). rewrite Hc. by apply Hsub.
Qed.

(** The key of a page in the table, in its five bytes. *)
Lemma add_to_pagetable_ok h bpm m pid ptr f :
  num_table h (page_table bpm) (pool_size bpm) m → 0 ≤ pid < 10000 → ptr ≠ NULL →
  cells h !! ptr = Some (OU32 f) → (∀ q el, m !! q = Some el → el_data el ≠ ptr) →
  ∃ ht h' key, add_to_pagetable pid ptr bpm h = Ok (set_table ht bpm, h')
    ∧ heap_ok h' ∧ finds h' ht (<[pid := mkHashEl key ptr]> m)
    ∧ (∀ q o, cells h !! q = Some o → cells h' !! q = Some o).
Proof.
  intros Hnt Hpid Hn Hc Hfresh. unfold add_to_pagetable.
  assert (sprintf 5 (format_u pid) = Ok (format_u pid)) as ->.
  { unfold sprintf. rewrite (proj2 (Z.leb_le _ _)); [done|].
    pose proof (dec_length 10 4 pid ltac:(lia) ltac:(lia)). unfold format_u, zlen. lia. }
  ok_step. destruct (malloc (OStr (format_u pid)) h) as [key h'] eqn:Hm.
  destruct (num_table_malloc _ _ _ _ _ _ _ Hnt Hm) as (Hnt' & Hkn & Hkc & _ & Hsub & _).
  destruct (num_insert_finds _ _ _ _ pid key ptr Hnt') as (ht & Hht & Hnt2);
    [lia|by split|split; [done|eexists; split; [by apply Hsub|done]]|done|].
  rewrite Hht. ok_step. exists ht, h', key. split_and!; [done|by eapply nt_heap|done..].
Qed.

(** The last steps of [new_bpm_page] when no other frame may be evicted. *)
Lemma enter_page_ok h bpm m r pid ptr f :
  num_table h (page_table bpm) (pool_size bpm) m → clock_ok h r [] → replacer bpm = r → 0 ≤ f < num_pages r →
  0 ≤ pid < 10000 → ptr ≠ NULL → cells h !! ptr = Some (OU32 f) → (∀ q el, m !! q = Some el → el_data el ≠ ptr) →
  ∃ ht r' h' key,
    (r ← add_to_pagetable pid ptr bpm h; let '(bpm, h) := r in
     r ← clock_replacer_pin f (replacer bpm) h; let '(r, h) := r in Ok (set_replacer r bpm, h))
    = Ok (set_replacer r' (set_table ht bpm), h')
    ∧ heap_ok h' ∧ finds h' ht (<[pid := mkHashEl key ptr]> m)
    ∧ (∀ q o, cells h !! q = Some o → cells h' !! q = Some o).
Proof.
  intros Hnt Hck <- Hf Hpid Hpn Hpc Hfresh.
  destruct (add_to_pagetable_ok h bpm m pid ptr f Hnt Hpid Hpn Hpc Hfresh)
    as (ht & h1 & key & Hadd & Hh1 & Hnt1 & Hsub1).
  rewrite Hadd. ok_step. cbn [set_table replacer].
  destruct (clock_replacer_pin_empty h1 (replacer bpm) f) as (r' & h2 & Hrp & Hck2 & _ & _ & Hsame2);
    [by eapply clock_ok_sub|done|].
  rewrite Hrp. ok_step.
  assert (∀ q o, cells h1 !! q = Some o → cells h2 !! q = Some o) as Hsub2.
  { intros q o Hq. by rewrite Hsame2 by by eexists. }
  exists ht, r', h2, key. split_and!; [done|by eapply nt_heap, ck_table|by eapply finds_sub|eauto].
Qed.

(** The only frame that may be evicted. A dirty page is flushed by the number of
    its frame, which is not in the pool. *)
Lemma new_bpm_page_evict h bpm m f p pid d :
  pool_ok h bpm m [f] → f_ref f = false → hand_at (replacer bpm) [f] 0 → first_free (free_list bpm) = None →
  0 ≤ pid < 10000 → m !! pid = None →
  pages bpm !! Z.to_nat (f_id f) = Some p → (is_dirty p = true → m !! f_id f = None) →
  ∃ bpm' h' el, new_bpm_page pid bpm h d = Ok (Some (f_id f), bpm', h', d)
    ∧ heap_ok h' ∧ finds h' (page_table bpm') (<[pid := el]> m)
    ∧ cells h' !! el_data el = Some (OU32 (f_id f))
    ∧ (∀ q el', m !! q = Some el' → cells h' !! el_data el' = cells h !! el_data el')
    ∧ pages bpm' = <[Z.to_nat (f_id f) := mkBpmPage (zeros PAGE_SIZE) pid 1 false]> (pages bpm)
    ∧ disk_manager bpm' = disk_manager bpm.
Proof.
  intros Hok Href Hi Hfull Hpid Hnew Hp Hdirty.
  unfold new_bpm_page. rewrite pid_str_long by lia. ok_step.
  rewrite (pool_find _ _ _ _ _ Hok) by lia. ok_step. rewrite Hnew.
  destruct (malloc (OU32 UINT32_MAX) h) as [ptr h1] eqn:Hm.
  destruct (pool_malloc _ _ _ _ _ _ _ Hok Hm) as (Hok1 & Hpn & Hpf & Hpc & Hsub1 & _).
  pose proof (po_clock _ _ _ _ Hok1) as Hck.
  destruct (evict_ok h1 (replacer bpm) [f] 0 0 0 [(f_id f, false)] Hck)
    as (r & h2 & fs & g & He & Hck2 & Hb & Hg & _ & _ & _ & Hnum & Hk); [done|done|by cbn; rewrite Href|lia|].
  destruct fs as [|g' [|? ?]]; [done| |done]. injection Hb as Hid _. injection Hg as ->. cbn [delete list_delete] in Hck2.
  destruct (ck_frame _ _ _ Hck 0%nat f eq_refl) as (Hr & _). rewrite (po_size _ _ _ _ Hok) in Hr.
  pose proof (ck_pages _ _ _ Hck) as Hpg. rewrite (po_size _ _ _ _ Hok) in Hpg, Hnum.
  unfold choose_frame. rewrite Hfull, He. ok_step. rewrite Hid.
  rewrite (proj2 (Z.eqb_neq _ _)) by (unfold UINT32_MAX; lia).
  erewrite get_page_ok by exact Hp. ok_step.
  assert (num_table h2 (page_table bpm) (pool_size bpm) m) as Hnt2.
  { eapply num_table_heap; [by eapply po_table|by eapply nt_heap, ck_table|by eapply pool_kept]. }
  match goal with |- context [(if is_dirty p then ?a else ?b) ≫= _] =>
    replace (if is_dirty p then a else b) with b end.
  2: { destruct (is_dirty p); [|done]. unfold flush_page. rewrite pid_str_long by lia. ok_step.
       cbn [set_replacer page_table]. rewrite (nt_find _ _ _ _ Hnt2) by lia. ok_step. by rewrite Hdirty. }
  ok_step.
  pose proof (kept_fresh _ _ _ _ _ _ _ _ Hok Hpf Hpc Hk) as Hpc2.
  unfold store. rewrite (load_ok _ _ _ Hpn Hpc2). do 2 ok_step. set (h3 := mkHeap _ _).
  rewrite (proj2 (Z.eqb_neq _ _)) by (unfold UINT32_MAX; lia).
  erewrite get_page_ok by exact Hp. ok_step.
  assert (∀ q el, m !! q = Some el → cells h3 !! el_key el = cells h1 !! el_key el
      ∧ cells h3 !! el_data el = cells h1 !! el_data el ∧ el_data el ≠ ptr) as Hsame.
  { intros q el Hel. destruct (pool_kept _ _ _ _ _ Hok1 Hk _ _ Hel) as [<- <-].
    destruct (num_el _ _ _ _ (po_table _ _ _ _ Hok) _ _ Hel) as (o & Ho & Hkey & _).
    assert (el_key el ≠ ptr ∧ el_data el ≠ ptr) as [? ?] by (split; congruence).
    cbn [h3 cells]. by rewrite !lookup_insert_ne by done. }
  assert (heap_ok h3) as Hh3 by (eapply heap_ok_store; [by eapply nt_heap, ck_table|done]).
  assert (num_table h3 (page_table bpm) (pool_size bpm) m) as Hnt3.
  { eapply num_table_heap; [by eapply po_table|done|]. intros q el Hel. by destruct (Hsame _ _ Hel) as (? & ? & _). }
  set (bpm3 := set_page _ _ _).
  assert (clock_ok h3 r []) as Hck3 by (apply (clock_ok_heap h2 h3 _ _ Hck2 Hh3); by intros i).
  destruct (enter_page_ok h3 bpm3 m r pid ptr (f_id f)) as (ht & r' & h4 & key & Hen & Hh4 & Hnt4 & Hsub4);
    [exact Hnt3|exact Hck3|done|lia|done|done|cbn [h3 cells]; apply lookup_insert_eq|by intros q el Hel; apply (Hsame q)|].
  destruct (bind_Ok_inv _ _ _ Hen) as ([b4 h5] & Hadd & Hpin). rewrite Hadd. ok_step.
  destruct (bind_Ok_inv _ _ _ Hpin) as ([r5 h6] & Hrp & Heq). rewrite Hrp. ok_step.
  assert (set_replacer r5 b4 = set_replacer r' (set_table ht bpm3) ∧ h6 = h4) as [-> ->] by (split; congruence).
  eexists _, h4, _. split_and!; [reflexivity|done|exact Hnt4| | |done|done].
  - cbn [el_data]. apply Hsub4. cbn [h3 cells]. apply lookup_insert_eq.
  - intros q el Hel. destruct (Hsame _ _ Hel) as (_ & Hd & _).
    destruct (po_frame _ _ _ _ Hok _ _ Hel) as (f' & p' & Hc & _).
    rewrite Hc. apply Hsub4. rewrite Hd. by apply Hsub1.
Qed.

(** A pool without a frame to evict: the lock is not released. *)
Lemma new_bpm_page_locked h bpm m pid d :
  pool_ok h bpm m [] → 0 ≤ pid < 10 ^ 9 → m !! pid = None → first_free (free_list bpm) = None →
  ∃ r h', new_bpm_page pid bpm h d = Ok (None, set_replacer r bpm, h', d)
    ∧ num_table h' (page_table bpm) (pool_size bpm) m ∧ ∀ h'', evict r h'' = Undef SelfDeadlock.
Proof.
  intros Hok Hpid Hnew Hfull.
  unfold new_bpm_page. rewrite pid_str_long by lia. ok_step.
  rewrite (pool_find _ _ _ _ _ Hok) by lia. ok_step. rewrite Hnew.
  destruct (malloc (OU32 UINT32_MAX) h) as [ptr h1] eqn:Hm.
  destruct (pool_malloc _ _ _ _ _ _ _ Hok Hm) as (Hok1 & Hpn & _ & Hpc & _ & Hst).
  unfold choose_frame. rewrite Hfull. unfold evict at 1.
  rewrite (ck_latch _ _ _ (po_clock _ _ _ _ Hok)). cbn [wrlock]. ok_step.
  rewrite (lo_size _ _ _ (ck_list _ _ _ (po_clock _ _ _ _ Hok))). change (zlen (nodes_of []) =? 0) with true. cbv iota. ok_step.
  rewrite Z.eqb_refl. cbv iota. ok_step.
  unfold store. rewrite (load_ok _ _ _ Hpn Hpc). do 2 ok_step.
  eexists _, _. split; [done|]. split; [exact (po_table _ _ _ _ (Hst _))|done].
Qed.

(** ** Unpinning *)

Lemma pool_unpin h bpm m fs z :
  pool_ok h bpm m fs → 0 ≤ z < pool_size bpm → z ∉ f_id <$> fs →
  ∃ r h' g, clock_replacer_unpin z (replacer bpm) h = Ok (r, h') ∧ pool_ok h' (set_replacer r bpm) m (g :: fs)
    ∧ f_id g = z ∧ f_ref g = true ∧ hand r = hand (replacer bpm)
    ∧ ∀ q o, cells h !! q = Some o → cells h' !! q = Some o.
Proof.
  intros Hok Hz Hnew. pose proof (po_clock _ _ _ _ Hok) as Hck.
  destruct (clock_replacer_unpin_ok h (replacer bpm) fs z Hck) as (r & h' & g & Hun & Hck' & Hg & Href & Hnum & Hhand & Hsub & Hfresh);
    [by rewrite (po_size _ _ _ _ Hok)|done|].
  exists r, h', g. split_and!; [done| |done..].
  split; cbn [set_replacer pool_size pages page_table free_list replacer];
    [|done|by rewrite Hnum, (po_size _ _ _ _ Hok)|by eapply po_pages|by eapply po_free|by eapply po_data| |].
  - eapply num_table_sub; [by eapply po_table|by eapply nt_heap, ck_table|done].
  - intros pid el Hel. destruct (po_frame _ _ _ _ Hok _ _ Hel) as (f & p & Hc & Hrest). exists f, p. eauto.
  - intros pid el [|i] g' Hel Hg'; simpl in Hg'; [|by eapply po_apart].
    injection Hg' as <-. destruct (num_el _ _ _ _ (po_table _ _ _ _ Hok) _ _ Hel) as (o & _ & Hk & _). congruence.
Qed.

(** Unpinning a frame that may be in the replacer already. *)
Lemma unpin_again h bpm m fs z :
  pool_ok h bpm m fs → 0 ≤ z < pool_size bpm →
  (zlen fs < pool_size bpm → ∃ r h' a kp, clock_replacer_unpin z (replacer bpm) h = Ok (r, h')
     ∧ list_ok h' (frames r) ((a, kp) :: nodes_of fs) ∧ str_at h' kp (format_u z))
  ∧ (zlen fs = pool_size bpm → ∃ h', clock_replacer_unpin z (replacer bpm) h = Ok (replacer bpm, h')
     ∧ pool_ok h' bpm m fs).
Proof.
  intros Hok Hz. pose proof (po_clock _ _ _ _ Hok) as Hck. rewrite <- (po_size _ _ _ _ Hok) in *. split; intros Hl.
  - destruct (clock_unpin_list _ _ _ _ Hck Hz Hl) as (ht & cl & h' & a & kp & bp & -> & _ & Hlist & _ & _ & Hkp & _).
    by eexists _, h', a, kp.
  - destruct (clock_unpin_full _ _ _ _ Hck Hz Hl) as (h' & Hun & Hck' & Hsub).
    exists h'. split; [done|]. eapply pool_sub; [done|by eapply nt_heap, ck_table|done].
Qed.

(** C25: unpinning a page takes one pin off and sets the dirty bit of the page to the
    argument, also when that forgets a change, and keeps the pool well formed while
    pins are left. At the last pin a frame that is not in the replacer enters it, with
    its reference bit set, and the pool stays well formed. A frame that is already in
    the replacer gets a second node in its list, or none when the list is full. A page
    that is not in the pool or has no pins is not unpinned. *)
Theorem unpin_page_spec h bpm m fs pid dirty :
  pool_ok h bpm m fs → 0 ≤ pid < 10 ^ 9 →
  (m !! pid = None → unpin_page pid dirty bpm h = Ok (false, bpm, h))
  ∧ ∀ f p, in_frame h m pid f → pages bpm !! Z.to_nat f = Some p →
    let bpm1 := set_page f (mkBpmPage (data p) pid (pin_count p - 1) dirty) bpm in
    (pin_count p = 0 → unpin_page pid dirty bpm h = Ok (false, bpm, h))
    ∧ (1 < pin_count p < 2 ^ 31 → unpin_page pid dirty bpm h = Ok (true, bpm1, h) ∧ pool_ok h bpm1 m fs)
    ∧ (pin_count p = 1 → f ∉ f_id <$> fs →
        ∃ r h' g, unpin_page pid dirty bpm h = Ok (true, set_replacer r bpm1, h')
          ∧ pool_ok h' (set_replacer r bpm1) m (g :: fs) ∧ f_id g = f ∧ f_ref g = true
          ∧ hand r = hand (replacer bpm) ∧ in_frame h' m pid f)
    ∧ (pin_count p = 1 → f ∈ f_id <$> fs → zlen fs < pool_size bpm →
        ∃ r h' a kp, unpin_page pid dirty bpm h = Ok (true, set_replacer r bpm1, h')
          ∧ list_ok h' (frames r) ((a, kp) :: nodes_of fs) ∧ str_at h' kp (format_u f))
    ∧ (pin_count p = 1 → zlen fs = pool_size bpm →
        ∃ h', unpin_page pid dirty bpm h = Ok (true, bpm1, h') ∧ pool_ok h' bpm1 m fs).
Proof.
  intros Hok Hpid. split; [|intros f p (el & Hel & Hc) Hp bpm1].
  { intros Hnone. unfold unpin_page. rewrite pid_str_long by lia. ok_step. rewrite (pool_find _ _ _ _ _ Hok) by lia. ok_step. by rewrite Hnone. }
  destruct (in_frame_page _ _ _ _ _ f Hok ltac:(by exists el)) as (Hf & p0 & Hp0 & Hid & _ & Hdata).
  assert (p0 = p) as -> by congruence.
  assert (pool_ok h bpm1 m fs) as Hok1 by (by eapply pool_set_page).
  assert (unpin_page pid dirty bpm h = if pin_count p =? 0 then Ok (false, bpm, h)
    else pins ← int_result (pin_count p - 1);
         if pins =? 0 then
           r ← clock_replacer_unpin f (replacer bpm) h; let '(r, h) := r in
           Ok (true, set_replacer r (set_page f (mkBpmPage (data p) pid pins dirty) bpm), h)
         else Ok (true, set_page f (mkBpmPage (data p) pid pins dirty) bpm, h)) as ->.
  { unfold unpin_page. rewrite pid_str_long by lia. ok_step.
    rewrite (pool_find _ _ _ _ _ Hok) by lia. ok_step. rewrite Hel.
    rewrite (pool_load _ _ _ _ _ _ _ Hok Hel Hc). ok_step. rewrite (get_page_ok _ _ _ Hp). ok_step. by rewrite Hid. }
  assert (pin_count p = 1 → ∀ r h', clock_replacer_unpin f (replacer bpm1) h = Ok (r, h') →
    (if pin_count p =? 0 then Ok (false, bpm, h)
     else pins ← int_result (pin_count p - 1);
         if pins =? 0 then
           r ← clock_replacer_unpin f (replacer bpm) h; let '(r, h) := r in
           Ok (true, set_replacer r (set_page f (mkBpmPage (data p) pid pins dirty) bpm), h)
         else Ok (true, set_page f (mkBpmPage (data p) pid pins dirty) bpm, h))
    = Ok (true, set_replacer r bpm1, h')) as Hlast.
  { intros Hpin r h' Hun. unfold bpm1 in *. rewrite Hpin. cbn [set_page replacer] in Hun.
    change (int_result (1 - 1)) with (Ok (A:=Z) 0). by rewrite Hun. }
  destruct (unpin_again _ _ _ _ f Hok1 Hf) as [Hagain Hfull].
  split_and!; [by intros ->|intros Hpin|intros Hpin Hnew|intros Hpin _ Hl|intros Hpin Hl].
  - rewrite (proj2 (Z.eqb_neq _ _)) by lia. unfold int_result.
    rewrite (proj2 (Z.leb_le _ _)), (proj2 (Z.ltb_lt _ _)) by lia. cbn [andb]. ok_step.
    by rewrite (proj2 (Z.eqb_neq _ _)) by lia.
  - destruct (pool_unpin _ _ _ _ f Hok1) as (r & h' & g & Hun & Hok2 & Hg & Href & Hhand & Hsub); [done|done|].
    exists r, h', g. split_and!; [by apply Hlast|done..|]. exists el. by split; [|apply Hsub].
  - destruct (Hagain Hl) as (r & h' & a & kp & Hun & Hlist & Hkp).
    exists r, h', a, kp. split_and!; [by apply Hlast|done..].
  - destruct (Hfull Hl) as (h' & Hun & Hok2). exists h'. split; [|done].
    rewrite (Hlast Hpin _ _ Hun). by destruct bpm.
Qed.

Section eviction.
Context {U : Uninit}.

(** A fetch that finds no frame. *)
Lemma fetch_none h bpm (m : gmap Z HashEl) pid d r h' :
  (∀ z, 0 ≤ z < 2 ^ 31 → hash_find (format_u z) (page_table bpm) h = Ok (m !! z)) → 0 ≤ pid < 10 ^ 9 → m !! pid = None →
  new_bpm_page pid bpm h d = Ok (None, set_replacer r bpm, h', d) →
  num_table h' (page_table bpm) (pool_size bpm) m → fetch_bpm_page pid bpm h d = Undef NullDeref.
Proof.
  intros Hfind Hpid Hnew Hn Hnt. unfold fetch_bpm_page. rewrite pid_str_long by lia. ok_step.
  rewrite Hfind by lia. ok_step. rewrite Hnew, Hn. ok_step.
  cbn [set_replacer page_table]. rewrite (nt_find _ _ _ _ Hnt) by lia. ok_step. by rewrite Hnew.
Qed.

Lemma allocate_loop_none fuel h bpm pid d r h' :
  new_bpm_page pid bpm h d = Ok (None, set_replacer r bpm, h', d) →
  allocate_loop (S fuel) pid bpm h d = allocate_loop fuel pid (set_replacer r bpm) h' d.
Proof. intros Hn. cbn [allocate_loop]. by rewrite Hn. Qed.

(** C39: when every frame holds a page, fetching a page that is not in the pool
    dereferences a null pointer if none may be evicted, and also if the bits of all
    that may be are set and the hand was never set or is on one of them, since the
    first round only clears their bits. Allocating a page when none may be evicted
    takes the lock of the replacer a second time. *)
Theorem pool_exhausted h bpm m fs count max_keys pid fuel d :
  pool_ok h bpm m fs → first_free (free_list bpm) = None → m !! pid = None → 0 ≤ pid < 10000 →
  (fs = [] ∨ (∃ i, hand_at (replacer bpm) fs i) ∧ Forall (λ f, f_ref f = true) fs →
    fetch_bpm_page pid bpm h d = Undef NullDeref)
  ∧ (fs = [] → index_file (disk_manager bpm) count max_keys d → 0 ≤ count < 65535 → m !! (count + 1) = None →
      allocate_new_page (S (S fuel)) BTREE_INDEX_PAGE bpm h d = Undef SelfDeadlock).
Proof.
  intros Hok Hfull Hnew Hpid. pose proof (nt_find _ _ _ _ (po_table _ _ _ _ Hok)) as Hfind. split.
  - intros Hfs. assert (∃ r h', new_bpm_page pid bpm h d = Ok (None, set_replacer r bpm, h', d)
      ∧ num_table h' (page_table bpm) (pool_size bpm) m) as (r & h' & Hn & Hnt).
    { destruct (decide (fs = [])) as [->|Hne].
      - destruct (new_bpm_page_locked _ _ _ pid d Hok) as (r & h' & Hn & Hnt & _); [lia|done|done|by exists r, h'].
      - destruct Hfs as [|[[i Hi] Hset]]; [done|].
        destruct (new_bpm_page_none _ _ _ _ _ pid d Hok ltac:(lia) Hnew Hfull Hne Hi Hset)
          as (r & h' & fs' & Hn & Hok' & _). exists r, h'. split; [done|]. exact (po_table _ _ _ _ Hok'). }
    eapply fetch_none; [done|lia|done|done|done].
  - intros -> Hfile Hcount Hnew'. cbn [allocate_new_page].
    destruct (new_btree_index_page_ok _ _ _ false d Hfile) as (d1 & -> & _); [lia|]. ok_step.
    assert (u16 (count + 1) = count + 1) as -> by (unfold u16; rewrite Z.mod_small; lia).
    destruct (new_bpm_page_locked _ _ _ (count + 1) d1 Hok) as (r & h1 & Hn & Hnt & Hlock); [lia|done|done|].
    rewrite (allocate_loop_none _ _ _ _ _ _ _ Hn). cbn [allocate_loop]. unfold new_bpm_page.
    rewrite pid_str_long by lia. ok_step. cbn [set_replacer page_table].
    rewrite (nt_find _ _ _ _ Hnt) by lia. ok_step. rewrite Hnew'.
    destruct (malloc (OU32 UINT32_MAX) h1) as [ptr h2] eqn:Hm. unfold choose_frame.
    cbn [set_replacer free_list replacer]. by rewrite Hfull, Hlock.
Qed.

Lemma fetch_found h bpm pid el f p d :
  0 ≤ pid < 10 ^ 9 → hash_find (format_u pid) (page_table bpm) h = Ok (Some el) →
  heap_ok h → cells h !! el_data el = Some (OU32 f) → pages bpm !! Z.to_nat f = Some p → 0 ≤ pin_count p < 2 ^ 31 - 1 →
  fetch_bpm_page pid bpm h d
  = Ok (f, set_page f (mkBpmPage (data p) (page_id p) (pin_count p + 1) (is_dirty p)) bpm, h, d).
Proof.
  intros Hpid Hfind Hh Hc Hp Hpin. unfold fetch_bpm_page. rewrite pid_str_long by lia. ok_step.
  rewrite Hfind. ok_step. unfold load_u32. rewrite (load_ok _ _ _ (heap_ok_nonnull _ _ _ Hh Hc) Hc). do 2 ok_step.
  unfold pin_page. rewrite (get_page_ok _ _ _ Hp). ok_step.
  unfold int_result. by rewrite (proj2 (Z.leb_le _ _)), (proj2 (Z.ltb_lt _ _)) by lia.
Qed.

(** C26: a page that was evicted is not forgotten. In a well-formed pool with no free
    frame, whose only frame that may be evicted was unpinned since its bit was last
    cleared and has the hand (or the hand was never set), allocating a page succeeds in
    the second round and takes the frame. If the frame is clean, or dirty and its
    number is not the number of a page in the pool, the file keeps the old bytes of
    the old page; and the old page stays in the page table, so fetching it returns the
    frame with the new page. *)
Theorem eviction_aliases h bpm m f p old count max_keys fuel d :
  pool_ok h bpm m [f] → first_free (free_list bpm) = None → f_ref f = true → hand_at (replacer bpm) [f] 0 →
  0 < old < 10 ^ 9 → in_frame h m old (f_id f) → pages bpm !! Z.to_nat (f_id f) = Some p →
  (is_dirty p = true → m !! f_id f = None) → has_page (disk_manager bpm) old d →
  index_file (disk_manager bpm) count max_keys d → 0 ≤ count < 9999 →
  m !! (count + 1) = None →
  ∃ bpm' h' d', allocate_new_page (S (S fuel)) BTREE_INDEX_PAGE bpm h d = Ok (f_id f, bpm', h', d')
    ∧ page_of (disk_manager bpm) old d' = page_of (disk_manager bpm) old d
    ∧ ∀ pid, pid = old ∨ pid = count + 1 →
        fetch_bpm_page pid bpm' h' d'
        = Ok (f_id f, set_page (f_id f) (mkBpmPage (zeros PAGE_SIZE) (count + 1) 2 false) bpm', h', d').
Proof.
  intros Hok Hfull Href Hi Hold (el & Hel & Hc) Hp Hdirty Hpage Hfile Hcount Hnew.
  cbn [allocate_new_page].
  destruct (new_btree_index_page_ok _ _ _ false d Hfile) as (d1 & -> & _ & Hother & _); [lia|]. ok_step.
  assert (u16 (count + 1) = count + 1) as Hu by (unfold u16; rewrite Z.mod_small; lia). rewrite Hu in *.
  destruct (new_bpm_page_none h bpm m [f] 0 (count + 1) d1)
    as (r & h1 & fs' & Hn & Hok1 & Hb & Hi1 & Hd1); [done|lia|done|done|done|done|by repeat constructor|].
  destruct fs' as [|g [|? ?]]; [done| |done]. injection Hb as Hg Hgr.
  rewrite (allocate_loop_none _ _ _ _ _ _ _ Hn). cbn [allocate_loop].
  destruct (new_bpm_page_evict h1 (set_replacer r bpm) m g p (count + 1) d1)
    as (bpm2 & h2 & el2 & Hn2 & Hh2 & Hnt & Hc2 & Hd2 & Hpages & Hdm);
    [exact Hok1|exact Hgr|exact Hi1|exact Hfull|lia|exact Hnew|by rewrite Hg|by rewrite Hg|].
  rewrite Hn2, Hg in *. ok_step. exists bpm2, h2, d1. split; [done|]. split.
  { apply Hother; [lia|congruence|done]. }
  intros pid Hpid. set (page := mkBpmPage (zeros PAGE_SIZE) (count + 1) 1 false) in *.
  assert (pages bpm2 !! Z.to_nat (f_id f) = Some page) as Hp2.
  { rewrite Hpages. apply list_lookup_insert_eq. by eapply lookup_lt_Some. }
  assert (∃ e, <[count + 1 := el2]> m !! pid = Some e ∧ cells h2 !! el_data e = Some (OU32 (f_id f))) as (e & He & Hce).
  { destruct Hpid as [->| ->]; [exists el|exists el2; by rewrite lookup_insert_eq].
    rewrite lookup_insert_ne by congruence. by rewrite (Hd2 _ _ Hel), (Hd1 _ _ Hel). }
  apply (fetch_found h2 bpm2 pid e (f_id f) page d1);
    [lia|by rewrite (fi_find _ _ _ Hnt), He by lia|done|done|done|done].
Qed.
End eviction.

(** ** A pool of one frame *)

(** An index of one page. *)
Definition small_index : disk := {[ path_of (str "idx") := sample_meta 1 ++ zeros PAGE_SIZE ]}.

Lemma small_index_file : index_file sample_dm 1 4 small_index ∧ has_page sample_dm 1 small_index.
Proof.
  assert (file_of sample_dm small_index = sample_meta 1 ++ zeros PAGE_SIZE) as Hf.
  { unfold file_of, small_index, contents. by rewrite lookup_singleton_eq. }
  split; [split; [done|unfold has_page|..]|unfold has_page]; rewrite Hf; by vm_compute.
Qed.

(** The page 1 in the frame, with its two pins. *)
Lemma small_pool :
  ∃ bpm h m d p, fetch_bpm_page (U:=zero_uninit) 1 (new_bpm 1 sample_dm) new_heap small_index = Ok (0, bpm, h, d)
    ∧ pool_ok h bpm m [] ∧ in_frame h m 1 0 ∧ (∀ q, q ≠ 1 → m !! q = None) ∧ free_list bpm = [false]
    ∧ pages bpm !! 0%nat = Some p ∧ pin_count p = 2
    ∧ disk_manager bpm = sample_dm ∧ hand (replacer bpm) = NULL.
Proof.
  assert (0 < 1 ≤ 65535) as H1 by lia.
  destruct (fetch_miss (U:=zero_uninit) new_heap (new_bpm 1 sample_dm) ∅ [] 1 0%nat small_index)
    as (bpm & h & el & j & d & Hf & Hok & Hin & _ & _ & Hpages & Hfree & Hdm & _).
  - apply new_bpm_ok; [apply new_heap_ok|lia].
  - lia.
  - done.
  - intros z el Hel. by rewrite lookup_empty in Hel.
  - done.
  - by left.
  - done.
  - apply small_index_file.
  - assert (match fetch_bpm_page (U:=zero_uninit) 1 (new_bpm 1 sample_dm) new_heap small_index with
            | Ok (_, b, _, _) => hand (replacer b) | _ => 1 end = NULL) as Hhand by (by vm_compute).
    rewrite Hf in Hhand.
    exists bpm, h, (<[1 := el]> ∅), d, (mkBpmPage (page_of sample_dm 1 small_index) 1 2 false).
    split_and!; [done|exact Hok|exact Hin| |done|by rewrite Hpages|done|done|done].
    intros q Hq. by rewrite lookup_insert_ne.
Qed.

(** The page 1 after it was unpinned as dirty. *)
Lemma small_unpinned :
  ∃ bpm h m p g, pool_ok h bpm m [g] ∧ f_id g = 0 ∧ f_ref g = true ∧ in_frame h m 1 0 ∧ (∀ q, q ≠ 1 → m !! q = None)
    ∧ free_list bpm = [false] ∧ pages bpm !! 0%nat = Some p ∧ is_dirty p = true
    ∧ disk_manager bpm = sample_dm ∧ hand (replacer bpm) = NULL.
Proof.
  destruct small_pool as (bpm & h & m & d & p & _ & Hok & Hin & Hm & Hfree & Hp & Hpin & Hdm & Hhand).
  set (p1 := mkBpmPage (data p) 1 1 true).
  destruct (in_frame_page _ _ _ _ _ _ Hok Hin) as (Hsize & p' & Hp' & Hid & _ & Hdata).
  change (Z.to_nat 0) with 0%nat in Hp'.
  assert (pool_ok h (set_page 0 p1 bpm) m []) as Hok1.
  { eapply (pool_set_page _ _ _ _ 0); [exact Hok|exact Hp|cbn; congruence|cbn; congruence]. }
  destruct (pool_unpin h (set_page 0 p1 bpm) m [] 0 Hok1) as (r & h' & g & _ & Hok2 & Hg & Href & Hr & Hsub);
    [exact Hsize|by intros ?%elem_of_nil|].
  exists (set_replacer r (set_page 0 p1 bpm)), h', m, p1, g.
  split_and!; [exact Hok2|exact Hg|exact Href| |exact Hm|exact Hfree| |done|exact Hdm|exact (eq_trans Hr Hhand)].
  - destruct Hin as (el & Hel & Hc). exists el. split; [done|by apply Hsub].
  - cbn [set_replacer set_page pages]. apply list_lookup_insert_eq. by eapply lookup_lt_Some.
Qed.

Lemma pool_exhausted_witness :
  (∃ bpm h d, fetch_bpm_page (U:=zero_uninit) 1 (new_bpm 1 sample_dm) new_heap small_index = Ok (0, bpm, h, d)
    ∧ fetch_bpm_page (U:=zero_uninit) 2 bpm h d = Undef NullDeref
    ∧ allocate_new_page (U:=zero_uninit) 2 BTREE_INDEX_PAGE bpm h small_index = Undef SelfDeadlock)
  ∧ ∃ bpm h m g, pool_ok h bpm m [g] ∧ fetch_bpm_page (U:=zero_uninit) 2 bpm h small_index = Undef NullDeref.
Proof.
  split.
  - destruct small_pool as (bpm & h & m & d & p & Hf & Hok & _ & Hm & Hfree & _ & _ & Hdm & _).
    assert (first_free (free_list bpm) = None) as Hfull by (by rewrite Hfree).
    pose proof (proj1 (pool_exhausted (U:=zero_uninit) h bpm m [] 1 4 2 0 d Hok Hfull (Hm 2 ltac:(done))
      ltac:(by_compute)) (or_introl eq_refl)) as H1.
    pose proof (proj2 (pool_exhausted (U:=zero_uninit) h bpm m [] 1 4 2 0 small_index Hok Hfull
      (Hm 2 ltac:(done)) ltac:(by_compute)) eq_refl) as H2.
    rewrite Hdm in H2. exists bpm, h, d. split; [exact Hf|]. split; [exact H1|].
    apply H2; [apply small_index_file|done|by apply Hm].
  - destruct small_unpinned as (bpm & h & m & p & g & Hok & _ & Href & _ & Hm & Hfree & _ & _ & _ & Hhand).
    exists bpm, h, m, g. split; [exact Hok|].
    apply (proj1 (pool_exhausted (U:=zero_uninit) h bpm m [g] 1 4 2 0 small_index Hok ltac:(by rewrite Hfree)
      (Hm 2 ltac:(done)) ltac:(by_compute))).
    right. split; [exists 0%nat; by left|by constructor].
Defined.

Lemma unpin_page_spec_witness :
  ∃ bpm h d bpm' h' bpm'' h'', fetch_bpm_page (U:=zero_uninit) 1 (new_bpm 1 sample_dm) new_heap small_index
      = Ok (0, bpm, h, d)
    ∧ unpin_page 2 true bpm h = Ok (false, bpm, h)
    ∧ unpin_page 1 true bpm h = Ok (true, bpm', h')
    ∧ unpin_page 1 false bpm' h' = Ok (true, bpm'', h'').
Proof.
  destruct small_pool as (bpm & h & m & d & p & Hf & Hok & Hin & Hm & _ & Hp & Hpin & _).
  destruct (proj2 (unpin_page_spec h bpm m [] 1 true Hok ltac:(done)) 0 p Hin Hp) as (_ & H2 & _).
  destruct (H2 ltac:(by rewrite Hpin)) as [Hu Hok1]. set (bpm1 := set_page _ _ _) in *.
  destruct (proj2 (unpin_page_spec h bpm1 m [] 1 false Hok1 ltac:(done)) 0 (mkBpmPage (data p) 1 (pin_count p - 1) true) Hin)
    as (_ & _ & H1 & _).
  { cbn [bpm1 set_page pages]. apply list_lookup_insert_eq. by eapply lookup_lt_Some. }
  destruct H1 as (r & h' & g & Hu' & _); [by cbn; rewrite Hpin|by intros ?%elem_of_nil|].
  exists bpm, h, d, bpm1, h. eexists _, h'. split; [exact Hf|]. split; [|split; [exact Hu|exact Hu']].
  apply (proj1 (unpin_page_spec h bpm m [] 2 true Hok ltac:(done)) (Hm 2 ltac:(done))).
Defined.

Lemma eviction_aliases_witness :
  ∃ bpm h m, in_frame h m 1 0
    ∧ ∃ bpm' h' d', allocate_new_page (U:=zero_uninit) 2 BTREE_INDEX_PAGE bpm h small_index = Ok (0, bpm', h', d')
    ∧ (let s := set_page 0 (mkBpmPage (zeros PAGE_SIZE) 2 2 false) bpm' in
       fetch_bpm_page (U:=zero_uninit) 1 bpm' h' d' = Ok (0, s, h', d')
       ∧ fetch_bpm_page (U:=zero_uninit) 2 bpm' h' d' = Ok (0, s, h', d')).
Proof.
  destruct small_unpinned as (bpm & h & m & p & g & Hok & Hg & Href & Hin & Hm & Hfree & Hp & Hdirty & Hdm & Hhand).
  destruct (eviction_aliases (U:=zero_uninit) h bpm m g p 1 1 4 0 small_index Hok)
    as (bpm' & h' & d' & Ha & _ & Hfetch);
    rewrite ?Hg, ?Hdm; [by rewrite Hfree|exact Href|by left|done|exact Hin|exact Hp|by intros _; apply Hm
      |apply small_index_file|apply small_index_file|done|by apply Hm|].
  rewrite Hg in Ha, Hfetch. exists bpm, h, m. split; [exact Hin|]. exists bpm', h', d'. split; [exact Ha|].
  split; [apply (Hfetch 1); by left|apply (Hfetch 2); by right].
Defined.

(** A page that is fetched, unpinned twice and fetched again, in a pool of five:
    the next unpin puts a second node for its frame into the replacer. Fetching
    another page instead takes the frame 1, which the replacer cannot pin. *)
Lemma idle_pool_runs :
  match (r ← fetch_bpm_page (U:=zero_uninit) 1 (new_bpm 5 sample_dm) new_heap small_index;
         let '(_, bpm, h, d) := r in
         r ← unpin_page 1 false bpm h; let '(_, bpm, h) := r in
         r ← unpin_page 1 false bpm h; let '(_, bpm, h) := r in Ok (bpm, h, d)) with
  | Ok (bpm, h, d) =>
      fetch_bpm_page (U:=zero_uninit) 2 bpm h d = Undef NullDeref
      ∧ match (r ← fetch_bpm_page (U:=zero_uninit) 1 bpm h d; let '(_, bpm, h, d) := r in
               unpin_page 1 false bpm h) with
        | Ok (ok, bpm, _) => ok = true ∧ size (frames (replacer bpm)) = 2
        | _ => False
        end
  | _ => False
  end.
Proof. vm_compute. by split_and!. Qed.
