(* ===== verification/Primitive.v ===== *)
(** * Primitive: the types and values of SQL ([sql/primitive.hpp],
    [sql/primitive.cpp])

    A type is an object of one of four classes; a value holds a reference to
    its type, which may be null, and a union of which only the member written
    last may be read. A [double] is its 64-bit representation, on which the
    arithmetic of IEEE 754 is that of the Standard Library's [SpecFloat]. *)
From Stdlib Require Import SpecFloat.
From S2P Require Import Prelude Serialize Memory.

(** ** Doubles *)

(** The value of a representation, sign, exponent and fraction. *)
Definition double_of (w : Z) : spec_float :=
  let s := Z.testbit w 63 in
  let e := Z.land (Z.shiftr w 52) 2047 in
  let f := Z.land w (2 ^ 52 - 1) in
  if e =? 2047 then (if f =? 0 then S754_infinity s else S754_nan)
  else if e =? 0 then
    match f with Zpos m => S754_finite s m (-1074) | _ => S754_zero s end
  else match f + 2 ^ 52 with Zpos m => S754_finite s m (e - 1075) | _ => S754_nan end.

(** The representation of a value that is a number. *)
Definition bits_of_double (f : spec_float) : option Z :=
  let with_sign (s : bool) (w : Z) := if s then w + 2 ^ 63 else w in
  match f with
  | S754_zero s => Some (with_sign s 0)
  | S754_infinity s => Some (with_sign s (Z.shiftl 2047 52))
  | S754_nan => None
  | S754_finite s m e =>
      Some (with_sign s (if Zpos m <? 2 ^ 52 then Zpos m
                         else Z.shiftl (e + 1075) 52 + (Zpos m - 2 ^ 52)))
  end.

(** [std::to_string]: six digits after the point, rounded half to even. *)
Definition round_half_even (num den : Z) : Z :=
  let q := num / den in
  let r := 2 * (num mod den) in
  if r <? den then q else if den <? r then q + 1 else if Z.even q then q else q + 1.
Definition format_f (w : Z) : text :=
  let sign (s : bool) (t : text) := if s then "-"%char :: t else t in
  match double_of w with
  | S754_nan => sign (Z.testbit w 63) (str "nan")
  | S754_infinity s => sign s (str "inf")
  | S754_zero s => sign s (str "0.000000")
  | S754_finite s m e =>
      let n := if 0 <=? e then Zpos m * 2 ^ e * 10 ^ 6
               else round_half_even (Zpos m * 10 ^ 6) (2 ^ (- e)) in
      let digits := format_u (n mod 10 ^ 6) in
      sign s (format_u (n / 10 ^ 6) ++ "."%char
                :: replicate (6 - length digits) "0"%char ++ digits)
  end.

(** ** Types and values *)

Definition BOOLEAN_SIZE : Z := 1.
Definition STRING_SIZE : Z := 1024.
Definition INTEGER_SIZE : Z := 4.
Definition DECIMAL_SIZE : Z := 8.

Inductive CmpState := SQL_TRUE | SQL_FALSE.

Inductive PrimitiveType :=
  | BooleanPrimitiveType | VarcharPrimitiveType | IntegerPrimitiveType | DecimalPrimitiveType.
#[export] Instance PrimitiveType_eq_dec : EqDecision PrimitiveType.
Proof. solve_decision. Defined.

(** What the platform decides: the names [typeid] gives to a pointer to a
    type and to the four classes, the representation of a NaN that an operation
    returns, and whether the arguments of a call are evaluated from left to
    right. *)
Class Platform := {
  pointer_type_name : text;
  class_name : PrimitiveType → text;
  nan_result : Z → Z → Z;
  left_to_right : bool;
}.

Definition double_op `{Platform} (op : spec_float → spec_float → spec_float) (a b : Z) : Z :=
  from_option Datatypes.id (nan_result a b) (bits_of_double (op (double_of a) (double_of b))).

(** The union [ColumnValue]; a string is an address. *)
Inductive MemberValue :=
  | unset
  | boolean (b : Z)
  | integer (z : Z)
  | decimal (w : Z)
  | string_ (p : Z).
#[export] Instance MemberValue_eq_dec : EqDecision MemberValue.
Proof. solve_decision. Defined.

Record PrimitiveValue := mkValue { type : option PrimitiveType; value : MemberValue; length_ : option Z }.
#[export] Instance PrimitiveValue_eq_dec : EqDecision PrimitiveValue.
Proof. solve_decision. Defined.

Definition get_boolean (v : PrimitiveValue) : outcome Z :=
  match value v with boolean b => Ok b | unset => Undef Indeterminate | _ => Undef WrongMember end.
Definition get_integer (v : PrimitiveValue) : outcome Z :=
  match value v with integer z => Ok z | unset => Undef Indeterminate | _ => Undef WrongMember end.
Definition get_decimal (v : PrimitiveValue) : outcome Z :=
  match value v with decimal w => Ok w | unset => Undef Indeterminate | _ => Undef WrongMember end.
Definition get_string (v : PrimitiveValue) : outcome Z :=
  match value v with string_ p => Ok p | unset => Undef Indeterminate | _ => Undef WrongMember end.

(** The constructors. *)
Definition value_of_bool (t : PrimitiveType) (b : bool) : PrimitiveValue :=
  mkValue (Some t) (boolean (if b then 1 else 0)) None.
Definition value_of_int (t : PrimitiveType) (i : Z) : PrimitiveValue := mkValue (Some t) (integer i) None.
Definition value_of_double (t : PrimitiveType) (w : Z) : PrimitiveValue := mkValue (Some t) (decimal w) None.
Definition value_of_string (t : PrimitiveType) (p vc : Z) : PrimitiveValue :=
  mkValue (Some t) (string_ p) (Some (u16 vc)).

Definition runtime_error (t : text) : exn := RuntimeError (String.string_of_list_ascii t).
Definition cmp_state (b : bool) : CmpState := if b then SQL_TRUE else SQL_FALSE.

Section types.
Context `{Platform}.
(** [typeid(this)] is the type of the pointer, not of the object. *)
Definition type_toString (this : PrimitiveType) : text := pointer_type_name.
(** A reference to a type is dereferenced. *)
Definition deref {A} (p : option A) : outcome A :=
  match p with Some a => Ok a | None => Undef NullDeref end.
Definition value_toString (v : PrimitiveValue) : outcome text :=
  t ← deref (type v); Ok (type_toString t).

(** Only the left operand is looked at. *)
Definition assertTypesEqual (this : PrimitiveType) (l r : PrimitiveValue) : outcome unit :=
  t ← deref (type l);
  if decide (type_toString t = type_toString this) then Ok () else Undef AssertFail.

(** *** Booleans *)

Definition Boolean_deserialize (data : list Z) (off : Z) : outcome PrimitiveValue :=
  b ← rd data off; Ok (value_of_bool BooleanPrimitiveType (negb (b =? 0))).
Definition Boolean_equals (l r : PrimitiveValue) : outcome CmpState :=
  _ ← assertTypesEqual BooleanPrimitiveType l r;
  a ← get_boolean l; b ← get_boolean r; Ok (cmp_state (a =? b)).
Definition Boolean_notEquals (l r : PrimitiveValue) : outcome CmpState :=
  _ ← assertTypesEqual BooleanPrimitiveType l r;
  a ← get_boolean l; b ← get_boolean r; Ok (cmp_state (negb (a =? b))).
Definition Boolean_greaterThan (l r : PrimitiveValue) : outcome CmpState :=
  _ ← assertTypesEqual BooleanPrimitiveType l r;
  a ← get_boolean l;
  if a =? 1 then b ← get_boolean r; Ok (cmp_state (b =? 0)) else Ok SQL_FALSE.
Definition Boolean_lessThan (l r : PrimitiveValue) : outcome CmpState :=
  _ ← assertTypesEqual BooleanPrimitiveType l r;
  a ← get_boolean l;
  if a =? 0 then b ← get_boolean r; Ok (cmp_state (b =? 1)) else Ok SQL_FALSE.

(** *** Varchars *)

(** There is no constructor for a type and a [char *]: the pointer, which is
    not null, converts to [bool]. *)
Definition Varchar_deserialize (data : list Z) (off : Z) : outcome PrimitiveValue :=
  _ ← rd_bytes data off STRING_SIZE; Ok (value_of_bool VarcharPrimitiveType true).
(** The addresses are compared. *)
Definition Varchar_equals (l r : PrimitiveValue) : outcome CmpState :=
  _ ← assertTypesEqual VarcharPrimitiveType l r;
  a ← get_string l; b ← get_string r; Ok (cmp_state (a =? b)).
Definition Varchar_notEquals (l r : PrimitiveValue) : outcome CmpState :=
  _ ← assertTypesEqual VarcharPrimitiveType l r;
  a ← get_string l; b ← get_string r; Ok (cmp_state (negb (a =? b))).
Definition Varchar_greaterThan (l r : PrimitiveValue) : outcome CmpState :=
  _ ← assertTypesEqual VarcharPrimitiveType l r;
  a ← get_string l; b ← get_string r; Ok (cmp_state (b <? a)).
Definition Varchar_lessThan (l r : PrimitiveValue) : outcome CmpState :=
  _ ← assertTypesEqual VarcharPrimitiveType l r;
  a ← get_string l; b ← get_string r; Ok (cmp_state (a <? b)).

(** *** Integers *)

Definition Integer_deserialize (data : list Z) (off : Z) : outcome PrimitiveValue :=
  z ← decode_int32 data off; Ok (value_of_int IntegerPrimitiveType z).
Definition Integer_equals (l r : PrimitiveValue) : outcome CmpState :=
  _ ← assertTypesEqual IntegerPrimitiveType l r;
  a ← get_integer l; b ← get_integer r; Ok (cmp_state (a =? b)).
Definition Integer_notEquals (l r : PrimitiveValue) : outcome CmpState :=
  _ ← assertTypesEqual IntegerPrimitiveType l r;
  a ← get_integer l; b ← get_integer r; Ok (cmp_state (negb (a =? b))).
Definition Integer_greaterThan (l r : PrimitiveValue) : outcome CmpState :=
  _ ← assertTypesEqual IntegerPrimitiveType l r;
  a ← get_integer l; b ← get_integer r; Ok (cmp_state (b <? a)).
Definition Integer_lessThan (l r : PrimitiveValue) : outcome CmpState :=
  _ ← assertTypesEqual IntegerPrimitiveType l r;
  a ← get_integer l; b ← get_integer r; Ok (cmp_state (a <? b)).
Definition Integer_add (l r : PrimitiveValue) : outcome PrimitiveValue :=
  _ ← assertTypesEqual IntegerPrimitiveType l r;
  a ← get_integer l; b ← get_integer r;
  added ← int_result (a + b); Ok (value_of_int IntegerPrimitiveType added).
Definition Integer_subtract (l r : PrimitiveValue) : outcome PrimitiveValue :=
  _ ← assertTypesEqual IntegerPrimitiveType l r;
  a ← get_integer l; b ← get_integer r;
  added ← int_result (a - b); Ok (value_of_int IntegerPrimitiveType added).
Definition Integer_multiply (l r : PrimitiveValue) : outcome PrimitiveValue :=
  _ ← assertTypesEqual IntegerPrimitiveType l r;
  a ← get_integer l; b ← get_integer r;
  added ← int_result (a * b); Ok (value_of_int IntegerPrimitiveType added).
Definition Integer_divide (l r : PrimitiveValue) : outcome PrimitiveValue :=
  _ ← assertTypesEqual IntegerPrimitiveType l r;
  b ← get_integer r;
  a ← get_integer l;
  if b =? 0 then
    Throw (runtime_error (str "An integer value (" ++ format_d a
                          ++ str ") may not be divided by zero"))
  else added ← int_result (Z.quot a b); Ok (value_of_int IntegerPrimitiveType added).

(** *** Decimals *)

Definition Decimal_deserialize (data : list Z) (off : Z) : outcome PrimitiveValue :=
  w ← decode_double data off; Ok (value_of_double DecimalPrimitiveType w).
Definition Decimal_equals (l r : PrimitiveValue) : outcome CmpState :=
  _ ← assertTypesEqual DecimalPrimitiveType l r;
  a ← get_decimal l; b ← get_decimal r; Ok (cmp_state (SFeqb (double_of a) (double_of b))).
Definition Decimal_notEquals (l r : PrimitiveValue) : outcome CmpState :=
  _ ← assertTypesEqual DecimalPrimitiveType l r;
  a ← get_decimal l; b ← get_decimal r; Ok (cmp_state (negb (SFeqb (double_of a) (double_of b)))).
Definition Decimal_greaterThan (l r : PrimitiveValue) : outcome CmpState :=
  _ ← assertTypesEqual DecimalPrimitiveType l r;
  a ← get_decimal l; b ← get_decimal r; Ok (cmp_state (SFltb (double_of b) (double_of a))).
Definition Decimal_lessThan (l r : PrimitiveValue) : outcome CmpState :=
  _ ← assertTypesEqual DecimalPrimitiveType l r;
  a ← get_decimal l; b ← get_decimal r; Ok (cmp_state (SFltb (double_of a) (double_of b))).
Definition Decimal_add (l r : PrimitiveValue) : outcome PrimitiveValue :=
  _ ← assertTypesEqual DecimalPrimitiveType l r;
  a ← get_decimal l; b ← get_decimal r;
  Ok (value_of_double DecimalPrimitiveType (double_op (SFadd 53 1024) a b)).
Definition Decimal_subtract (l r : PrimitiveValue) : outcome PrimitiveValue :=
  _ ← assertTypesEqual DecimalPrimitiveType l r;
  a ← get_decimal l; b ← get_decimal r;
  Ok (value_of_double DecimalPrimitiveType (double_op (SFsub 53 1024) a b)).
Definition Decimal_multiply (l r : PrimitiveValue) : outcome PrimitiveValue :=
  _ ← assertTypesEqual DecimalPrimitiveType l r;
  a ← get_decimal l; b ← get_decimal r;
  Ok (value_of_double DecimalPrimitiveType (double_op (SFmul 53 1024) a b)).
Definition Decimal_divide (l r : PrimitiveValue) : outcome PrimitiveValue :=
  _ ← assertTypesEqual DecimalPrimitiveType l r;
  b ← get_decimal r;
  a ← get_decimal l;
  if SFeqb (double_of b) (S754_zero false) then
    Throw (runtime_error (str "A decimal value (" ++ format_f a
                          ++ str ") may not be divided by zero"))
  else Ok (value_of_double DecimalPrimitiveType (double_op (SFdiv 53 1024) a b)).

(** *** Virtual calls *)

Definition no_such_function (what : string) (this : PrimitiveType) : outcome PrimitiveValue :=
  Throw (runtime_error (str what ++ str " function doesn't exist for type " ++ class_name this)).

Definition Boolean_getSize : Z := BOOLEAN_SIZE.
Definition Varchar_getSize : Z := STRING_SIZE.
Definition Integer_getSize : Z := INTEGER_SIZE.
Definition Decimal_getSize : Z := DECIMAL_SIZE.
Definition getSize (this : PrimitiveType) : Z :=
  match this with
  | BooleanPrimitiveType => Boolean_getSize
  | VarcharPrimitiveType => Varchar_getSize
  | IntegerPrimitiveType => Integer_getSize
  | DecimalPrimitiveType => Decimal_getSize
  end.
Definition type_deserialize (this : PrimitiveType) : list Z → Z → outcome PrimitiveValue :=
  match this with
  | BooleanPrimitiveType => Boolean_deserialize
  | VarcharPrimitiveType => Varchar_deserialize
  | IntegerPrimitiveType => Integer_deserialize
  | DecimalPrimitiveType => Decimal_deserialize
  end.
Definition equals (this : PrimitiveType) : PrimitiveValue → PrimitiveValue → outcome CmpState :=
  match this with
  | BooleanPrimitiveType => Boolean_equals
  | VarcharPrimitiveType => Varchar_equals
  | IntegerPrimitiveType => Integer_equals
  | DecimalPrimitiveType => Decimal_equals
  end.
Definition notEquals (this : PrimitiveType) : PrimitiveValue → PrimitiveValue → outcome CmpState :=
  match this with
  | BooleanPrimitiveType => Boolean_notEquals
  | VarcharPrimitiveType => Varchar_notEquals
  | IntegerPrimitiveType => Integer_notEquals
  | DecimalPrimitiveType => Decimal_notEquals
  end.
Definition greaterThan (this : PrimitiveType) : PrimitiveValue → PrimitiveValue → outcome CmpState :=
  match this with
  | BooleanPrimitiveType => Boolean_greaterThan
  | VarcharPrimitiveType => Varchar_greaterThan
  | IntegerPrimitiveType => Integer_greaterThan
  | DecimalPrimitiveType => Decimal_greaterThan
  end.
Definition lessThan (this : PrimitiveType) : PrimitiveValue → PrimitiveValue → outcome CmpState :=
  match this with
  | BooleanPrimitiveType => Boolean_lessThan
  | VarcharPrimitiveType => Varchar_lessThan
  | IntegerPrimitiveType => Integer_lessThan
  | DecimalPrimitiveType => Decimal_lessThan
  end.
Definition add (this : PrimitiveType) (l r : PrimitiveValue) : outcome PrimitiveValue :=
  match this with
  | IntegerPrimitiveType => Integer_add l r
  | DecimalPrimitiveType => Decimal_add l r
  | _ => no_such_function "Add" this
  end.
Definition subtract (this : PrimitiveType) (l r : PrimitiveValue) : outcome PrimitiveValue :=
  match this with
  | IntegerPrimitiveType => Integer_subtract l r
  | DecimalPrimitiveType => Decimal_subtract l r
  | _ => no_such_function "Subtract" this
  end.
Definition multiply (this : PrimitiveType) (l r : PrimitiveValue) : outcome PrimitiveValue :=
  match this with
  | IntegerPrimitiveType => Integer_multiply l r
  | DecimalPrimitiveType => Decimal_multiply l r
  | _ => no_such_function "Multiply" this
  end.
Definition divide (this : PrimitiveType) (l r : PrimitiveValue) : outcome PrimitiveValue :=
  match this with
  | IntegerPrimitiveType => Integer_divide l r
  | DecimalPrimitiveType => Decimal_divide l r
  | _ => no_such_function "Divide" this
  end.
End types.

Ltac unfold_sizes := unfold Boolean_getSize, Varchar_getSize, Integer_getSize, Decimal_getSize in *.

(** ** Representations of doubles *)

Lemma digits2_pos_bounds m :
  2 ^ (Zpos (digits2_pos m) - 1) ≤ Zpos m < 2 ^ Zpos (digits2_pos m).
Proof.
  induction m as [m IH|m IH|]; [| |done]; cbn [digits2_pos]; rewrite Pos2Z.inj_succ;
    replace (Z.succ (Zpos (digits2_pos m)) - 1) with (Z.succ (Zpos (digits2_pos m) - 1)) by lia;
    rewrite !Z.pow_succ_r by lia; lia.
Qed.

Lemma digits2_pos_unique m d : 0 < d → 2 ^ (d - 1) ≤ Zpos m < 2 ^ d → Zpos (digits2_pos m) = d.
Proof.
  intros Hd [Hlo Hhi]. pose proof (digits2_pos_bounds m) as [Hlo' Hhi'].
  destruct (Z.lt_trichotomy (Zpos (digits2_pos m)) d) as [Hlt|[Heq|Hlt]]; [|done|].
  - pose proof (Z.pow_le_mono_r 2 (Zpos (digits2_pos m)) (d - 1)). lia.
  - pose proof (Z.pow_le_mono_r 2 d (Zpos (digits2_pos m) - 1)). lia.
Qed.

(** The mantissa of a finite double has 53 bits, or fewer at the least
    exponent. *)
Lemma valid_finite m e s :
  valid_binary 53 1024 (S754_finite s m e) = true
  ↔ (2 ^ 52 ≤ Zpos m < 2 ^ 53 ∧ -1074 ≤ e ≤ 971) ∨ (Zpos m < 2 ^ 52 ∧ e = -1074).
Proof.
  unfold valid_binary, bounded, canonical_mantissa, fexp, emin.
  rewrite andb_true_iff, Z.eqb_eq, Z.leb_le.
  pose proof (digits2_pos_bounds m) as [Hlo Hhi]. set (d := Zpos (digits2_pos m)) in *.
  assert (0 < d) by done. split.
  - intros [Heq He]. destruct (decide (d = 53)) as [->|Hd].
    + left. change (53 - 1) with 52 in Hlo. lia.
    + right. pose proof (Z.pow_le_mono_r 2 d 52). lia.
  - intros [[Hm He]|[Hm ->]].
    + assert (d = 53) by (apply digits2_pos_unique; [done|lia]). lia.
    + assert (d ≤ 52); [|lia]. apply Z.le_ngt. intros Hd.
      pose proof (Z.pow_le_mono_r 2 52 (d - 1)). lia.
Qed.

Lemma land_ones_mod w n : 0 ≤ n → Z.land w (2 ^ n - 1) = w mod 2 ^ n.
Proof. intros. rewrite <- Z.land_ones by done. by rewrite Z.ones_equiv, <- Z.sub_1_r. Qed.

(** The three fields of a representation. *)
Definition double_fields (s : bool) (e f : Z) : Z := (if s then 2 ^ 63 else 0) + e * 2 ^ 52 + f.

Lemma fields_double w :
  0 ≤ w < 2 ^ 64 → ∃ s e f, w = double_fields s e f ∧ 0 ≤ e < 2048 ∧ 0 ≤ f < 2 ^ 52.
Proof.
  intros Hw. exists (2 ^ 63 <=? w), ((w mod 2 ^ 63) / 2 ^ 52), (w mod 2 ^ 52). unfold double_fields.
  destruct (Z.leb_spec (2 ^ 63) w); Z.to_euclidean_division_equations; lia.
Qed.

Lemma double_of_fields s e f :
  0 ≤ e < 2048 → 0 ≤ f < 2 ^ 52 →
  double_of (double_fields s e f)
  = if e =? 2047 then (if f =? 0 then S754_infinity s else S754_nan)
    else if e =? 0 then
      match f with Zpos m => S754_finite s m (-1074) | _ => S754_zero s end
    else match f + 2 ^ 52 with Zpos m => S754_finite s m (e - 1075) | _ => S754_nan end.
Proof.
  intros He Hf. set (w := double_fields s e f).
  assert (Z.testbit w 63 = s) as Hs.
  { rewrite Z.testbit_eqb by lia. unfold w, double_fields.
    destruct s; apply Z.eqb_eq || apply Z.eqb_neq; Z.to_euclidean_division_equations; lia. }
  assert (Z.land (Z.shiftr w 52) 2047 = e) as He'.
  { change 2047 with (2 ^ 11 - 1). rewrite land_ones_mod, Z.shiftr_div_pow2 by lia.
    unfold w, double_fields. destruct s; Z.to_euclidean_division_equations; lia. }
  assert (Z.land w (2 ^ 52 - 1) = f) as Hf'.
  { rewrite land_ones_mod by lia. unfold w, double_fields.
    destruct s; Z.to_euclidean_division_equations; lia. }
  unfold double_of. by rewrite Hs, He', Hf'.
Qed.

(** Every representation but that of a NaN is that of its value. *)
Lemma bits_of_double_of w :
  0 ≤ w < 2 ^ 64 → double_of w ≠ S754_nan →
  valid_binary 53 1024 (double_of w) = true ∧ bits_of_double (double_of w) = Some w.
Proof.
  intros (s & e & f & -> & He & Hf)%fields_double. rewrite double_of_fields by done.
  unfold double_fields. destruct (Z.eqb_spec e 2047) as [->|Hinf].
  - destruct (Z.eqb_spec f 0) as [->|]; [|done]. intros _. split; [done|]. by destruct s.
  - destruct (Z.eqb_spec e 0) as [->|Hsub].
    + destruct f as [|m|m]; [by destruct s| |lia]. intros _. split; [apply valid_finite; lia|].
      cbn [bits_of_double]. rewrite (proj2 (Z.ltb_lt _ _)) by lia. f_equal. destruct s; lia.
    + destruct (f + 2 ^ 52) as [|m|m] eqn:Hm; [lia| |lia]. intros _.
      split; [apply valid_finite; lia|]. cbn [bits_of_double].
      rewrite (proj2 (Z.ltb_ge _ _)), Z.shiftl_mul_pow2 by lia. f_equal. destruct s; lia.
Qed.

(** Every number a double can be has a representation. *)
Lemma double_of_bits_of x :
  valid_binary 53 1024 x = true → x ≠ S754_nan →
  ∃ w, bits_of_double x = Some w ∧ 0 ≤ w < 2 ^ 64 ∧ double_of w = x.
Proof.
  intros Hv Hx. destruct x as [s|s| |s m e]; [| |done|].
  - exists (double_fields s 0 0). by destruct s.
  - exists (double_fields s 2047 0). by destruct s.
  - apply valid_finite in Hv as [[Hm He]|[Hm ->]]; cbn [bits_of_double].
    + rewrite (proj2 (Z.ltb_ge _ _)), Z.shiftl_mul_pow2 by lia.
      exists (double_fields s (e + 1075) (Zpos m - 2 ^ 52)). split_and!.
      * f_equal. unfold double_fields. destruct s; lia.
      * unfold double_fields. destruct s; lia.
      * unfold double_fields. destruct s; lia.
      * rewrite double_of_fields by lia. rewrite !(proj2 (Z.eqb_neq _ _)) by lia.
        replace (Zpos m - 2 ^ 52 + 2 ^ 52) with (Zpos m) by lia. f_equal. lia.
    + rewrite (proj2 (Z.ltb_lt _ _)) by lia. exists (double_fields s 0 (Zpos m)). split_and!.
      * f_equal. unfold double_fields. destruct s; lia.
      * unfold double_fields. destruct s; lia.
      * unfold double_fields. destruct s; lia.
      * by rewrite double_of_fields by lia.
Qed.

(** ** Typed values *)

(** A value whose member is the one of its type. *)
Definition has_member (t : PrimitiveType) (m : MemberValue) : Prop :=
  match t, m with
  | BooleanPrimitiveType, boolean b => b = 0 ∨ b = 1
  | VarcharPrimitiveType, string_ p => True
  | IntegerPrimitiveType, integer z => - 2 ^ 31 ≤ z < 2 ^ 31
  | DecimalPrimitiveType, decimal w => True
  | _, _ => False
  end.
Definition has_type (t : PrimitiveType) (v : PrimitiveValue) : Prop :=
  type v = Some t ∧ has_member t (value v).

(** The order of the values of a type; doubles that are not numbers are not
    ordered. *)
Definition order (l r : PrimitiveValue) : option comparison :=
  match value l, value r with
  | boolean a, boolean b | string_ a, string_ b | integer a, integer b => Some (a ?= b)
  | decimal a, decimal b => SFcompare (double_of a) (double_of b)
  | _, _ => None
  end.

Lemma SFcompare_sym x y : SFcompare y x = CompOpp <$> SFcompare x y.
Proof.
  destruct x as [s|s| |s m e], y as [s'|s'| |s' m' e']; try done; destruct s; try done; destruct s'; try done;
    cbn; rewrite (Z.compare_antisym e e'); change Pos.compare_cont with Pos.compare_cont;
    destruct (e ?= e'); try done; cbn; f_equal;
    change (Pos.compare_cont Eq ?a ?b) with (Pos.compare a b); by rewrite (Pos.compare_antisym m m').
Qed.

Lemma order_sym l r : order r l = CompOpp <$> order l r.
Proof.
  unfold order. destruct (value l), (value r); try done; try apply SFcompare_sym;
    cbn; by rewrite Z.compare_antisym.
Qed.

Section comparisons.
Context `{Platform}.

(** The assertion holds for all types. *)
Lemma assert_any this t m n r : assertTypesEqual this (mkValue (Some t) m n) r = Ok ().
Proof. unfold assertTypesEqual. cbn. by rewrite decide_True. Qed.

Lemma compare_tests a b :
  (a =? b) = bool_decide (Some (a ?= b) = Some Eq) ∧ (b <? a) = bool_decide (Some (a ?= b) = Some Gt)
  ∧ (a <? b) = bool_decide (Some (a ?= b) = Some Lt).
Proof.
  rewrite (Z.eqb_compare a b), (Z.ltb_compare a b), (Z.ltb_compare b a), (Z.compare_antisym a b).
  by destruct (a ?= b).
Qed.

Lemma SFcompare_tests x y :
  SFeqb x y = bool_decide (SFcompare x y = Some Eq) ∧ SFltb y x = bool_decide (SFcompare x y = Some Gt)
  ∧ SFltb x y = bool_decide (SFcompare x y = Some Lt).
Proof.
  unfold SFeqb, SFltb. rewrite (SFcompare_sym x y). by destruct (SFcompare x y) as [[]|].
Qed.

(** The member of a typed value. *)
Lemma typed_value t v : has_type t v → ∃ m n, v = mkValue (Some t) m n ∧ has_member t m.
Proof. destruct v as [t' m n]. intros [[= ->] Hm]. by exists m, n. Qed.

(** On values of one type the four comparisons are those of one order of the
    type, which is antisymmetric; a decimal that is not a number is different from
    every value and neither greater nor less. *)
Theorem comparisons_spec t l r :
  has_type t l → has_type t r →
  equals t l r = Ok (cmp_state (bool_decide (order l r = Some Eq)))
  ∧ notEquals t l r = Ok (cmp_state (negb (bool_decide (order l r = Some Eq))))
  ∧ greaterThan t l r = Ok (cmp_state (bool_decide (order l r = Some Gt)))
  ∧ lessThan t l r = Ok (cmp_state (bool_decide (order l r = Some Lt)))
  ∧ lessThan t r l = greaterThan t l r.
Proof.
  intros (m & n & -> & Hm)%typed_value (m' & n' & -> & Hm')%typed_value.
  unfold order, equals, notEquals, greaterThan, lessThan; cbn [value].
  destruct t, m as [|b|z|w|p]; try done; destruct m' as [|b'|z'|w'|p']; try done; cbn [has_member] in *.
  - unfold Boolean_equals, Boolean_notEquals, Boolean_greaterThan, Boolean_lessThan. rewrite !assert_any.
    by destruct Hm as [-> | ->], Hm' as [-> | ->].
  - unfold Varchar_equals, Varchar_notEquals, Varchar_greaterThan, Varchar_lessThan. rewrite !assert_any.
    cbn. by destruct (compare_tests p p') as (-> & -> & ->).
  - unfold Integer_equals, Integer_notEquals, Integer_greaterThan, Integer_lessThan. rewrite !assert_any.
    cbn. by destruct (compare_tests z z') as (-> & -> & ->).
  - unfold Decimal_equals, Decimal_notEquals, Decimal_greaterThan, Decimal_lessThan. rewrite !assert_any.
    cbn. by destruct (SFcompare_tests (double_of w) (double_of w')) as (-> & -> & ->).
Qed.

End comparisons.

(** A platform to evaluate on: GCC on x86-64. *)
Definition sample_platform : Platform := {|
  pointer_type_name := str "PKN6somedb13PrimitiveTypeE";
  class_name t := match t with
    | BooleanPrimitiveType => str "N6somedb20BooleanPrimitiveTypeE"
    | VarcharPrimitiveType => str "N6somedb20VarcharPrimitiveTypeE"
    | IntegerPrimitiveType => str "N6somedb20IntegerPrimitiveTypeE"
    | DecimalPrimitiveType => str "N6somedb20DecimalPrimitiveTypeE"
    end;
  nan_result a b := 0xfff8000000000000;
  left_to_right := false;
|}.

Definition sample_double : PrimitiveValue := value_of_double DecimalPrimitiveType 0x4045400000000000. (* 42.5 *)
Definition sample_double' : PrimitiveValue := value_of_double DecimalPrimitiveType 0x4059000000000000. (* 100.0 *)

Example decimal_quotient :
  Decimal_divide (H:=sample_platform) sample_double' sample_double
  = Ok (value_of_double DecimalPrimitiveType 0x4002d2d2d2d2d2d3).
Proof. vm_compute. done. Qed.

Example decimal_by_zero :
  Decimal_divide (H:=sample_platform) sample_double (value_of_double DecimalPrimitiveType 0)
  = Throw (RuntimeError "A decimal value (42.500000) may not be divided by zero").
Proof. vm_compute. done. Qed.

Lemma comparisons_spec_witness :
  lessThan (H:=sample_platform) DecimalPrimitiveType sample_double sample_double' = Ok SQL_TRUE
  ∧ greaterThan (H:=sample_platform) DecimalPrimitiveType sample_double' sample_double = Ok SQL_TRUE.
Proof.
  destruct (comparisons_spec (H:=sample_platform) DecimalPrimitiveType sample_double' sample_double)
    as (_ & _ & Hgt & _ & Hlt); [by split..|].
  split; [rewrite Hlt|]; rewrite Hgt; vm_compute; reflexivity.
Defined.
