(* ===== verification/LogicalExpr.v ===== *)
(** * LogicalExpr: schemas, rows and the expressions of query plans
    ([sql/schema.hpp], [sql/schema.cpp], [sql/logical_expression.hpp],
    [sql/logical_expression.cpp])

    A column has a name and a reference to its type, a table a name and columns,
    a row is a buffer of bytes. Expressions are evaluated on a row of a table.
    References are optional values, and [None] is a null pointer. *)
From S2P Require Import Prelude Serialize Memory Primitive.

(** ** The code *)

Record Column := mkColumn { col_name : text; data_type : option PrimitiveType }.
Record Table := mkTable { tab_name : text; columns : list Column }.
Record Row := mkRow { row_data : list Z }.

Inductive BinaryOpType := ADD | SUBTRACT | DIVIDE | MULTIPLY.

Unset Elimination Schemes.
Inductive LogicalExpr :=
  | ConstantLogicalExpr (v : PrimitiveValue)
  | ColumnLogicalExpr (name : text) (ret_type : option PrimitiveType)
  | BinaryLogicalExpr (l r : option LogicalExpr) (ret_type : option PrimitiveType) (op : BinaryOpType).
Set Elimination Schemes.

Definition return_type (e : LogicalExpr) : option PrimitiveType :=
  match e with
  | ConstantLogicalExpr v => type v
  | ColumnLogicalExpr _ t => t
  | BinaryLogicalExpr _ _ t _ => t
  end.

Section code.
Context `{Platform}.

(** [operator==] of columns and tables. *)
Definition column_eqb (this other : Column) : outcome bool :=
  if decide (col_name other = col_name this) then
    t ← deref (data_type other);
    t' ← deref (data_type this);
    Ok (bool_decide (type_toString t = type_toString t'))
  else Ok false.

Fixpoint columns_eqb (this other : list Column) : outcome bool :=
  match this, other with
  | c :: this, c' :: other =>
      if decide (col_name c = col_name c') then
        t ← deref (data_type c);
        t' ← deref (data_type c');
        if decide (type_toString t = type_toString t') then columns_eqb this other else Ok false
      else Ok false
  | _, _ => Ok true
  end.
Definition table_eqb (this other : Table) : outcome bool :=
  if decide (tab_name other = tab_name this ∧ length (columns other) = length (columns this))
  then columns_eqb (columns this) (columns other) else Ok false.

(** The offset is advanced by the size of the column that is looked for. *)
Fixpoint getValue_from (col : Column) (cols : list Column) (data : list Z) (curr_offset : Z)
    : outcome PrimitiveValue :=
  match cols with
  | [] => Throw (runtime_error (str "Specified column '" ++ col_name col
                                ++ str "' does not exist in provided schema"))
  | sch_col :: cols =>
      t ← deref (data_type col);
      if decide (col_name col = col_name sch_col) then type_deserialize t data curr_offset
      else getValue_from col cols data (u32 (curr_offset + getSize t))
  end.
Definition getValue (row : Row) (col : Column) (schema : Table) : outcome PrimitiveValue :=
  getValue_from col (columns schema) (row_data row) 0.

(** [find_if]. *)
Fixpoint find_column (name : text) (cols : list Column) : option Column :=
  match cols with
  | [] => None
  | c :: cols => if decide (col_name c = name) then Some c else find_column name cols
  end.
Definition evaluate_column (name : text) (row : Row) (table : Table) : outcome PrimitiveValue :=
  match find_column name (columns table) with
  | None => Throw (runtime_error (str "Column " ++ name ++ str " not found in the schema"))
  | Some col => getValue row col table
  end.

Definition binary (op : BinaryOpType) (this : PrimitiveType) (l r : PrimitiveValue) : outcome PrimitiveValue :=
  match op with
  | ADD => add this l r
  | SUBTRACT => subtract this l r
  | DIVIDE => divide this l r
  | MULTIPLY => multiply this l r
  end.

Fixpoint evaluate (e : LogicalExpr) (row : Row) (table : Table) : outcome PrimitiveValue :=
  match e with
  | ConstantLogicalExpr v => Ok v
  | ColumnLogicalExpr name _ => evaluate_column name row table
  | BinaryLogicalExpr l r _ op =>
      lhs ← match l with Some l => evaluate l row table | None => Undef NullDeref end;
      rhs ← match r with Some r => evaluate r row table | None => Undef NullDeref end;
      t ← deref (type lhs);
      binary op t lhs rhs
  end.

Definition op_str (op : BinaryOpType) : text :=
  match op with ADD => str "+" | SUBTRACT => str "-" | MULTIPLY => str "*" | DIVIDE => str "/" end.
Fixpoint expr_toString (e : LogicalExpr) : outcome text :=
  match e with
  | ConstantLogicalExpr v => value_toString v
  | ColumnLogicalExpr name _ => Ok (str "Column: " ++ name)
  | BinaryLogicalExpr l r _ op =>
      lhs ← match l with Some l => expr_toString l | None => Undef NullDeref end;
      rhs ← match r with Some r => expr_toString r | None => Undef NullDeref end;
      Ok (lhs ++ op_str op ++ rhs)
  end.

(** The arguments of the constructor of the base class are the children, into
    which [l] and [r] are moved, and the type of [l]. *)
Definition new_BinaryLogicalExpr (l r : option LogicalExpr) (op : BinaryOpType) : outcome LogicalExpr :=
  let l' := if left_to_right then None else l in
  e ← deref l';
  Ok (BinaryLogicalExpr l r (return_type e) op).

(** ** Arithmetic *)

(** Expressions by cases on the children of binary expressions. *)
Lemma expr_ind (P : LogicalExpr → Prop) :
  (∀ v, P (ConstantLogicalExpr v)) →
  (∀ name t, P (ColumnLogicalExpr name t)) →
  (∀ l r t op, (∀ e, l = Some e → P e) → (∀ e, r = Some e → P e) → P (BinaryLogicalExpr l r t op)) →
  ∀ e, P e.
Proof.
  intros Hv Hc Hb. fix IH 1. intros [v|name t|l r t op]; [apply Hv|apply Hc|].
  assert (∀ e, P e → ∀ e', Some e = Some e' → P e') as Hsome by (intros e He e' Heq; by simplify_eq).
  apply Hb; [destruct l as [e|]|destruct r as [e|]]; first [exact (Hsome e (IH e))|clear; discriminate].
Qed.

(** Integer arithmetic without bounds; the division truncates. *)
Definition int_op (op : BinaryOpType) (a b : Z) : option Z :=
  match op with
  | ADD => Some (a + b)
  | SUBTRACT => Some (a - b)
  | MULTIPLY => Some (a * b)
  | DIVIDE => if b =? 0 then None else Some (Z.quot a b)
  end.

(** The failures that arithmetic may have. *)
Definition arithmetic_error {A} (o : outcome A) : Prop :=
  (∃ m, o = Throw (RuntimeError m)) ∨ o = Undef SignedOverflow.

Lemma integer_binary op a b n n' :
  binary op IntegerPrimitiveType (mkValue (Some IntegerPrimitiveType) (integer a) n)
    (mkValue (Some IntegerPrimitiveType) (integer b) n')
  = match int_op op a b with
    | Some z => z ← int_result z; Ok (value_of_int IntegerPrimitiveType z)
    | None => Throw (runtime_error (str "An integer value (" ++ format_d a
                                    ++ str ") may not be divided by zero"))
    end.
Proof.
  destruct op; cbn [binary add subtract multiply divide];
    unfold Integer_add, Integer_subtract, Integer_multiply, Integer_divide; rewrite assert_any; try done.
  cbn. by destruct (b =? 0).
Qed.

Lemma int_result_cases z :
  (- 2 ^ 31 ≤ z < 2 ^ 31 ∧ int_result z = Ok z) ∨ int_result z = Undef SignedOverflow.
Proof.
  unfold int_result. destruct (Z.leb_spec (- 2 ^ 31) z), (Z.ltb_spec z (2 ^ 31)); cbn;
    [left; split; [lia|done]|right; done..].
Qed.

(** The arithmetic of two values of one type gives a value of the type or one of
    the failures of arithmetic. *)
Lemma binary_typed op t l r :
  has_type t l → has_type t r →
  (∃ v, binary op t l r = Ok v ∧ has_type t v) ∨ arithmetic_error (binary op t l r).
Proof.
  intros (m & n & -> & Hm)%typed_value (m' & n' & -> & Hm')%typed_value.
  destruct t, m as [|b|z|w|p]; try done; destruct m' as [|b'|z'|w'|p']; try done; cbn [has_member] in *.
  - right. left. destruct op; by eexists.
  - right. left. destruct op; by eexists.
  - rewrite integer_binary. destruct (int_op op z z') as [y|].
    + destruct (int_result_cases y) as [[Hy ->]| ->]; [left|right; by right].
      eexists. by split.
    + right. left. by eexists.
  - destruct op; cbn [binary add subtract multiply divide];
      unfold Decimal_add, Decimal_subtract, Decimal_multiply, Decimal_divide; rewrite assert_any; cbn;
      try (left; eexists; by split).
    case_bool; [right; left|left]; eexists; by split || done.
Qed.

(** ** Columns of rows *)

(** The column [c] of type [t] is the [i]-th one and the first of its name. *)
Definition column_at (cols : list Column) (i : nat) (c : Column) (t : PrimitiveType) : Prop :=
  cols !! i = Some c ∧ data_type c = Some t
  ∧ ∀ j c', (j < i)%nat → cols !! j = Some c' → col_name c' ≠ col_name c.

Lemma getValue_from_at cols i c t bs off :
  column_at cols i c t → 0 ≤ off → off + Z.of_nat i * getSize t < 2 ^ 32 →
  getValue_from c cols bs off = type_deserialize t bs (off + Z.of_nat i * getSize t).
Proof.
  assert (0 < getSize t) as Hs by (by destruct t).
  revert i off. induction cols as [|c' cols IH]; intros i off (Hi & Ht & Hfirst) Hoff Hlt; [done|].
  cbn [getValue_from]. rewrite Ht. cbn [deref]. ok_step.
  destruct i as [|i].
  - injection Hi as ->. rewrite decide_True by done. by rewrite Z.add_0_r.
  - rewrite decide_False by (intros Hn; apply (Hfirst 0%nat c'); [lia|done|by rewrite Hn]).
    assert (u32 (off + getSize t) = off + getSize t) as -> by (unfold u32; rewrite Z.mod_small; nia).
    rewrite (IH i); [f_equal; lia| |lia|lia].
    split_and!; [done|done|]. intros j c'' Hj Hc''. by apply (Hfirst (S j)); [lia|].
Qed.

Lemma find_column_at cols i c t : column_at cols i c t → find_column (col_name c) cols = Some c.
Proof.
  revert i. induction cols as [|c' cols IH]; intros i (Hi & Ht & Hfirst); [done|]. cbn [find_column].
  destruct i as [|i]; [injection Hi as ->; by rewrite decide_True|].
  rewrite decide_False by (apply (Hfirst 0%nat); [lia|done]).
  apply (IH i). split_and!; [done|done|]. intros j c'' Hj Hc''. by apply (Hfirst (S j)); [lia|].
Qed.

Lemma column_at_find name cols c :
  find_column name cols = Some c →
  ∃ i, cols !! i = Some c ∧ col_name c = name
    ∧ ∀ j c', (j < i)%nat → cols !! j = Some c' → col_name c' ≠ name.
Proof.
  induction cols as [|c' cols IH]; [done|]. cbn [find_column]. case_decide as Hn.
  - intros [= ->]. exists 0%nat. split_and!; [done|done|lia].
  - intros (i & Hi & Hname & Hfirst)%IH. exists (S i). split_and!; [done|done|].
    intros [|j] c'' Hj Hc''; [by injection Hc'' as ->|by apply (Hfirst j); [lia|]].
Qed.

(** The bytes of a value in a row. *)
Definition value_bytes (t : PrimitiveType) (m : MemberValue) : list Z :=
  match m with
  | boolean b => [b]
  | integer z => be32 (u32 z)
  | decimal w => le_bytes 8 w
  | _ => zeros (getSize t)
  end.

(** Types whose values can be read from a row: all but varchars. *)
Definition stored (t : PrimitiveType) (m : MemberValue) : Prop :=
  t ≠ VarcharPrimitiveType ∧ has_member t m ∧ ∀ w, m = decimal w → 0 ≤ w < 2 ^ 64.

Lemma zlen_value_bytes t m : stored t m → zlen (value_bytes t m) = getSize t.
Proof. intros (Hn & Hm & _). by destruct t, m. Qed.

Lemma type_deserialize_bytes t m bs off :
  stored t m → 0 ≤ off → slice bs off (getSize t) = value_bytes t m →
  type_deserialize t bs off = Ok (mkValue (Some t) m None).
Proof.
  intros Hst Hoff Hs. pose proof (zlen_value_bytes t m Hst) as Hz. destruct Hst as (Hn & Hm & Hw).
  destruct t, m as [|b|z|w|p]; try done; cbn [value_bytes getSize type_deserialize] in *; unfold_sizes.
  - unfold Boolean_deserialize. rewrite (rd_slice bs off b) by done. ok_step. unfold value_of_bool.
    cbn [has_member] in Hm. by destruct Hm as [-> | ->].
  - unfold Integer_deserialize, decode_int32. rewrite (decode_uint32_at _ _ _ Hoff Hs). do 2 ok_step.
    unfold value_of_int. do 3 f_equal. cbn [has_member] in Hm.
    assert (u32 (u32 z) = z mod 2 ^ 32) as -> by (unfold u32; by rewrite Zmod_mod).
    unfold i32. rewrite to_signed_mod by done. by apply to_signed_id.
  - unfold Decimal_deserialize, decode_double.
    assert (off + 8 ≤ zlen bs) as Hroom.
    { rewrite <- Hs in Hz. unfold slice, zlen, DECIMAL_SIZE in *. rewrite length_take, length_drop in Hz. lia. }
    rewrite rd_bytes_ok by lia. ok_step. unfold DECIMAL_SIZE in Hs. rewrite Hs, le_value_bytes.
    ok_step. unfold value_of_double. do 3 f_equal. apply Z.mod_small. by apply Hw.
Qed.

(** ** Rows *)

(** The sum of the sizes of the first [i] columns. *)
Fixpoint columns_size (cols : list Column) (i : nat) : Z :=
  match i, cols with
  | S i, c :: cols => from_option getSize 0 (data_type c) + columns_size cols i
  | _, _ => 0
  end.

(** A row that holds the values [ms] one after the other. *)
Definition row_of (cols : list Column) (ms : list MemberValue) : Row :=
  mkRow (concat (zip_with (λ c m, value_bytes (default VarcharPrimitiveType (data_type c)) m) cols ms)).
Definition fits (cols : list Column) (ms : list MemberValue) : Prop :=
  Forall2 (λ c m, ∃ t, data_type c = Some t ∧ stored t m) cols ms.

Lemma slice_row cols ms i c m t :
  fits cols ms → cols !! i = Some c → ms !! i = Some m → data_type c = Some t →
  slice (row_data (row_of cols ms)) (columns_size cols i) (getSize t) = value_bytes t m
  ∧ 0 ≤ columns_size cols i.
Proof.
  intros Hf. revert i. unfold row_of; cbn [row_data].
  induction Hf as [|c' m' cols ms (t' & Ht' & Hst) Hf IH]; intros i Hc Hm Ht; [done|].
  pose proof (zlen_value_bytes t' m' Hst) as Hz.
  cbn [zip_with concat]. rewrite Ht'. cbn [default from_option Datatypes.id].
  destruct i as [|i]; cbn [columns_size].
  - injection Hc as ->. injection Hm as ->. assert (t' = t) as -> by congruence.
    split; [|done]. rewrite <- Hz. unfold slice, zlen. change (Z.to_nat 0) with 0%nat.
    rewrite drop_0, Nat2Z.id. by rewrite take_app_length.
  - destruct (IH i Hc Hm Ht) as [Hs Hn]. rewrite Ht'. cbn [from_option].
    split; [|destruct t'; cbn [getSize]; unfold_sizes; unfold BOOLEAN_SIZE, STRING_SIZE, INTEGER_SIZE, DECIMAL_SIZE; lia].
    rewrite <- Hs. unfold slice. f_equal. rewrite <- Hz. unfold zlen.
    rewrite Z2Nat.inj_add, Nat2Z.id by lia. rewrite <- drop_drop. by rewrite drop_app_length.
Qed.

Lemma getValue_at cols row i c t n :
  column_at cols i c t → Z.of_nat i * getSize t < 2 ^ 32 →
  getValue row c (mkTable n cols) = type_deserialize t (row_data row) (Z.of_nat i * getSize t).
Proof. intros Hc Hlt. unfold getValue. cbn [columns]. by rewrite (getValue_from_at cols i c t). Qed.

Lemma getValue_row cols ms i c t m n :
  fits cols ms → column_at cols i c t → ms !! i = Some m → Z.of_nat i * getSize t < 2 ^ 32 →
  columns_size cols i = Z.of_nat i * getSize t →
  getValue (row_of cols ms) c (mkTable n cols) = Ok (mkValue (Some t) m None).
Proof.
  intros Hf Hc Hm Hlt Hsize. rewrite (getValue_at _ _ i _ t) by done. destruct Hc as (Hci & Ht & _).
  destruct (slice_row cols ms i c m t Hf Hci Hm Ht) as [Hs Hn].
  apply type_deserialize_bytes; [|lia|by rewrite <- Hsize].
  destruct (Forall2_lookup_lr _ _ _ i c m Hf Hci Hm) as (t' & Ht' & Hst). congruence.
Qed.

Lemma zlen_row cols ms : fits cols ms → zlen (row_data (row_of cols ms)) = columns_size cols (length cols).
Proof.
  unfold row_of. cbn [row_data]. induction 1 as [|c m cols ms (t & Ht & Hst) Hf IH]; [done|].
  cbn [zip_with concat length columns_size]. rewrite zlen_app, IH, Ht. cbn. by rewrite (zlen_value_bytes t m Hst).
Qed.

Lemma columns_size_last cols i c t :
  cols !! i = Some c → data_type c = Some t → length cols = S i →
  columns_size cols (length cols) = columns_size cols i + getSize t.
Proof.
  revert i. induction cols as [|c' cols IH]; intros [|i] Hi Ht Hlen; try done; cbn [length columns_size] in *.
  - injection Hi as ->. rewrite Ht. destruct cols; [cbn; lia|done].
  - rewrite (IH i) by (done || lia). lia.
Qed.

Lemma rd_past bs off : zlen bs ≤ off → rd bs off = Undef OutOfBounds.
Proof.
  intros Hle. pose proof (zlen_nonneg bs). unfold rd. rewrite (proj2 (Z.ltb_ge _ _)) by lia.
  rewrite (proj2 (lookup_ge_None _ _)); [done|]. unfold zlen in Hle. lia.
Qed.

Lemma type_deserialize_past t bs off :
  0 ≤ off → zlen bs < off + getSize t → type_deserialize t bs off = Undef OutOfBounds.
Proof.
  intros Hoff Hlen.
  assert (∀ n, zlen bs < off + n → rd_bytes bs off n = Undef OutOfBounds) as Hrd.
  { intros n Hn. unfold rd_bytes. rewrite (proj2 (Z.leb_gt (off + n) (zlen bs))) by done. by rewrite andb_false_r. }
  assert (∀ k, rd bs (off + k) = Undef OutOfBounds ∨ ∃ b, rd bs (off + k) = Ok b) as Hcase.
  { intros k. unfold rd. destruct (_ <? 0); [by left|]. destruct (bs !! _); [right; by eexists|by left]. }
  destruct t; cbn [getSize type_deserialize] in *; unfold_sizes.
  - unfold Boolean_deserialize, BOOLEAN_SIZE in *. by rewrite rd_past by lia.
  - unfold Varchar_deserialize. by rewrite Hrd.
  - unfold Integer_deserialize, decode_int32, decode_uint32, INTEGER_SIZE in *.
    rewrite (rd_past bs (off + 3)) by lia. pose proof (Hcase 0) as H0. rewrite Z.add_0_r in H0.
    destruct H0 as [-> |[b0 ->]]; [done|]. cbn. destruct (Hcase 1) as [-> |[b1 ->]]; [done|]. cbn.
    by destruct (Hcase 2) as [-> |[b2 ->]].
  - unfold Decimal_deserialize, decode_double. by rewrite Hrd.
Qed.

(** The value of a column in a row that holds its values one after the other
    is found when the columns before it have, together, as many bytes as if they
    were of the type of the column; the last column is read past the end of the
    row when they have fewer. *)
Theorem getValue_spec cols ms i c t m n :
  fits cols ms → column_at cols i c t → ms !! i = Some m → Z.of_nat i * getSize t < 2 ^ 32 →
  (columns_size cols i = Z.of_nat i * getSize t →
    getValue (row_of cols ms) c (mkTable n cols) = Ok (mkValue (Some t) m None))
  ∧ (length cols = S i → columns_size cols i < Z.of_nat i * getSize t →
    getValue (row_of cols ms) c (mkTable n cols) = Undef OutOfBounds).
Proof.
  intros Hf Hc Hm Hlt. split; [by apply getValue_row|]. intros Hlast Hsmall.
  rewrite (getValue_at _ _ i _ t) by done. destruct Hc as (Hi & Ht & _).
  assert (0 < getSize t) by (by destruct t).
  apply type_deserialize_past; [lia|]. rewrite (zlen_row _ _ Hf), (columns_size_last _ _ _ _ Hi Ht Hlast). lia.
Qed.

(** ** Typed expressions *)

(** An expression of type [t] over a table: every constant has a value of the
    type, every column is one of the table and not a varchar. *)
Fixpoint typed (cols : list Column) (t : PrimitiveType) (e : LogicalExpr) : Prop :=
  match e with
  | ConstantLogicalExpr v => has_type t v
  | ColumnLogicalExpr name _ =>
      t ≠ VarcharPrimitiveType ∧ ∃ i c, column_at cols i c t ∧ col_name c = name
  | BinaryLogicalExpr (Some l) (Some r) _ _ => typed cols t l ∧ typed cols t r
  | BinaryLogicalExpr _ _ _ _ => False
  end.

(** Some column of the expression ends behind the row at the offset where the code
    looks for it: the number of the column times the size of its own type. *)
Fixpoint reads_past (cols : list Column) (row : Row) (t : PrimitiveType) (e : LogicalExpr) : Prop :=
  match e with
  | ConstantLogicalExpr _ => False
  | ColumnLogicalExpr name _ =>
      ∃ i c, column_at cols i c t ∧ col_name c = name
        ∧ zlen (row_data row) < Z.of_nat i * getSize t + getSize t
  | BinaryLogicalExpr l r _ _ =>
      match l with Some l => reads_past cols row t l | None => False end
      ∨ match r with Some r => reads_past cols row t r | None => False end
  end.

Lemma to_signed_range w z : 0 < w → - 2 ^ (w - 1) ≤ to_signed w z < 2 ^ (w - 1).
Proof.
  intros Hw. unfold to_signed. assert (2 ^ w = 2 * 2 ^ (w - 1)) as Hp.
  { replace w with (Z.succ (w - 1)) at 1 by lia. rewrite Z.pow_succ_r; lia. }
  pose proof (Z.mod_pos_bound (z + 2 ^ (w - 1)) (2 ^ w) ltac:(lia)). lia.
Qed.

Lemma type_deserialize_typed t bs off :
  t ≠ VarcharPrimitiveType → 0 ≤ off → off + getSize t ≤ zlen bs →
  ∃ v, type_deserialize t bs off = Ok v ∧ has_type t v.
Proof.
  intros Hn Hoff Hlen. destruct t; [|done| |]; cbn [getSize type_deserialize] in *; unfold_sizes.
  - destruct (rd_in bs off) as (b & Hb & _); [unfold BOOLEAN_SIZE in *; lia|].
    unfold Boolean_deserialize. rewrite Hb. ok_step. eexists. split; [done|]. split; [done|].
    cbn. destruct (b =? 0); cbn; auto.
  - unfold INTEGER_SIZE in *. destruct (rd_in bs off) as (b0 & H0 & _); [lia|].
    destruct (rd_in bs (off + 1)) as (b1 & H1 & _); [lia|].
    destruct (rd_in bs (off + 2)) as (b2 & H2 & _); [lia|].
    destruct (rd_in bs (off + 3)) as (b3 & H3 & _); [lia|].
    unfold Integer_deserialize, decode_int32, decode_uint32. rewrite H0, H1, H2, H3. cbn.
    eexists. split; [done|]. split; [done|]. cbn. by apply (to_signed_range 32).
  - unfold Decimal_deserialize, decode_double, DECIMAL_SIZE in *. rewrite rd_bytes_ok by lia. cbn.
    eexists. split; [done|]. by split.
Qed.

(** The first column of a name. *)
Lemma column_at_unique cols i c t i' c' t' :
  column_at cols i c t → column_at cols i' c' t' → col_name c = col_name c' → i = i'.
Proof.
  intros (Hi & _ & Hf) (Hi' & _ & Hf') Hn. destruct (lt_eq_lt_dec i i') as [[Hlt|]|Hlt]; [|done|].
  - by destruct (Hf' i c Hlt Hi).
  - by destruct (Hf i' c' Hlt Hi').
Qed.

(** What the evaluation of a well-typed expression may be. *)
Definition evaluates (t : PrimitiveType) (past : Prop) (o : outcome PrimitiveValue) : Prop :=
  ((∃ v, o = Ok v ∧ has_type t v) ∧ ¬ past) ∨ arithmetic_error o ∨ (o = Undef OutOfBounds ∧ past).

Lemma evaluate_column_typed cols row n i c t t' :
  zlen cols < 2 ^ 29 → column_at cols i c t → t ≠ VarcharPrimitiveType →
  evaluates t (reads_past cols row t (ColumnLogicalExpr (col_name c) t'))
    (evaluate_column (col_name c) row (mkTable n cols)).
Proof.
  intros Hlen Hc Hn. unfold evaluate_column. cbn [columns]. rewrite (find_column_at _ _ _ _ Hc).
  pose proof (lookup_lt_Some _ _ _ (proj1 Hc)) as Hi. unfold zlen in Hlen.
  assert (0 < getSize t ≤ 8) as Hs by (by destruct t).
  rewrite (getValue_at _ _ i _ t) by (done || nia).
  destruct (Z.lt_ge_cases (zlen (row_data row)) (Z.of_nat i * getSize t + getSize t)) as [Hlt|Hge].
  - right. right. split; [apply type_deserialize_past; [nia|done]|]. by exists i, c.
  - left. split; [apply type_deserialize_typed; [done|nia|done]|].
    intros (i' & c' & Hc' & Hname & Hlt). rewrite (column_at_unique _ _ _ _ _ _ _ Hc' Hc Hname) in Hlt. lia.
Qed.

(** A failure of the first step is a failure of the whole. *)
Lemma evaluates_bind t past past' o (f : PrimitiveValue → outcome PrimitiveValue) :
  evaluates t past o → (past → past') →
  (∀ v, o = Ok v → has_type t v → ¬ past → evaluates t past' (f v)) → evaluates t past' (o ≫= f).
Proof.
  intros [[(v & -> & Hv) Hno]|[[[m ->]| ->]|[-> Hp]]] Hpast Hf; [by apply Hf|right; left..|right; right].
  - left. by exists m.
  - by right.
  - split; [done|by apply Hpast].
Qed.

(** C21: a well-typed expression, over a table of fewer than 2^29 columns, does not go
    wrong but for the offsets of columns. On any row its evaluation gives a value of its
    type, throws an exception (there is no such operation, or a division by zero),
    overflows, or reads outside the row; the last only when some column of the expression
    ends behind the row at the offset the code uses (its number times its own size), and
    then it never gives a value. It never reads a member that was not written or a null
    pointer. *)
Theorem evaluate_typed cols row n t e :
  zlen cols < 2 ^ 29 → typed cols t e →
  ((∃ v, evaluate e row (mkTable n cols) = Ok v ∧ has_type t v) ∧ ¬ reads_past cols row t e)
  ∨ arithmetic_error (evaluate e row (mkTable n cols))
  ∨ (evaluate e row (mkTable n cols) = Undef OutOfBounds ∧ reads_past cols row t e).
Proof.
  intros Hlen. change (typed cols t e → evaluates t (reads_past cols row t e) (evaluate e row (mkTable n cols))).
  induction e as [v|name t'|l r t' op IHl IHr] using expr_ind; cbn [typed evaluate].
  - intros Hv. left. split; [by exists v|by intros []].
  - intros (Hn & i & c & Hc & <-). by apply (evaluate_column_typed cols row n i c t).
  - destruct l as [l|]; [|done]. destruct r as [r|]; [|done]. intros [Hl Hr].
    eapply evaluates_bind; [by apply IHl|by left|]. intros vl _ Htl Hnl.
    eapply evaluates_bind; [by apply IHr|by right|]. intros vr _ Htr Hnr.
    rewrite (proj1 Htl). cbn [deref]. ok_step.
    destruct (binary_typed op _ _ _ Htl Htr) as [Hv|Herr]; [left|by right; left].
    split; [done|]. by intros [Hx|Hx].
Qed.

(** *** Integer expressions *)

(** The value of the column [name] of a row of integers. *)
Fixpoint field (name : text) (cols : list Column) (ms : list MemberValue) : option Z :=
  match cols, ms with
  | c :: cols, integer z :: ms => if decide (col_name c = name) then Some z else field name cols ms
  | _, _ => None
  end.

(** The value of an integer expression, if no division by zero and no result
    outside the 32 bits occurs. *)
Fixpoint meaning (cols : list Column) (ms : list MemberValue) (e : LogicalExpr) : option Z :=
  match e with
  | ConstantLogicalExpr v => match value v with integer z => Some z | _ => None end
  | ColumnLogicalExpr name _ => field name cols ms
  | BinaryLogicalExpr (Some l) (Some r) _ op =>
      a ← meaning cols ms l; b ← meaning cols ms r; z ← int_op op a b;
      if (- 2 ^ 31 <=? z) && (z <? 2 ^ 31) then Some z else None
  | BinaryLogicalExpr _ _ _ _ => None
  end.

Lemma field_at cols ms i c z :
  Forall (λ m, ∃ y, m = integer y) ms → column_at cols i c IntegerPrimitiveType →
  ms !! i = Some (integer z) → field (col_name c) cols ms = Some z.
Proof.
  intros Hms. revert cols i. induction Hms as [|m ms [y ->] Hms IH]; intros cols i (Hi & Ht & Hfirst) Hm; [done|].
  destruct cols as [|c' cols]; [done|]. cbn [field]. destruct i as [|i].
  - injection Hi as ->. injection Hm as ->. by rewrite decide_True.
  - rewrite decide_False by (apply (Hfirst 0%nat); [lia|done]). apply (IH cols i); [|done].
    split_and!; [done|done|]. intros j c'' Hj Hc''. by apply (Hfirst (S j)); [lia|].
Qed.

Lemma columns_size_integers cols i :
  Forall (λ c, data_type c = Some IntegerPrimitiveType) cols → (i < length cols)%nat →
  columns_size cols i = Z.of_nat i * 4.
Proof.
  intros Hc. revert i. induction Hc as [|c cols Ht Hc IH]; intros i Hi; [cbn in Hi; lia|].
  destruct i as [|i]; [done|]. cbn [columns_size length] in *. rewrite Ht, IH by lia.
  cbn. unfold Integer_getSize, INTEGER_SIZE. lia.
Qed.

(** C22: on a row of integers an integer expression evaluates to its mathematical
    value if no intermediate result leaves the 32 bits and nothing is divided by
    zero; otherwise the evaluation throws an exception or overflows. *)
Theorem evaluate_integers cols ms n e :
  fits cols ms → Forall (λ c, data_type c = Some IntegerPrimitiveType) cols → zlen cols < 2 ^ 30 →
  typed cols IntegerPrimitiveType e →
  match meaning cols ms e with
  | Some z => ∃ v, evaluate e (row_of cols ms) (mkTable n cols) = Ok v
                ∧ type v = Some IntegerPrimitiveType ∧ value v = integer z
  | None => arithmetic_error (evaluate e (row_of cols ms) (mkTable n cols))
  end.
Proof.
  intros Hf Hc Hn.
  assert (Forall (λ m, ∃ y, m = integer y) ms) as Hms.
  { clear Hn. induction Hf as [|c m cols ms (t & Ht & _ & Hm & _) Hf IH]; [done|].
    inversion Hc as [|c' cols' Hc' Hcols]; subst. constructor; [|by apply IH].
    assert (t = IntegerPrimitiveType) as -> by congruence. destruct m; try done. by eexists. }
  induction e as [v|name t'|l r t' op IHl IHr] using expr_ind; cbn [typed evaluate meaning].
  - intros [Ht Hm]. destruct (value v) as [|b|z|w|p] eqn:Hv; try done. by exists v.
  - intros (_ & i & c & Hat & <-). pose proof (proj1 Hat) as Hi.
    destruct (Forall2_lookup_l _ _ _ _ _ Hf Hi) as (m & Hm & _).
    destruct (Forall_lookup_1 _ _ _ _ Hms Hm) as [z ->].
    rewrite (field_at cols ms i c z) by done. eexists. unfold evaluate_column. cbn [columns].
    rewrite (find_column_at _ _ _ _ Hat). apply lookup_lt_Some in Hi as Hlt. unfold zlen in Hn.
    rewrite (getValue_row cols ms i c IntegerPrimitiveType (integer z)); [done|done|done|done| |].
    + cbn [getSize]. unfold_sizes. unfold INTEGER_SIZE. lia.
    + by apply columns_size_integers.
  - destruct l as [l|]; [|done]. destruct r as [r|]; [|done]. intros [Hl Hr].
    specialize (IHl l eq_refl Hl). specialize (IHr r eq_refl Hr).
    destruct (meaning cols ms l) as [a|]; cbn [mbind option_bind].
    2:{ destruct IHl as [[m ->]| ->]; [left; by eexists|by right]. }
    destruct IHl as ([tl ml nl] & -> & Htl & Hml). cbn in Htl, Hml. subst. ok_step.
    destruct (meaning cols ms r) as [b|]; cbn [mbind option_bind].
    2:{ destruct IHr as [[m ->]| ->]; [left; by eexists|by right]. }
    destruct IHr as ([tr mr nr] & -> & Htr & Hmr). cbn in Htr, Hmr. subst. ok_step.
    cbn [type deref]. ok_step. rewrite integer_binary.
    destruct (int_op op a b) as [z|]; cbn [mbind option_bind]; [|left; by eexists].
    unfold int_result. case_bool; [|by right]. eexists. by ok_step.
Qed.
End code.

(** ** Findings *)

(** The type assertion does not look at the right operand, and does not tell the
    types apart: an operation on an integer and a decimal passes it and reads the
    wrong member. *)
Lemma mixed_types `{Platform} op a b n n' :
  binary op IntegerPrimitiveType (mkValue (Some IntegerPrimitiveType) (integer a) n)
    (mkValue (Some DecimalPrimitiveType) (decimal b) n') = Undef WrongMember.
Proof.
  destruct op; cbn [binary add subtract multiply divide];
    unfold Integer_add, Integer_subtract, Integer_multiply, Integer_divide; by rewrite assert_any.
Qed.

(** The value of a varchar column holds a boolean; comparing it reads the wrong
    member. *)
Lemma varchar_column `{Platform} cols row i c n v :
  column_at cols i c VarcharPrimitiveType → Z.of_nat i * STRING_SIZE + STRING_SIZE ≤ zlen (row_data row) →
  zlen (row_data row) < 2 ^ 32 →
  getValue row c (mkTable n cols) = Ok (value_of_bool VarcharPrimitiveType true)
  ∧ equals VarcharPrimitiveType (value_of_bool VarcharPrimitiveType true) v = Undef WrongMember.
Proof.
  intros Hc Hlen Hlt. rewrite (getValue_at _ _ i _ VarcharPrimitiveType) by (done || (cbn; unfold Varchar_getSize, STRING_SIZE in *; lia)).
  cbn [type_deserialize getSize]. unfold_sizes. unfold Varchar_deserialize, STRING_SIZE in *.
  rewrite rd_bytes_ok by lia. split; [done|]. unfold equals, Varchar_equals, value_of_bool. by rewrite assert_any.
Qed.

(** Tables that differ only in the types of their columns are equal. *)
Lemma table_eqb_names `{Platform} n cols cols' :
  Forall (λ c, is_Some (data_type c)) cols → Forall (λ c, is_Some (data_type c)) cols' →
  col_name <$> cols = col_name <$> cols' → table_eqb (mkTable n cols) (mkTable n cols') = Ok true.
Proof.
  intros Hc Hc' Heq. unfold table_eqb. cbn [tab_name columns].
  apply (f_equal length) in Heq as Hlen. rewrite !length_fmap in Hlen. rewrite decide_True by done.
  clear Hlen. revert cols' Hc' Heq. induction Hc as [|c cols [t Ht] Hc IH]; intros [|c' cols'] Hc' Heq; try done.
  inversion Hc' as [|? ? [t' Ht'] Hc'']; subst. injection Heq as Hn Heq. cbn [columns_eqb].
  rewrite decide_True, Ht, Ht' by done. cbn [deref]. do 2 ok_step. rewrite decide_True by done. by apply IH.
Qed.

(** The child is moved before its type is read. *)
Lemma binary_constructor_null `{Platform} l r op :
  left_to_right = true → new_BinaryLogicalExpr l r op = Undef NullDeref.
Proof. intros Hl. unfold new_BinaryLogicalExpr. by rewrite Hl. Qed.

(** ** A table of an identifier, a flag and a year *)

Definition flag_year : list Column :=
  [mkColumn (str "flag") (Some BooleanPrimitiveType); mkColumn (str "year") (Some IntegerPrimitiveType)].
Definition id_year : list Column :=
  [mkColumn (str "id") (Some IntegerPrimitiveType); mkColumn (str "year") (Some IntegerPrimitiveType)].

(** year * (id - 20) *)
Definition sample_year_expr : LogicalExpr :=
  BinaryLogicalExpr (Some (ColumnLogicalExpr (str "year") (Some IntegerPrimitiveType)))
    (Some (BinaryLogicalExpr (Some (ColumnLogicalExpr (str "id") (Some IntegerPrimitiveType)))
             (Some (ConstantLogicalExpr (value_of_int IntegerPrimitiveType 20)))
             (Some IntegerPrimitiveType) SUBTRACT))
    (Some IntegerPrimitiveType) MULTIPLY.

Lemma column_at_year cols c :
  cols = flag_year ∨ cols = id_year → c = mkColumn (str "year") (Some IntegerPrimitiveType) →
  column_at cols 1 c IntegerPrimitiveType.
Proof.
  intros Hcols ->. split_and!; [by destruct Hcols as [-> | ->]|done|].
  intros [|j] c' Hj Hc'; [|lia]. by destruct Hcols as [-> | ->]; injection Hc' as <-.
Qed.

Lemma column_at_id : column_at id_year 0 (mkColumn (str "id") (Some IntegerPrimitiveType)) IntegerPrimitiveType.
Proof. split_and!; [done|done|lia]. Qed.

Lemma sample_year_expr_typed : typed id_year IntegerPrimitiveType sample_year_expr.
Proof.
  cbn [typed sample_year_expr]. split; [split|split; [split|]]; [done| |done| |by_compute].
  - eexists 1%nat, _. split; [apply column_at_year; [by right|done]|done].
  - eexists 0%nat, _. split; [apply column_at_id|done].
Qed.

Lemma id_year_fits a b :
  - 2 ^ 31 ≤ a < 2 ^ 31 → - 2 ^ 31 ≤ b < 2 ^ 31 → fits id_year [integer a; integer b].
Proof. intros Ha Hb. repeat constructor; eexists; (split; [done|]); by split_and!. Qed.

(** The value of the expression on a row of its table; the flag in front of the year
    makes the read of the year end behind the row. *)
Lemma evaluate_typed_witness :
  (let o := evaluate (H:=sample_platform) sample_year_expr (row_of id_year [integer 21; integer 2023]) (mkTable (str "t") id_year) in
   (∃ v, o = Ok v ∧ has_type IntegerPrimitiveType v) ∨ arithmetic_error o)
  ∧ evaluate (H:=sample_platform) (ColumnLogicalExpr (str "year") None) (row_of flag_year [boolean 1; integer 2023])
      (mkTable (str "t") flag_year) = Undef OutOfBounds.
Proof.
  split.
  - destruct (evaluate_typed (H:=sample_platform) id_year (row_of id_year [integer 21; integer 2023]) (str "t")
      IntegerPrimitiveType sample_year_expr ltac:(by_compute) sample_year_expr_typed) as [[H _]|[H|[H _]]];
      [by left|by right|by vm_compute in H].
  - destruct (evaluate_typed (H:=sample_platform) flag_year (row_of flag_year [boolean 1; integer 2023]) (str "t")
      IntegerPrimitiveType (ColumnLogicalExpr (str "year") None) ltac:(by_compute)) as [[(v & H & _) _]|[[[m H]|H]|[H _]]];
      [|by vm_compute in H..|exact H].
    split; [done|]. eexists 1%nat, _. split; [apply column_at_year; [by left|done]|done].
Defined.

Lemma evaluate_integers_witness :
  (∃ v, evaluate (H:=sample_platform) sample_year_expr (row_of id_year [integer 21; integer 2023]) (mkTable (str "t") id_year) = Ok v
    ∧ type v = Some IntegerPrimitiveType ∧ value v = integer 2023)
  ∧ arithmetic_error (evaluate (H:=sample_platform) sample_year_expr (row_of id_year [integer 2147483647; integer 2023]) (mkTable (str "t") id_year)).
Proof.
  split.
  - refine (evaluate_integers (H:=sample_platform) id_year [integer 21; integer 2023] (str "t") sample_year_expr _ _ _ sample_year_expr_typed);
      [by apply id_year_fits|by repeat constructor|done].
  - refine (evaluate_integers (H:=sample_platform) id_year [integer 2147483647; integer 2023] (str "t") sample_year_expr _ _ _ sample_year_expr_typed);
      [by apply id_year_fits|by repeat constructor|done].
Defined.

Lemma getValue_spec_witness :
  getValue (row_of id_year [integer 1; integer 2023]) (mkColumn (str "year") (Some IntegerPrimitiveType)) (mkTable (str "t") id_year)
    = Ok (mkValue (Some IntegerPrimitiveType) (integer 2023) None)
  ∧ getValue (row_of flag_year [boolean 1; integer 2023]) (mkColumn (str "year") (Some IntegerPrimitiveType)) (mkTable (str "t") flag_year)
    = Undef OutOfBounds.
Proof.
  split.
  - refine (proj1 (getValue_spec id_year [integer 1; integer 2023] 1 _ IntegerPrimitiveType (integer 2023) (str "t") _ _ eq_refl _) eq_refl);
      [by apply id_year_fits|apply column_at_year; [by right|done]|done].
  - refine (proj2 (getValue_spec flag_year [boolean 1; integer 2023] 1 _ IntegerPrimitiveType (integer 2023) (str "t") _ _ eq_refl _) eq_refl eq_refl);
      [|apply column_at_year; [by left|done]|done].
    repeat constructor; eexists; (split; [done|]); split_and!; try done. by right.
Defined.
