(* ===== verification/LogicalPlan.v ===== *)
(** * LogicalPlan: access methods and the operators of query plans
    ([sql/access_method.hpp], [sql/access_method.cpp], [sql/logical_plan.hpp],
    [sql/logical_plan.cpp])

    The schema of a table is read from the second page of its file. An operator
    owns its input, which is [None] after it has been moved out. *)
From S2P Require Import Prelude Serialize Memory Hash Disk Heapfile HeapTable Primitive LogicalExpr.

(** ** The code *)

Definition TABLE_SCHEMA_PAGE : Z := 1.

(** [std::string(buf, n)]. *)
Definition bytes_text (bs : list Z) : text := (λ b, ascii_of_N (Z.to_N b)) <$> bs.

(** The type of a column as the schema page has it; the reference stays null for
    any other code. *)
Definition type_of_code (t : Z) : option PrimitiveType :=
  if t =? type_code BOOLEAN then Some BooleanPrimitiveType
  else if t =? type_code STRING then Some VarcharPrimitiveType
  else if t =? type_code INTEGER then Some IntegerPrimitiveType
  else if t =? type_code DECIMAL then Some DecimalPrimitiveType
  else None.

Inductive AggregateOperator := COUNT | AVG | SUM | MIN | MAX.

(** A [ColumnLogicalExpr] that is held by value. *)
Record ColumnExpr := mkColumnExpr { ce_name : text; ce_type : option PrimitiveType }.
Definition column_expr (c : ColumnExpr) : LogicalExpr := ColumnLogicalExpr (ce_name c) (ce_type c).

(** The access method of a scan is the heap file of a path. *)
Unset Elimination Schemes.
Inductive LogicalOperator :=
  | LogicalScan (path : option text)
  | LogicalSelection (input : option LogicalOperator) (expr : option LogicalExpr)
  | LogicalProjection (input : option LogicalOperator) (proj_cols : list ColumnExpr)
  | LogicalAggregation (input : option LogicalOperator) (aggr_col group_col : ColumnExpr)
      (agg_op : AggregateOperator).
Set Elimination Schemes.

Section code.
Context `{Platform} {U : Uninit}.

(** The cursor has eight bits. *)
Fixpoint read_columns (n : nat) (page_data : list Z) (cursor : Z) : outcome (list Column) :=
  match n with
  | O => Ok []
  | S n =>
      col_name_len ← rd page_data cursor;
      buf ← rd_bytes page_data (cursor + 1) col_name_len;
      col_data_type ← rd page_data (cursor + col_name_len + 1);
      table_cols ← read_columns n page_data (u8 (cursor + SCHEMA_COLUMN_SIZE col_name_len));
      Ok (mkColumn (bytes_text buf) (type_of_code col_data_type) :: table_cols)
  end.
Definition HeapfileAccess_schema (path : text) (d : disk) : outcome (Table * disk) :=
  r ← read_page TABLE_SCHEMA_PAGE (mkDiskManager (mkHashTable [] 0 false) path false) d;
  let '(page_data, d) := r in
  cols_num ← rd page_data 0;
  table_cols ← read_columns (Z.to_nat cols_num) page_data START_COLUMNS_INFO;
  Ok (mkTable path table_cols, d).

Definition HeapfileAccess_scan (path : text) : outcome (list Row) :=
  Throw (runtime_error (str "TODO: Heapfile scan implementation")).
Definition BTreeIndexAccess_scan (path : text) : outcome (list Row) :=
  Throw (runtime_error (str "TODO: B+tree index scan implementation")).

Definition LogicalProjection_schema (input : Table) (proj_cols : list ColumnExpr) : Table :=
  mkTable (tab_name input) ((λ col, mkColumn (ce_name col) (ce_type col)) <$> proj_cols).
Definition LogicalAggregation_schema (input : Table) (aggr_col group_col : ColumnExpr) : Table :=
  mkTable (tab_name input) [mkColumn (ce_name aggr_col) (ce_type aggr_col);
                            mkColumn (ce_name group_col) (ce_type group_col)].
Fixpoint schema (op : LogicalOperator) (d : disk) : outcome (Table * disk) :=
  match op with
  | LogicalScan access_method =>
      path ← deref access_method; HeapfileAccess_schema path d
  | LogicalSelection input _ =>
      match input with Some input => schema input d | None => Undef NullDeref end
  | LogicalProjection input proj_cols =>
      r ← match input with Some input => schema input d | None => Undef NullDeref end;
      let '(t, d) := r in
      Ok (LogicalProjection_schema t proj_cols, d)
  | LogicalAggregation input aggr_col group_col _ =>
      r ← match input with Some input => schema input d | None => Undef NullDeref end;
      let '(t, d) := r in
      Ok (LogicalAggregation_schema t aggr_col group_col, d)
  end.

(** The input is moved into the vector. *)
Definition children (op : LogicalOperator) : list (option LogicalOperator) * LogicalOperator :=
  match op with
  | LogicalScan _ => ([], op)
  | LogicalSelection input e => ([input], LogicalSelection None e)
  | LogicalProjection input cols => ([input], LogicalProjection None cols)
  | LogicalAggregation input a g o => ([input], LogicalAggregation None a g o)
  end.

Definition LogicalProjection_toString (proj_cols : list ColumnExpr) : text :=
  foldl (λ res col, res ++ (str "Column: " ++ ce_name col) ++ [ascii_of_N 9]) (str "Projection: ") proj_cols.
Definition LogicalAggregation_toString (aggr_col group_col : ColumnExpr) : text :=
  str "Aggregate: groupCol: " ++ ce_name group_col ++ str " aggregateCol: " ++ ce_name aggr_col.
Definition operator_toString (op : LogicalOperator) (d : disk) : outcome (text * disk) :=
  match op with
  | LogicalScan access_method =>
      path ← deref access_method;
      r ← HeapfileAccess_schema path d;
      let '(t, d) := r in Ok (str "Scan: " ++ tab_name t, d)
  | LogicalSelection _ expr =>
      e ← deref expr; s ← expr_toString e; Ok (str "Select: " ++ s, d)
  | LogicalProjection _ proj_cols => Ok (LogicalProjection_toString proj_cols, d)
  | LogicalAggregation _ aggr_col group_col _ =>
      Ok (LogicalAggregation_toString aggr_col group_col, d)
  end.

(** What is written to the standard output is appended to [out]. The loop over
    the children calls [children] to test its bound and again to take the child;
    there is one child at most. *)
Fixpoint pretty (fuel : nat) (op : option LogicalOperator) (indent : Z) (out : text) (d : disk)
    : outcome (text * disk) :=
  match fuel with
  | O => OutOfFuel
  | S fuel =>
      let out := out ++ [ascii_of_N 10] ++ replicate (Z.to_nat indent) (ascii_of_N 9) in
      op ← deref op;
      r ← operator_toString op d;
      let '(s, d) := r in
      let out := out ++ s in
      let '(size, op) := children op in
      if Nat.eqb (length size) 0 then Ok (out, d)
      else
        let '(ch, op) := children op in
        input ← vec_at ch 0;
        pretty fuel input (indent + 1) out d
  end.
End code.

(** ** The schema of a table *)

Definition sql_type (t : ColumnType) : PrimitiveType :=
  match t with
  | BOOLEAN => BooleanPrimitiveType
  | STRING => VarcharPrimitiveType
  | INTEGER => IntegerPrimitiveType
  | DECIMAL => DecimalPrimitiveType
  end.
(** The columns of a table, as it was created, for the planner. *)
Definition sql_column (c : text * ColumnType) : Column := mkColumn c.1 (Some (sql_type c.2)).

Lemma bytes_text_bytes s : bytes_text (text_bytes s) = s.
Proof.
  unfold bytes_text, text_bytes. rewrite <- list_fmap_compose. rewrite <- (list_fmap_id s) at 2.
  apply list_fmap_ext. intros _ c _. unfold compose, code. cbn. rewrite N2Z.id. apply ascii_N_embedding.
Qed.

Lemma type_of_code_ok t : type_of_code (type_code t) = Some (sql_type t).
Proof. by destruct t. Qed.

Lemma read_columns_ok cols page off :
  0 ≤ off → slice page off (zlen (concat (column_bytes <$> cols))) = concat (column_bytes <$> cols) →
  off + zlen (concat (column_bytes <$> cols)) ≤ zlen page →
  off + zlen (concat (column_bytes <$> cols)) ≤ 256 →
  read_columns (length cols) page (u8 off) = Ok (sql_column <$> cols).
Proof.
  revert off. induction cols as [|[name t] cols IH]; intros off Hoff Hs Hp H256; [done|].
  rewrite fmap_cons in Hs, Hp, H256. cbn [concat length read_columns] in *. rewrite zlen_app in Hs, Hp, H256.
  set (rest := concat (column_bytes <$> cols)) in *. pose proof (zlen_nonneg rest).
  pose proof (zlen_nonneg name). pose proof (zlen_column_bytes (name, t)) as Hz. cbn [fst] in Hz.
  destruct (slice_app_inv page off _ _ rest Hoff Hs) as [Hc Hrest]; [done|].
  unfold column_bytes in Hc at 2. cbn [fst snd] in Hc.
  change (zlen name :: text_bytes name ++ [type_code t]) with ([zlen name] ++ text_bytes name ++ [type_code t]) in Hc.
  destruct (slice_app_inv page off _ _ _ Hoff Hc) as [H1 Hc2].
  { rewrite Hz, zlen_app, zlen_text_bytes. cbn. unfold zlen. cbn. lia. }
  change (zlen [zlen name]) with 1 in *.
  destruct (slice_app_inv page (off + 1) _ _ _ ltac:(lia) Hc2) as [H2 H3]; [by rewrite zlen_app|].
  rewrite zlen_text_bytes in *. change (zlen [type_code t]) with 1 in *.
  assert (u8 off = off) as -> by (unfold u8; apply Z.mod_small; lia).
  rewrite (rd_slice page off (zlen name)) by done. ok_step.
  rewrite rd_bytes_ok, H2 by lia. ok_step.
  rewrite (rd_slice page (off + zlen name + 1) (type_code t))
    by (try lia; rewrite <- H3; f_equal; lia). ok_step.
  unfold SCHEMA_COLUMN_SIZE. rewrite Hz in *.
  replace (off + (1 + zlen name + 1)) with (off + (zlen name + 2)) by lia.
  rewrite IH by (done || lia). ok_step. unfold sql_column at 2. cbn [fst snd].
  by rewrite bytes_text_bytes, type_of_code_ok.
Qed.

Section plans.
Context `{Platform} {U : Uninit}.

(** A file whose second page is the schema of [cols]. *)
Definition has_schema (path : text) (cols : list (text * ColumnType)) (d : disk) : Prop :=
  short_name path ∧ contents (path_of path) d = directory_bytes (seqZ 0 MAX_PAGES) ++ zeros 2096 ++ schema_page cols.

Lemma HeapfileAccess_schema_ok path cols d :
  has_schema path cols d → 1 + zlen (concat (column_bytes <$> cols)) ≤ 256 →
  ∃ d', HeapfileAccess_schema path d = Ok (mkTable path (sql_column <$> cols), d')
    ∧ has_schema path cols d'.
Proof.
  intros [Hname Hfile] H256. set (B := concat (column_bytes <$> cols)) in *. pose proof (zlen_nonneg B).
  set (dm := mkDiskManager (mkHashTable [] 0 false) path false).
  assert (zlen (directory_bytes (seqZ 0 MAX_PAGES) ++ zeros 2096) = PAGE_SIZE) as Hdir.
  { rewrite zlen_app, zlen_directory_bytes. unfold zlen. by rewrite length_seqZ. }
  assert (zlen (schema_page cols) = PAGE_SIZE) as Hsp.
  { unfold schema_page. rewrite zlen_cons, zlen_app, zlen_zeros by (fold B; unfold PAGE_SIZE; lia). lia. }
  rewrite app_assoc in Hfile.
  assert (page_of dm 1 d = schema_page cols) as Hpage.
  { unfold page_of, file_of. cbn [table_name dm]. rewrite Hfile, Z.mul_1_l, <- Hdir. rewrite <- Hsp at 2.
    rewrite <- (app_nil_r (schema_page cols)) at 1. by rewrite Hdir, <- Hdir, slice_middle. }
  destruct (read_page_ok dm 1 d) as (d' & Hread & Hd').
  { done. }
  { by_compute. }
  { unfold has_page, file_of. cbn [table_name dm]. rewrite Hfile, zlen_app, Hdir, Hsp. by unfold PAGE_SIZE. }
  unfold HeapfileAccess_schema, TABLE_SCHEMA_PAGE. fold dm. rewrite Hread, Hpage. ok_step.
  assert (slice (schema_page cols) 1 (zlen B) = B) as HB.
  { unfold schema_page. fold B. change (zlen cols :: ?l) with ([zlen cols] ++ l).
    apply (slice_middle [zlen cols] B). }
  rewrite (rd_slice (schema_page cols) 0 (zlen cols)) by done. ok_step.
  unfold zlen at 1. rewrite Nat2Z.id. change START_COLUMNS_INFO with (u8 1).
  rewrite read_columns_ok; [ok_step| |done| |done]; [|lia|rewrite Hsp; fold B; unfold PAGE_SIZE; lia].
  exists d'. split; [done|]. split; [done|]. rewrite Hd', app_assoc. done.
Qed.

(** ** Plans over a table *)

(** The columns a plan has over a table with the columns [cols]. *)
Fixpoint plan_columns (cols : list Column) (op : LogicalOperator) : list Column :=
  match op with
  | LogicalScan _ => cols
  | LogicalSelection (Some input) _ => plan_columns cols input
  | LogicalProjection _ proj_cols => (λ c, mkColumn (ce_name c) (ce_type c)) <$> proj_cols
  | LogicalAggregation _ a g _ => [mkColumn (ce_name a) (ce_type a); mkColumn (ce_name g) (ce_type g)]
  | LogicalSelection None _ => []
  end.

(** A plan over the table [path]: no operator has lost its input. *)
Fixpoint plan_over (path : text) (op : LogicalOperator) : Prop :=
  match op with
  | LogicalScan p => p = Some path
  | LogicalSelection (Some input) _ | LogicalProjection (Some input) _
  | LogicalAggregation (Some input) _ _ _ => plan_over path input
  | _ => False
  end.

Lemma operator_ind (P : LogicalOperator → Prop) :
  (∀ p, P (LogicalScan p)) →
  (∀ i e, (∀ o, i = Some o → P o) → P (LogicalSelection i e)) →
  (∀ i cs, (∀ o, i = Some o → P o) → P (LogicalProjection i cs)) →
  (∀ i a g o, (∀ o, i = Some o → P o) → P (LogicalAggregation i a g o)) →
  ∀ o, P o.
Proof.
  intros Hs Hsel Hp Ha. fix IH 1.
  assert (∀ o, P o → ∀ o', Some o = Some o' → P o') as Hsome by (intros o Ho o' Heq; by simplify_eq).
  intros [p|i e|i cs|i a g ao]; [apply Hs|apply Hsel|apply Hp|apply Ha];
    (destruct i as [o|]; [exact (Hsome o (IH o))|clear; discriminate]).
Qed.

Lemma schema_ok path cols op d :
  has_schema path cols d → 1 + zlen (concat (column_bytes <$> cols)) ≤ 256 → plan_over path op →
  ∃ d', schema op d = Ok (mkTable path (plan_columns (sql_column <$> cols) op), d')
    ∧ has_schema path cols d'.
Proof.
  intros Hd H256. induction op as [p|i e IH|i cs IH|i a g o IH] using operator_ind; cbn [plan_over schema plan_columns].
  - intros ->. cbn [deref]. ok_step. by apply HeapfileAccess_schema_ok.
  - destruct i as [i|]; [|done]. by apply IH.
  - destruct i as [i|]; [|done]. intros (d' & -> & Hd')%(IH i eq_refl). ok_step. by eexists.
  - destruct i as [i|]; [|done]. intros (d' & -> & Hd')%(IH i eq_refl). ok_step. by eexists.
Qed.

(** C29: the schema of a plan over a new table, whose file has no bytes before it is
    created, has the name of the table and the columns the operators of the plan
    leave of those the table was created with, in their order and with their types,
    whatever the plan, provided that the column names have one length, the schema
    takes at most 256 bytes and the name of the table has fewer than 15 characters.
    *)
Theorem plan_schema path L cols h d :
  zlen path < 15 → heap_ok h → contents (path_of path) d = [] →
  Forall (λ c : text * ColumnType, zlen c.1 = L) cols → 0 ≤ L → 1 + zlen cols * (L + 2) ≤ 256 →
  ∃ dm h' d1, create_table path (column_of <$> cols) (zlen cols) h d = Ok (Some dm, h', d1)
    ∧ ∀ op, plan_over path op → ∃ d2,
        schema op d1 = Ok (mkTable path (plan_columns (sql_column <$> cols) op), d2).
Proof.
  intros Hname Hh Hempty Hcols HL Hsize.
  destruct (create_table_ok path L cols h d) as (dm & h' & d1 & Hc & Htn & _ & _ & Hfile);
    [done..|unfold PAGE_SIZE; lia|].
  exists dm, h', d1. split; [done|]. intros op Hop. unfold file_of in Hfile. rewrite Htn in Hfile.
  destruct (schema_ok path cols op d1) as (d2 & Hs & _); [|by rewrite (zlen_columns L)|done|by exists d2].
  split; [unfold short_name; lia|done].
Qed.

(** Only a scan can be printed. The loop over the children of an operator
    moves its input out to count the children, so that the next line is that of a
    null pointer. *)
Theorem pretty_loses_input op indent out fuel d s d' :
  operator_toString op d = Ok (s, d') →
  pretty (S (S fuel)) (Some op) indent out d
  = match op with
    | LogicalScan _ => Ok (out ++ ([ascii_of_N 10] ++ replicate (Z.to_nat indent) (ascii_of_N 9)) ++ s, d')
    | _ => Undef NullDeref
    end.
Proof.
  intros Hs. cbn [pretty deref]. ok_step. rewrite Hs. ok_step.
  destruct op; cbn [children length Nat.eqb]; try done. by rewrite <- !app_assoc.
Qed.
End plans.

(** ** Plans over a table of people *)

Definition sample_plan : LogicalOperator :=
  LogicalProjection (Some (LogicalSelection (Some (LogicalScan (Some (str "people"))))
                             (Some (ColumnLogicalExpr (str "year") (Some IntegerPrimitiveType)))))
    [mkColumnExpr (str "name") (Some VarcharPrimitiveType)].

Lemma plan_schema_witness :
  ∃ dm h d1, create_table (str "people") (column_of <$> sample_cols) (zlen sample_cols) new_heap ∅
      = Ok (Some dm, h, d1)
    ∧ (∃ d2, schema (U:=zero_uninit) (LogicalScan (Some (str "people"))) d1
        = Ok (mkTable (str "people") [mkColumn (str "name") (Some VarcharPrimitiveType);
                                      mkColumn (str "year") (Some IntegerPrimitiveType)], d2))
    ∧ ∃ d2, schema (U:=zero_uninit) sample_plan d1
        = Ok (mkTable (str "people") [mkColumn (str "name") (Some VarcharPrimitiveType)], d2).
Proof.
  destruct (plan_schema (U:=zero_uninit) (str "people") 4 sample_cols new_heap ∅) as (dm & h & d1 & Hc & Hs);
    [by_compute|apply new_heap_ok|done|by repeat constructor|by_compute..|].
  exists dm, h, d1. exact (conj Hc (conj (Hs (LogicalScan (Some (str "people"))) eq_refl) (Hs sample_plan eq_refl))).
Defined.

Lemma pretty_loses_input_witness :
  pretty (H:=sample_platform) (U:=zero_uninit) 2 (Some sample_plan) 0 [] ∅ = Undef NullDeref.
Proof.
  exact (pretty_loses_input (H:=sample_platform) (U:=zero_uninit) sample_plan 0 [] 0 ∅ _ _ eq_refl).
Defined.
