(* ===== verification/BTree.v ===== *)
(** * BTree: the B+tree index ([index/btree_index.hpp], [index/btree_index.cpp],
    [index/btree_strategy.hpp], [index/btree_strategy.cpp])

    The nodes of the tree are the pages of an index file, fetched through the
    buffer pool and flushed to disk whenever they change. The operations run in
    a monad over the tree, its pool, the heap of the pool and the disk. *)
From S2P Require Import Prelude Serialize IndexPage Memory Hash NumTable CircularList ClockReplacer Disk Bpm.

(** ** The code *)

Record BTree := mkBTree { magic_num : Z; max_size : Z; root_pid : Z; node_count : Z }.

(** The state that the operations share. *)
Record index := mkIndex { tree : BTree; pool : BufferPoolManager; hp : heap; dk : disk }.
Definition io (A : Type) : Type := index → outcome (A * index).
#[export] Instance io_ret : MRet io := λ A a s, Ok (a, s).
#[export] Instance io_bind : MBind io := λ A B f m s,
  match m s with
  | Ok (a, s) => f a s
  | Throw e => Throw e
  | Exit c => Exit c
  | Undef e => Undef e
  | OutOfFuel => OutOfFuel
  end.
Definition lift {A} (o : outcome A) : io A := λ s, a ← o; Ok (a, s).
Definition get_tree : io BTree := λ s, Ok (tree s, s).
Definition put_tree (t : BTree) : io () := λ s, Ok ((), mkIndex t (pool s) (hp s) (dk s)).
Definition assert_that (b : bool) : io () := lift (if b then Ok () else Undef AssertFail).

(** Members that a constructor of a node leaves uninitialised. *)
Class UninitNode := { flags0 : Z; rightmost0 : Z; next0 : Z }.
Definition new_node `{UninitNode} (is_leaf : bool) : BTreePage :=
  new_BTreePage is_leaf flags0 rightmost0 next0.

(** [v.erase(v.begin() + i)] and [v.pop_back()]. *)
Definition vec_erase {A} (v : list A) (i : Z) : outcome (list A) :=
  if (0 <=? i) && (i <? zlen v) then Ok (delete (Z.to_nat i) v) else Undef OutOfBounds.
Definition vec_pop_back {A} (v : list A) : outcome (list A) :=
  match v with [] => Undef OutOfBounds | _ => Ok (removelast v) end.

(** Assignments to members of a node. *)
Definition set_keys (ks : list BTreeKey) (p : BTreePage) : BTreePage :=
  mkPage (is_leaf p) ks (flags p) (rightmost_ptr p) (next p) (values p).
Definition set_values (vs : page_values) (p : BTreePage) : BTreePage :=
  mkPage (is_leaf p) (keys p) (flags p) (rightmost_ptr p) (next p) vs.
Definition set_rightmost (pid : Z) (p : BTreePage) : BTreePage :=
  mkPage (is_leaf p) (keys p) (flags p) pid (next p) (values p).
Definition set_next (pid : Z) (p : BTreePage) : BTreePage :=
  mkPage (is_leaf p) (keys p) (flags p) (rightmost_ptr p) pid (values p).
(** Assignments to members of the tree. *)
Definition set_root (pid : Z) (t : BTree) : BTree := mkBTree (magic_num t) (max_size t) pid (node_count t).
Definition add_nodes (n : Z) (t : BTree) : BTree :=
  mkBTree (magic_num t) (max_size t) (root_pid t) (u16 (node_count t + n)).

(** Steps of a computation in the monad. *)
Lemma io_bind_ok {A B} (m : io A) (f : A → io B) s a s' : m s = Ok (a, s') → (m ≫= f) s = f a s'.
Proof. unfold mbind, io_bind. by intros ->. Qed.
Lemma lift_bind {A B} (a : A) (f : A → io B) s : (lift (Ok a) ≫= f) s = f a s.
Proof. done. Qed.
Lemma get_tree_bind {B} (f : BTree → io B) s : (get_tree ≫= f) s = f (tree s) s.
Proof. done. Qed.
Lemma put_tree_bind {B} t (f : () → io B) s : (put_tree t ≫= f) s = f () (mkIndex t (pool s) (hp s) (dk s)).
Proof. done. Qed.
Ltac lift_step := first [rewrite lift_bind|rewrite get_tree_bind|rewrite put_tree_bind]; cbv beta iota zeta.
(** A step whose result is known. *)
Ltac io_step H := erewrite io_bind_ok by exact H; cbv beta iota zeta.

Section code.
Context `{U : Uninit} `{N : UninitNode}.

(** *** Pages of the tree *)

(** [fetch_bpm_page]: the frame of the page. *)
Definition fetch (pid : Z) : io Z := λ s,
  r ← fetch_bpm_page pid (pool s) (hp s) (dk s);
  let '(fid, bpm, h, d) := r in Ok (fid, mkIndex (tree s) bpm h d).
Definition frame (fid : Z) : io BpmPage := λ s, p ← get_page fid (pool s); Ok (p, s).
Definition getBtreePage (pid : Z) : io BTreePage :=
  fid ← fetch pid; p ← frame fid; lift (deserialize (data p)).
Definition alloc_page (is_leaf : bool) : io Z := λ s,
  r ← new_btree_index_page (disk_manager (pool s)) is_leaf (dk s);
  let '(pid, d) := r in Ok (pid, mkIndex (tree s) (pool s) (hp s) d).
(** The frame of the page is looked up by the number in the frame. *)
Definition write_and_flush (node_pid id : Z) (bytes : list Z) : io () := λ s,
  el ← hash_find (format_u id) (page_table (pool s)) (hp s);
  match el with
  | None => Undef NullDeref
  | Some el =>
      fid ← load_u32 (el_data el) (hp s);
      bpm ← write_to_frame fid bytes (pool s);
      r ← flush_page node_pid bpm (hp s) (dk s);
      let '(_, bpm, h, d) := r in Ok ((), mkIndex (tree s) bpm h d)
  end.
Definition flush_node (node_pid : Z) (bytes : list Z) : io () :=
  fid ← fetch node_pid;
  bpm_page ← frame fid;
  write_and_flush node_pid (page_id bpm_page) bytes.
Definition flush_page_of (pid : Z) (p : BTreePage) : io () :=
  bytes ← lift (serialize p uninit); flush_node pid bytes.

(** *** The metadata of the tree *)

Definition tree_serialize (t : BTree) : outcome (list Z) :=
  data ← encode_uint32 (magic_num t) uninit MAGIC_NUMBER_OFFSET;
  data ← encode_uint16 (node_count t) data NODE_COUNT_OFFSET;
  data ← encode_uint32 (root_pid t) data CURR_ROOT_PID_OFFSET;
  wr data MAX_KEYSIZE_OFFSET (max_size t).
Definition tree_deserialize (dm : DiskManager) (d : disk) : outcome (BTree * disk) :=
  r ← read_page BTREE_METADATA_PAGE_ID dm d;
  let '(metadata, d) := r in
  magic ← decode_uint32 metadata MAGIC_NUMBER_OFFSET;
  if negb (magic =? BTREE_INDEX) then Undef AssertFail
  else
    count ← decode_uint16 metadata NODE_COUNT_OFFSET;
    root ← decode_uint32 metadata CURR_ROOT_PID_OFFSET;
    max ← rd metadata MAX_KEYSIZE_OFFSET;
    Ok (mkBTree magic max root count, d).
Definition flush_tree : io () :=
  t ← get_tree; bytes ← lift (tree_serialize t); flush_node BTREE_METADATA_PAGE_ID bytes.

(** *** [findLeaf] *)

(** The stack of page numbers and indices on the way from the root, its top
    first. *)
Abbreviation breadcrumbs := (list (Z * Z)).

(** The loop over the keys of an internal node: a child may replace [temp] and
    the loop goes on with its keys. *)
Fixpoint scan_keys (fuel : nat) (i : Z) (key : BTreeKey) (fid : Z) (temp : BTreePage) (crumbs : breadcrumbs)
    : io (Z * BTreePage * breadcrumbs) :=
  match fuel with
  | O => lift OutOfFuel
  | S fuel =>
      if i <? zlen (keys temp) then
        prev_key ← lift (vec_at (keys temp) (i - 1));
        curr_key ← lift (vec_at (keys temp) i);
        if (0 <? cmpKeys prev_key key) && (cmpKeys curr_key key <=? 0) then
          page ← frame fid;
          children ← lift (INTERNAL_CHILDREN (values temp));
          next_ptr ← lift (vec_at children i);
          fid ← fetch next_ptr;
          p ← frame fid;
          temp ← lift (deserialize (data p));
          scan_keys fuel (u16 (i + 1)) key fid temp ((page_id page, i) :: crumbs)
        else scan_keys fuel (u16 (i + 1)) key fid temp crumbs
      else mret (fid, temp, crumbs)
  end.

(** A page has fewer keys than bytes. *)
Definition scan_budget : nat := Z.to_nat PAGE_SIZE.

Fixpoint descend (fuel : nat) (key : BTreeKey) (fid : Z) (temp : BTreePage) (crumbs : breadcrumbs)
    : io (BTreePage * breadcrumbs * Z) :=
  match fuel with
  | O => lift OutOfFuel
  | S fuel =>
      if is_leaf temp then
        page ← frame fid; mret (temp, crumbs, page_id page)
      else
        first_key ← lift (vec_at (keys temp) 0);
        if 0 <? cmpKeys first_key key then
          page ← frame fid;
          children ← lift (INTERNAL_CHILDREN (values temp));
          next_ptr ← lift (vec_at children 0);
          fid ← fetch next_ptr;
          p ← frame fid;
          temp ← lift (deserialize (data p));
          descend fuel key fid temp ((page_id page, 0) :: crumbs)
        else
          r ← scan_keys scan_budget 1 key fid temp crumbs;
          let '(fid, temp, crumbs) := r in
          page ← frame fid;
          fid ← fetch (rightmost_ptr temp);
          p ← frame fid;
          temp ← lift (deserialize (data p));
          descend fuel key fid temp ((page_id page, -1) :: crumbs)
  end.
Definition findLeaf (fuel : nat) (key : BTreeKey) : io (BTreePage * breadcrumbs * Z) :=
  t ← get_tree;
  fid ← fetch (root_pid t);
  p ← frame fid;
  temp ← lift (deserialize (data p));
  descend fuel key fid temp [].

(** *** Splits *)

(** Returns the new node and the node that was full. The last child of an
    internal node is taken off a copy only. *)
Definition redistribute_kv V `{VAL_T V} (empty_node full_node : BTreePage) : outcome (BTreePage * BTreePage) :=
  ks ← vec_second_half (keys full_node) (is_leaf empty_node);
  ks' ← vec_first_half (keys full_node) false;
  full_vals ← get_values (values full_node);
  if val_is_leaf V then
    vs ← vec_second_half full_vals true;
    vs' ← vec_first_half full_vals false;
    Ok (set_values (put_values vs) (set_keys ks empty_node),
        set_values (put_values vs') (set_keys ks' full_node))
  else
    vs ← vec_second_half full_vals false;
    vs' ← vec_first_half full_vals true;
    children ← INTERNAL_CHILDREN (put_values vs');
    last ← vec_at children (zlen children - 1);
    Ok (set_rightmost (rightmost_ptr full_node) (set_values (put_values vs) (set_keys ks empty_node)),
        set_rightmost last (set_values (put_values vs') (set_keys ks' full_node))).

(** Returns the old root as the caller sees it afterwards. *)
Definition splitRootNode V `{VAL_T V} (old_root_node : BTreePage) : io BTreePage :=
  t ← get_tree;
  let old_root_pid := root_pid t in
  mid_key ← lift (vec_at (keys old_root_node) (zlen (keys old_root_node) / 2));
  new_node_id ← alloc_page (val_is_leaf V);
  new_root_id ← alloc_page false;
  _ ← put_tree (add_nodes 2 t);
  r ← lift (redistribute_kv V (new_node (val_is_leaf V)) old_root_node);
  let '(node, old_root_node) := r in
  let old_root_node := set_next new_node_id old_root_node in
  let new_root := new_node false in
  children ← lift (INTERNAL_CHILDREN (values new_root));
  let new_root := set_rightmost new_node_id
                    (set_values (InternalChildren (old_root_pid :: children))
                       (set_keys (mid_key :: keys new_root) new_root)) in
  t ← get_tree;
  _ ← put_tree (set_root new_root_id t);
  _ ← assert_that (negb (new_node_id =? BTREE_METADATA_PAGE_ID)
                   && negb (new_root_id =? BTREE_METADATA_PAGE_ID));
  _ ← flush_tree;
  _ ← flush_page_of new_node_id node;
  _ ← flush_page_of new_root_id new_root;
  _ ← flush_page_of old_root_pid old_root_node;
  mret old_root_node.

(** [getPrevBreadcrumbPid] of a stack that is not empty. *)
Definition crumb_pid (crumb : Z * Z) : io Z := fid ← fetch crumb.1; p ← frame fid; mret (page_id p).
(** The page on top of the stack, which the callers pop. *)
Definition getPrevBreadcrumbPid (crumbs : breadcrumbs) : io Z :=
  match crumbs with [] => mret 0 | crumb :: _ => crumb_pid crumb end.

(** The recursion goes on with the node above the parent. *)
Fixpoint splitNonRootNode V `{VAL_T V} (old_node : BTreePage) (old_node_pid : Z) (crumbs : breadcrumbs)
    {struct crumbs} : io BTreePage :=
  mid_key ← lift (vec_at (keys old_node) (zlen (keys old_node) / 2));
  new_node_id ← alloc_page (val_is_leaf V);
  t ← get_tree;
  _ ← put_tree (add_nodes 1 t);
  r ← lift (redistribute_kv V (new_node (val_is_leaf V)) old_node);
  let '(node, old_node) := r in
  let node := set_next (next old_node) node in
  let old_node := set_next new_node_id old_node in
  parent_pid ← getPrevBreadcrumbPid crumbs;
  parent ← getBtreePage parent_pid;
  parent ← lift (insertIntoNode (V:=Z) parent mid_key old_node_pid);
  last_key ← lift (vec_at (keys parent) (zlen (keys parent) - 1));
  let parent := if key_eqb last_key mid_key then set_rightmost new_node_id parent else parent in
  _ ← assert_that (negb (new_node_id =? BTREE_METADATA_PAGE_ID)
                   && negb (old_node_pid =? BTREE_METADATA_PAGE_ID));
  _ ← flush_page_of parent_pid parent;
  _ ← flush_page_of new_node_id node;
  _ ← flush_page_of old_node_pid old_node;
  t ← get_tree;
  if max_size t <? zlen (keys parent) then
    match crumbs with
    | [] | [_] =>
        root_page ← getBtreePage (root_pid t);
        _ ← splitRootNode Z root_page;
        mret old_node
    | _ :: crumb :: crumbs =>
        top_pid ← crumb_pid crumb;
        top_node ← getBtreePage top_pid;
        _ ← splitNonRootNode Z top_node top_pid crumbs;
        mret old_node
    end
  else mret old_node.

(** *** [insert] *)

(** A tree without nodes gets a leaf for its root. *)
Definition ensure_root : io () :=
  t ← get_tree;
  if root_pid t <=? BTREE_METADATA_PAGE_ID then
    pid ← alloc_page true;
    _ ← put_tree (set_root pid t);
    _ ← assert_that (negb (pid =? BTREE_METADATA_PAGE_ID));
    t ← get_tree;
    put_tree (add_nodes 1 t)
  else mret ().
(** A node that is too large is split; its keys are those of the leaf that is
    written in the end. *)
Definition split_if_full (leaf : BTreePage) (leaf_pid : Z) (crumbs : breadcrumbs) : io BTreePage :=
  t ← get_tree;
  if max_size t <? zlen (keys leaf) then
    _ ← assert_that (negb (root_pid t =? BTREE_METADATA_PAGE_ID));
    match crumbs with
    | [] => splitRootNode RID leaf
    | _ => splitNonRootNode RID leaf leaf_pid crumbs
    end
  else mret leaf.
(** The fuel is that of [findLeaf]. *)
Definition insert (fuel : nat) (key : BTreeKey) (val : RID) : io Z :=
  _ ← ensure_root;
  r ← findLeaf fuel key;
  let '(leaf, crumbs, leaf_pid) := r in
  _ ← assert_that (negb (leaf_pid =? BTREE_METADATA_PAGE_ID));
  if existsb (λ leaf_key, cmpKeys leaf_key key =? 0) (keys leaf) then mret 0
  else
    leaf ← lift (insertIntoNode leaf key val);
    leaf ← split_if_full leaf leaf_pid crumbs;
    _ ← flush_page_of leaf_pid leaf;
    mret leaf_pid.

(** *** [remove] *)

(** The node, its sibling and the parent while they are merged. *)
Record BTreePageLocalInfo := mkLocal {
  node : BTreePage; local_node_pid : Z; sibling : BTreePage; sibling_pid : Z;
  local_parent : BTreePage; parent_pid : Z }.

(** The strategies return the three nodes as they are afterwards. *)
Definition MergeLeafNode_merge (local : BTreePageLocalInfo) (parent_crumb : Z * Z) (is_left_sib : bool)
    : io BTreePageLocalInfo :=
  t ← get_tree;
  sibling_vals ← lift (LEAF_RECORDS (values (sibling local)));
  node_vals ← lift (LEAF_RECORDS (values (node local)));
  parent_vals ← lift (INTERNAL_CHILDREN (values (local_parent local)));
  if (zlen (keys (sibling local)) =? 0)
     || (max_size t <? zlen (keys (node local)) + zlen (keys (sibling local))) then mret local
  else if is_left_sib then
    let sib := set_values (LeafRecords (sibling_vals ++ node_vals))
                 (set_keys (keys (sibling local) ++ keys (node local)) (sibling local)) in
    _ ← flush_page_of (sibling_pid local) sib;
    par ← (if zlen (keys (local_parent local)) =? 1 then
             vs ← lift (vec_set parent_vals 0 (sibling_pid local));
             mret (set_values (InternalChildren vs) (local_parent local))
           else mret (set_rightmost (sibling_pid local) (local_parent local)));
    vs ← lift (INTERNAL_CHILDREN (values par));
    vs ← lift (vec_pop_back vs);
    ks ← lift (vec_pop_back (keys par));
    mret (mkLocal (node local) (local_node_pid local) sib (sibling_pid local)
            (set_keys ks (set_values (InternalChildren vs) par)) (parent_pid local))
  else
    let nd := set_values (LeafRecords (node_vals ++ sibling_vals))
                (set_keys (keys (node local) ++ keys (sibling local)) (node local)) in
    r ← (if sibling_pid local =? rightmost_ptr (local_parent local) then
           mret (nd, set_rightmost 0 (local_parent local))
         else
           vs ← lift (vec_erase parent_vals parent_crumb.2);
           vs ← lift (vec_set vs parent_crumb.2 (local_node_pid local));
           ks ← lift (vec_erase (keys (local_parent local)) parent_crumb.2);
           mret (set_next (next (sibling local)) nd,
                 set_keys ks (set_values (InternalChildren vs) (local_parent local))));
    let '(nd, par) := r in
    _ ← flush_page_of (local_node_pid local) nd;
    mret (mkLocal nd (local_node_pid local) (sibling local) (sibling_pid local) par (parent_pid local)).

Definition MergeNonLeafNode_merge (local : BTreePageLocalInfo) (parent_crumb : Z * Z) (is_left_sib : bool)
    : io BTreePageLocalInfo :=
  t ← get_tree;
  let total_ptr_num := u16 (zlen (keys (node local)) + 1 + zlen (keys (sibling local)) + 1) in
  if max_size t + 1 <? total_ptr_num then mret local
  else
    sibling_vals ← lift (INTERNAL_CHILDREN (values (sibling local)));
    node_vals ← lift (INTERNAL_CHILDREN (values (node local)));
    local ← (if is_left_sib then
               demoted_key ← lift (vec_at (keys (local_parent local)) (zlen (keys (local_parent local)) - 1));
               ks ← lift (vec_erase (keys (local_parent local)) (zlen (keys (local_parent local)) - 1));
               let par := set_rightmost 0 (set_keys ks (local_parent local)) in
               let sib := set_rightmost (rightmost_ptr (node local))
                            (set_values (InternalChildren (sibling_vals ++ rightmost_ptr (sibling local) :: node_vals))
                               (set_keys (keys (sibling local) ++ demoted_key :: keys (node local)) (sibling local))) in
               _ ← flush_page_of (sibling_pid local) sib;
               mret (mkLocal (node local) (local_node_pid local) sib (sibling_pid local) par (parent_pid local))
             else
               demoted_key ← lift (vec_at (keys (local_parent local)) parent_crumb.2);
               ks ← lift (vec_erase (keys (local_parent local)) parent_crumb.2);
               let nd := set_rightmost (rightmost_ptr (sibling local))
                           (set_values (InternalChildren (node_vals ++ sibling_vals))
                              (set_keys (keys (node local) ++ demoted_key :: keys (sibling local)) (node local))) in
               _ ← flush_page_of (local_node_pid local) nd;
               mret (mkLocal nd (local_node_pid local) (sibling local) (sibling_pid local)
                       (set_keys ks (local_parent local)) (parent_pid local)));
    _ ← flush_page_of parent_crumb.1 (local_parent local);
    mret local.

(** The strategy objects, and the context that holds one and the arguments of its
    merge. The pointer to the strategy is null until one is set. *)
Inductive MergeStrategy := MergeLeafNodeStrategy | MergeNonLeafNodeStrategy.
Definition strategy_merge (strategy : MergeStrategy) : BTreePageLocalInfo → Z * Z → bool → io BTreePageLocalInfo :=
  match strategy with
  | MergeLeafNodeStrategy => MergeLeafNode_merge
  | MergeNonLeafNodeStrategy => MergeNonLeafNode_merge
  end.
Record MergeContext := mkMergeContext {
  strategy_ : option MergeStrategy; ctx_local : BTreePageLocalInfo; ctx_parent_crumb : Z * Z; ctx_is_left_sib : bool }.
Definition setStrategy (strategy : MergeStrategy) (context : MergeContext) : MergeContext :=
  mkMergeContext (Some strategy) (ctx_local context) (ctx_parent_crumb context) (ctx_is_left_sib context).
Definition context_merge (context : MergeContext) : io BTreePageLocalInfo :=
  match strategy_ context with
  | Some strategy => strategy_merge strategy (ctx_local context) (ctx_parent_crumb context) (ctx_is_left_sib context)
  | None => lift (Undef NullDeref)
  end.

Fixpoint merge (node_pid : Z) (parent_crumb : Z * Z) (crumbs : breadcrumbs) {struct crumbs} : io () :=
  parent ← getBtreePage parent_crumb.1;
  parent_vals ← lift (INTERNAL_CHILDREN (values parent));
  node ← getBtreePage node_pid;
  let is_left_sib := parent_crumb.2 =? -1 in
  sib_pid ← (if is_left_sib then lift (vec_at parent_vals (zlen parent_vals - 1)) else mret (next node));
  sib ← getBtreePage sib_pid;
  let local := mkLocal node node_pid sib sib_pid parent parent_crumb.1 in
  let context := mkMergeContext None local parent_crumb is_left_sib in
  let context := setStrategy (if is_leaf node then MergeLeafNodeStrategy else MergeNonLeafNodeStrategy) context in
  local ← context_merge context;
  _ ← flush_page_of parent_crumb.1 (local_parent local);
  match crumbs with
  | [] =>
      if zlen (keys (local_parent local)) =? 0 then
        t ← get_tree;
        _ ← put_tree (set_root (if is_left_sib then sibling_pid local else local_node_pid local) t);
        flush_tree
      else mret ()
  | crumb :: crumbs => merge parent_crumb.1 crumb crumbs
  end.

(** The index of a key, or the number of keys. *)
Fixpoint key_index (ks : list BTreeKey) (key : BTreeKey) : nat :=
  match ks with
  | [] => 0
  | k :: ks => if key_eqb k key then 0 else S (key_index ks key)
  end.

Definition remove (fuel : nat) (key : BTreeKey) : io () :=
  r ← findLeaf fuel key;
  let '(leaf, crumbs, leaf_pid) := r in
  leaf_vals ← lift (LEAF_RECORDS (values leaf));
  let i := Z.of_nat (key_index (keys leaf) key) in
  ks ← lift (vec_erase (keys leaf) i);
  vs ← lift (vec_erase leaf_vals i);
  let leaf := set_values (LeafRecords vs) (set_keys ks leaf) in
  _ ← flush_page_of leaf_pid leaf;
  match crumbs with
  | [] => mret ()
  | crumb :: crumbs => merge leaf_pid crumb crumbs
  end.
End code.

(** ** Splitting a node *)

(** The subtrees of an internal node from left to right. A value without a key
    is not written to disk. *)
Definition subtrees (p : BTreePage) : list Z :=
  match values p with
  | InternalChildren cs => take (length (keys p)) cs ++ [rightmost_ptr p]
  | LeafRecords _ => []
  end.

Section splits.
Context `{N : UninitNode}.

Lemma half_lt {A} (l : list A) : l ≠ [] → (length l / 2 < length l)%nat.
Proof. destruct l; [done|]. intros _. apply Nat.div_lt; cbn; lia. Qed.

Lemma vec_second_half_ok {A} (v : list A) (mid : bool) n :
  (length v / 2 + if mid then 0 else 1)%nat = n → (n ≤ length v)%nat → vec_second_half v mid = Ok (drop n v).
Proof. intros <- Hn. unfold vec_second_half. by rewrite (proj2 (Nat.leb_le _ _)) by done. Qed.
Lemma vec_first_half_ok {A} (v : list A) (mid : bool) n :
  (length v / 2 + if mid then 1 else 0)%nat = n → (n ≤ length v)%nat → vec_first_half v mid = Ok (take n v).
Proof. intros <- Hn. unfold vec_first_half. by rewrite (proj2 (Nat.leb_le _ _)) by done. Qed.

Lemma redistribute_leaf_ok full vs :
  values full = LeafRecords vs → length vs = length (keys full) →
  let n := (length (keys full) / 2)%nat in
  redistribute_kv RID (new_node true) full
  = Ok (set_values (LeafRecords (drop n vs)) (set_keys (drop n (keys full)) (new_node true)),
        set_values (LeafRecords (take n vs)) (set_keys (take n (keys full)) full)).
Proof.
  intros Hv Hlen n. assert (n ≤ length (keys full))%nat as Hn by (apply Nat.Div0.div_le_upper_bound; lia).
  unfold redistribute_kv. cbn [new_node new_BTreePage is_leaf].
  rewrite (vec_second_half_ok _ true n), (vec_first_half_ok _ false n) by (try done; subst n; lia). do 2 ok_step.
  rewrite Hv. cbn [get_values VAL_T_RID LEAF_RECORDS val_is_leaf put_values]. ok_step.
  rewrite (vec_second_half_ok _ true n), (vec_first_half_ok _ false n) by (rewrite ?Hlen; try done; subst n; lia).
  by do 2 ok_step.
Qed.

Lemma redistribute_internal_ok full cs c :
  values full = InternalChildren cs → length cs = length (keys full) → keys full ≠ [] →
  let n := (length (keys full) / 2)%nat in
  cs !! n = Some c →
  redistribute_kv Z (new_node false) full
  = Ok (set_rightmost (rightmost_ptr full)
          (set_values (InternalChildren (drop (S n) cs)) (set_keys (drop (S n) (keys full)) (new_node false))),
        set_rightmost c (set_values (InternalChildren (take (S n) cs)) (set_keys (take n (keys full)) full))).
Proof.
  intros Hv Hlen Hne n Hc. pose proof (half_lt _ Hne) as Hn. fold n in Hn.
  unfold redistribute_kv. cbn [new_node new_BTreePage is_leaf].
  rewrite (vec_second_half_ok _ false (S n)), (vec_first_half_ok _ false n) by (subst n; lia). do 2 ok_step.
  rewrite Hv. cbn [get_values VAL_T_u32 INTERNAL_CHILDREN val_is_leaf put_values]. ok_step.
  rewrite (vec_second_half_ok _ false (S n)), (vec_first_half_ok _ true (S n)) by (rewrite Hlen; subst n; lia).
  do 3 ok_step.
  assert (zlen (take (S n) cs) - 1 = Z.of_nat n) as ->.
  { unfold zlen. rewrite length_take. lia. }
  by rewrite (vec_at_lookup _ n c) by (rewrite lookup_take_lt by lia; done).
Qed.

(** C16: splitting a node. The keys of a leaf go, with their records, to the left
    and the right half, nothing lost and in order; of an internal node the middle
    key goes up, and its subtrees, the rightmost one included, are the subtrees of
    the left half followed by those of the right half. The halves differ by one
    key at most. *)
Theorem redistribute_kv_spec full :
  (∀ vs, values full = LeafRecords vs → length vs = length (keys full) →
    ∃ right left vs1 vs2, redistribute_kv RID (new_node true) full = Ok (right, left)
      ∧ keys full = keys left ++ keys right ∧ vs = vs1 ++ vs2
      ∧ values left = LeafRecords vs1 ∧ values right = LeafRecords vs2
      ∧ length vs1 = length (keys left) ∧ length vs2 = length (keys right)
      ∧ (length (keys left) ≤ length (keys right) ≤ S (length (keys left)))%nat)
  ∧ (∀ cs, values full = InternalChildren cs → length cs = length (keys full) → keys full ≠ [] →
    ∃ right left mid, redistribute_kv Z (new_node false) full = Ok (right, left)
      ∧ keys full = keys left ++ mid :: keys right
      ∧ keys full !! (length (keys full) / 2)%nat = Some mid
      ∧ subtrees full = subtrees left ++ subtrees right
      ∧ (length (keys right) ≤ length (keys left) ≤ S (length (keys right)))%nat).
Proof.
  pose proof (Nat.div_mod_eq (length (keys full)) 2) as Hdiv.
  pose proof (Nat.mod_upper_bound (length (keys full)) 2 ltac:(done)) as Hmod.
  set (n := (length (keys full) / 2)%nat) in *. split.
  - intros vs Hv Hlen. rewrite (redistribute_leaf_ok full vs) by done. fold n.
    eexists _, _, (take n vs), (drop n vs). split; [done|]. cbn [keys values set_keys set_values].
    rewrite !take_drop, !length_take, !length_drop. split_and!; try done; lia.
  - intros cs Hv Hlen Hne. pose proof (half_lt _ Hne) as Hn. fold n in Hn.
    destruct (lookup_lt_is_Some_2 cs n) as [c Hc]; [lia|].
    destruct (lookup_lt_is_Some_2 (keys full) n) as [mid Hmid]; [lia|].
    rewrite (redistribute_internal_ok full cs c) by done. fold n.
    eexists _, _, mid. split; [done|]. cbn [keys values set_keys set_values set_rightmost].
    split_and!; [by rewrite take_drop_middle|done| |rewrite length_take, length_drop; lia..].
    unfold subtrees. cbn [keys values set_keys set_values set_rightmost rightmost_ptr]. rewrite Hv.
    rewrite (take_ge cs), (take_ge (drop (S n) cs)) by (rewrite ?length_drop; lia).
    rewrite take_take, length_take, app_assoc. f_equal.
    replace (Init.Nat.min (Init.Nat.min n (length (keys full))) (S n)) with n by lia.
    rewrite <- app_assoc. symmetry. by apply take_drop_middle.
Qed.
End splits.

(** ** Merging inner nodes *)

Section inner_merge.
Context `{U : Uninit} `{N : UninitNode}.

Lemma io_bind_assoc {A B C} (m : io A) (f : A → io B) (g : B → io C) s : ((m ≫= f) ≫= g) s = (m ≫= λ a, f a ≫= g) s.
Proof. unfold mbind, io_bind. by destruct (m s) as [[]|?|?|?|]. Qed.

Lemma subtrees_take p cs : values p = InternalChildren cs → subtrees p = take (length (keys p)) cs ++ [rightmost_ptr p].
Proof. unfold subtrees. by intros ->. Qed.

(** C17: merging two inner nodes. The two are written as one node with the key
    between them, and the parent without that key. With the sibling on the left
    the node has all subtrees of the two, but the parent refers to neither: its
    rightmost child is page 0, the metadata. With the sibling on the right the
    rightmost subtree of the node is lost, and the parent loses its last child
    but one instead of the sibling. *)
Theorem inner_merge local crumb (left : bool) k cn cs cp s :
  let p := node local in
  let sib := sibling local in
  let par := local_parent local in
  values p = InternalChildren cn → length cn = length (keys p) →
  values sib = InternalChildren cs → length cs = length (keys sib) →
  values par = InternalChildren cp → length cp = length (keys par) →
  u16 (zlen (keys p) + 1 + zlen (keys sib) + 1) ≤ max_size (tree s) + 1 →
  (if left then last (keys par) = Some k else 0 ≤ crumb.2 ∧ keys par !! Z.to_nat crumb.2 = Some k) →
  ∃ big par' local', MergeNonLeafNode_merge local crumb left s
    = (_ ← flush_page_of (if left then sibling_pid local else local_node_pid local) big;
       _ ← flush_page_of crumb.1 par'; mret local') s
    ∧ local_parent local' = par'
    ∧ subtrees par = cp ++ [rightmost_ptr par]
    ∧ subtrees par' = take (pred (length cp)) cp ++ [if left then 0 else rightmost_ptr par]
    ∧ if left then
        keys big = keys sib ++ k :: keys p ∧ subtrees big = subtrees sib ++ subtrees p ∧ keys par = keys par' ++ [k]
      else
        keys big = keys p ++ k :: keys sib ∧ subtrees p = cn ++ [rightmost_ptr p] ∧ subtrees big = cn ++ subtrees sib
        ∧ keys par' = delete (Z.to_nat crumb.2) (keys par).
Proof.
  intros p sib par Hp Hlp Hs Hls Hpar Hlpar Hfew Hk. unfold MergeNonLeafNode_merge. fold p sib par.
  assert (subtrees p = cn ++ [rightmost_ptr p]) as Hsp by (unfold subtrees; by rewrite Hp, take_ge by lia).
  assert (subtrees par = cp ++ [rightmost_ptr par]) as Hspar by (unfold subtrees; by rewrite Hpar, take_ge by lia).
  assert (subtrees sib = cs ++ [rightmost_ptr sib]) as Hss by (unfold subtrees; by rewrite Hs, take_ge by lia).
  lift_step. rewrite (proj2 (Z.ltb_ge _ _)) by done. rewrite Hs, Hp. cbn [INTERNAL_CHILDREN]. do 2 lift_step. destruct left.
  - apply last_Some in Hk as [ks Hks].
    assert (zlen (keys par) - 1 = Z.of_nat (length ks)) as Hz by (rewrite Hks; unfold zlen; rewrite length_app; cbn; lia).
    rewrite io_bind_assoc, Hz, (vec_at_lookup _ _ k) by (rewrite Hks; by apply list_lookup_middle). lift_step.
    assert (vec_erase (keys par) (Z.of_nat (length ks)) = Ok ks) as Her.
    { unfold vec_erase. rewrite (proj2 (Z.leb_le _ _)), (proj2 (Z.ltb_lt _ _)) by lia. cbn.
      by rewrite Nat2Z.id, Hks, delete_middle, app_nil_r. }
    rewrite Her, io_bind_assoc. lift_step. rewrite io_bind_assoc. do 3 eexists. split; [reflexivity|].
    split; [done|]. split; [exact Hspar|]. rewrite (subtrees_take _ cp) by exact Hpar. cbn [local_parent keys set_keys set_rightmost rightmost_ptr].
    assert (length ks = pred (length cp)) as -> by (rewrite Hlpar, Hks, length_app; cbn; lia).
    split; [done|]. split; [done|]. split; [|by rewrite Hks]. unfold subtrees at 1. cbn [values set_values set_rightmost keys set_keys rightmost_ptr].
    rewrite Hsp, Hss, take_ge by (rewrite !length_app; cbn [length]; lia). by rewrite <- !app_assoc.
  - destruct Hk as [H0 Hk]. pose proof (lookup_lt_Some _ _ _ Hk) as Hlt.
    rewrite io_bind_assoc, (vec_at_ok _ _ k) by (done || unfold zlen; lia). lift_step.
    assert (vec_erase (keys par) crumb.2 = Ok (delete (Z.to_nat crumb.2) (keys par))) as Her.
    { unfold vec_erase, zlen. by rewrite (proj2 (Z.leb_le _ _)), (proj2 (Z.ltb_lt _ _)) by lia. }
    rewrite Her, io_bind_assoc. lift_step. rewrite io_bind_assoc. do 3 eexists. split; [reflexivity|].
    split; [done|]. split; [exact Hspar|]. rewrite (subtrees_take _ cp) by exact Hpar. cbn [local_parent keys set_keys set_rightmost rightmost_ptr].
    rewrite length_delete, <- Hlpar by done. split; [by destruct (length cp); rewrite ?Nat.sub_succ, ?Nat.sub_0_r|].
    split; [done|]. split; [done|]. split; [|done]. unfold subtrees at 1.
    cbn [values set_values set_rightmost keys set_keys rightmost_ptr].
    rewrite Hss, take_ge by (rewrite !length_app; cbn [length]; lia). by rewrite <- app_assoc.
Qed.
End inner_merge.

(** ** The way to a leaf *)

Lemma cmpKeys_cons x a y b : cmpKeys (x :: a) (y :: b) = if x =? y then cmpKeys a b else Z.sgn (x - y).
Proof. done. Qed.

(** A key below a key is below the keys that follow it in a sorted node. *)
Lemma cmpKeys_below prev curr key : 0 < cmpKeys prev key → cmpKeys prev curr < 0 → 0 < cmpKeys curr key.
Proof.
  revert curr key. induction prev as [|x prev IH]; intros [|y curr] [|z key]; try done.
  rewrite !cmpKeys_cons. destruct (Z.eqb_spec x z), (Z.eqb_spec x y), (Z.eqb_spec y z); try lia.
  apply IH.
Qed.

Lemma Sorted_neighbours ks i k k' :
  Sorted key_lt ks → ks !! i = Some k → ks !! S i = Some k' → cmpKeys k k' < 0.
Proof.
  revert i. induction ks as [|k0 ks IH]; intros i Hs Hk Hk'; [done|].
  apply Sorted_inv in Hs as [Hs Hhd]. destruct i as [|i]; [|by apply (IH i)].
  injection Hk as ->. destruct ks as [|k1 ks]; [done|]. injection Hk' as ->. by inversion Hhd.
Qed.

Section descent.
Context `{U : Uninit}.

Lemma scan_sorted fuel i key fid temp crumbs s :
  Sorted key_lt (keys temp) → zlen (keys temp) ≤ PAGE_SIZE → 1 ≤ i ≤ zlen (keys temp) → zlen (keys temp) - i < Z.of_nat fuel →
  scan_keys fuel i key fid temp crumbs s = Ok ((fid, temp, crumbs), s).
Proof.
  intros Hs Hsize. revert i. induction fuel as [|fuel IH]; intros i Hi Hf; cbn [scan_keys].
  { lia. }
  destruct (Z.ltb_spec i (zlen (keys temp))) as [Hlt|]; [|done].
  destruct (lookup_lt_is_Some_2 (keys temp) (Z.to_nat (i - 1))) as [prev Hprev]; [unfold zlen in *; lia|].
  destruct (lookup_lt_is_Some_2 (keys temp) (Z.to_nat i)) as [curr Hcurr]; [unfold zlen in *; lia|].
  assert (cmpKeys prev curr < 0) as Hlt'.
  { eapply (Sorted_neighbours (keys temp) (Z.to_nat (i - 1))); [done|done|].
    by replace (S (Z.to_nat (i - 1))) with (Z.to_nat i) by lia. }
  rewrite (vec_at_ok _ (i - 1) prev), (vec_at_ok _ i curr) by (done || lia).
  do 2 lift_step.
  assert ((0 <? cmpKeys prev key) && (cmpKeys curr key <=? 0) = false) as ->.
  { destruct (Z.ltb_spec 0 (cmpKeys prev key)) as [H1|]; [|done].
    pose proof (cmpKeys_below prev curr key H1 Hlt'). by rewrite (proj2 (Z.leb_gt _ _)). }
  assert (u16 (i + 1) = i + 1) as -> by (unfold u16, PAGE_SIZE in *; rewrite Z.mod_small; lia).
  apply IH; lia.
Qed.

(** The node with its first key, its first child and its rightmost child. *)
Definition ends (p : BTreePage) : BTreePage :=
  set_values (match values p with InternalChildren cs => InternalChildren (take 1 cs) | vs => vs end)
    (set_keys (take 1 (keys p)) p).

Lemma scan_first fuel key fid temp crumbs s :
  Sorted key_lt (keys temp) → zlen (keys temp) ≤ PAGE_SIZE → keys temp ≠ [] → PAGE_SIZE ≤ Z.of_nat fuel →
  scan_keys fuel 1 key fid temp crumbs s = Ok ((fid, temp, crumbs), s).
Proof.
  intros Hs Hsize Hne Hf. assert (1 ≤ zlen (keys temp)) by (destruct (keys temp); [done|unfold zlen; cbn [length]; lia]).
  apply scan_sorted; [done|done|lia|lia].
Qed.

(** The search for a leaf never takes a child between the first and the
    rightmost one: in a node with sorted keys it takes the same steps as in the
    node without them, whatever the key and the state. *)
Theorem descend_ends fuel key fid temp crumbs s :
  is_leaf temp = false → keys temp ≠ [] → Sorted key_lt (keys temp) → zlen (keys temp) ≤ PAGE_SIZE →
  descend (S fuel) key fid temp crumbs s = descend (S fuel) key fid (ends temp) crumbs s.
Proof.
  intros Hl Hne Hs Hsize. cbn [descend]. unfold ends at 1. cbn [is_leaf set_values set_keys]. rewrite Hl.
  destruct temp as [l ks fl rm nx vs]. cbn [is_leaf keys values rightmost_ptr set_values set_keys ends] in *.
  destruct ks as [|k0 ks]; [done|]. cbn [take].
  change (vec_at (k0 :: ks) 0) with (Ok k0). change (vec_at (k0 :: take 0 ks) 0) with (Ok k0).
  rewrite !lift_bind. cbv beta. case_bool.
  - unfold mbind, io_bind. destruct (frame fid s) as [[page s']|e|c|f|]; [|done..].
    by destruct vs as [recs|[|c0 cs]].
  - assert (∀ p, Sorted key_lt (keys p) → zlen (keys p) ≤ PAGE_SIZE → keys p ≠ [] →
      scan_keys scan_budget 1 key fid p crumbs s = Ok ((fid, p, crumbs), s)) as Hscan.
    { intros. apply scan_first; [done..|]. by vm_compute. }
    unfold mbind, io_bind. rewrite !Hscan by (done || by repeat constructor). done.
Qed.
End descent.

(** ** Witnesses *)

#[local] Existing Instance zero_uninit.
#[local] Instance zero_members : UninitNode := Build_UninitNode 0 0 0.

Definition three_records : BTreePage :=
  mkPage true [[65]; [66]; [67]] 0 0 0 (LeafRecords [mkRID 1 1; mkRID 1 2; mkRID 1 3]).
Definition four_children : BTreePage :=
  mkPage false [[65]; [66]; [67]] 0 9 0 (InternalChildren [5; 6; 7]).

Lemma redistribute_kv_spec_witness :
  (∃ right left, redistribute_kv RID (new_node true) three_records = Ok (right, left)
     ∧ keys three_records = keys left ++ keys right)
  ∧ (∃ right left mid, redistribute_kv Z (new_node false) four_children = Ok (right, left)
     ∧ keys four_children = keys left ++ mid :: keys right ∧ [5; 6; 7; 9] = subtrees left ++ subtrees right).
Proof.
  split.
  - destruct (proj1 (redistribute_kv_spec three_records) _ eq_refl eq_refl) as (right & left & ? & ? & ? & ? & _).
    by exists right, left.
  - destruct (proj2 (redistribute_kv_spec four_children) _ eq_refl eq_refl) as (right & left & mid & ? & ? & _ & ? & _);
      [done|]. by exists right, left, mid.
Defined.

(** The root of three inner nodes, of which two are merged, and of which the last
    two are lost with the sibling on the left. *)
Definition two_children (k a b : Z) : BTreePage := mkPage false [[k]] 0 b 0 (InternalChildren [a]).
Definition merged_local (node sib : Z * BTreePage) : BTreePageLocalInfo :=
  mkLocal node.2 node.1 sib.2 sib.1 (mkPage false [[68]; [72]] 0 3 0 (InternalChildren [1; 2])) 9.
Lemma inner_merge_witness :
  let s := mkIndex (mkBTree BTREE_INDEX 3 9 9) (new_bpm 1 (mkDiskManager (mkHashTable [] 0 false) (str "idx") false))
             new_heap ∅ in
  (∃ big par local, MergeNonLeafNode_merge (merged_local (3, two_children 74 7 8) (2, two_children 70 5 6)) (9, -1) true s
     = (_ ← flush_page_of 2 big; _ ← flush_page_of 9 par; mret local) s
     ∧ subtrees big = [5; 6; 7; 8] ∧ subtrees par = [1; 0])
  ∧ (∃ big par local, MergeNonLeafNode_merge (merged_local (1, two_children 66 10 11) (2, two_children 70 5 6)) (9, 0) false s
     = (_ ← flush_page_of 1 big; _ ← flush_page_of 9 par; mret local) s
     ∧ subtrees big = [10; 5; 6] ∧ subtrees par = [1; 3]).
Proof.
  split.
  - destruct (inner_merge (merged_local (3, two_children 74 7 8) (2, two_children 70 5 6)) (9, -1) true [72] [7] [5] [1; 2]
      (mkIndex (mkBTree BTREE_INDEX 3 9 9) (new_bpm 1 (mkDiskManager (mkHashTable [] 0 false) (str "idx") false)) new_heap ∅))
      as (big & par & local & Hm & _ & _ & Hpar & _ & Hbig & _); [done..|].
    exists big, par, local. split; [exact Hm|]. split; [exact Hbig|exact Hpar].
  - destruct (inner_merge (merged_local (1, two_children 66 10 11) (2, two_children 70 5 6)) (9, 0) false [68] [10] [5] [1; 2]
      (mkIndex (mkBTree BTREE_INDEX 3 9 9) (new_bpm 1 (mkDiskManager (mkHashTable [] 0 false) (str "idx") false)) new_heap ∅))
      as (big & par & local & Hm & _ & _ & Hpar & _ & _ & Hbig & _); [done..|].
    exists big, par, local. split; [exact Hm|]. split; [exact Hbig|exact Hpar].
Defined.

Lemma descend_ends_witness :
  let s := mkIndex (mkBTree BTREE_INDEX 3 1 1) (new_bpm 1 (mkDiskManager (mkHashTable [] 0 false) (str "idx") false))
             new_heap ∅ in
  is_leaf four_children = false ∧ ends four_children = mkPage false [[65]] 0 9 0 (InternalChildren [5])
  ∧ descend 1 [66] 0 four_children [] s = descend 1 [66] 0 (ends four_children) [] s.
Proof.
  split; [done|]. split; [done|].
  apply (descend_ends 0); [done|done|by repeat constructor|by_compute].
Defined.
