(* ===== verification/Cache.v ===== *)
(** * Cache: which pages of an index the frames of its pool hold

    The operations of a tree fetch pages, which stay in the pool, and flush
    others, which leave it. What the pool holds between two accesses is a
    function of the accesses so far; it is computed here on the roles that the
    pages have in a small tree, so that a whole sequence of accesses is checked
    by evaluation. *)
From stdpp Require Import functions.
From S2P Require Import Prelude Serialize IndexPage Memory Hash NumTable CircularList ClockReplacer Disk Bpm BTree.

Abbreviation dm_of s := (disk_manager (pool s)).

(** The pages of the file before and after a step, but for the page [pid]. *)
Definition other_pages (pid : Z) (s s' : index) : Prop :=
  tree s' = tree s ∧ dm_of s' = dm_of s
  ∧ (∀ q, 0 ≤ q → q ≠ pid → has_page (dm_of s) q (dk s) → page_of (dm_of s) q (dk s') = page_of (dm_of s) q (dk s))
  ∧ (∀ q, has_page (dm_of s) q (dk s) → has_page (dm_of s) q (dk s')).
(** A step that changes no page. *)
Definition same_pages (s s' : index) : Prop :=
  tree s' = tree s ∧ dm_of s' = dm_of s ∧ ∀ p, contents p (dk s') = contents p (dk s).

Lemma page_of_same dm q d d' :
  (∀ p, contents p d' = contents p d) → page_of dm q d' = page_of dm q d.
Proof. intros Hd. unfold page_of, file_of. by rewrite Hd. Qed.
Lemma has_page_same dm q d d' :
  (∀ p, contents p d' = contents p d) → has_page dm q d → has_page dm q d'.
Proof. intros Hd. unfold has_page, file_of. by rewrite Hd. Qed.

Lemma page_of_has dm q d : 0 ≤ q → zlen (page_of dm q d) = PAGE_SIZE → has_page dm q d.
Proof. unfold page_of, has_page, slice, zlen, PAGE_SIZE. rewrite length_take, length_drop. lia. Qed.

(** ** Caches *)

(** The pages in the first frames, named by the values of a type, and the frames
    that pages were flushed from, the last one first. *)
Record cache (R : Type) := mkCache { held : list (option R); unused : list nat }.
Arguments mkCache {R} _ _.
Arguments held {R} _.
Arguments unused {R} _.
#[export] Instance cache_eq `{EqDecision R} : EqDecision (cache R).
Proof. solve_decision. Defined.
(** The cache of a pool without pages. *)
Definition no_pages {R} (n : nat) : cache R := mkCache (replicate n None) [].

(** A sequence of accesses. *)
Inductive access (R : Type) := Fetch (r : R) | Flush (r : R).
Arguments Fetch {R} _.
Arguments Flush {R} _.

(** The frames that remain unused: the replacer finds the first two only. *)
Definition take_frame (i : nat) (l : list nat) : option (list nat) :=
  match l with
  | [] => Some []
  | j :: l =>
      if decide (i = j) then Some l
      else match l with
           | k :: l => if decide (i = k) then Some (j :: l) else None
           | [] => None
           end
  end.

Section caches.
Context `{EqDecision R}.

Definition frame_of (r : R) (c : cache R) : option nat := fst <$> list_find (λ o, o = Some r) (held c).
Definition spare (c : cache R) : option nat := fst <$> list_find (λ o, o = None) (held c).

Definition empty_frame (c : cache R) (i : nat) : bool :=
  match held c !! i with Some (Some _) => false | _ => true end.

(** Fetching a page, which is in the frame that is returned, ... *)
Definition load (r : R) (c : cache R) : option (nat * cache R) :=
  match frame_of r c with
  | Some i => Some (i, c)
  | None =>
      i ← spare c; l ← take_frame i (unused c);
      Some (i, mkCache (<[i := Some r]> (held c)) l)
  end.
(** ... and writing it back. *)
Definition store (r : R) (c : cache R) : option (cache R) :=
  x ← load r c; Some (mkCache (<[x.1 := None]> (held x.2)) (x.1 :: unused x.2)).

Fixpoint accesses (l : list (access R)) (c : cache R) : option (cache R) :=
  match l with
  | [] => Some c
  | Fetch r :: l => x ← load r c; accesses l x.2
  | Flush r :: l => c ← store r c; accesses l c
  end.
End caches.

(** The pages of a tree of at most two leaves, and the pool that has none of them. *)
Inductive role := Meta | Root | LeftLeaf | RightLeaf.
#[export] Instance role_eq : EqDecision role.
Proof. solve_decision. Defined.
Definition empty_cache : cache role := no_pages 4.

(** ** The pool that a cache describes *)

(** [viewed ρ s A c n]: the pages [ρ r] of the roles in the cache [c] are in the
    frames of the pool, with the bytes [A r]; each may be pinned [n] more times, and
    no two roles share a bucket of the page table. *)
Record viewed {R} (ρ : R → Z) (s : index) (A : R → list Z) (c : cache R) (n : Z) : Prop := {
  ca_name : short_name (table_name (dm_of s));
  ca_pids : ∀ r, 0 ≤ ρ r < 10000;
  ca_apart : ∀ r r', ρ r mod pool_size (pool s) = ρ r' mod pool_size (pool s) → r = r';
  ca_pool : ∃ m fs, pool_ok (hp s) (pool s) m fs ∧ f_id <$> fs = Z.of_nat <$> unused c
              ∧ ∀ pid, is_Some (m !! pid) ↔ ∃ i r, held c !! i = Some (Some r) ∧ pid = ρ r;
  ca_size : zlen (held c) ≤ pool_size (pool s);
  ca_free : ∀ i, (i < length (free_list (pool s)))%nat →
              free_list (pool s) !! i = Some (empty_frame c i);
  ca_page : ∀ i r, held c !! i = Some (Some r) → ∃ p, pages (pool s) !! i = Some p
              ∧ data p = A r ∧ page_id p = ρ r ∧ 0 ≤ pin_count p ∧ pin_count p + n < 2 ^ 31;
  ca_once : ∀ i j r, held c !! i = Some (Some r) → held c !! j = Some (Some r) → i = j;
  ca_unused : ∀ i, i ∈ unused c → held c !! i = Some None;
  ca_pins : 0 ≤ n < 2 ^ 31 - 2;
}.

(** The bytes that the pages have in the file, and the pool that agrees with it. *)
Definition on_file {R} (ρ : R → Z) (s : index) (r : R) : list Z := page_of (dm_of s) (ρ r) (dk s).
Abbreviation cached ρ s c n := (viewed ρ s (on_file ρ s) c n).

Lemma take_frame_spec i l l' :
  take_frame i l = Some l' → (l = [] ∧ l' = []) ∨ ∃ k, l !! k = Some i ∧ (k < 2)%nat ∧ l' = delete k l.
Proof.
  destruct l as [|j l]; cbn [take_frame]; [intros [= <-]; by left|]. right.
  case_decide as Hj; [simplify_eq; exists 0%nat; split_and!; [done|lia|done]|].
  destruct l as [|k l]; [done|]. case_decide as Hk; [|done].
  simplify_eq. exists 1%nat. split_and!; [done|lia|done].
Qed.

(** Deleting another element does not make an element disappear. *)
Lemma not_in_delete {A} (l : list A) x j k : l !! k = Some x → x ∉ delete j l → j = k.
Proof.
  intros Hk Hnew. destruct (decide (j = k)) as [|Hne]; [done|]. exfalso. apply Hnew.
  apply list_elem_of_lookup. destruct (decide (k < j)%nat).
  - exists k. by rewrite list_lookup_delete_lt.
  - exists (k - 1)%nat. rewrite list_lookup_delete_ge by lia. by replace (S (k - 1)) with k by lia.
Qed.

Lemma first_free_least free i :
  free !! i = Some true → (∀ j, (j < i)%nat → free !! j = Some false) → first_free free = Some i.
Proof.
  revert i. induction free as [|b free IH]; intros i Hi Hlt; [done|]. destruct i as [|i].
  - by injection Hi as ->.
  - pose proof (Hlt 0%nat ltac:(lia)) as H0. injection H0 as ->. cbn [first_free].
    rewrite (IH i Hi); [done|]. intros j Hj. by apply (Hlt (S j) ltac:(lia)).
Qed.

Lemma frame_of_Some `{EqDecision R} (r : R) c i : frame_of r c = Some i → held c !! i = Some (Some r).
Proof.
  unfold frame_of. destruct (list_find _ _) as [[j o]|] eqn:E; [|done]. intros [= <-].
  by apply list_find_Some in E as (Hj & -> & _).
Qed.
Lemma frame_of_None `{EqDecision R} (r : R) c i : frame_of r c = None → held c !! i ≠ Some (Some r).
Proof.
  unfold frame_of. destruct (list_find _ _) as [?|] eqn:E; [done|]. intros _ Hi.
  apply list_find_None in E. rewrite Forall_lookup in E. by apply (E i (Some r)).
Qed.
Lemma spare_Some {R} (c : cache R) i :
  spare c = Some i → held c !! i = Some None ∧ ∀ j, (j < i)%nat → ∃ r, held c !! j = Some (Some r).
Proof.
  unfold spare. destruct (list_find _ _) as [[j o]|] eqn:E; [|done]. intros [= <-].
  apply list_find_Some in E as (Hj & -> & Hlt). split; [done|]. intros k Hk.
  apply lookup_lt_Some in Hj. destruct (lookup_lt_is_Some_2 (held c) k) as [[r|] Hr]; [lia|by exists r|].
  by destruct (Hlt k None Hr).
Qed.

Lemma load_held `{EqDecision R} (r : R) c i c' : load r c = Some (i, c') → held c' !! i = Some (Some r).
Proof.
  unfold load. destruct (frame_of r c) as [j|] eqn:E; [intros [= -> ->]; by apply frame_of_Some|].
  destruct (spare c) as [j|] eqn:Es; [|done]. cbn. destruct (take_frame j (unused c)) as [l|]; [|done].
  intros [= -> <-]. apply list_lookup_insert_eq. apply spare_Some in Es as [Hs _]. by apply lookup_lt_Some in Hs.
Qed.

(** ** Accesses to the pool *)

Section accesses.
Context `{U : Uninit} `{EqDecision R} (ρ : R → Z).

Lemma view_mono s A c n n' : viewed ρ s A c n → 0 ≤ n' ≤ n → viewed ρ s A c n'.
Proof.
  intros [] Hn. split; try done; [|lia]. intros i r Hi. destruct (ca_page0 i r Hi) as (p & ? & ? & ? & ? & ?).
  exists p. split_and!; [done..|lia].
Qed.

(** Only the bytes of the pages in the pool, and only the pool, matter. *)
Lemma view_ext s s' A A' c n :
  viewed ρ s A c n → pool s' = pool s → hp s' = hp s →
  (∀ i r, held c !! i = Some (Some r) → A' r = A r) → viewed ρ s' A' c n.
Proof.
  intros [] Hp Hh HA. split; rewrite ?Hp, ?Hh; try done. intros i r Hi.
  destruct (ca_page0 i r Hi) as (p & ? & Hd & ?). exists p. split; [done|]. split; [|done].
  by rewrite Hd, (HA i r Hi).
Qed.

(** The disk and the tree may change as long as the pages in the cache do not. *)
Lemma cached_disk s s' c n :
  cached ρ s c n → pool s' = pool s → hp s' = hp s →
  (∀ i r, held c !! i = Some (Some r) → page_of (dm_of s) (ρ r) (dk s') = page_of (dm_of s) (ρ r) (dk s)) →
  cached ρ s' c n.
Proof.
  intros Hc Hp Hh Hsame. apply (view_ext s _ _ _ _ _ Hc Hp Hh). intros i r Hi. unfold on_file. rewrite Hp.
  by apply (Hsame i).
Qed.

Lemma cached_set_tree s c n t : cached ρ s c n → cached ρ (mkIndex t (pool s) (hp s) (dk s)) c n.
Proof. intros Hc. by apply (cached_disk s). Qed.

Lemma cached_mono s c n n' : cached ρ s c n → 0 ≤ n' ≤ n → cached ρ s c n'.
Proof. apply view_mono. Qed.

(** A page of the cache is in its frame. *)
Lemma view_in_frame s A c n m fs i r :
  viewed ρ s A c n → pool_ok (hp s) (pool s) m fs → held c !! i = Some (Some r) → is_Some (m !! ρ r) →
  in_frame (hp s) m (ρ r) (Z.of_nat i).
Proof.
  intros Hc Hok Hi [el Hel]. exists el. split; [done|].
  destruct (po_frame _ _ _ _ Hok _ _ Hel) as (f & p & Hf & Hf0 & Hp & Hid & Hfree).
  assert (Z.to_nat f < length (free_list (pool s)))%nat as Hlt by by apply lookup_lt_Some in Hfree.
  rewrite (ca_free _ _ _ _ _ Hc _ Hlt) in Hfree. unfold empty_frame in Hfree.
  destruct (held c !! Z.to_nat f) as [[r'|]|] eqn:E; [|done..].
  destruct (ca_page _ _ _ _ _ Hc _ _ E) as (p' & Hp' & _ & Hid' & _).
  assert (r' = r) as -> by (apply (ca_apart _ _ _ _ _ Hc); congruence).
  rewrite (ca_once _ _ _ _ _ Hc _ _ _ Hi E), Z2Nat.id by done. done.
Qed.

Lemma view_frame s A c n i r :
  viewed ρ s A c n → held c !! i = Some (Some r) →
  ∃ p, frame (Z.of_nat i) s = Ok (p, s) ∧ data p = A r ∧ page_id p = ρ r.
Proof.
  intros Hc Hi. destruct (ca_page _ _ _ _ _ Hc i r Hi) as (p & Hp & Hd & Hid & _). exists p. split; [|done].
  unfold frame. rewrite (get_page_ok _ p) by by rewrite Nat2Z.id. done.
Qed.

(** Another page record in a frame that is in use. *)
Lemma view_set_page s s' A A' c n i r p :
  viewed ρ s A c n → held c !! i = Some (Some r) → pool s' = set_page (Z.of_nat i) p (pool s) → hp s' = hp s →
  page_id p = ρ r → data p = A' r → zlen (data p) = PAGE_SIZE → 0 ≤ pin_count p →
  ∀ n', 0 ≤ n' ≤ n → pin_count p + n' < 2 ^ 31 → (∀ r', r' ≠ r → A' r' = A r') → viewed ρ s' A' c n'.
Proof.
  intros Hc Hi Hp Hh Hid Hdata Hlen Hp0 n' Hn' Hp1 HA.
  destruct (ca_page _ _ _ _ _ Hc i r Hi) as (p0 & Hp0' & _ & Hid0 & _).
  destruct Hc. split; rewrite ?Hp, ?Hh; try done; [| |lia].
  - destruct ca_pool0 as (m & fs & Hok & ? & ?). exists m, fs. split; [|done].
    apply (pool_set_page _ _ _ _ _ p0); [done|by rewrite Nat2Z.id|congruence|done].
  - intros j r' Hj. destruct (ca_page0 j r' Hj) as (q & Hq & Hdq & Hidq & Hq0 & Hq1).
    cbn [set_page disk_manager pages]. rewrite Nat2Z.id. destruct (decide (j = i)) as [->|Hne].
    + rewrite Hi in Hj. injection Hj as <-. exists p.
      split; [apply list_lookup_insert_eq; by eapply lookup_lt_Some|done].
    + exists q. rewrite list_lookup_insert_ne by done. rewrite HA by (intros ->; by eapply Hne, ca_once0).
      split_and!; [done..|lia].
Qed.

Lemma view_hit s A c n i r :
  viewed ρ s A c (n + 1) → 0 ≤ n → held c !! i = Some (Some r) →
  ∃ s', fetch (ρ r) s = Ok (Z.of_nat i, s') ∧ viewed ρ s' A c n ∧ same_pages s s'.
Proof.
  intros Hc Hn Hi. pose proof (ca_pids _ _ _ _ _ Hc r) as Hpid.
  destruct (ca_pool _ _ _ _ _ Hc) as (m & fs & Hok & Hfs & Hm).
  destruct (ca_page _ _ _ _ _ Hc i r Hi) as (p & Hp & Hd & Hid & Hp0 & Hp1).
  assert (in_frame (hp s) m (ρ r) (Z.of_nat i)) as Hin.
  { eapply view_in_frame; [done..|]. apply Hm. by exists i, r. }
  destruct (fetch_hit (hp s) (pool s) m fs (ρ r) (Z.of_nat i) (dk s) Hok ltac:(lia) Hin) as (p' & Hp' & Hf & _).
  { intros q Hq. rewrite Nat2Z.id in Hq. simplify_eq. lia. }
  rewrite Nat2Z.id in Hp'. simplify_eq.
  eexists (mkIndex (tree s) _ (hp s) (dk s)). split; [unfold fetch; by rewrite Hf|]. split; [|done].
  eapply (view_set_page s _ A A c (n + 1) i r); try done; cbn [pin_count page_id data]; try lia.
  exact (po_data _ _ _ _ Hok i p Hp).
Qed.

Lemma spare_first_free s A c n i :
  viewed ρ s A c n → spare c = Some i →
  first_free (free_list (pool s)) = Some i ∧ (i < length (held c))%nat.
Proof.
  intros Hc [Hi Hlt]%spare_Some. pose proof (lookup_lt_Some _ _ _ Hi) as Hilt. split; [|done].
  destruct (ca_pool _ _ _ _ _ Hc) as (m & fs & Hok & _). pose proof (po_free _ _ _ _ Hok) as Hfl.
  pose proof (ca_size _ _ _ _ _ Hc) as Hsize. unfold zlen in *.
  apply first_free_least.
  - rewrite (ca_free _ _ _ _ _ Hc) by lia. unfold empty_frame. by rewrite Hi.
  - intros j Hj. rewrite (ca_free _ _ _ _ _ Hc) by lia. unfold empty_frame. by destruct (Hlt j Hj) as [r ->].
Qed.

Lemma pinnable_take (c : cache R) fs i l :
  f_id <$> fs = Z.of_nat <$> unused c → take_frame i (unused c) = Some l → pinnable fs (Z.of_nat i).
Proof.
  intros Hfs [[Hu _]|(k & Hk & Hlt & _)]%take_frame_spec.
  - left. rewrite Hu in Hfs. by apply fmap_nil_inv in Hfs.
  - right. assert ((f_id <$> fs) !! k = Some (Z.of_nat i)) as Hl by by rewrite Hfs, list_lookup_fmap, Hk.
    rewrite list_lookup_fmap in Hl. destruct (fs !! k) as [g|] eqn:Hg; [|done]. injection Hl as Hl.
    by exists k, g.
Qed.

Lemma delete_take (c : cache R) fs i l j :
  f_id <$> fs = Z.of_nat <$> unused c → take_frame i (unused c) = Some l →
  Z.of_nat i ∉ f_id <$> delete j fs → f_id <$> delete j fs = Z.of_nat <$> l.
Proof.
  intros Hfs Ht. rewrite list_fmap_delete, Hfs. intros Hnew.
  apply take_frame_spec in Ht as [[-> ->]|(k & Hk & _ & ->)]; [done|].
  rewrite (not_in_delete (Z.of_nat <$> unused c) (Z.of_nat i) j k); [|by rewrite list_lookup_fmap, Hk|done].
  by rewrite list_fmap_delete.
Qed.

Lemma empty_frame_insert (c : cache R) i j (o : option R) l :
  (i < length (held c))%nat →
  empty_frame (mkCache (<[i := o]> (held c)) l) j
  = if decide (i = j) then match o with Some _ => false | None => true end else empty_frame c j.
Proof.
  intros Hi. unfold empty_frame. cbn [held]. case_decide as Hj.
  - subst j. by rewrite list_lookup_insert_eq.
  - by rewrite list_lookup_insert_ne.
Qed.

Lemma NoDup_unused s A c n : viewed ρ s A c n → NoDup (unused c).
Proof.
  intros Hc. destruct (ca_pool _ _ _ _ _ Hc) as (m & fs & Hok & Hfs & _).
  pose proof (ck_ids _ _ _ (po_clock _ _ _ _ Hok)) as Hnd. rewrite Hfs in Hnd.
  by apply NoDup_fmap_1 in Hnd.
Qed.

Lemma take_frame_rest (c : cache R) i l :
  NoDup (unused c) → take_frame i (unused c) = Some l → held c !! i = Some None →
  (i ∉ l) ∧ ∀ j, j ∈ l → j ∈ unused c.
Proof.
  intros Hnd Ht Hi. apply take_frame_spec in Ht as [[-> ->]|(k & Hk & _ & ->)].
  { split; [apply not_elem_of_nil|done]. }
  split.
  - intros [j Hj]%list_elem_of_lookup. rewrite list_lookup_delete in Hj.
    case_decide as Hlt; pose proof (NoDup_lookup _ _ _ _ Hnd Hj Hk); lia.
  - intros j [x Hx]%list_elem_of_lookup. rewrite list_lookup_delete in Hx. apply list_elem_of_lookup.
    case_decide; eauto.
Qed.

Lemma view_miss s A c n i l r :
  viewed ρ s A c n → frame_of r c = None → spare c = Some i → take_frame i (unused c) = Some l →
  has_page (dm_of s) (ρ r) (dk s) → A r = page_of (dm_of s) (ρ r) (dk s) →
  ∃ s', fetch (ρ r) s = Ok (Z.of_nat i, s') ∧ viewed ρ s' A (mkCache (<[i := Some r]> (held c)) l) n ∧ same_pages s s'.
Proof.
  intros Hc Hr Hs Ht Hpage HA. pose proof (ca_pids _ _ _ _ _ Hc r) as Hpid.
  destruct (spare_first_free _ _ _ _ _ Hc Hs) as [Hfree Hlen]. apply spare_Some in Hs as [Hi _].
  destruct (take_frame_rest _ _ _ (NoDup_unused _ _ _ _ Hc) Ht Hi) as [Hil Hsub].
  destruct (ca_pool _ _ _ _ _ Hc) as (m & fs & Hok & Hfs & Hm).
  assert (m !! ρ r = None) as Hnew.
  { apply eq_None_not_Some. intros (j & r' & Hj & Heq)%Hm.
    assert (r' = r) as -> by (apply (ca_apart _ _ _ _ _ Hc); congruence). by apply (frame_of_None r c j). }
  assert (no_collision (pool_size (pool s)) m (ρ r)) as Hcol.
  { intros q el Hq Hmod. destruct (proj1 (Hm q)) as (j & r' & _ & ->); [by eexists|].
    by rewrite (ca_apart _ _ _ _ _ Hc _ _ Hmod). }
  destruct (fetch_miss _ _ _ _ _ _ (dk s) Hok Hpid Hnew Hcol Hfree (pinnable_take _ _ _ _ Hfs Ht)
              (ca_name _ _ _ _ _ Hc) Hpage)
    as (bpm & h & el & j & d & Hf & Hok' & _ & Hni & _ & Hpages & Hfr & Hdm & Hsz & Hd).
  exists (mkIndex (tree s) bpm h d). split; [unfold fetch; by rewrite Hf|].
  split; [|split_and!; [done|by cbn; rewrite Hdm|done]].
  destruct Hc. split; cbn [tree pool hp dk held unused]; rewrite ?Hdm, ?Hsz; try done.
  - exists (<[ρ r := el]> m), (delete j fs). split; [done|]. split; [by eapply delete_take|].
    intros q. rewrite lookup_insert_is_Some', Hm. split.
    + intros [<-|(k & r' & Hk & ->)]; [exists i, r; by rewrite list_lookup_insert_eq|].
      exists k, r'. rewrite list_lookup_insert_ne; [done|]. intros <-. congruence.
    + intros (k & r' & [(<- & [= <-] & _)|[Hne Hk]]%list_lookup_insert_Some & ->); [by left|right; by exists k, r'].
  - unfold zlen. by rewrite length_insert.
  - intros k. rewrite Hfr, length_insert. intros Hk. rewrite empty_frame_insert by done. case_decide as Hki.
    + subst k. by rewrite list_lookup_insert_eq.
    + rewrite list_lookup_insert_ne by done. by apply ca_free0.
  - intros k r' [(<- & [= <-] & _)|[Hne Hk]]%list_lookup_insert_Some; rewrite Hpages.
    + eexists. split; [apply list_lookup_insert_eq|].
      { pose proof (po_pages _ _ _ _ Hok) as Hp. unfold zlen in *. lia. }
      by cbn [data page_id pin_count]; split_and!; [done|done|lia|lia].
    + destruct (ca_page0 k r' Hk) as (p & Hp & Hdata & ?). exists p.
      by rewrite list_lookup_insert_ne by done.
  - intros k k' r' [(<- & [= <-] & _)|[Hne Hk]]%list_lookup_insert_Some [(<- & Hr' & _)|[Hne' Hk']]%list_lookup_insert_Some;
      [done| | |by eapply ca_once0].
    + by apply (frame_of_None r c k') in Hr.
    + injection Hr' as ->. by apply (frame_of_None r' c k) in Hr.
  - intros k Hk. rewrite list_lookup_insert_ne by (intros ->; done). by apply ca_unused0, Hsub.
Qed.

Lemma view_load s A c n r i c' :
  viewed ρ s A c (n + 1) → 0 ≤ n → load r c = Some (i, c') →
  (frame_of r c = None → has_page (dm_of s) (ρ r) (dk s) ∧ A r = page_of (dm_of s) (ρ r) (dk s)) →
  ∃ s', fetch (ρ r) s = Ok (Z.of_nat i, s') ∧ viewed ρ s' A c' n ∧ same_pages s s'.
Proof.
  intros Hc Hn Hl Hpage. unfold load in Hl. destruct (frame_of r c) as [j|] eqn:E.
  - injection Hl as <- <-. apply view_hit; [done|done|]. by apply frame_of_Some.
  - destruct (spare c) as [j|] eqn:Es; [|done]. cbn in Hl.
    destruct (take_frame j (unused c)) as [l|] eqn:Et; [|done]. injection Hl as <- <-.
    destruct (Hpage eq_refl). apply view_miss; [|done..]. apply (view_mono s A c (n + 1)); [done|lia].
Qed.

Lemma load_fetch s c n r i c' :
  cached ρ s c (n + 1) → 0 ≤ n → load r c = Some (i, c') → has_page (dm_of s) (ρ r) (dk s) →
  ∃ s', fetch (ρ r) s = Ok (Z.of_nat i, s') ∧ cached ρ s' c' n ∧ same_pages s s'.
Proof.
  intros Hc Hn Hl Hpage. destruct (view_load s _ c n r i c' Hc Hn Hl) as (s' & Hf & Hc' & Hs); [done|].
  exists s'. split; [done|]. split; [|done]. apply (view_ext s' _ _ _ _ _ Hc'); [done..|].
  intros j r' _. destruct Hs as (_ & Hdm & Hd). unfold on_file. by rewrite Hdm, (page_of_same _ _ (dk s)).
Qed.

Lemma cached_frame s c n i r :
  cached ρ s c n → held c !! i = Some (Some r) →
  ∃ p, frame (Z.of_nat i) s = Ok (p, s) ∧ data p = page_of (dm_of s) (ρ r) (dk s) ∧ page_id p = ρ r.
Proof. apply view_frame. Qed.

Lemma cached_page s c n i r : cached ρ s c n → held c !! i = Some (Some r) → has_page (dm_of s) (ρ r) (dk s).
Proof.
  intros Hc Hi. destruct (ca_pool _ _ _ _ _ Hc) as (m & fs & Hok & _).
  destruct (ca_page _ _ _ _ _ Hc i r Hi) as (p & Hp & Hdata & _). unfold on_file in Hdata.
  apply page_of_has; [apply (ca_pids _ _ _ _ _ Hc)|]. rewrite <- Hdata. by apply (po_data _ _ _ _ Hok i).
Qed.

(** Writing to a frame, and writing a page back. *)
Lemma view_write s A c n i r bytes :
  viewed ρ s A c n → held c !! i = Some (Some r) → zlen bytes = PAGE_SIZE →
  ∃ bpm, write_to_frame (Z.of_nat i) bytes (pool s) = Ok bpm
    ∧ viewed ρ (mkIndex (tree s) bpm (hp s) (dk s)) (<[r := bytes]> A) c n ∧ disk_manager bpm = dm_of s.
Proof.
  intros Hc Hi Hbytes. destruct (ca_pool _ _ _ _ _ Hc) as (m & fs & Hok & _).
  destruct (ca_page _ _ _ _ _ Hc i r Hi) as (p & Hp & _ & Hid & Hp0 & Hp1).
  assert (pages (pool s) !! Z.to_nat (Z.of_nat i) = Some p) as Hp' by by rewrite Nat2Z.id.
  destruct (write_to_frame_ok _ _ _ _ _ _ bytes Hok Hp' Hbytes) as [Hw _]. eexists. split; [exact Hw|]. split; [|done].
  pose proof (ca_pins _ _ _ _ _ Hc).
  eapply (view_set_page s _ A _ c n i r); try done; cbn [data pin_count]; [by rewrite fn_lookup_insert|lia|].
  intros r' Hr'. by rewrite fn_lookup_insert_ne.
Qed.

Lemma view_flush s A c n i r :
  viewed ρ s A c n → held c !! i = Some (Some r) →
  ∃ bpm h d, flush_page (ρ r) (pool s) (hp s) (dk s) = Ok (true, bpm, h, d)
    ∧ let s' := mkIndex (tree s) bpm h d in
      viewed ρ s' A (mkCache (<[i := None]> (held c)) (i :: unused c)) n
      ∧ page_of (dm_of s) (ρ r) d = A r ∧ has_page (dm_of s) (ρ r) d ∧ other_pages (ρ r) s s'.
Proof.
  intros Hc Hi. pose proof (ca_pids _ _ _ _ _ Hc r) as Hpid. pose proof (ca_name _ _ _ _ _ Hc) as Hname.
  destruct (ca_pool _ _ _ _ _ Hc) as (m & fs & Hok & Hfs & Hm).
  assert (is_Some (m !! ρ r)) as Hel by (apply Hm; by exists i, r).
  pose proof (view_in_frame s A c n m fs i r Hc Hok Hi Hel) as Hin.
  destruct (ca_page _ _ _ _ _ Hc i r Hi) as (p & Hp & Hdata & Hid & Hp0 & Hp1).
  pose proof (po_data _ _ _ _ Hok i p Hp) as Hbytes.
  assert (Z.of_nat i ∉ f_id <$> fs) as Hni.
  { rewrite Hfs. intros (j & Hj & Hju)%list_elem_of_fmap. assert (j = i) as -> by lia.
    apply (ca_unused _ _ _ _ _ Hc) in Hju. congruence. }
  destruct (flush_ok _ _ _ _ (ρ r) (Z.of_nat i) p (dk s) Hok ltac:(unfold MAX_PID; lia) Hname Hin
              ltac:(by rewrite Nat2Z.id) Hni)
    as (bpm' & h' & d' & g & Hfl & Hok' & Hg & Hpages & Hfree & Hdm & Hsz & Hwr & _).
  rewrite Nat2Z.id in Hfree. exists bpm', h', d'. split; [done|]. cbv zeta.
  destruct (written_page (dm_of s) (ρ r) (data p) _ _ Hname ltac:(unfold MAX_PID; lia) Hbytes Hwr) as (H1 & H2 & H3 & H4).
  split; [|split_and!; cbn [dk pool tree]; rewrite ?Hdm; [congruence|done|by split_and!; cbn [dk pool tree]; rewrite ?Hdm]].
  assert (∀ r', r' ≠ r → ρ r' ≠ ρ r) as Hne.
  { intros r' Hr' Heq. apply Hr', (ca_apart _ _ _ _ _ Hc). by rewrite Heq. }
  pose proof (lookup_lt_Some _ _ _ Hi) as Hilt.
  destruct Hc. split; cbn [tree pool hp dk held unused]; rewrite ?Hdm, ?Hsz; try done.
  - exists (delete (ρ r) m), (g :: fs). split; [done|]. split; [by rewrite !fmap_cons, Hg, Hfs|].
    intros q. rewrite lookup_delete_is_Some, Hm. split.
    + intros (Hq & k & r' & Hk & ->). exists k, r'. split; [|done].
      rewrite list_lookup_insert_ne; [done|]. intros <-. congruence.
    + intros (k & r' & [(_ & ? & _)|[Hki Hk]]%list_lookup_insert_Some & ->); [done|].
      split; [|by exists k, r']. intros Heq. apply Hki.
      assert (r' = r) as -> by (apply ca_apart0; by rewrite Heq). by eapply ca_once0.
  - unfold zlen. by rewrite length_insert.
  - intros k. rewrite Hfree, length_insert. intros Hk. rewrite empty_frame_insert by done. case_decide as Hki.
    + subst k. by rewrite list_lookup_insert_eq.
    + rewrite list_lookup_insert_ne by done. by apply ca_free0.
  - intros k r' [(_ & ? & _)|[Hki Hk]]%list_lookup_insert_Some; [done|]. rewrite Hpages. by apply ca_page0.
  - intros k k' r' [(_ & ? & _)|[_ Hk]]%list_lookup_insert_Some [(_ & ? & _)|[_ Hk']]%list_lookup_insert_Some;
      [done..|by eapply ca_once0].
  - intros k [->|Hk]%elem_of_cons; [by apply list_lookup_insert_eq|].
    rewrite list_lookup_insert_ne; [by apply ca_unused0|]. intros <-. apply ca_unused0 in Hk. congruence.
Qed.

(** Writing a page that is in the pool. *)
Lemma write_held s c n i r bytes :
  cached ρ s c n → held c !! i = Some (Some r) → zlen bytes = PAGE_SIZE →
  ∃ s', write_and_flush (ρ r) (ρ r) bytes s = Ok ((), s')
    ∧ cached ρ s' (mkCache (<[i := None]> (held c)) (i :: unused c)) n
    ∧ page_of (dm_of s) (ρ r) (dk s') = bytes ∧ has_page (dm_of s) (ρ r) (dk s') ∧ other_pages (ρ r) s s'.
Proof.
  intros Hc Hi Hbytes. pose proof (ca_pids _ _ _ _ _ Hc r) as Hpid.
  destruct (ca_pool _ _ _ _ _ Hc) as (m & fs & Hok & Hfs & Hm).
  assert (is_Some (m !! ρ r)) as Hel by (apply Hm; by exists i, r).
  destruct (view_in_frame s _ c n m fs i r Hc Hok Hi Hel) as (el & Hel' & Hcell).
  destruct (view_write s _ c n i r bytes Hc Hi Hbytes) as (bpm1 & Hw & Hv1 & Hdm1).
  destruct (view_flush _ _ c n i r Hv1 Hi) as (bpm2 & h2 & d2 & Hfl & Hv2 & Hpg & Hhas & Ho).
  cbn [pool hp dk tree] in *. rewrite Hdm1, fn_lookup_insert in *. exists (mkIndex (tree s) bpm2 h2 d2). split.
  { unfold write_and_flush. rewrite (pool_find _ _ _ _ (ρ r) Hok) by lia. rewrite Hel'. ok_step.
    rewrite (pool_load _ _ _ _ _ _ _ Hok Hel' Hcell). ok_step. rewrite Hw. ok_step. by rewrite Hfl. }
  assert (other_pages (ρ r) s (mkIndex (tree s) bpm2 h2 d2)) as Ho'.
  { destruct Ho as (? & Hdm2 & Ho1 & Ho2). cbn [pool dk tree] in *. rewrite Hdm1 in *. done. }
  split; [|done]. apply (view_ext _ _ _ _ _ _ Hv2); [done..|]. cbn [held].
  intros k r' [(_ & ? & _)|[Hki Hk]]%list_lookup_insert_Some; [done|].
  assert (r' ≠ r) as Hr' by (intros ->; by eapply Hki, (ca_once _ _ _ _ _ Hc)). rewrite fn_lookup_insert_ne by done.
  destruct Ho' as (_ & Hdm2 & Ho1 & _). unfold on_file. rewrite Hdm2. apply Ho1.
  - apply (ca_pids _ _ _ _ _ Hc).
  - intros Heq. apply Hr', (ca_apart _ _ _ _ _ Hc). by rewrite Heq.
  - by eapply cached_page.
Qed.

Lemma store_flush s c n r c' bytes :
  cached ρ s c (n + 1) → 0 ≤ n → store r c = Some c' → zlen bytes = PAGE_SIZE → has_page (dm_of s) (ρ r) (dk s) →
  ∃ s', flush_node (ρ r) bytes s = Ok ((), s') ∧ cached ρ s' c' n
    ∧ page_of (dm_of s) (ρ r) (dk s') = bytes ∧ has_page (dm_of s) (ρ r) (dk s') ∧ other_pages (ρ r) s s'.
Proof.
  intros Hc Hn Hst Hbytes Hpage. unfold store in Hst.
  destruct (load r c) as [[i c1]|] eqn:E; [|done]. cbn in Hst. injection Hst as <-.
  destruct (load_fetch s c n r i c1 Hc Hn E Hpage) as (s1 & Hf & Hc1 & (Ht1 & Hdm1 & Hd1)).
  pose proof (load_held _ _ _ _ E) as Hi. destruct (cached_frame s1 c1 n i r Hc1 Hi) as (p & Hfr & _ & Hid).
  destruct (write_held s1 c1 n i r bytes Hc1 Hi Hbytes) as (s2 & Hw & Hc2 & Hp2 & Hh2 & (Ht2 & Hdm2 & Ho2 & Hk2)).
  exists s2. rewrite Hdm1 in *. split.
  - unfold flush_node. io_step Hf. io_step Hfr. by rewrite Hid.
  - split_and!; try done. split_and!; [congruence|congruence| |].
    + intros q Hq Hne Hqp. rewrite Ho2; [by apply page_of_same|done|done|by apply (has_page_same _ _ (dk s))].
    + intros q Hqp. by apply Hk2, (has_page_same _ _ (dk s)).
Qed.

(** ** Nodes *)

(** The node [p] is on page [pid] of the file. *)
Definition node_at (s : index) (pid : Z) (p : BTreePage) : Prop :=
  has_page (dm_of s) pid (dk s) ∧ deserialize (page_of (dm_of s) pid (dk s)) = Ok p.

Lemma node_at_same s s' pid p : same_pages s s' → node_at s pid p → node_at s' pid p.
Proof.
  intros (_ & Hdm & Hd) [Hp Hn]. split; rewrite Hdm; [by apply (has_page_same _ _ (dk s))|].
  by rewrite (page_of_same _ _ (dk s)).
Qed.
Lemma node_at_other s s' q pid p : other_pages q s s' → 0 ≤ pid → pid ≠ q → node_at s pid p → node_at s' pid p.
Proof. intros (_ & Hdm & Ho & Hk) H0 Hne [Hp Hn]. split; rewrite Hdm; [by apply Hk|]. by rewrite Ho. Qed.

Lemma same_pages_trans s1 s2 s3 : same_pages s1 s2 → same_pages s2 s3 → same_pages s1 s3.
Proof. intros (? & ? & H1) (? & ? & H2). split_and!; [congruence..|]. intros p. by rewrite H2. Qed.
Lemma same_other pid s1 s2 : same_pages s1 s2 → other_pages pid s1 s2.
Proof.
  intros (? & ? & Hd). split_and!; [done..| |]; intros; [by apply page_of_same|by apply (has_page_same _ _ (dk s1))].
Qed.
Lemma other_pages_trans pid s1 s2 s3 : other_pages pid s1 s2 → other_pages pid s2 s3 → other_pages pid s1 s3.
Proof.
  intros (Ht & Hdm & H1 & K1) (Ht' & Hdm' & H2 & K2). rewrite Hdm in *. split_and!; [congruence..| |].
  - intros q Hq Hne Hp. rewrite H2, H1; [done|done|done|done|done|done|by apply K1].
  - intros q Hp. by apply K2, K1.
Qed.

(** Fetching a node. *)
Lemma load_node s c n r i c' p :
  cached ρ s c (n + 1) → 0 ≤ n → load r c = Some (i, c') → node_at s (ρ r) p →
  ∃ s' page, fetch (ρ r) s = Ok (Z.of_nat i, s') ∧ frame (Z.of_nat i) s' = Ok (page, s')
    ∧ page_id page = ρ r ∧ deserialize (data page) = Ok p ∧ cached ρ s' c' n ∧ same_pages s s'.
Proof.
  intros Hc Hn Hl [Hp Hd]. destruct (load_fetch s c n r i c' Hc Hn Hl Hp) as (s' & Hf & Hc' & Hs).
  destruct (cached_frame s' c' n i r Hc' (load_held _ _ _ _ Hl)) as (page & Hfr & Hdata & Hid).
  exists s', page. split_and!; try done. destruct Hs as (_ & Hdm & Hsame).
  by rewrite Hdata, Hdm, (page_of_same _ _ (dk s)).
Qed.

Lemma getBtreePage_ok s c n r i c' p :
  cached ρ s c (n + 1) → 0 ≤ n → load r c = Some (i, c') → node_at s (ρ r) p →
  ∃ s', getBtreePage (ρ r) s = Ok (p, s') ∧ cached ρ s' c' n ∧ same_pages s s'.
Proof.
  intros Hc Hn Hl Hp. destruct (load_node s c n r i c' p Hc Hn Hl Hp) as (s' & page & Hf & Hfr & _ & Hd & Hc' & Hs).
  exists s'. split; [|done]. unfold getBtreePage. io_step Hf. io_step Hfr. by rewrite Hd.
Qed.

Lemma crumb_pid_ok s c n r i c' j :
  cached ρ s c (n + 1) → 0 ≤ n → load r c = Some (i, c') → has_page (dm_of s) (ρ r) (dk s) →
  ∃ s', crumb_pid (ρ r, j) s = Ok (ρ r, s') ∧ cached ρ s' c' n ∧ same_pages s s'.
Proof.
  intros Hc Hn Hl Hp. destruct (load_fetch s c n r i c' Hc Hn Hl Hp) as (s' & Hf & Hc' & Hs).
  destruct (cached_frame s' c' n i r Hc' (load_held _ _ _ _ Hl)) as (page & Hfr & _ & Hid).
  exists s'. split; [|done]. unfold crumb_pid. cbn [fst]. io_step Hf. io_step Hfr. by rewrite Hid.
Qed.

(** A node that is written to its page and read back as it is: its keys are sorted,
    not empty, and each has its value. *)
Record node_ok `{NodeValue V} (p : BTreePage) (vs : list V) : Prop := {
  nd_wf : page_wf p vs;
  nd_length : length vs = length (keys p);
  nd_nonempty : Forall key_nonempty (keys p);
  nd_sorted : Sorted key_lt (keys p);
}.

Lemma store_node `{NodeValue V} s c n r c' p (vs : list V) :
  cached ρ s c (n + 1) → 0 ≤ n → store r c = Some c' → has_page (dm_of s) (ρ r) (dk s) → node_ok p vs →
  ∃ s', flush_page_of (ρ r) p s = Ok ((), s') ∧ cached ρ s' c' n ∧ node_at s' (ρ r) p ∧ other_pages (ρ r) s s'.
Proof.
  intros Hc Hn Hst Hpage [Hwf Hlen Hne _].
  destruct (serialize_deserialize_ok p vs uninit Hwf Hne uninit_length) as (buf & Hs & Hb & Hd).
  destruct (store_flush s c n r c' buf Hc Hn Hst Hb Hpage) as (s' & Hf & Hc' & Hpg & Hhas & Ho).
  exists s'. unfold flush_page_of. rewrite Hs. lift_step. split; [done|]. split; [done|]. split; [|done].
  pose proof (proj1 (proj2 Ho)) as Hdm. split; rewrite Hdm; [done|].
  rewrite Hpg, Hd, take_ge, <- (wf_values _ _ Hwf) by lia. by destruct p.
Qed.

(** *** New nodes *)

Lemma alloc_ok s c n count max_keys leaf :
  cached ρ s c n → index_file (dm_of s) count max_keys (dk s) → 0 ≤ count < 65535 →
  (∀ i r, held c !! i = Some (Some r) → 0 < ρ r ∧ ρ r ≠ count + 1) →
  ∃ s', alloc_page leaf s = Ok (count + 1, s') ∧ cached ρ s' c n ∧ tree s' = tree s ∧ dm_of s' = dm_of s
    ∧ index_file (dm_of s') (count + 1) max_keys (dk s')
    ∧ page_of (dm_of s') (count + 1) (dk s') = blank_page leaf
    ∧ ∀ pid p, 0 < pid → pid ≠ count + 1 → node_at s pid p → node_at s' pid p.
Proof.
  intros Hc Hf Hcount Hheld. assert (u16 (count + 1) = count + 1) as Hu by (unfold u16; rewrite Z.mod_small; lia).
  destruct (new_btree_index_page_ok (dm_of s) count max_keys leaf (dk s) Hf ltac:(lia))
    as (d & Hnew & Hblank & Hother & Hkeep & Hf'). rewrite Hu in *.
  exists (mkIndex (tree s) (pool s) (hp s) d). split; [unfold alloc_page; by rewrite Hnew|].
  split; [|split_and!; [done|done|apply Hf'; lia|done|]].
  - eapply cached_disk; [exact Hc|done|done|]. intros i r Hi. destruct (Hheld i r Hi) as [Hr Hne].
    apply Hother; [lia|done|]. by eapply cached_page.
  - intros pid p Hpid Hne [Hp Hd]. split; cbn [pool dk]; [by apply Hkeep|]. by rewrite Hother.
Qed.

Lemma index_file_page dm count max_keys d d' :
  index_file dm count max_keys d → page_of dm 0 d' = page_of dm 0 d → has_page dm 0 d' →
  index_file dm count max_keys d'.
Proof.
  intros [Hn Hp H1 H2 H3] Hpage Hp'. split; [done|done|..].
  - change 0 with (0 * PAGE_SIZE + 0) at 1. rewrite <- page_of_slice, Hpage, page_of_slice by done. exact H1.
  - change 4 with (0 * PAGE_SIZE + 4) at 1. rewrite <- page_of_slice, Hpage, page_of_slice by done. exact H2.
  - change 6 with (0 * PAGE_SIZE + 6) at 1. rewrite <- page_of_slice, Hpage, page_of_slice by done. exact H3.
Qed.

Lemma index_file_other pid s s' count max_keys :
  other_pages pid s s' → pid ≠ 0 → index_file (dm_of s) count max_keys (dk s) →
  index_file (dm_of s') count max_keys (dk s').
Proof.
  intros (_ & Hdm & Ho & Hk) Hne Hf. rewrite Hdm. pose proof (if_page _ _ _ _ Hf) as Hp.
  apply (index_file_page _ _ _ (dk s)); [done|apply Ho; [done|congruence|done]|by apply Hk].
Qed.
Lemma index_file_same s s' count max_keys :
  same_pages s s' → index_file (dm_of s) count max_keys (dk s) → index_file (dm_of s') count max_keys (dk s').
Proof. intros Hs. apply (index_file_other 1); [by apply same_other|done]. Qed.

(** *** The metadata *)

(** The page that holds the metadata of a tree. *)
Record metadata (t : BTree) (page : list Z) : Prop := {
  me_length : zlen page = PAGE_SIZE;
  me_magic : slice page MAGIC_NUMBER_OFFSET 4 = be32 (magic_num t);
  me_count : slice page NODE_COUNT_OFFSET 2 = be16 (node_count t);
  me_max : slice page MAX_KEYSIZE_OFFSET 1 = [max_size t];
  me_root : slice page CURR_ROOT_PID_OFFSET 4 = be32 (root_pid t);
}.

Lemma tree_serialize_ok t : ∃ page, tree_serialize t = Ok page ∧ metadata t page.
Proof.
  pose proof uninit_length as Hu. unfold PAGE_SIZE in Hu. unfold tree_serialize.
  change MAGIC_NUMBER_OFFSET with 0. change NODE_COUNT_OFFSET with 4. change MAX_KEYSIZE_OFFSET with 6.
  change CURR_ROOT_PID_OFFSET with 7.
  rewrite encode_uint32_ok by blen. ok_step. rewrite encode_uint16_ok by blen. ok_step.
  rewrite encode_uint32_ok by blen. ok_step. rewrite wr_ok by blen.
  eexists. split; [done|]. split; [unfold PAGE_SIZE; blen|..].
  all: change MAGIC_NUMBER_OFFSET with 0; change NODE_COUNT_OFFSET with 4; change MAX_KEYSIZE_OFFSET with 6;
    change CURR_ROOT_PID_OFFSET with 7.
  all: by bslice.
Qed.

Lemma tree_deserialize_ok t dm d :
  short_name (table_name dm) → has_page dm 0 d → metadata t (page_of dm 0 d) →
  magic_num t = BTREE_INDEX → 0 ≤ root_pid t < 2 ^ 32 → 0 ≤ node_count t < 2 ^ 16 →
  ∃ d', tree_deserialize dm d = Ok (t, d') ∧ ∀ f, contents f d' = contents f d.
Proof.
  intros Hn Hp [_ H1 H2 H3 H4] Hm Hr Hc. destruct (read_page_ok dm 0 d Hn ltac:(by_compute) Hp) as (d' & Hrd & Hd).
  exists d'. split; [|done]. unfold tree_deserialize, BTREE_METADATA_PAGE_ID. rewrite Hrd. ok_step.
  change MAGIC_NUMBER_OFFSET with 0 in *. change NODE_COUNT_OFFSET with 4 in *.
  change MAX_KEYSIZE_OFFSET with 6 in *. change CURR_ROOT_PID_OFFSET with 7 in *.
  rewrite (decode_uint32_at (magic_num t) _ 0) by done. ok_step. rewrite Hm.
  change (negb (u32 BTREE_INDEX =? BTREE_INDEX)) with false. cbv iota.
  rewrite (decode_uint16_at (node_count t)) by done. ok_step.
  rewrite (decode_uint32_at (root_pid t)) by done. ok_step.
  rewrite (rd_slice _ _ (max_size t)) by done. ok_step.
  change (u32 BTREE_INDEX) with BTREE_INDEX. unfold u16, u32. rewrite !Z.mod_small by lia.
  destruct t. cbn in *. by subst.
Qed.

Lemma metadata_file t dm d :
  short_name (table_name dm) → has_page dm 0 d → metadata t (page_of dm 0 d) → magic_num t = BTREE_INDEX →
  index_file dm (node_count t) (max_size t) d.
Proof.
  intros Hn Hp [_ H1 H2 H3 _] Hm. rewrite Hm, page_of_slice in H1 by done. rewrite page_of_slice in H2, H3 by done.
  by split.
Qed.

Lemma flush_tree_ok s c n r c' :
  cached ρ s c (n + 1) → 0 ≤ n → ρ r = 0 → store r c = Some c' → has_page (dm_of s) 0 (dk s) →
  ∃ s', flush_tree s = Ok ((), s') ∧ cached ρ s' c' n ∧ metadata (tree s) (page_of (dm_of s) 0 (dk s'))
    ∧ has_page (dm_of s) 0 (dk s') ∧ other_pages 0 s s'.
Proof.
  intros Hc Hn Hmeta Hst Hp. destruct (tree_serialize_ok (tree s)) as (page & Hser & Hpage).
  destruct (store_flush s c n r c' page Hc Hn Hst) as (s' & Hf & Hc' & Hpg & Hhas & Ho);
    [apply Hpage|by rewrite Hmeta|]. rewrite Hmeta in *.
  exists s'. unfold flush_tree. lift_step. rewrite Hser. lift_step. rewrite Hpg. done.
Qed.
End accesses.

(** *** The pool of a new index *)

Lemma new_bpm_cached `{U : Uninit} {R} (ρ : R → Z) t size dm d N n :
  short_name (table_name dm) → Z.of_nat N ≤ size ≤ 65535 → 0 < size → (∀ r, 0 ≤ ρ r < 10000) →
  (∀ r r', ρ r mod size = ρ r' mod size → r = r') → 0 ≤ n < 2 ^ 31 - 2 →
  cached ρ (mkIndex t (new_bpm size dm) new_heap d) (no_pages N) n.
Proof.
  intros Hname Hsize Hpos Hpids Hapart Hn.
  assert (∀ i (r : R), held (no_pages N) !! i ≠ Some (Some r)) as Hnone.
  { intros i r [? _]%lookup_replicate. done. }
  split; cbn [pool new_bpm disk_manager pool_size hp free_list tree dk]; try done.
  - exists ∅, []. split; [apply new_bpm_ok; [apply new_heap_ok|lia]|]. split; [done|].
    intros pid. rewrite lookup_empty. split; [by intros [? ?]|]. intros (i & r & Hi & _). by destruct (Hnone i r).
  - cbn [no_pages held]. unfold zlen. rewrite length_replicate. lia.
  - intros i. rewrite length_replicate. intros Hi. rewrite lookup_replicate_2 by done. unfold empty_frame.
    destruct (held (no_pages N) !! i) as [[r|]|] eqn:E; [by destruct (Hnone i r)|done..].
  - intros i r Hi. by destruct (Hnone i r).
  - intros i j r Hi. by destruct (Hnone i r).
  - intros i Hi. by apply elem_of_nil in Hi.
Qed.

(** ** Sets of caches *)

(** The caches that the operations of a tree leave, by their sequences of accesses,
    never lead to a page that finds no frame, nor out of the set. *)
Definition steady `{EqDecision R} (ops : list (list (access R))) (cs : list (cache R)) : Prop :=
  Forall (λ c, Forall (λ l, match accesses l c with Some c' => c' ∈ cs | None => False end) ops) cs.
#[export] Instance steady_dec `{EqDecision R} (ops : list (list (access R))) cs : Decision (steady ops cs).
Proof. unfold steady. apply Forall_dec. intros c. apply Forall_dec. intros l. destruct (accesses l c); apply _. Defined.

Lemma steady_accesses `{EqDecision R} (ops : list (list (access R))) cs c l :
  steady ops cs → c ∈ cs → l ∈ ops → ∃ c', accesses l c = Some c' ∧ c' ∈ cs.
Proof.
  intros Hs Hc Hl. eapply Forall_forall in Hs; [|done]. eapply Forall_forall in Hs; [|done].
  destruct (accesses l c) as [c'|]; [by exists c'|done].
Qed.

Lemma accesses_app `{EqDecision R} (l l' : list (access R)) c c' :
  accesses (l ++ l') c = Some c' → ∃ c1, accesses l c = Some c1 ∧ accesses l' c1 = Some c'.
Proof.
  revert c. induction l as [|[r|r] l IH]; intros c; [by exists c|..]; cbn [app accesses].
  - destruct (load r c) as [x|]; [apply IH|done].
  - destruct (store r c) as [x|]; [apply IH|done].
Qed.
Lemma accesses_fetch `{EqDecision R} (r : R) l c c' :
  accesses (Fetch r :: l) c = Some c' → ∃ i c1, load r c = Some (i, c1) ∧ accesses l c1 = Some c'.
Proof. cbn. destruct (load r c) as [[i c1]|]; [|done]. cbn. by exists i, c1. Qed.
Lemma accesses_flush `{EqDecision R} (r : R) l c c' :
  accesses (Flush r :: l) c = Some c' → ∃ c1, store r c = Some c1 ∧ accesses l c1 = Some c'.
Proof. cbn. destruct (store r c) as [c1|]; [|done]. cbn. by exists c1. Qed.
