(* ===== verification/LeafTree.v ===== *)
(** * LeafTree: B+trees of one leaf, from the operations of the tree down to
    the bytes of the index file

    The operations fetch the root through the buffer pool, change the node in
    memory and flush it. *)
From S2P Require Import Prelude Serialize IndexPage Memory Hash NumTable CircularList ClockReplacer Disk Bpm BTree Cache.

Abbreviation leaf_ok := (node_ok (V:=RID)).

(** ** The state of a tree of one leaf *)

(** The room that pairs take in a page. *)
Definition room (kvs : list (BTreeKey * RID)) : Z :=
  INDEX_PAGE_HEADER_SIZE + TREE_KV_PTR_SIZE * zlen kvs + zlen (kvs_bytes kvs).

(** A tree of one leaf: its root is the page [ρ LeftLeaf], which is the leaf [p] on
    disk. The pool holds pages as one of the caches of [cs], and a page may be
    pinned [n] more times. *)
Record leaf_tree (ρ : role → Z) (cs : list (cache role)) (s : index) (p : BTreePage) (vs : list RID) (n : Z) : Prop := {
  lt_cache : ∃ c, c ∈ cs ∧ cached ρ s c n;
  lt_pid : 0 < ρ LeftLeaf;
  lt_root : root_pid (tree s) = ρ LeftLeaf;
  lt_node : node_at s (ρ LeftLeaf) p;
  lt_leaf : leaf_ok p vs;
}.

(** The accesses of a search and those of a change. *)
Definition leaf_accesses : list (list (access role)) := [[Fetch LeftLeaf]; [Fetch LeftLeaf; Flush LeftLeaf]].

(** Keys of one to 255 bytes with records ... *)
Definition valid_pair (kv : BTreeKey * RID) : Prop :=
  key_fits kv.1 ∧ key_nonempty kv.1 ∧ is_u32 (pid kv.2) ∧ is_u32 (slot_num kv.2).
(** ... that differ from each other in a byte they both have. *)
Definition distinct (kvs : list (BTreeKey * RID)) : Prop :=
  ForallOrdPairs (λ a b, cmpKeys a.1 b.1 ≠ 0) kvs.

Definition pairs (p : BTreePage) (vs : list RID) : list (BTreeKey * RID) := zip (keys p) vs.

Lemma kvs_bytes_Permutation (kvs kvs' : list (BTreeKey * RID)) :
  kvs ≡ₚ kvs' → zlen (kvs_bytes kvs) = zlen (kvs_bytes kvs').
Proof.
  unfold kvs_bytes. induction 1 as [|x l l' _ IH|x y l|l l' l'' _ IH1 _ IH2]; [done| | |by rewrite IH1];
    rewrite ?fmap_cons; cbn [concat]; rewrite ?zlen_app; lia.
Qed.

Lemma room_Permutation kvs kvs' : kvs ≡ₚ kvs' → room kvs = room kvs'.
Proof.
  intros Hp. unfold room. rewrite (kvs_bytes_Permutation _ _ Hp).
  assert (zlen kvs = zlen kvs') as ->; [|done]. unfold zlen. by rewrite (Permutation_length Hp).
Qed.

Lemma zlen_pairs p vs : leaf_ok p vs → zlen (pairs p vs) = zlen (keys p).
Proof. intros [_ Hlen _ _]. unfold pairs, zlen. rewrite length_zip_with. lia. Qed.

Lemma pairs_keys p vs : leaf_ok p vs → (pairs p vs).*1 = keys p.
Proof. intros [_ Hlen _ _]. unfold pairs. by rewrite fst_zip by lia. Qed.

Lemma keys_Permutation p vs kvs : leaf_ok p vs → pairs p vs ≡ₚ kvs → keys p ≡ₚ kvs.*1.
Proof. intros Hok Hp. rewrite <- (pairs_keys p vs Hok). by apply fmap_Permutation. Qed.

(** Every pair takes at least a byte. *)
Lemma leaf_ok_size p vs : leaf_ok p vs → zlen (keys p) < 2 ^ 12.
Proof.
  intros [[_ _ _ _ _ _ _ _ Hfits] _ _ _]. unfold INDEX_PAGE_HEADER_SIZE, TREE_KV_PTR_SIZE, PAGE_SIZE in Hfits.
  change (_ + IS_LEAF_OFFSET) with 26 in Hfits. pose proof (zlen_nonneg (kvs_bytes (zip (keys p) vs))). lia.
Qed.

Section steps.
Context `{U : Uninit} (ρ : role → Z) (cs : list (cache role)).
Hypothesis Hsteady : steady leaf_accesses cs.

Lemma leaf_tree_mono s p vs n n' : leaf_tree ρ cs s p vs n → 0 ≤ n' ≤ n → leaf_tree ρ cs s p vs n'.
Proof. intros [(c & ? & Hc)] Hn. split; try done. exists c. split; [done|]. by eapply cached_mono. Qed.

(** A root that is a leaf is found in one step. *)
Lemma findLeaf_root s c n i c' p key fuel :
  cached ρ s c (n + 1) → 0 ≤ n → load LeftLeaf c = Some (i, c') → root_pid (tree s) = ρ LeftLeaf →
  node_at s (ρ LeftLeaf) p → is_leaf p = true →
  ∃ s', findLeaf (S fuel) key s = Ok ((p, [], ρ LeftLeaf), s') ∧ cached ρ s' c' n ∧ same_pages s s'.
Proof.
  intros Hc Hn Hl Hr Hp Hleaf.
  destruct (load_node ρ s c n _ i c' p Hc Hn Hl Hp) as (s' & page & Hf & Hfr & Hid & Hd & Hc' & Hs).
  exists s'. split; [|done]. unfold findLeaf. lift_step. rewrite Hr. io_step Hf. io_step Hfr. rewrite Hd. lift_step.
  cbn [descend]. rewrite Hleaf. io_step Hfr. by rewrite Hid.
Qed.

Lemma findLeaf_leaf s p vs key fuel n :
  leaf_tree ρ cs s p vs (n + 1) → 0 ≤ n →
  ∃ s', findLeaf (S fuel) key s = Ok ((p, [], ρ LeftLeaf), s') ∧ leaf_tree ρ cs s' p vs n ∧ same_pages s s'.
Proof.
  intros [(c & Hcs & Hc) Hpid Hr Hp Hok] Hn.
  destruct (steady_accesses _ _ c [Fetch LeftLeaf] Hsteady Hcs) as (c' & Hacc & Hcs'); [by left|].
  apply accesses_fetch in Hacc as (i & c1 & Hl & [= ->]).
  destruct (findLeaf_root s c n i c' p key fuel Hc Hn Hl Hr Hp) as (s' & Hf & Hc' & Hs).
  { by rewrite (wf_leaf _ _ (nd_wf _ _ Hok)). }
  exists s'. split; [done|]. split; [|done].
  split; [by exists c'|done|by rewrite (proj1 Hs)|by eapply node_at_same|done].
Qed.

(** The leaf is found, changed and flushed. *)
Lemma find_flush_leaf s p vs p' vs' key fuel n :
  leaf_tree ρ cs s p vs (n + 2) → 0 ≤ n → leaf_ok p' vs' →
  ∃ s1 s2, findLeaf (S fuel) key s = Ok ((p, [], ρ LeftLeaf), s1) ∧ tree s1 = tree s
    ∧ flush_page_of (ρ LeftLeaf) p' s1 = Ok ((), s2)
    ∧ leaf_tree ρ cs s2 p' vs' n ∧ other_pages (ρ LeftLeaf) s s2.
Proof.
  intros [(c & Hcs & Hc) Hpid Hr Hp Hok] Hn Hok'.
  destruct (steady_accesses _ _ c [Fetch LeftLeaf; Flush LeftLeaf] Hsteady Hcs) as (c2 & Hacc & Hcs'); [by right; left|].
  apply accesses_fetch in Hacc as (i & c1 & Hl & Hacc). apply accesses_flush in Hacc as (c2' & Hst & [= ->]).
  destruct (findLeaf_root s c (n + 1) i c1 p key fuel) as (s1 & Hf & Hc1 & Hs); try done; [|lia| |].
  { by replace (n + 1 + 1) with (n + 2) by lia. }
  { by rewrite (wf_leaf _ _ (nd_wf _ _ Hok)). }
  assert (node_at s1 (ρ LeftLeaf) p) as Hp1 by by eapply node_at_same.
  destruct (store_node ρ s1 c1 n LeftLeaf c2 p' vs' Hc1 Hn Hst (proj1 Hp1) Hok') as (s2 & Hfl & Hc2 & Hp2 & Ho).
  exists s1, s2. split; [done|]. split; [apply Hs|]. split; [done|]. split; [|by eapply other_pages_trans, Ho; apply same_other].
  split; [by exists c2|done| |done|done]. by rewrite (proj1 Ho), (proj1 Hs).
Qed.

(** *** Insertion *)

Context `{N : UninitNode}.

Lemma leaf_insert p vs key val :
  leaf_ok p vs → Forall (λ k, cmpKeys k key ≠ 0) (keys p) → key_fits key → key_nonempty key →
  is_u32 (pid val) → is_u32 (slot_num val) → room ((key, val) :: pairs p vs) ≤ PAGE_SIZE →
  ∃ p' vs', insertIntoNode p key val = Ok p' ∧ leaf_ok p' vs'
    ∧ pairs p' vs' ≡ₚ (key, val) :: pairs p vs ∧ zlen (keys p') = zlen (keys p) + 1 ∧ next p' = next p.
Proof.
  intros Hok Hnew Hfit Hne Hpid Hslot Hroom. pose proof (leaf_ok_size p vs Hok) as Hsize.
  destruct Hok as [Hwf Hlen Hnes Hs]. pose proof (wf_values _ _ Hwf) as Hv.
  destruct (insertIntoNode_ok p vs key val Hv Hlen ltac:(lia) Hs Hnew) as (ks' & vs' & Hins & Hs' & Hlen' & Hperm).
  rewrite Hins. eexists _, vs'. split; [done|]. cbn [keys].
  assert (ks' ≡ₚ key :: keys p) as Hks.
  { apply (fmap_Permutation fst) in Hperm. rewrite fmap_cons, !fst_zip in Hperm by lia. done. }
  assert (vs' ≡ₚ val :: vs) as Hvs.
  { apply (fmap_Permutation snd) in Hperm. rewrite fmap_cons, !snd_zip in Hperm by lia. done. }
  split_and!; [|done|unfold zlen; rewrite (Permutation_length Hks); cbn [length]; lia|done].
  split; cbn [keys]; [|done| |done].
  - destruct Hwf. split; cbn [is_leaf keys values flags rightmost_ptr next]; try done; try lia.
    + rewrite Hks. by constructor.
    + rewrite Hvs. by constructor.
    + assert (zlen ks' = zlen (zip ks' vs')) as -> by (unfold zlen; rewrite length_zip_with; lia).
      fold (room (zip ks' vs')). by rewrite (room_Permutation _ _ Hperm).
  - rewrite Hks. by constructor.
Qed.

Lemma existsb_none (ks : list BTreeKey) key :
  Forall (λ k, cmpKeys k key ≠ 0) ks → existsb (λ k, cmpKeys k key =? 0) ks = false.
Proof. induction 1 as [|k ks Hk _ IH]; [done|]. cbn. by rewrite (proj2 (Z.eqb_neq _ _) Hk), IH. Qed.

Lemma existsb_some (ks : list BTreeKey) key k :
  k ∈ ks → cmpKeys k key = 0 → existsb (λ k, cmpKeys k key =? 0) ks = true.
Proof.
  intros Hk Hc. apply existsb_exists. exists k. split; [by apply list_elem_of_In|]. by apply Z.eqb_eq.
Qed.

Lemma split_not_full p pid crumbs s : zlen (keys p) ≤ max_size (tree s) → split_if_full p pid crumbs s = Ok (p, s).
Proof. intros Hm. unfold split_if_full. lift_step. by rewrite (proj2 (Z.ltb_ge _ _)) by done. Qed.

(** A new key finds its place in a leaf that is not full. *)
Lemma insert_leaf_tree s s1 p vs key val fuel n :
  ensure_root s = Ok ((), s1) → leaf_tree ρ cs s1 p vs (n + 2) → 0 ≤ n →
  Forall (λ k, cmpKeys k key ≠ 0) (keys p) → valid_pair (key, val) →
  room ((key, val) :: pairs p vs) ≤ PAGE_SIZE → zlen (keys p) < max_size (tree s1) →
  ∃ s' p' vs', insert (S fuel) key val s = Ok (ρ LeftLeaf, s') ∧ leaf_tree ρ cs s' p' vs' n
    ∧ pairs p' vs' ≡ₚ (key, val) :: pairs p vs ∧ zlen (keys p') = zlen (keys p) + 1
    ∧ other_pages (ρ LeftLeaf) s1 s'.
Proof.
  intros Hens Ht Hn Hnew (Hfit & Hne & Hpid & Hslot) Hroom Hmax. pose proof (lt_pid _ _ _ _ _ _ Ht) as Hr.
  destruct (leaf_insert p vs key val (lt_leaf _ _ _ _ _ _ Ht) Hnew Hfit Hne Hpid Hslot Hroom)
    as (p' & vs' & Hins & Hok' & Hperm & Hcount & _).
  destruct (find_flush_leaf s1 p vs p' vs' key fuel n Ht Hn Hok') as (s2 & s3 & Hfind & Ht2 & Hfl & Ht3 & Ho).
  exists s3, p', vs'. split; [|done].
  unfold insert. io_step Hens. io_step Hfind. unfold assert_that, BTREE_METADATA_PAGE_ID.
  rewrite (proj2 (Z.eqb_neq _ _)) by lia. cbn [negb]. lift_step. rewrite existsb_none by done.
  rewrite Hins. lift_step. erewrite io_bind_ok by (apply split_not_full; rewrite Ht2; lia).
  io_step Hfl. done.
Qed.

(** The first insertion into a tree creates its root, and nothing else. *)
Lemma insert_ensured s s1 fuel key val :
  ensure_root s = Ok ((), s1) → ensure_root s1 = Ok ((), s1) → insert fuel key val s = insert fuel key val s1.
Proof. intros H1 H2. unfold insert. by rewrite (io_bind_ok _ _ _ _ _ H1), (io_bind_ok _ _ _ _ _ H2). Qed.

(** *** The first insertion *)

Definition empty_leaf : BTreePage := mkPage true [] 0 0 0 (LeafRecords []).

Lemma empty_leaf_ok : leaf_ok empty_leaf [].
Proof. split; [|done|by constructor|by constructor]. split; [done|done|done|by constructor|by constructor|by_compute..]. Qed.

Lemma deserialize_blank : deserialize (blank_page true) = Ok empty_leaf.
Proof. by vm_compute. Qed.

(** An index file without nodes, opened with an empty pool. *)
Record new_tree (s : index) (n : Z) : Prop := {
  nt_cache : cached ρ s empty_cache n;
  nt_leaf : ρ LeftLeaf = 1;
  nt_root : root_pid (tree s) = 0;
  nt_count : node_count (tree s) = 0;
  nt_file : index_file (dm_of s) 0 (max_size (tree s)) (dk s);
}.

Lemma ensure_root_new s n :
  new_tree s n → empty_cache ∈ cs → ∃ s', ensure_root s = Ok ((), s') ∧ leaf_tree ρ cs s' empty_leaf [] n
    ∧ tree s' = mkBTree (magic_num (tree s)) (max_size (tree s)) 1 1 ∧ dm_of s' = dm_of s
    ∧ index_file (dm_of s') 1 (max_size (tree s)) (dk s').
Proof.
  intros [Hc Hleaf Hroot Hcount Hfile] Hcs.
  destruct (alloc_ok ρ s empty_cache n 0 _ true Hc Hfile ltac:(lia))
    as (s1 & Halloc & Hc1 & Ht1 & Hdm1 & Hf1 & Hblank & _).
  { intros i r Hi. do 5 (destruct i as [|i]; [done|]). done. }
  change (0 + 1) with 1 in *.
  eexists (mkIndex (mkBTree (magic_num (tree s)) (max_size (tree s)) 1 1) (pool s1) (hp s1) (dk s1)).
  split; [|split; [|by split]].
  - unfold ensure_root. lift_step. rewrite Hroot. change (0 <=? BTREE_METADATA_PAGE_ID) with true. cbv iota.
    io_step Halloc. lift_step. unfold assert_that.
    change (negb (1 =? BTREE_METADATA_PAGE_ID)) with true. cbv iota. do 2 lift_step. unfold add_nodes, set_root. cbn. by rewrite Hcount.
  - split; cbn [tree root_pid]; [|lia|done| |apply empty_leaf_ok].
    + exists empty_cache. split; [done|]. by apply (cached_disk ρ s1).
    + rewrite Hleaf. split; cbn [pool dk]; [|by rewrite Hblank, deserialize_blank].
      apply page_of_has; [lia|]. rewrite Hblank. apply blank_page_length.
Qed.

Lemma ensure_root_old s : 0 < root_pid (tree s) → ensure_root s = Ok ((), s).
Proof.
  intros Hr. unfold ensure_root, BTREE_METADATA_PAGE_ID. lift_step. by rewrite (proj2 (Z.leb_gt _ _)) by lia.
Qed.

Lemma leaf_tree_ensured s p vs n : leaf_tree ρ cs s p vs n → ensure_root s = Ok ((), s).
Proof. intros Ht. apply ensure_root_old. rewrite (lt_root _ _ _ _ _ _ Ht). apply (lt_pid _ _ _ _ _ _ Ht). Qed.

(** *** Sequences of insertions *)

Fixpoint insert_all (fuel : nat) (kvs : list (BTreeKey * RID)) : io () :=
  match kvs with
  | [] => mret ()
  | (key, val) :: kvs => _ ← insert fuel key val; insert_all fuel kvs
  end.


Lemma room_app_l kvs kvs' : room kvs ≤ room (kvs ++ kvs').
Proof.
  unfold room. rewrite kvs_bytes_app, !zlen_app. unfold TREE_KV_PTR_SIZE.
  pose proof (zlen_nonneg kvs'). pose proof (zlen_nonneg (kvs_bytes kvs')). lia.
Qed.

Lemma insert_all_leaf fuel kvs s p vs n :
  leaf_tree ρ cs s p vs (n + 2 * zlen kvs) → 0 ≤ n → Forall valid_pair kvs → distinct kvs →
  Forall (λ k, Forall (λ kv : BTreeKey * RID, cmpKeys k kv.1 ≠ 0) kvs) (keys p) →
  room (pairs p vs ++ kvs) ≤ PAGE_SIZE → zlen (keys p) + zlen kvs ≤ max_size (tree s) →
  ∃ s' p' vs', insert_all (S fuel) kvs s = Ok ((), s') ∧ leaf_tree ρ cs s' p' vs' n
    ∧ pairs p' vs' ≡ₚ pairs p vs ++ kvs ∧ other_pages (ρ LeftLeaf) s s'.
Proof.
  revert s p vs. induction kvs as [|[key val] kvs IH]; intros s p vs Ht Hn Hv Hd Hnew Hroom Hmax.
  { exists s, p, vs. rewrite app_nil_r. rewrite Z.add_0_r in Ht. split_and!; [done..|by apply same_other]. }
  inversion Hv as [|? ? Hv1 Hv']; subst. inversion Hd as [|? ? Hd1 Hd']; subst.
  cbn [fst snd] in *. rewrite zlen_cons in *. pose proof (zlen_nonneg kvs).
  replace (n + 2 * (1 + zlen kvs)) with (n + 2 * zlen kvs + 2) in Ht by lia.
  assert ((key, val) :: pairs p vs ++ kvs ≡ₚ pairs p vs ++ (key, val) :: kvs) as Hperm0 by apply Permutation_middle.
  destruct (insert_leaf_tree s s p vs key val fuel _ (leaf_tree_ensured _ _ _ _ Ht) Ht)
    as (s1 & p1 & vs1 & Hins & Ht1 & Hperm & Hcount & Ho); [lia| |done| |lia|].
  { eapply Forall_impl; [exact Hnew|]. intros k Hk. by inversion Hk. }
  { rewrite <- (room_Permutation _ _ Hperm0) in Hroom. pose proof (room_app_l ((key, val) :: pairs p vs) kvs).
    cbn [app] in *. lia. }
  pose proof (proj1 Ho) as Htree. pose proof (lt_leaf _ _ _ _ _ _ Ht1) as Hok1.
  destruct (IH s1 p1 vs1 Ht1 Hn Hv' Hd') as (s' & p' & vs' & Hall & Ht' & Hperm' & Ho');
    [| |rewrite Htree; lia|].
  - rewrite (keys_Permutation _ _ _ Hok1 Hperm), fmap_cons, (pairs_keys _ _ (lt_leaf _ _ _ _ _ _ Ht)).
    constructor; [done|]. eapply Forall_impl; [exact Hnew|]. intros k Hk. by inversion Hk.
  - etrans; [|exact Hroom]. apply Z.eq_le_incl, room_Permutation.
    etrans; [exact (Permutation_app_tail kvs Hperm)|exact Hperm0].
  - exists s', p', vs'. split; [|split; [done|split; [|by eapply other_pages_trans]]].
    + cbn [insert_all]. io_step Hins. exact Hall.
    + by rewrite Hperm', Hperm.
Qed.

(** *** Removal *)

Lemma memcmp_eq a b : length a = length b → memcmp a b (length a) = 0 ↔ a = b.
Proof.
  revert b. induction a as [|x a IH]; intros [|y b] Hlen; try done. injection Hlen as Hlen.
  cbn [length memcmp]. destruct (Z.eqb_spec x y) as [->|Hne].
  - rewrite (IH b Hlen). split; [by intros ->|by intros [= ->]].
  - split; [lia|by intros [= ->]].
Qed.

Lemma key_eqb_spec k1 k2 : key_eqb k1 k2 = true ↔ k1 = k2.
Proof.
  unfold key_eqb. rewrite andb_true_iff, Nat.eqb_eq, Z.eqb_eq. split.
  - intros [Hlen Hc]. by apply (memcmp_eq k1 k2 Hlen).
  - intros ->. split; [done|]. by apply memcmp_eq.
Qed.

Lemma key_index_found ks key : key ∈ ks → ks !! key_index ks key = Some key.
Proof.
  induction ks as [|k ks IH]; intros Hin; [by apply elem_of_nil in Hin|]. cbn [key_index].
  destruct (key_eqb k key) eqn:E; [by apply key_eqb_spec in E as ->|].
  apply elem_of_cons in Hin as [->|Hin]; [|by apply IH].
  assert (key_eqb k k = true) by by apply key_eqb_spec. congruence.
Qed.

Lemma key_index_missing ks key : key ∉ ks → key_index ks key = length ks.
Proof.
  induction ks as [|k ks IH]; intros Hin; [done|]. apply not_elem_of_cons in Hin as [Hne Hin]. cbn [key_index].
  destruct (key_eqb k key) eqn:E; [apply key_eqb_spec in E; congruence|]. by rewrite IH.
Qed.

#[local] Instance key_lt_trans : Transitive key_lt.
Proof.
  unfold key_lt. intros a. induction a as [|x a IH]; intros [|y b] [|z c]; try done.
  rewrite !cmpKeys_cons. destruct (Z.eqb_spec x y), (Z.eqb_spec y z), (Z.eqb_spec x z); try lia. apply IH.
Qed.

Lemma Sorted_delete ks i : Sorted key_lt ks → Sorted key_lt (delete i ks).
Proof.
  intros Hs. apply (Sorted_StronglySorted key_lt_trans) in Hs. apply StronglySorted_Sorted.
  revert i. induction Hs as [|k ks Hs IH Hk]; intros i; [destruct i; constructor|].
  destruct i as [|i]; [done|]. constructor; [apply IH|by apply Forall_delete].
Qed.

Lemma pairs_delete (ks : list BTreeKey) (vs : list RID) i k v :
  ks !! i = Some k → vs !! i = Some v → zip ks vs ≡ₚ (k, v) :: zip (delete i ks) (delete i vs).
Proof.
  revert vs i. induction ks as [|k' ks IH]; intros [|v' vs] [|i] Hk Hv; try done.
  - by injection Hk as ->; injection Hv as ->.
  - cbn. rewrite (IH vs i Hk Hv). apply Permutation_swap.
Qed.

Lemma vec_erase_ok {A} (l : list A) i : (i < length l)%nat → vec_erase l (Z.of_nat i) = Ok (delete i l).
Proof.
  intros Hi. unfold vec_erase, zlen. rewrite (proj2 (Z.leb_le _ _)), (proj2 (Z.ltb_lt _ _)) by lia.
  cbn. by rewrite Nat2Z.id.
Qed.

Lemma leaf_delete p vs i k v :
  leaf_ok p vs → keys p !! i = Some k → vs !! i = Some v →
  leaf_ok (set_values (LeafRecords (delete i vs)) (set_keys (delete i (keys p)) p)) (delete i vs)
  ∧ pairs p vs ≡ₚ (k, v) :: pairs (set_values (LeafRecords (delete i vs)) (set_keys (delete i (keys p)) p)) (delete i vs).
Proof.
  intros [Hwf Hlen Hne Hs] Hk Hv. pose proof (pairs_delete _ _ _ _ _ Hk Hv) as Hperm.
  apply lookup_lt_Some in Hk as Hik. apply lookup_lt_Some in Hv as Hiv.
  assert (length (delete i vs) = length (delete i (keys p))) as Hlen' by (rewrite !length_delete by done; lia).
  split; [|exact Hperm]. split; cbn [keys set_values set_keys]; [|done|by apply Forall_delete|by apply Sorted_delete].
  destruct Hwf. split; cbn [is_leaf keys values flags rightmost_ptr next set_values set_keys]; try done; try lia.
  - by apply Forall_delete.
  - by apply Forall_delete.
  - assert (room (zip (keys p) vs) ≤ PAGE_SIZE) as Hroom.
    { unfold room. assert (zlen (zip (keys p) vs) = zlen (keys p)) as ->; [|done]. unfold zlen. rewrite length_zip_with. lia. }
    rewrite (room_Permutation _ _ Hperm) in Hroom.
    set (zs := zip (delete i (keys p)) (delete i vs)) in *.
    assert (zlen (delete i (keys p)) = zlen zs) as -> by (unfold zlen, zs; rewrite length_zip_with; lia).
    fold (room zs). etrans; [|exact Hroom].
    rewrite (room_Permutation ((k, v) :: zs) (zs ++ [(k, v)])) by apply Permutation_cons_append. apply room_app_l.
Qed.

(** What [remove] makes of the leaf in memory. *)
Lemma leaf_remove p vs key :
  leaf_ok p vs → key ∈ keys p →
  let i := Z.of_nat (key_index (keys p) key) in
  ∃ val p' vs', (∃ ks', vec_erase (keys p) i = Ok ks' ∧ vec_erase vs i = Ok vs'
                 ∧ set_values (LeafRecords vs') (set_keys ks' p) = p')
    ∧ leaf_ok p' vs' ∧ pairs p vs ≡ₚ (key, val) :: pairs p' vs'.
Proof.
  intros Hok Hin. pose proof (key_index_found _ _ Hin) as Hk. cbv zeta. set (i := key_index (keys p) key) in *.
  apply lookup_lt_Some in Hk as Hi. pose proof (nd_length _ _ Hok) as Hlen.
  destruct (lookup_lt_is_Some_2 vs i) as [val Hv]; [lia|].
  destruct (leaf_delete p vs i key val Hok Hk Hv) as [Hok' Hperm].
  eexists val, _, _. split; [|by split]. exists (delete i (keys p)). rewrite !vec_erase_ok by lia. done.
Qed.

Lemma erase_missing (ks : list BTreeKey) key :
  key ∉ ks → vec_erase ks (Z.of_nat (key_index ks key)) = Undef OutOfBounds.
Proof.
  intros Hin. rewrite key_index_missing by done. unfold vec_erase, zlen. by rewrite Z.ltb_irrefl, andb_false_r.
Qed.

(** A key that the leaf has is removed with its record ... *)
Lemma remove_leaf_tree s p vs key fuel n :
  leaf_tree ρ cs s p vs (n + 2) → 0 ≤ n → key ∈ keys p →
  ∃ s' p' vs' val, remove (S fuel) key s = Ok ((), s') ∧ leaf_tree ρ cs s' p' vs' n
    ∧ pairs p vs ≡ₚ (key, val) :: pairs p' vs' ∧ other_pages (ρ LeftLeaf) s s'.
Proof.
  intros Ht Hn Hin. pose proof (lt_leaf _ _ _ _ _ _ Ht) as Hok.
  destruct (leaf_remove p vs key Hok Hin) as (val & p' & vs' & Hrem & Hok' & Hperm).
  destruct (find_flush_leaf s p vs p' vs' key fuel n Ht Hn Hok') as (s1 & s2 & Hfind & _ & Hfl & Ht2 & Ho).
  exists s2, p', vs', val. split; [|done].
  unfold remove. io_step Hfind. rewrite (wf_values _ _ (nd_wf _ _ Hok)). cbn [put_values VAL_T_RID LEAF_RECORDS].
  lift_step. destruct Hrem as (ks' & Hks & Hvs & Hp'). rewrite Hks, Hvs. do 2 lift_step. rewrite Hp'. io_step Hfl. done.
Qed.

(** ... and for a key it does not have the code erases past the end. *)
Lemma remove_missing s p vs key fuel n :
  leaf_tree ρ cs s p vs (n + 1) → 0 ≤ n → key ∉ keys p → remove (S fuel) key s = Undef OutOfBounds.
Proof.
  intros Ht Hn Hin. destruct (findLeaf_leaf s p vs key fuel n Ht Hn) as (s2 & Hfind & _).
  unfold remove. io_step Hfind. rewrite (wf_values _ _ (nd_wf _ _ (lt_leaf _ _ _ _ _ _ Ht))).
  cbn [put_values VAL_T_RID LEAF_RECORDS]. lift_step. by rewrite erase_missing.
Qed.

(** A key that agrees with one of the leaf on the bytes they both have is taken
    for a duplicate. *)
Lemma insert_duplicate s p vs key val fuel k n :
  leaf_tree ρ cs s p vs (n + 1) → 0 ≤ n → k ∈ keys p → cmpKeys k key = 0 →
  ∃ s', insert (S fuel) key val s = Ok (0, s') ∧ leaf_tree ρ cs s' p vs n ∧ same_pages s s'.
Proof.
  intros Ht Hn Hk Hc. pose proof (lt_pid _ _ _ _ _ _ Ht) as Hr.
  destruct (findLeaf_leaf s p vs key fuel n Ht Hn) as (s2 & Hfind & Ht2 & Hs2).
  exists s2. split; [|done]. unfold insert. io_step (leaf_tree_ensured _ _ _ _ Ht). io_step Hfind.
  unfold assert_that, BTREE_METADATA_PAGE_ID. rewrite (proj2 (Z.eqb_neq _ _)) by lia. cbn [negb]. lift_step.
  by rewrite (existsb_some _ _ _ Hk Hc).
Qed.

(** *** An index from its creation on *)

Lemma insert_all_new fuel kvs s n :
  new_tree s (n + 2 * zlen kvs) → empty_cache ∈ cs → 0 ≤ n →
  kvs ≠ [] → Forall valid_pair kvs → distinct kvs → room kvs ≤ PAGE_SIZE →
  zlen kvs ≤ max_size (tree s) →
  ∃ s' p vs, insert_all (S fuel) kvs s = Ok ((), s') ∧ leaf_tree ρ cs s' p vs n ∧ pairs p vs ≡ₚ kvs
    ∧ dm_of s' = dm_of s ∧ max_size (tree s') = max_size (tree s).
Proof.
  intros Hnew Hcs Hn Hne Hv Hd Hroom Hcount. destruct kvs as [|[key val] kvs]; [done|].
  destruct (ensure_root_new _ _ Hnew Hcs) as (s0 & Hens & Ht0 & Htree0 & Hdm0 & _).
  assert (insert_all (S fuel) ((key, val) :: kvs) s = insert_all (S fuel) ((key, val) :: kvs) s0) as ->.
  { cbn [insert_all]. unfold mbind, io_bind. by rewrite (insert_ensured _ _ _ _ _ Hens (leaf_tree_ensured _ _ _ _ Ht0)). }
  destruct (insert_all_leaf fuel ((key, val) :: kvs) s0 empty_leaf [] n Ht0 Hn Hv Hd)
    as (s' & p & vs & Hall & Ht & Hperm & (Htree & Hdm & _)); [constructor|exact Hroom|by rewrite Htree0|].
  exists s', p, vs. split_and!; [done..|congruence|]. by rewrite Htree, Htree0.
Qed.
End steps.

(** The pages of an index in the order in which they are allocated. *)
Definition new_pages (r : role) : Z :=
  match r with Meta => 0 | LeftLeaf => 1 | RightLeaf => 2 | Root => 3 end.

(** The caches of a tree of one leaf since its creation. *)
Definition leaf_caches : list (cache role) :=
  [empty_cache; mkCache [Some LeftLeaf; None; None; None] []; mkCache [None; None; None; None] [0%nat]].

Lemma leaf_caches_steady : steady leaf_accesses leaf_caches.
Proof. apply (bool_decide_unpack _). by vm_compute. Qed.

Section new.
Context `{U : Uninit} `{N : UninitNode}.

Lemma new_tree_created name max_keys size d n :
  zlen name < 25 → is_byte max_keys → 4 ≤ size ≤ 65535 → contents (path_of name) d = [] → 0 ≤ n < 2 ^ 31 - 2 →
  ∃ dm d1 d2, create_btree_index name max_keys d = Ok (Some dm, d1)
    ∧ tree_deserialize dm d1 = Ok (mkBTree BTREE_INDEX max_keys 0 0, d2)
    ∧ new_tree new_pages (mkIndex (mkBTree BTREE_INDEX max_keys 0 0) (new_bpm size dm) new_heap d2) n
    ∧ disk_manager (new_bpm size dm) = dm.
Proof.
  intros Hname Hmax Hsize He Hn. destruct (create_btree_index_ok name max_keys d Hname Hmax He) as (d1 & Hc & Hf).
  assert (short_name name) as Hs by (unfold short_name; lia).
  set (dm := mkDiskManager (mkHashTable [] 0 false) name false) in *.
  destruct (read_page_ok dm 0 d1 Hs ltac:(by_compute)) as (d2 & Hr & Hd2).
  { unfold has_page, file_of. cbn [table_name dm]. by rewrite Hf. }
  exists dm, d1, d2. split; [done|]. split; [|split; [|done]].
  - unfold tree_deserialize, BTREE_METADATA_PAGE_ID. rewrite Hr. ok_step.
    unfold page_of, file_of. cbn [table_name dm]. rewrite Hf. by vm_compute.
  - split; [|done..|].
    + apply new_bpm_cached; [done|lia|lia|by intros []| |done].
      intros r r' Heq. destruct r, r'; cbn [new_pages] in Heq; rewrite !Z.mod_small in Heq by lia; done.
    + apply new_index_file; [done|]. by rewrite Hd2.
Qed.

(** The pairs inserted into a new index, in any order, are on disk afterwards,
    sorted by their keys in the page of the root, as long as they are pairwise
    distinct, not more than the index allows in a node, and fit a page. *)
Theorem insert_all_spec name max_keys size kvs fuel d :
  zlen name < 25 → is_byte max_keys → 4 ≤ size ≤ 65535 → contents (path_of name) d = [] →
  kvs ≠ [] → Forall valid_pair kvs → distinct kvs → room kvs ≤ PAGE_SIZE → zlen kvs ≤ max_keys →
  ∃ dm d1 t d2 s p vs, create_btree_index name max_keys d = Ok (Some dm, d1)
    ∧ tree_deserialize dm d1 = Ok (t, d2)
    ∧ insert_all (S fuel) kvs (mkIndex t (new_bpm size dm) new_heap d2) = Ok ((), s)
    ∧ deserialize (page_of dm (root_pid (tree s)) (dk s)) = Ok p
    ∧ is_leaf p = true ∧ values p = LeafRecords vs ∧ Sorted key_lt (keys p) ∧ zip (keys p) vs ≡ₚ kvs.
Proof.
  intros Hname Hmax Hsize He Hne Hv Hd Hroom Hcount. pose proof (zlen_nonneg kvs). unfold is_byte in Hmax.
  destruct (new_tree_created name max_keys size d (0 + 2 * zlen kvs) Hname Hmax Hsize He ltac:(lia))
    as (dm & d1 & d2 & Hc & Hde & Hnew & Hdm).
  destruct (insert_all_new new_pages leaf_caches leaf_caches_steady fuel kvs _ 0 Hnew) as (s & p & vs & Hall & Ht & Hperm & Hdm' & _);
    [by left|done..|].
  cbn [pool] in Hdm'. rewrite Hdm in Hdm'. destruct Ht as [_ _ Hr [_ Hnode] [Hwf _ _ Hsorted]]. rewrite Hdm', <- Hr in Hnode.
  exists dm, d1, (mkBTree BTREE_INDEX max_keys 0 0), d2, s, p, vs. destruct Hwf. by split_and!.
Qed.

(** C7: the operations on a tree of one leaf, through the pool and on disk, are
    those of a map of the keys to the records. A new key is inserted with its record,
    and a key that agrees with one of the leaf on the bytes they both have is
    refused; a key of the leaf is removed, and the removal of any other key erases
    past the end of a vector. The other pages of the file keep their contents. *)
Theorem leaf_tree_spec ρ cs s p vs key fuel n :
  steady leaf_accesses cs → leaf_tree ρ cs s p vs (n + 2) → 0 ≤ n →
  (∀ val, Forall (λ k, cmpKeys k key ≠ 0) (keys p) → valid_pair (key, val) →
    room ((key, val) :: pairs p vs) ≤ PAGE_SIZE → zlen (keys p) < max_size (tree s) →
    ∃ s' p' vs', insert (S fuel) key val s = Ok (root_pid (tree s), s') ∧ leaf_tree ρ cs s' p' vs' n
      ∧ pairs p' vs' ≡ₚ (key, val) :: pairs p vs ∧ other_pages (root_pid (tree s)) s s')
  ∧ (∀ val k, k ∈ keys p → cmpKeys k key = 0 →
    ∃ s', insert (S fuel) key val s = Ok (0, s') ∧ leaf_tree ρ cs s' p vs n ∧ same_pages s s')
  ∧ (key ∈ keys p →
    ∃ s' p' vs' val, remove (S fuel) key s = Ok ((), s') ∧ leaf_tree ρ cs s' p' vs' n
      ∧ pairs p vs ≡ₚ (key, val) :: pairs p' vs' ∧ other_pages (root_pid (tree s)) s s')
  ∧ (key ∉ keys p → remove (S fuel) key s = Undef OutOfBounds).
Proof.
  intros Hcs Ht Hn. rewrite (lt_root _ _ _ _ _ _ Ht).
  assert (leaf_tree ρ cs s p vs (n + 1)) as Ht1 by (apply (leaf_tree_mono _ _ _ _ _ _ _ Ht); lia).
  split; [|split; [|split]].
  - intros val Hnew Hv Hroom Hmax.
    destruct (insert_leaf_tree ρ cs Hcs s s p vs key val fuel n (leaf_tree_ensured _ _ _ _ _ _ Ht) Ht Hn)
      as (s' & p' & vs' & ? & ? & ? & _ & ?); [done..|]. by exists s', p', vs'.
  - intros val k Hk Hc. by apply (insert_duplicate ρ cs Hcs s p vs key val fuel k).
  - by apply remove_leaf_tree.
  - by apply (remove_missing ρ cs Hcs s p vs key fuel n).
Qed.
End new.

(** ** An index with the letters of the alphabet for keys *)

#[local] Existing Instance zero_uninit.
#[local] Instance zero_node : UninitNode := Build_UninitNode 0 0 0.

Definition letter (c : ascii) : BTreeKey * RID := ([code c], mkRID (code c) 1).
Definition letters (t : string) : list (BTreeKey * RID) := letter <$> str t.

Lemma letters_pairs : distinct (letters "BCA") ∧ Forall valid_pair (letters "BCA").
Proof. split; repeat constructor; by vm_compute. Qed.

Lemma sample_leaf_tree n :
  0 ≤ n < 2 ^ 30 →
  ∃ s p vs, leaf_tree new_pages leaf_caches s p vs n ∧ pairs p vs ≡ₚ letters "BCA" ∧ max_size (tree s) = 4.
Proof.
  intros Hn. destruct (new_tree_created (str "idx") 4 10 ∅ (n + 2 * 3)) as (dm & d1 & d2 & _ & _ & Hnew & _);
    [done..|lia|].
  destruct (insert_all_new _ _ leaf_caches_steady 0 (letters "BCA") _ n Hnew)
    as (s & p & vs & Hs & Ht & Hp & _ & Hmax);
    [by left|lia|done|apply letters_pairs|apply letters_pairs|by_compute|by_compute|].
  by exists s, p, vs.
Qed.

Lemma insert_all_spec_witness :
  ∃ dm d1 t d2 s p vs, create_btree_index (str "idx") 4 ∅ = Ok (Some dm, d1)
    ∧ tree_deserialize dm d1 = Ok (t, d2)
    ∧ insert_all 1 (letters "BCA") (mkIndex t (new_bpm 10 dm) new_heap d2) = Ok ((), s)
    ∧ deserialize (page_of dm (root_pid (tree s)) (dk s)) = Ok p
    ∧ is_leaf p = true ∧ values p = LeafRecords vs ∧ Sorted key_lt (keys p) ∧ zip (keys p) vs ≡ₚ letters "BCA".
Proof.
  apply (insert_all_spec (str "idx") 4 10 (letters "BCA") 0 ∅);
    [done|done|done|done|done|apply letters_pairs|apply letters_pairs|by_compute|by_compute].
Defined.

Lemma leaf_tree_spec_witness :
  ∃ s p vs, leaf_tree new_pages leaf_caches s p vs 2 ∧ max_size (tree s) = 4
    ∧ (∃ s', insert 1 [code "D"] (mkRID 1 1) s = Ok (root_pid (tree s), s'))
    ∧ (∃ s', insert 1 [code "A"; 0] (mkRID 1 1) s = Ok (0, s'))
    ∧ (∃ s', remove 1 [code "B"] s = Ok ((), s'))
    ∧ remove 1 [code "D"] s = Undef OutOfBounds.
Proof.
  destruct (sample_leaf_tree 2 ltac:(done)) as (s & p & vs & Ht & Hp & Hmax).
  pose proof (keys_Permutation _ _ _ (lt_leaf _ _ _ _ _ _ Ht) Hp) as Hk.
  pose proof (λ key, leaf_tree_spec new_pages leaf_caches s p vs key 0 0 leaf_caches_steady Ht ltac:(done)) as Hspec.
  exists s, p, vs. split; [exact Ht|]. split; [exact Hmax|].
  split; [|split; [|split]].
  - destruct (proj1 (Hspec [code "D"]) (mkRID 1 1)) as (s' & _ & _ & Hi & _).
    + rewrite Hk. by repeat constructor.
    + by repeat split.
    + rewrite (room_Permutation _ ((_, _) :: letters "BCA")) by (by rewrite Hp). by_compute.
    + unfold zlen. rewrite (Permutation_length Hk), Hmax. done.
    + by exists s'.
  - destruct (proj1 (proj2 (Hspec [code "A"; 0])) (mkRID 1 1) [code "A"]) as (s' & Hi & _);
      [rewrite Hk; apply (bool_decide_unpack _); by vm_compute|done|by exists s'].
  - destruct (proj1 (proj2 (proj2 (Hspec [code "B"])))) as (s' & _ & _ & _ & Hi & _);
      [rewrite Hk; apply (bool_decide_unpack _); by vm_compute|by exists s'].
  - apply (Hspec [code "D"]). rewrite Hk. apply (bool_decide_unpack _). by vm_compute.
Defined.
