(* ===== verification/TwoLeaves.v ===== *)
(** * TwoLeaves: B+trees of a root and two leaves

    A tree gets a second leaf when its only one is split. The search takes the
    right leaf in such a tree, since its root has one key; insertions, and
    removals that do not merge the leaves, keep it in shape. *)
From stdpp Require Import sorting.
From S2P Require Import Prelude Serialize IndexPage Memory Hash NumTable CircularList ClockReplacer Disk Bpm BTree Cache LeafTree.

Lemma zlen_zero {A} (l : list A) : zlen l = 0 → l = [].
Proof. destruct l; [done|]. unfold zlen. cbn [length]. lia. Qed.

(** ** The state of a tree of two leaves *)

(** The leaves are told apart by [true] for the left one and [false] for the right
    one. *)
Definition leaf_role (b : bool) : role := if b then LeftLeaf else RightLeaf.
(** The leaf for a key, by the key of the root. *)
Definition side (mid key : BTreeKey) : bool := 0 <? cmpKeys mid key.
Definition upd {A} (b : bool) (x : A) (P : bool → A) : bool → A := λ b', if eqb b b' then x else P b'.

Lemma upd_same {A} b (x : A) P : upd b x P b = x.
Proof. by destruct b. Qed.
Lemma upd_other {A} b (x : A) P : upd b x P (negb b) = P (negb b).
Proof. by destruct b. Qed.

(** The root: the key [mid] between two pages. *)
Record fork (ρ : role → Z) (mid : BTreeKey) (r : BTreePage) : Prop := {
  fk_leaf : is_leaf r = false;
  fk_keys : keys r = [mid];
  fk_values : values r = InternalChildren [ρ LeftLeaf];
  fk_rightmost : rightmost_ptr r = ρ RightLeaf;
}.

(** The leaves [P] with the records [W] are on their pages, each with the keys of its
    side. *)
Record twig_nodes (ρ : role → Z) (s : index) (mid : BTreeKey)
    (P : bool → BTreePage) (W : bool → list RID) : Prop := {
  tw_pids : ∀ r, r ≠ Meta → 0 < ρ r;
  tw_root : root_pid (tree s) = ρ Root;
  tw_fork : ∃ r, node_at s (ρ Root) r ∧ fork ρ mid r ∧ node_ok r [ρ LeftLeaf];
  tw_node : ∀ b, node_at s (ρ (leaf_role b)) (P b);
  tw_leaf : ∀ b, leaf_ok (P b) (W b);
  tw_side : ∀ b, Forall (λ k, side mid k = b) (keys (P b));
  tw_apart : ∀ k k', k ∈ keys (P true) → k' ∈ keys (P false) → cmpKeys k k' ≠ 0;
  tw_next : next (P true) = ρ RightLeaf;
}.

(** All pairs of the tree. *)
Definition contents_of (P : bool → BTreePage) (W : bool → list RID) : list (BTreeKey * RID) :=
  pairs (P true) (W true) ++ pairs (P false) (W false).

Lemma contents_side P W b : contents_of P W ≡ₚ pairs (P b) (W b) ++ pairs (P (negb b)) (W (negb b)).
Proof. destruct b; [done|]. apply Permutation_app_comm. Qed.
Lemma contents_upd P W b p vs :
  contents_of (upd b p P) (upd b vs W) ≡ₚ pairs p vs ++ pairs (P (negb b)) (W (negb b)).
Proof. rewrite (contents_side _ _ b), !upd_same, !upd_other. done. Qed.

(** The pairs after one was removed. *)
Lemma contents_removed P W b (key : BTreeKey) val p vs :
  pairs (P b) (W b) ≡ₚ (key, val) :: pairs p vs →
  contents_of P W ≡ₚ (key, val) :: contents_of (upd b p P) (upd b vs W)
  ∧ room (contents_of (upd b p P) (upd b vs W)) ≤ room (contents_of P W).
Proof.
  intros Hperm. assert (contents_of P W ≡ₚ (key, val) :: contents_of (upd b p P) (upd b vs W)) as Hcont.
  { rewrite (contents_side P W b), (contents_upd P W b), Hperm. done. }
  split; [done|]. rewrite (room_Permutation _ _ Hcont).
  rewrite (room_Permutation (_ :: _) (_ ++ [(key, val)]) (Permutation_cons_append _ _)). apply room_app_l.
Qed.

(** The accesses of a search, of a change of a leaf and of a removal without a
    merge. *)
Definition find_accesses (b : bool) : list (access role) := [Fetch Root; Fetch (leaf_role b)].
Definition change_accesses (b : bool) : list (access role) := find_accesses b ++ [Flush (leaf_role b)].
Definition merge_accesses (b : bool) : list (access role) :=
  [Fetch Root; Fetch (leaf_role b); Fetch (leaf_role (negb b))].
Definition remove_accesses (b : bool) : list (access role) := change_accesses b ++ merge_accesses b ++ [Flush Root].
Definition twig_accesses : list (list (access role)) :=
  [find_accesses true; find_accesses false; change_accesses true; change_accesses false;
   remove_accesses true; remove_accesses false].

Lemma twig_accesses_in b :
  find_accesses b ∈ twig_accesses ∧ change_accesses b ∈ twig_accesses ∧ remove_accesses b ∈ twig_accesses.
Proof. destruct b; repeat constructor. Qed.

(** The caches that they lead to. *)
Definition twig_caches : list (cache role) :=
  let L := Some LeftLeaf in let R := Some RightLeaf in let T := Some Root in
  [mkCache [None; None; None; None] [0; 1]%nat;
   mkCache [T; None; None; None] [1]%nat;
   mkCache [T; L; None; None] [];
   mkCache [T; R; None; None] [];
   mkCache [T; L; R; None] [];
   mkCache [T; R; L; None] [];
   mkCache [T; L; None; None] [2]%nat;
   mkCache [T; R; None; None] [2]%nat;
   mkCache [T; None; L; None] [1]%nat;
   mkCache [T; None; R; None] [1]%nat;
   mkCache [T; None; None; None] [1; 2]%nat;
   mkCache [T; None; None; None] [2; 1]%nat;
   mkCache [None; L; R; None] [0]%nat;
   mkCache [None; R; L; None] [0]%nat].

Lemma twig_caches_steady : steady twig_accesses twig_caches.
Proof. apply (bool_decide_unpack _). by vm_compute. Qed.

Definition twig (ρ : role → Z) (s : index) (mid : BTreeKey)
    (P : bool → BTreePage) (W : bool → list RID) (n : Z) : Prop :=
  twig_nodes ρ s mid P W ∧ ∃ c, c ∈ twig_caches ∧ cached ρ s c n.

(** ** The search *)

Section search.
Context `{U : Uninit} (ρ : role → Z).

Definition crumb (b : bool) : Z * Z := (ρ Root, if b then 0 else -1).

Lemma findLeaf_fork s c n c' mid r p key fuel :
  let b := side mid key in
  cached ρ s c (n + 2) → 0 ≤ n → accesses (find_accesses b) c = Some c' → root_pid (tree s) = ρ Root →
  node_at s (ρ Root) r → fork ρ mid r → node_at s (ρ (leaf_role b)) p → is_leaf p = true →
  ∃ s', findLeaf (S (S fuel)) key s = Ok ((p, [crumb b], ρ (leaf_role b)), s')
    ∧ cached ρ s' c' n ∧ same_pages s s'.
Proof.
  intros b Hc Hn Hacc Hroot Hr [Hrl Hrk Hrv Hrr] Hp Hl.
  apply accesses_fetch in Hacc as (i & c1 & Hl1 & Hacc). apply accesses_fetch in Hacc as (j & c2 & Hl2 & [= ->]).
  replace (n + 2) with (n + 1 + 1) in Hc by lia.
  destruct (load_node ρ s c (n + 1) Root i c1 r Hc ltac:(lia) Hl1 Hr)
    as (s1 & page1 & Hf1 & Hfr1 & Hid1 & Hd1 & Hc1 & Hs1).
  destruct (load_node ρ s1 c1 n _ j c' p Hc1 Hn Hl2 (node_at_same _ _ _ _ Hs1 Hp))
    as (s2 & page2 & Hf2 & Hfr2 & Hid2 & Hd2 & Hc2 & Hs2).
  exists s2. split; [|split; [done|by eapply same_pages_trans]].
  unfold findLeaf. lift_step. rewrite Hroot. io_step Hf1. io_step Hfr1. rewrite Hd1. lift_step.
  cbn [descend]. rewrite Hrl, Hrk. change (vec_at [mid] 0) with (Ok mid). lift_step.
  unfold crumb, b, side in *. destruct (0 <? cmpKeys mid key).
  - io_step Hfr1. rewrite Hrv. cbn [INTERNAL_CHILDREN leaf_role] in *. lift_step.
    change (vec_at [ρ LeftLeaf] 0) with (Ok (ρ LeftLeaf)). lift_step. io_step Hf2. io_step Hfr2.
    rewrite Hd2. lift_step. rewrite Hl. io_step Hfr2. by rewrite Hid1, Hid2.
  - erewrite io_bind_ok by (apply scan_first; rewrite ?Hrk; [by repeat constructor|by_compute|done|by_compute]).
    cbv beta iota zeta. io_step Hfr1. rewrite Hrr. cbn [leaf_role] in *. io_step Hf2. io_step Hfr2.
    rewrite Hd2. lift_step. rewrite Hl. io_step Hfr2. by rewrite Hid1, Hid2.
Qed.
End search.

Section twigs.
Context `{U : Uninit} `{N : UninitNode} (ρ : role → Z).

(** The search ends in the leaf for the key ... *)
Lemma twig_find s c c' mid P W key fuel n :
  let b := side mid key in
  twig_nodes ρ s mid P W → cached ρ s c (n + 2) → 0 ≤ n → accesses (find_accesses b) c = Some c' →
  ∃ s', findLeaf (S (S fuel)) key s = Ok ((P b, [crumb ρ b], ρ (leaf_role b)), s')
    ∧ cached ρ s' c' n ∧ same_pages s s'.
Proof.
  intros b Ht Hc Hn Hacc. destruct (tw_fork _ _ _ _ _ Ht) as (r & Hr & Hfork & _).
  apply (findLeaf_fork ρ s c n c' mid r (P b)); try done.
  - apply (tw_root _ _ _ _ _ Ht).
  - apply (tw_node _ _ _ _ _ Ht).
  - by rewrite (wf_leaf _ _ (nd_wf _ _ (tw_leaf _ _ _ _ _ Ht b))).
Qed.

(** ... which has every pair with the key. *)
Lemma twig_side s mid P W key val :
  twig_nodes ρ s mid P W →
  (key, val) ∈ contents_of P W ↔ (key, val) ∈ pairs (P (side mid key)) (W (side mid key)).
Proof.
  intros Ht. rewrite (contents_side P W (side mid key)), elem_of_app. split; [|by left]. intros [?|Hin]; [done|].
  exfalso. set (b := negb (side mid key)) in *.
  assert (key ∈ keys (P b)) as Hk.
  { rewrite <- (pairs_keys _ _ (tw_leaf _ _ _ _ _ Ht b)). apply list_elem_of_fmap. by exists (key, val). }
  pose proof (tw_side _ _ _ _ _ Ht b) as Hside. rewrite Forall_forall in Hside.
  apply Hside in Hk. unfold b in Hk. by destruct (side mid key).
Qed.

Lemma twig_nodes_same s s' mid P W : twig_nodes ρ s mid P W → same_pages s s' → twig_nodes ρ s' mid P W.
Proof.
  intros [Hpids Hroot (r & Hr & ?) Hnode Hleaf Hside Hapart Hnext] Hs.
  split; [exact Hpids|by rewrite (proj1 Hs)| | |exact Hleaf|exact Hside|exact Hapart|exact Hnext].
  - exists r. split; [by eapply node_at_same|done].
  - intros b. by eapply node_at_same.
Qed.

(** The tree after a step that changed at most the leaf on the side [b]. *)
Lemma twig_upd s s' c mid P W n b p vs :
  twig_nodes ρ s mid P W → cached ρ s' c n → other_pages (ρ (leaf_role b)) s s' →
  node_at s' (ρ (leaf_role b)) p → leaf_ok p vs → Forall (λ k, side mid k = b) (keys p) →
  (∀ k k', k ∈ keys p → k' ∈ keys (P (negb b)) → cmpKeys k k' ≠ 0) → next p = next (P b) →
  twig_nodes ρ s' mid (upd b p P) (upd b vs W).
Proof.
  intros Ht Hc Ho Hp Hok Hside Hapart Hnext.
  pose proof (ca_apart _ _ _ _ _ Hc) as Hdist. destruct Ht as [Hpids Hroot Hfork Hnode Hleaf Hsides Hcross Hn].
  assert (∀ r, r ≠ leaf_role b → ρ r ≠ ρ (leaf_role b)) as Hne.
  { intros r Hr Heq. apply Hr, Hdist. by rewrite Heq. }
  assert (∀ r, 0 ≤ ρ r) as Hpos by (intros r; apply (ca_pids _ _ _ _ _ Hc)).
  assert (∀ b', b' = b ∨ b' = negb b) as Hb by (intros []; destruct b; auto).
  split; [done|by rewrite (proj1 Ho)| | | | | |].
  - destruct Hfork as (r & Hr & ?). exists r. split; [|done].
    eapply node_at_other; [exact Ho|done|apply Hne; by destruct b|done].
  - intros b'. destruct (Hb b') as [->| ->]; [by rewrite upd_same|]. rewrite upd_other.
    eapply node_at_other; [exact Ho|done|apply Hne; by destruct b|apply Hnode].
  - intros b'. destruct (Hb b') as [->| ->]; [by rewrite !upd_same|]. by rewrite !upd_other.
  - intros b'. destruct (Hb b') as [->| ->]; [by rewrite !upd_same|]. by rewrite !upd_other.
  - intros k k' Hk Hk'. destruct b; cbn in Hk, Hk'; [by apply Hapart|].
    rewrite cmpKeys_antisym. pose proof (Hapart k' k Hk' Hk). lia.
  - destruct b; cbn; [by rewrite Hnext|done].
Qed.

(** The root may be written again. *)
Lemma twig_root_written s s' c mid P W n r :
  twig_nodes ρ s mid P W → cached ρ s' c n → other_pages (ρ Root) s s' → node_at s' (ρ Root) r →
  fork ρ mid r → node_ok r [ρ LeftLeaf] → twig_nodes ρ s' mid P W.
Proof.
  intros [Hpids Hroot _ Hnode Hleaf Hside Hapart Hnext] Hc Ho Hr Hfork Hrok.
  split; [exact Hpids|by rewrite (proj1 Ho)|by exists r| |exact Hleaf|exact Hside|exact Hapart|exact Hnext].
  intros b. eapply node_at_other; [exact Ho|apply (ca_pids _ _ _ _ _ Hc)| |apply Hnode].
  intros Heq. assert (leaf_role b = Root) as Hr' by (apply (ca_apart _ _ _ _ _ Hc); by rewrite Heq). by destruct b.
Qed.

Lemma twig_ensured s mid P W : twig_nodes ρ s mid P W → ensure_root s = Ok ((), s).
Proof. intros Ht. apply ensure_root_old. rewrite (tw_root _ _ _ _ _ Ht). by apply (tw_pids _ _ _ _ _ Ht). Qed.

(** The leaf for a key is found, changed and flushed. *)
Lemma find_flush_twig s c c2 mid P W p' vs' key fuel n :
  let b := side mid key in
  twig_nodes ρ s mid P W → cached ρ s c (n + 3) → 0 ≤ n → accesses (change_accesses b) c = Some c2 →
  leaf_ok p' vs' → Forall (λ k, side mid k = b) (keys p') →
  (∀ k k', k ∈ keys p' → k' ∈ keys (P (negb b)) → cmpKeys k k' ≠ 0) → next p' = next (P b) →
  ∃ s1 s2, findLeaf (S (S fuel)) key s = Ok ((P b, [crumb ρ b], ρ (leaf_role b)), s1) ∧ tree s1 = tree s
    ∧ flush_page_of (ρ (leaf_role b)) p' s1 = Ok ((), s2)
    ∧ twig_nodes ρ s2 mid (upd b p' P) (upd b vs' W) ∧ cached ρ s2 c2 n ∧ other_pages (ρ (leaf_role b)) s s2.
Proof.
  intros b Ht Hc Hn Hacc Hok' Hside Hapart Hnext.
  unfold change_accesses in Hacc.
  apply accesses_app in Hacc as (c1 & Hfind & Hacc). apply accesses_flush in Hacc as (c2' & Hst & [= ->]).
  replace (n + 3) with (n + 1 + 2) in * by lia.
  destruct (twig_find s c c1 mid P W key fuel (n + 1) Ht Hc ltac:(lia) Hfind) as (s1 & Hf & Hc1 & Hs1).
  pose proof (node_at_same _ _ _ _ Hs1 (tw_node _ _ _ _ _ Ht b)) as [Hp1 _].
  destruct (store_node ρ s1 c1 n (leaf_role b) c2 p' vs' Hc1 Hn Hst Hp1 Hok') as (s2 & Hfl & Hc2 & Hp2 & Ho).
  assert (other_pages (ρ (leaf_role b)) s s2) as Ho2 by (eapply other_pages_trans, Ho; by apply same_other).
  exists s1, s2. split; [done|]. split; [apply Hs1|]. split; [done|]. split; [|done].
  by eapply twig_upd.
Qed.

Lemma twig_mono s mid P W n n' : twig ρ s mid P W n → 0 ≤ n' ≤ n → twig ρ s mid P W n'.
Proof. intros [Ht (c & ? & Hc)] Hn. split; [done|]. exists c. split; [done|]. by eapply cached_mono. Qed.

(** *** Insertion *)

Lemma find_accesses_steady b c :
  c ∈ twig_caches → ∃ c', accesses (find_accesses b) c = Some c' ∧ c' ∈ twig_caches.
Proof. intros Hc. eapply steady_accesses; [exact twig_caches_steady|done|apply twig_accesses_in]. Qed.
Lemma change_accesses_steady b c :
  c ∈ twig_caches → ∃ c', accesses (change_accesses b) c = Some c' ∧ c' ∈ twig_caches.
Proof. intros Hc. eapply steady_accesses; [exact twig_caches_steady|done|apply twig_accesses_in]. Qed.
Lemma remove_accesses_steady b c :
  c ∈ twig_caches → ∃ c', accesses (remove_accesses b) c = Some c' ∧ c' ∈ twig_caches.
Proof. intros Hc. eapply steady_accesses; [exact twig_caches_steady|done|apply twig_accesses_in]. Qed.

Lemma twig_insert s mid P W key val fuel n :
  let b := side mid key in
  twig ρ s mid P W (n + 3) → 0 ≤ n → valid_pair (key, val) →
  (∀ b', Forall (λ k, cmpKeys k key ≠ 0) (keys (P b'))) →
  room ((key, val) :: pairs (P b) (W b)) ≤ PAGE_SIZE → zlen (keys (P b)) < max_size (tree s) →
  ∃ s' p' vs', insert (S (S fuel)) key val s = Ok (ρ (leaf_role b), s')
    ∧ twig ρ s' mid (upd b p' P) (upd b vs' W) n
    ∧ pairs p' vs' ≡ₚ (key, val) :: pairs (P b) (W b) ∧ zlen (keys p') = zlen (keys (P b)) + 1
    ∧ other_pages (ρ (leaf_role b)) s s'.
Proof.
  intros b [Ht (c & Hcs & Hc)] Hn (Hfit & Hne & Hpid & Hslot) Hnew Hroom Hmax.
  pose proof (tw_leaf _ _ _ _ _ Ht b) as Hok.
  destruct (leaf_insert (P b) (W b) key val Hok (Hnew b) Hfit Hne Hpid Hslot Hroom)
    as (p' & vs' & Hins & Hok' & Hperm & Hcount & Hnext).
  pose proof (keys_Permutation _ _ _ Hok' Hperm) as Hkeys. rewrite fmap_cons, (pairs_keys _ _ Hok) in Hkeys.
  cbn [fst] in Hkeys.
  destruct (change_accesses_steady b c Hcs) as (c2 & Hacc & Hcs2).
  destruct (find_flush_twig s c c2 mid P W p' vs' key fuel n Ht Hc Hn Hacc Hok')
    as (s1 & s2 & Hfind & Ht1 & Hfl & Ht2 & Hc2 & Ho); [| |done|].
  - rewrite Hkeys. constructor; [done|]. apply (tw_side _ _ _ _ _ Ht).
  - intros k k'. rewrite Hkeys, elem_of_cons. intros [->|Hk] Hk'.
    + specialize (Hnew (negb b)). rewrite Forall_forall in Hnew. specialize (Hnew k' Hk').
      rewrite cmpKeys_antisym. lia.
    + pose proof (tw_apart _ _ _ _ _ Ht) as Ha. fold b in Hk'. destruct b; [by apply Ha|].
      rewrite cmpKeys_antisym. pose proof (Ha k' k Hk' Hk). lia.
  - exists s2, p', vs'. split; [|split; [split; [done|by exists c2]|done]].
    assert (0 < ρ (leaf_role b)) as Hpos by (apply (tw_pids _ _ _ _ _ Ht); by destruct b).
    unfold insert. io_step (twig_ensured _ _ _ _ Ht). io_step Hfind. fold b in Hfl |- *.
    unfold assert_that at 1, BTREE_METADATA_PAGE_ID at 1. rewrite (proj2 (Z.eqb_neq _ _)) by lia. cbn [negb]. lift_step.
    rewrite existsb_none by apply Hnew. rewrite Hins. lift_step.
    erewrite io_bind_ok by (apply split_not_full; rewrite Ht1; lia). io_step Hfl. done.
Qed.

Lemma twig_duplicate s mid P W key val fuel n k :
  let b := side mid key in
  twig ρ s mid P W (n + 2) → 0 ≤ n → k ∈ keys (P b) → cmpKeys k key = 0 →
  ∃ s', insert (S (S fuel)) key val s = Ok (0, s') ∧ twig ρ s' mid P W n ∧ same_pages s s'.
Proof.
  intros b [Ht (c & Hcs & Hc)] Hn Hk Hcmp.
  destruct (find_accesses_steady b c Hcs) as (c1 & Hacc & Hcs1).
  destruct (twig_find s c c1 mid P W key fuel n Ht Hc Hn Hacc) as (s1 & Hfind & Hc1 & Hs1).
  exists s1. split; [|split; [split; [by eapply twig_nodes_same|by exists c1]|done]].
  assert (0 < ρ (leaf_role b)) as Hpos by (apply (tw_pids _ _ _ _ _ Ht); by destruct b).
  unfold insert. io_step (twig_ensured _ _ _ _ Ht). io_step Hfind. fold b.
  unfold assert_that at 1, BTREE_METADATA_PAGE_ID at 1. rewrite (proj2 (Z.eqb_neq _ _)) by lia. cbn [negb]. lift_step.
  by rewrite (existsb_some _ _ _ Hk Hcmp).
Qed.

(** *** Removal *)

(** The three nodes that a merge looks at. *)
Definition merge_nodes (P : bool → BTreePage) (r : BTreePage) (b : bool) : BTreePageLocalInfo :=
  mkLocal (P b) (ρ (leaf_role b)) (P (negb b)) (ρ (leaf_role (negb b))) r (ρ Root).

Lemma merge_loads s c c' mid P W b n :
  twig_nodes ρ s mid P W → cached ρ s c (n + 3) → 0 ≤ n → accesses (merge_accesses b) c = Some c' →
  ∃ r s', fork ρ mid r ∧ node_ok r [ρ LeftLeaf] ∧ cached ρ s' c' n ∧ same_pages s s' ∧
    merge (ρ (leaf_role b)) (crumb ρ b) [] s
    = (local ← MergeLeafNode_merge (merge_nodes P r b) (crumb ρ b) (negb b);
       _ ← flush_page_of (ρ Root) (local_parent local);
       if zlen (keys (local_parent local)) =? 0 then
         t ← get_tree;
         _ ← put_tree (set_root (if negb b then sibling_pid local else local_node_pid local) t);
         flush_tree
       else mret ()) s'.
Proof.
  intros Ht Hc Hn Hacc. destruct (tw_fork _ _ _ _ _ Ht) as (r & Hr & Hfork & Hrok).
  pose proof (tw_node _ _ _ _ _ Ht) as Hnode.
  apply accesses_fetch in Hacc as (i1 & c1 & Hl1 & Hacc). apply accesses_fetch in Hacc as (i2 & c2 & Hl2 & Hacc).
  apply accesses_fetch in Hacc as (i3 & c3 & Hl3 & [= ->]).
  replace (n + 3) with (n + 1 + 1 + 1) in Hc by lia.
  destruct (getBtreePage_ok ρ s c (n + 1 + 1) Root i1 c1 r Hc ltac:(lia) Hl1 Hr) as (s1 & Hg1 & Hc1 & Hs1).
  destruct (getBtreePage_ok ρ s1 c1 (n + 1) _ i2 c2 (P b) Hc1 ltac:(lia) Hl2) as (s2 & Hg2 & Hc2 & Hs2).
  { eapply node_at_same; [exact Hs1|apply Hnode]. }
  pose proof (same_pages_trans _ _ _ Hs1 Hs2) as Hs12.
  destruct (getBtreePage_ok ρ s2 c2 n _ i3 c' (P (negb b)) Hc2 ltac:(lia) Hl3) as (s3 & Hg3 & Hc3 & Hs3).
  { eapply node_at_same; [exact Hs12|apply Hnode]. }
  exists r, s3. split; [done|]. split; [done|]. split; [done|]. split; [by eapply same_pages_trans|].
  cbn [merge]. cbn [crumb fst snd]. io_step Hg1. rewrite (fk_values _ _ _ Hfork). cbn [INTERNAL_CHILDREN]. lift_step.
  io_step Hg2. rewrite (wf_leaf _ _ (nd_wf _ _ (tw_leaf _ _ _ _ _ Ht b))). cbn [val_is_leaf VAL_T_RID].
  pose proof (tw_next _ _ _ _ _ Ht) as Hnext.
  destruct b; cbn [negb leaf_role] in *.
  - change (0 =? -1) with false. cbv iota. rewrite Hnext.
    erewrite io_bind_ok by reflexivity. io_step Hg3. done.
  - change (-1 =? -1) with true. cbv iota. change (vec_at [ρ LeftLeaf] (zlen [ρ LeftLeaf] - 1)) with (Ok (ρ LeftLeaf)).
    lift_step. io_step Hg3. done.
Qed.

(** The leaves are not merged when they have too many keys together, or when the
    sibling has none. *)
Definition merges (s : index) (p sib : BTreePage) : bool :=
  negb (zlen (keys sib) =? 0) && (zlen (keys p) + zlen (keys sib) <=? max_size (tree s)).

Lemma merge_not s mid P W r b :
  fork ρ mid r → (∀ b, leaf_ok (P b) (W b)) → merges s (P b) (P (negb b)) = false →
  MergeLeafNode_merge (merge_nodes P r b) (crumb ρ b) (negb b) s = Ok (merge_nodes P r b, s).
Proof.
  intros Hfork Hok Hm. unfold MergeLeafNode_merge, merge_nodes. cbn [sibling node local_parent]. lift_step.
  rewrite (wf_values _ _ (nd_wf _ _ (Hok b))), (wf_values _ _ (nd_wf _ _ (Hok (negb b)))), (fk_values _ _ _ Hfork).
  cbn [put_values VAL_T_RID LEAF_RECORDS INTERNAL_CHILDREN]. do 3 lift_step.
  unfold merges in Hm. rewrite Z.ltb_antisym, <- (negb_involutive (_ =? 0)), <- negb_andb, Hm. done.
Qed.

Lemma merges_ok s p sib :
  keys sib ≠ [] → zlen (keys p) + zlen (keys sib) ≤ max_size (tree s) → merges s p sib = true.
Proof.
  intros Hne Hm. unfold merges. rewrite (proj2 (Z.leb_le _ _)) by done.
  rewrite (proj2 (Z.eqb_neq _ _)); [done|]. by intros ?%zlen_zero.
Qed.

(** What [remove] does until the merge. *)
Lemma remove_in_leaf s c c2 mid P W key fuel n :
  let b := side mid key in
  twig_nodes ρ s mid P W → cached ρ s c (n + 3) → 0 ≤ n → accesses (change_accesses b) c = Some c2 →
  key ∈ keys (P b) →
  ∃ s2 val p' vs', remove (S (S fuel)) key s = merge (ρ (leaf_role b)) (crumb ρ b) [] s2
    ∧ twig_nodes ρ s2 mid (upd b p' P) (upd b vs' W) ∧ cached ρ s2 c2 n
    ∧ pairs (P b) (W b) ≡ₚ (key, val) :: pairs p' vs' ∧ zlen (keys (P b)) = zlen (keys p') + 1
    ∧ other_pages (ρ (leaf_role b)) s s2.
Proof.
  intros b Ht Hc Hn Hacc Hin. pose proof (tw_leaf _ _ _ _ _ Ht b) as Hok.
  destruct (leaf_remove (P b) (W b) key Hok Hin) as (val & p' & vs' & Hrem & Hok' & Hperm).
  destruct Hrem as (ks' & Hks & Hvs & Hp').
  assert (keys (P b) ≡ₚ key :: keys p') as Hkeys.
  { rewrite <- (pairs_keys _ _ Hok), Hperm, fmap_cons, (pairs_keys _ _ Hok'). done. }
  destruct (find_flush_twig s c c2 mid P W p' vs' key fuel n Ht Hc Hn Hacc Hok')
    as (s1 & s2 & Hfind & Ht1 & Hfl & Ht2 & Hc2 & Ho).
  - pose proof (tw_side _ _ _ _ _ Ht b) as Hs. rewrite Hkeys in Hs. by inversion Hs.
  - intros k k' Hk Hk'. fold b in Hk'. pose proof (tw_apart _ _ _ _ _ Ht) as Ha.
    assert (k ∈ keys (P b)) as Hk2 by (rewrite Hkeys; by right).
    destruct b; [by apply Ha|]. rewrite cmpKeys_antisym. pose proof (Ha k' k Hk' Hk2). lia.
  - by rewrite <- Hp'.
  - exists s2, val, p', vs'. split; [|split; [done|split; [done|split; [done|split; [|done]]]]].
    + unfold remove. io_step Hfind. fold b in Hfl |- *. rewrite (wf_values _ _ (nd_wf _ _ Hok)).
      cbn [put_values VAL_T_RID LEAF_RECORDS]. lift_step. rewrite Hks, Hvs. do 2 lift_step. rewrite Hp'.
      io_step Hfl. done.
    + unfold zlen. rewrite (Permutation_length Hkeys). cbn [length]. lia.
Qed.

(** What [remove] makes of the three nodes that it has merged or not. *)
Definition after_merge (b : bool) (local : BTreePageLocalInfo) : io () :=
  _ ← flush_page_of (ρ Root) (local_parent local);
  if zlen (keys (local_parent local)) =? 0 then
    t ← get_tree;
    _ ← put_tree (set_root (if negb b then sibling_pid local else local_node_pid local) t);
    flush_tree
  else mret ().

(** A removal up to the choice of the strategy. *)
Lemma remove_to_merge s c c3 mid P W key fuel n :
  let b := side mid key in
  twig_nodes ρ s mid P W → cached ρ s c (n + 6) → 0 ≤ n →
  accesses (change_accesses b ++ merge_accesses b) c = Some c3 → key ∈ keys (P b) →
  ∃ s3 r val p' vs',
    remove (S (S fuel)) key s
    = (MergeLeafNode_merge (merge_nodes (upd b p' P) r b) (crumb ρ b) (negb b) ≫= after_merge b) s3
    ∧ fork ρ mid r ∧ node_ok r [ρ LeftLeaf] ∧ twig_nodes ρ s3 mid (upd b p' P) (upd b vs' W) ∧ cached ρ s3 c3 n
    ∧ pairs (P b) (W b) ≡ₚ (key, val) :: pairs p' vs' ∧ zlen (keys (P b)) = zlen (keys p') + 1
    ∧ other_pages (ρ (leaf_role b)) s s3.
Proof.
  intros b Ht Hc Hn Hacc Hin. apply accesses_app in Hacc as (c2 & Hacc & Hacc3).
  replace (n + 6) with (n + 3 + 3) in Hc by lia.
  destruct (remove_in_leaf s c c2 mid P W key fuel (n + 3) Ht Hc ltac:(lia) Hacc Hin)
    as (s2 & val & p' & vs' & Hrem & Ht2 & Hc2 & Hperm & Hcount & Ho2). fold b in Hrem, Ht2, Hperm, Ho2, Hcount.
  destruct (merge_loads s2 c2 c3 mid _ _ b n Ht2 Hc2 Hn Hacc3) as (r & s3 & Hfork & Hrok & Hc3 & Hs3 & Hmerge).
  exists s3, r, val, p', vs'. split; [by rewrite Hrem, Hmerge|]. split; [done|]. split; [done|].
  split; [by eapply twig_nodes_same|]. split; [done|]. split; [done|]. split; [done|].
  eapply other_pages_trans; [exact Ho2|by apply same_other].
Qed.

(** A removal that does not merge the leaves. *)
Lemma twig_remove s mid P W key fuel n :
  let b := side mid key in
  twig ρ s mid P W (n + 7) → 0 ≤ n → key ∈ keys (P b) →
  (∀ p', zlen (keys (P b)) = zlen (keys p') + 1 → merges s p' (P (negb b)) = false) →
  ∃ s' p' vs' val, remove (S (S fuel)) key s = Ok ((), s') ∧ twig ρ s' mid (upd b p' P) (upd b vs' W) n
    ∧ pairs (P b) (W b) ≡ₚ (key, val) :: pairs p' vs'.
Proof.
  intros b [Ht (c & Hcs & Hc)] Hn Hin Hm.
  destruct (remove_accesses_steady b c Hcs) as (c4 & Hacc & Hcs4).
  unfold remove_accesses in Hacc. rewrite app_assoc in Hacc. apply accesses_app in Hacc as (c3 & Hacc & Hacc').
  apply accesses_flush in Hacc' as (c4' & Hst & [= ->]).
  replace (n + 7) with (n + 1 + 6) in Hc by lia.
  destruct (remove_to_merge s c c3 mid P W key fuel (n + 1) Ht Hc ltac:(lia) Hacc Hin)
    as (s3 & r & val & p' & vs' & Hrem & Hfork & Hrok & Ht3 & Hc3 & Hperm & Hcount & Ho3).
  fold b in Hrem, Ht3, Hperm, Hcount, Ho3.
  destruct (tw_fork _ _ _ _ _ Ht3) as (r' & Hr' & _).
  destruct (store_node ρ s3 c3 n Root c4 r _ Hc3 Hn Hst (proj1 Hr') Hrok) as (s4 & Hfl & Hc4 & Hr4 & Ho4).
  exists s4, p', vs', val. split; [|split; [|done]].
  - rewrite Hrem. erewrite io_bind_ok.
    2:{ apply (merge_not s3 mid _ (upd b vs' W)); [done|apply (tw_leaf _ _ _ _ _ Ht3)|].
        rewrite upd_same, upd_other. unfold merges. rewrite (proj1 Ho3). by apply Hm. }
    unfold after_merge. cbn [merge_nodes local_parent]. io_step Hfl. rewrite (fk_keys _ _ _ Hfork). done.
  - split; [|by exists c4]. eapply twig_root_written; done.
Qed.

Lemma twig_remove_missing s mid P W key fuel n :
  let b := side mid key in
  twig ρ s mid P W (n + 2) → 0 ≤ n → key ∉ keys (P b) → remove (S (S fuel)) key s = Undef OutOfBounds.
Proof.
  intros b [Ht (c & Hcs & Hc)] Hn Hin. destruct (find_accesses_steady b c Hcs) as (c1 & Hacc & _).
  destruct (twig_find s c c1 mid P W key fuel n Ht Hc Hn Hacc) as (s1 & Hfind & _).
  unfold remove. io_step Hfind. fold b. rewrite (wf_values _ _ (nd_wf _ _ (tw_leaf _ _ _ _ _ Ht b))).
  cbn [put_values VAL_T_RID LEAF_RECORDS]. lift_step. by rewrite erase_missing.
Qed.

(** *** Merging the leaves *)

(** A key below the key of the root and one that is not, unless they agree on the bytes
    they both have. *)
Lemma cmpKeys_across mid k k' : 0 < cmpKeys mid k → cmpKeys mid k' ≤ 0 → cmpKeys k k' ≠ 0 → cmpKeys k k' < 0.
Proof.
  revert k k'. induction mid as [|m mid IH]; intros [|x k] [|y k']; try done.
  rewrite !cmpKeys_cons. destruct (Z.eqb_spec m x), (Z.eqb_spec m y), (Z.eqb_spec x y); try lia. apply IH.
Qed.

Lemma Sorted_append l l' :
  Sorted key_lt l → Sorted key_lt l' → (∀ x y, x ∈ l → y ∈ l' → key_lt x y) → Sorted key_lt (l ++ l').
Proof.
  intros Hl Hl'. induction Hl as [|x l Hl IH Hx]; intros Hlt; [done|]. cbn. constructor.
  - apply IH. intros a b Ha. apply Hlt. by right.
  - destruct l as [|y l]; [|by inversion Hx; constructor]. destruct l' as [|z l']; constructor. apply Hlt; by left.
Qed.

(** The leaf with the pairs of two. *)
Definition append_leaf (p : BTreePage) (vs : list RID) (p' : BTreePage) (vs' : list RID) : BTreePage :=
  set_values (LeafRecords (vs ++ vs')) (set_keys (keys p ++ keys p') p).

Lemma append_leaf_ok p vs p' vs' :
  leaf_ok p vs → leaf_ok p' vs' → (∀ x y, x ∈ keys p → y ∈ keys p' → key_lt x y) →
  room (pairs p vs ++ pairs p' vs') ≤ PAGE_SIZE →
  leaf_ok (append_leaf p vs p' vs') (vs ++ vs')
  ∧ pairs (append_leaf p vs p' vs') (vs ++ vs') = pairs p vs ++ pairs p' vs'.
Proof.
  intros [Hwf Hlen Hne Hs] [Hwf' Hlen' Hne' Hs'] Hlt Hroom.
  assert (pairs (append_leaf p vs p' vs') (vs ++ vs') = pairs p vs ++ pairs p' vs') as Hpairs.
  { unfold pairs, append_leaf. cbn [keys set_values set_keys]. by apply zip_with_app. }
  split; [|done]. split; cbn [append_leaf keys set_values set_keys]; [|rewrite !length_app; lia| |].
  - destruct Hwf, Hwf'. split; cbn [append_leaf is_leaf keys values flags rightmost_ptr next set_values set_keys];
      try done; [rewrite !length_app; lia|by apply Forall_app_2|by apply Forall_app_2|].
    unfold pairs in Hpairs. cbn [append_leaf keys set_values set_keys] in Hpairs. rewrite Hpairs.
    unfold room in Hroom. etrans; [|exact Hroom]. unfold zlen. rewrite !length_app.
    unfold pairs. rewrite !length_zip_with. lia.
  - by apply Forall_app_2.
  - by apply Sorted_append.
Qed.

Lemma twig_across s mid P W x y :
  twig_nodes ρ s mid P W → x ∈ keys (P true) → y ∈ keys (P false) → key_lt x y.
Proof.
  intros Ht Hx Hy. pose proof (tw_side _ _ _ _ _ Ht true) as H1. pose proof (tw_side _ _ _ _ _ Ht false) as H2.
  rewrite Forall_forall in H1, H2. specialize (H1 x Hx). specialize (H2 y Hy). unfold side in *.
  apply (cmpKeys_across mid); [by apply Z.ltb_lt|by apply Z.ltb_ge|]. by apply (tw_apart _ _ _ _ _ Ht).
Qed.

(** The caches of a tree whose leaves have been merged. *)
Definition merged_caches : list (cache role) :=
  let L := Some LeftLeaf in let R := Some RightLeaf in
  [mkCache [L; R; None; None] [2]%nat; mkCache [L; None; R; None] [1]%nat;
   mkCache [None; R; None; None] [0; 2]%nat; mkCache [None; None; R; None] [0; 1]%nat].
Definition collapse_accesses : list (access role) :=
  change_accesses false ++ merge_accesses false ++ [Flush LeftLeaf; Flush Root; Flush Meta].

Lemma merged_caches_steady : steady leaf_accesses merged_caches.
Proof. apply (bool_decide_unpack _). by vm_compute. Qed.
Lemma collapse_caches c :
  c ∈ twig_caches → ∃ c', accesses collapse_accesses c = Some c' ∧ c' ∈ merged_caches.
Proof.
  assert (Forall (λ c, match accesses collapse_accesses c with Some c' => c' ∈ merged_caches | None => False end)
            twig_caches) as Hall.
  { repeat (constructor; [by apply (bool_decide_unpack _); vm_compute|]). constructor. }
  rewrite Forall_forall in Hall. intros Hc%Hall. destruct (accesses collapse_accesses c) as [c'|]; [by exists c'|done].
Qed.

(** The right leaf is appended to the left one, and the root loses its key. *)
Lemma merge_left s c c' mid P W r n :
  twig_nodes ρ s mid P W → cached ρ s c (n + 1) → 0 ≤ n → store LeftLeaf c = Some c' →
  fork ρ mid r → merges s (P false) (P true) = true → room (contents_of P W) ≤ PAGE_SIZE →
  let p := append_leaf (P true) (W true) (P false) (W false) in
  ∃ s', MergeLeafNode_merge (merge_nodes P r false) (crumb ρ false) true s
    = Ok (mkLocal (P false) (ρ RightLeaf) p (ρ LeftLeaf)
            (set_keys [] (set_values (InternalChildren []) r)) (ρ Root), s')
    ∧ cached ρ s' c' n ∧ node_at s' (ρ LeftLeaf) p ∧ leaf_ok p (W true ++ W false)
    ∧ pairs p (W true ++ W false) = contents_of P W ∧ other_pages (ρ LeftLeaf) s s'.
Proof.
  intros Ht Hc Hn Hst Hfork Hm Hroom p. pose proof (tw_leaf _ _ _ _ _ Ht) as Hok.
  destruct (append_leaf_ok _ _ _ _ (Hok true) (Hok false) (λ x y, twig_across s mid P W x y Ht) Hroom) as [Hpok Hpairs].
  fold p in Hpok, Hpairs.
  destruct (store_node ρ s c n LeftLeaf c' p _ Hc Hn Hst (proj1 (tw_node _ _ _ _ _ Ht true)) Hpok)
    as (s' & Hfl & Hc' & Hp' & Ho).
  exists s'. split; [|by split_and!].
  unfold MergeLeafNode_merge, merge_nodes.
  cbn [sibling node local_parent negb sibling_pid local_node_pid parent_pid leaf_role]. lift_step.
  rewrite (wf_values _ _ (nd_wf _ _ (Hok true))), (wf_values _ _ (nd_wf _ _ (Hok false))), (fk_values _ _ _ Hfork).
  cbn [put_values VAL_T_RID LEAF_RECORDS INTERNAL_CHILDREN]. do 3 lift_step.
  unfold merges in Hm. apply andb_true_iff in Hm as [Hm1 Hm2].
  rewrite (proj1 (negb_true_iff _) Hm1), Z.ltb_antisym, Hm2. cbn [orb negb].
  unfold p, append_leaf in Hfl. io_step Hfl. rewrite (fk_keys _ _ _ Hfork).
  change (zlen [mid] =? 1) with true. cbv iota.
  erewrite io_bind_ok by reflexivity. change (keys (set_values _ r)) with (keys r). by rewrite (fk_keys _ _ _ Hfork).
Qed.

Lemma empty_root_ok (r : BTreePage) mid :
  fork ρ mid r → node_ok r [ρ LeftLeaf] → node_ok (set_keys [] (set_values (InternalChildren []) r)) ([] : list Z).
Proof.
  intros [Hl _ _ _] [Hwf _ _ _]. destruct Hwf. split; [|done|by constructor|by constructor].
  split; cbn [is_leaf keys values flags rightmost_ptr next set_keys set_values]; try done; by constructor.
Qed.

(** The root without keys is written, and the left leaf becomes the root. *)
Lemma collapse_root s c c1 c2 p r (vs : list Z) n :
  cached ρ s c (n + 2) → 0 ≤ n → store Root c = Some c1 → store Meta c1 = Some c2 → ρ Meta = 0 →
  node_at s (ρ LeftLeaf) p → has_page (dm_of s) (ρ Root) (dk s) → has_page (dm_of s) 0 (dk s) → node_ok r vs →
  ∃ s', (_ ← flush_page_of (ρ Root) r;
         t ← get_tree; _ ← put_tree (set_root (ρ LeftLeaf) t); flush_tree) s = Ok ((), s')
    ∧ cached ρ s' c2 n ∧ node_at s' (ρ LeftLeaf) p ∧ tree s' = set_root (ρ LeftLeaf) (tree s)
    ∧ dm_of s' = dm_of s ∧ metadata (tree s') (page_of (dm_of s) 0 (dk s')).
Proof.
  intros Hc Hn Hst1 Hst2 Hmeta Hp Hroot Hp0 Hr.
  assert (∀ r, r ≠ LeftLeaf → ρ LeftLeaf ≠ ρ r) as Hdist.
  { intros x Hx Heq. apply Hx, (ca_apart _ _ _ _ _ Hc). by rewrite Heq. }
  pose proof (ca_pids _ _ _ _ _ Hc LeftLeaf) as Hpid.
  replace (n + 2) with (n + 1 + 1) in Hc by lia.
  destruct (store_node ρ s c (n + 1) Root c1 r vs Hc ltac:(lia) Hst1 Hroot Hr) as (s1 & Hfl & Hc1 & _ & Ho1).
  pose proof (node_at_other _ _ _ _ _ Ho1 (proj1 Hpid) (Hdist Root ltac:(done)) Hp) as Hp1.
  set (s1' := mkIndex (set_root (ρ LeftLeaf) (tree s1)) (pool s1) (hp s1) (dk s1)).
  pose proof (cached_set_tree ρ s1 c1 (n + 1) (set_root (ρ LeftLeaf) (tree s1)) Hc1) as Hc1'. fold s1' in Hc1'.
  destruct Ho1 as (Ht1 & Hdm1 & Ho1 & Hk1).
  destruct (flush_tree_ok ρ s1' c1 n _ c2 Hc1' Hn Hmeta Hst2) as (s2 & Hfl2 & Hc2 & Hmd & _ & Ho2).
  { cbn [s1' pool dk]. rewrite Hdm1. by apply Hk1. }
  exists s2. split; [|split; [done|split]].
  - io_step Hfl. do 2 lift_step. done.
  - eapply node_at_other; [exact Ho2|lia|rewrite <- Hmeta; by apply Hdist|exact Hp1].
  - destruct Ho2 as (Ht2 & Hdm2 & _). cbn [s1' tree pool] in *. rewrite Ht2, Hdm2, Ht1, Hdm1. by rewrite Ht1, Hdm1 in Hmd.
Qed.

(** A removal from the right leaf that merges the leaves leaves a tree of one leaf, and
    the metadata page of the file says so. *)
Lemma twig_collapse s mid P W key fuel n :
  side mid key = false → twig ρ s mid P W (n + 9) → 0 ≤ n → key ∈ keys (P false) →
  keys (P true) ≠ [] → zlen (keys (P true)) + zlen (keys (P false)) ≤ max_size (tree s) + 1 →
  room (contents_of P W) ≤ PAGE_SIZE → ρ Meta = 0 → has_page (dm_of s) 0 (dk s) →
  ∃ s' p vs val, remove (S (S fuel)) key s = Ok ((), s') ∧ leaf_tree ρ merged_caches s' p vs n
    ∧ contents_of P W ≡ₚ (key, val) :: pairs p vs
    ∧ tree s' = set_root (ρ LeftLeaf) (tree s) ∧ dm_of s' = dm_of s
    ∧ metadata (tree s') (page_of (dm_of s) 0 (dk s')).
Proof.
  intros Hside [Ht (c & Hcs & Hc)] Hn Hin Hne Hmax Hroom Hmeta Hp0.
  destruct (collapse_caches c Hcs) as (c6 & Hacc & Hcs6). unfold collapse_accesses in Hacc.
  rewrite app_assoc in Hacc. apply accesses_app in Hacc as (c3 & Hacc & Hacc4).
  apply accesses_flush in Hacc4 as (c4 & Hst4 & Hacc5). apply accesses_flush in Hacc5 as (c5 & Hst5 & Hacc6).
  apply accesses_flush in Hacc6 as (c6' & Hst6 & [= ->]).
  replace (n + 9) with (n + 3 + 6) in Hc by lia.
  destruct (remove_to_merge s c c3 mid P W key fuel (n + 3))
    as (s3 & r & val & p' & vs' & Hrem & Hfork & Hrok & Ht3 & Hc3 & Hperm & Hcount & Ho3);
    rewrite ?Hside in *; [done|done|lia|done|done|].
  replace (n + 3) with (n + 2 + 1) in Hc3 by lia.
  pose proof (contents_removed P W false key val p' vs' Hperm) as [Hcont Hroom'].
  destruct (merge_left s3 c3 c4 mid _ _ r (n + 2) Ht3 Hc3 ltac:(lia) Hst4 Hfork)
    as (s4 & Hml & Hc4 & Hp4 & Hpok & Hpairs & Ho4); [by apply merges_ok; rewrite ?(proj1 Ho3); [|cbn; lia]|lia|].
  set (p := append_leaf _ _ _ _) in *.
  destruct (tw_fork _ _ _ _ _ Ht3) as (r' & Hr' & _). pose proof Ho4 as (Ht4 & Hdm4 & _ & Hk4).
  pose proof Ho3 as (Htr3 & Hdm3 & _ & Hk3).
  destruct (collapse_root s4 c4 c5 c6 p (set_keys [] (set_values (InternalChildren []) r)) [] n)
    as (s' & Hrun & Hc6 & Hp6 & Htr & Hdm & Hmd); try done.
  - rewrite Hdm4. apply Hk4, Hr'.
  - rewrite Hdm4. apply Hk4. rewrite Hdm3. by apply Hk3.
  - exact (empty_root_ok r mid Hfork Hrok).
  - rewrite Hdm4, Hdm3, Ht4, Htr3 in *.
    exists s', p, (W true ++ upd false vs' W false), val. split; [|split; [|split; [|done]]].
    + rewrite Hrem. io_step Hml. exact Hrun.
    + split; [by exists c6|by apply (tw_pids _ _ _ _ _ Ht)|by rewrite Htr|done|exact Hpok].
    + rewrite Hcont. by rewrite <- Hpairs.
Qed.

(** The left leaf takes the pairs of the right one, but the root keeps its key and loses
    its rightmost child. *)
Lemma merge_right s c c' mid P W r n :
  twig_nodes ρ s mid P W → cached ρ s c (n + 1) → 0 ≤ n → store LeftLeaf c = Some c' →
  fork ρ mid r → merges s (P true) (P false) = true → room (contents_of P W) ≤ PAGE_SIZE →
  let p := append_leaf (P true) (W true) (P false) (W false) in
  ∃ s', MergeLeafNode_merge (merge_nodes P r true) (crumb ρ true) false s
    = Ok (mkLocal p (ρ LeftLeaf) (P false) (ρ RightLeaf) (set_rightmost 0 r) (ρ Root), s')
    ∧ cached ρ s' c' n ∧ node_at s' (ρ LeftLeaf) p ∧ leaf_ok p (W true ++ W false)
    ∧ pairs p (W true ++ W false) = contents_of P W ∧ other_pages (ρ LeftLeaf) s s'.
Proof.
  intros Ht Hc Hn Hst Hfork Hm Hroom p. pose proof (tw_leaf _ _ _ _ _ Ht) as Hok.
  destruct (append_leaf_ok _ _ _ _ (Hok true) (Hok false) (λ x y, twig_across s mid P W x y Ht) Hroom) as [Hpok Hpairs].
  fold p in Hpok, Hpairs.
  destruct (store_node ρ s c n LeftLeaf c' p _ Hc Hn Hst (proj1 (tw_node _ _ _ _ _ Ht true)) Hpok)
    as (s' & Hfl & Hc' & Hp' & Ho).
  exists s'. split; [|by split_and!].
  unfold MergeLeafNode_merge, merge_nodes.
  cbn [sibling node local_parent negb sibling_pid local_node_pid parent_pid leaf_role]. lift_step.
  rewrite (wf_values _ _ (nd_wf _ _ (Hok true))), (wf_values _ _ (nd_wf _ _ (Hok false))), (fk_values _ _ _ Hfork).
  cbn [put_values VAL_T_RID LEAF_RECORDS INTERNAL_CHILDREN]. do 3 lift_step.
  unfold merges in Hm. apply andb_true_iff in Hm as [Hm1 Hm2].
  rewrite (proj1 (negb_true_iff _) Hm1), Z.ltb_antisym, Hm2. cbn [orb negb].
  rewrite (fk_rightmost _ _ _ Hfork), Z.eqb_refl. erewrite io_bind_ok by reflexivity. cbv beta iota zeta.
  unfold p, append_leaf in Hfl. io_step Hfl. done.
Qed.

Lemma cut_root_ok (r : BTreePage) (vs : list Z) : node_ok r vs → node_ok (set_rightmost 0 r) vs.
Proof. intros [Hwf Hlen Hne Hs]. split; [|done..]. destruct Hwf. by split. Qed.

Definition left_merge_accesses : list (access role) :=
  change_accesses true ++ merge_accesses true ++ [Flush LeftLeaf; Flush Root].

Lemma left_merge_caches c : c ∈ twig_caches → ∃ c', accesses left_merge_accesses c = Some c'.
Proof.
  assert (Forall (λ c, is_Some (accesses left_merge_accesses c)) twig_caches) as Hall.
  { repeat (constructor; [by apply (bool_decide_unpack _); vm_compute|]). constructor. }
  rewrite Forall_forall in Hall. by intros Hc%Hall.
Qed.

(** A removal from the left leaf that merges the leaves loses the right half of the
    tree: the rightmost child of the root is the metadata page afterwards. *)
Lemma twig_left_merge s mid P W key fuel n :
  side mid key = true → twig ρ s mid P W (n + 8) → 0 ≤ n → key ∈ keys (P true) →
  keys (P false) ≠ [] → zlen (keys (P true)) + zlen (keys (P false)) ≤ max_size (tree s) + 1 →
  room (contents_of P W) ≤ PAGE_SIZE →
  ∃ s' r p vs val, remove (S (S fuel)) key s = Ok ((), s') ∧ root_pid (tree s') = ρ Root
    ∧ node_at s' (ρ Root) r ∧ keys r = [mid] ∧ rightmost_ptr r = 0
    ∧ node_at s' (ρ LeftLeaf) p ∧ leaf_ok p vs ∧ contents_of P W ≡ₚ (key, val) :: pairs p vs.
Proof.
  intros Hside [Ht (c & Hcs & Hc)] Hn Hin Hne Hmax Hroom.
  destruct (left_merge_caches c Hcs) as (c5 & Hacc). unfold left_merge_accesses in Hacc.
  rewrite app_assoc in Hacc. apply accesses_app in Hacc as (c3 & Hacc & Hacc4).
  apply accesses_flush in Hacc4 as (c4 & Hst4 & Hacc5). apply accesses_flush in Hacc5 as (c5' & Hst5 & [= ->]).
  replace (n + 8) with (n + 2 + 6) in Hc by lia.
  destruct (remove_to_merge s c c3 mid P W key fuel (n + 2))
    as (s3 & r & val & p' & vs' & Hrem & Hfork & Hrok & Ht3 & Hc3 & Hperm & Hcount & Ho3);
    rewrite ?Hside in *; [done|done|lia|done|done|].
  replace (n + 2) with (n + 1 + 1) in Hc3 by lia.
  pose proof (contents_removed P W true key val p' vs' Hperm) as [Hcont Hroom'].
  destruct (merge_right s3 c3 c4 mid _ _ r (n + 1) Ht3 Hc3 ltac:(lia) Hst4 Hfork)
    as (s4 & Hml & Hc4 & Hp4 & Hpok & Hpairs & Ho4); [by apply merges_ok; rewrite ?(proj1 Ho3); [|cbn; lia]|lia|].
  set (p := append_leaf _ _ _ _) in *.
  destruct (tw_fork _ _ _ _ _ Ht3) as (r' & Hr' & _). pose proof Ho4 as (Htr4 & Hdm4 & _ & Hk4).
  destruct (store_node ρ s4 c4 n Root c5 (set_rightmost 0 r) [ρ LeftLeaf] Hc4 Hn Hst5)
    as (s5 & Hfl5 & Hc5 & Hr5 & Ho5); [rewrite Hdm4; apply Hk4, Hr'|by apply cut_root_ok|].
  exists s5, (set_rightmost 0 r), p, (upd true vs' W true ++ W false), val.
  split; [|split; [|split; [done|split; [|split; [done|split; [|split; [exact Hpok|by rewrite Hcont, <- Hpairs]]]]]]].
  - rewrite Hrem. io_step Hml. unfold after_merge. cbn [local_parent]. io_step Hfl5.
    change (keys (set_rightmost 0 r)) with (keys r). by rewrite (fk_keys _ _ _ Hfork).
  - by rewrite (proj1 Ho5), Htr4, (tw_root _ _ _ _ _ Ht3).
  - exact (fk_keys _ _ _ Hfork).
  - eapply node_at_other; [exact Ho5|apply (ca_pids _ _ _ _ _ Hc)| |exact Hp4].
    intros Heq. by assert (LeftLeaf = Root) by (apply (ca_apart _ _ _ _ _ Hc); by rewrite Heq).
Qed.

(** *** The first split *)

(** The members that constructors leave uninitialised hold values of their types. *)
Definition members_ok : Prop := is_byte flags0 ∧ is_u32 rightmost0 ∧ is_u32 next0.

Definition left_half (p : BTreePage) (vs : list RID) : BTreePage :=
  let n := (length (keys p) / 2)%nat in
  set_next (ρ RightLeaf) (set_values (LeafRecords (take n vs)) (set_keys (take n (keys p)) p)).
Definition right_half (p : BTreePage) (vs : list RID) : BTreePage :=
  let n := (length (keys p) / 2)%nat in
  set_values (LeafRecords (drop n vs)) (set_keys (drop n (keys p)) (new_node true)).
Definition new_root (mid : BTreeKey) : BTreePage :=
  set_rightmost (ρ RightLeaf)
    (set_values (InternalChildren [ρ LeftLeaf]) (set_keys [mid] (new_node false))).

Lemma room_take_drop n (ks : list BTreeKey) (vs : list RID) :
  length vs = length ks →
  room (zip (take n ks) (take n vs)) ≤ room (zip ks vs) ∧ room (zip (drop n ks) (drop n vs)) ≤ room (zip ks vs)
  ∧ zip (take n ks) (take n vs) ++ zip (drop n ks) (drop n vs) = zip ks vs.
Proof.
  intros Hlen. assert (zip (take n ks) (take n vs) ++ zip (drop n ks) (drop n vs) = zip ks vs) as Hzip.
  { rewrite <- zip_with_app by (rewrite !length_take; lia). by rewrite !take_drop. }
  rewrite <- Hzip at 1 2. split_and!; [apply room_app_l| |done].
  rewrite (room_Permutation _ _ (Permutation_app_comm _ _)). apply room_app_l.
Qed.

Lemma zlen_zip (ks : list BTreeKey) (vs : list RID) : length vs = length ks → zlen (zip ks vs) = zlen ks.
Proof. intros Hlen. unfold zlen. rewrite length_zip_with. lia. Qed.

Lemma Sorted_take_drop n ks : Sorted key_lt ks → Sorted key_lt (take n ks) ∧ Sorted key_lt (drop n ks).
Proof.
  intros Hs. rewrite <- (take_drop n ks) in Hs. apply (Sorted_StronglySorted key_lt_trans) in Hs.
  split; apply StronglySorted_Sorted; [by eapply StronglySorted_app_1_l|by eapply StronglySorted_app_1_r].
Qed.

Lemma halves_ok p vs :
  leaf_ok p vs → members_ok → is_u32 (ρ RightLeaf) →
  let n := (length (keys p) / 2)%nat in
  leaf_ok (left_half p vs) (take n vs) ∧ leaf_ok (right_half p vs) (drop n vs)
  ∧ pairs (left_half p vs) (take n vs) ++ pairs (right_half p vs) (drop n vs) = pairs p vs.
Proof.
  intros [Hwf Hlen Hne Hs] (Hfl & Hrm & Hnx) Hr n.
  destruct (room_take_drop n (keys p) vs Hlen) as (Hroom1 & Hroom2 & Hzip).
  destruct (Sorted_take_drop n _ Hs) as [Hs1 Hs2].
  assert (room (zip (keys p) vs) ≤ PAGE_SIZE) as Hroom.
  { unfold room. rewrite zlen_zip by done. apply (wf_fits _ _ Hwf). }
  assert (length (take n vs) = length (take n (keys p))) as Hlen1 by (rewrite !length_take; lia).
  assert (length (drop n vs) = length (drop n (keys p))) as Hlen2 by (rewrite !length_drop; lia).
  unfold room in Hroom1 at 1, Hroom2 at 1. rewrite zlen_zip in Hroom1, Hroom2 by done.
  destruct Hwf as [Hl _ _ Hk Hv Hf Hrp Hnp _].
  split; [|split; [|done]]; (split; [|done| |done]).
  - split; cbn [left_half is_leaf keys values flags rightmost_ptr next set_next set_values set_keys]; try done;
      [fold n; lia|by apply Forall_take|by apply Forall_take|fold n; lia].
  - by apply Forall_take.
  - split; cbn [right_half new_node new_BTreePage is_leaf keys values flags rightmost_ptr next set_values set_keys]; try done;
      [fold n; lia|by apply Forall_drop|by apply Forall_drop|fold n; lia].
  - by apply Forall_drop.
Qed.

Lemma new_root_ok mid :
  key_fits mid → key_nonempty mid → members_ok → is_u32 (ρ LeftLeaf) → is_u32 (ρ RightLeaf) →
  fork ρ mid (new_root mid) ∧ node_ok (new_root mid) [ρ LeftLeaf].
Proof.
  intros Hf Hne (? & ? & ?) Hl Hr. split; [done|]. split; [|done|by constructor|by repeat constructor].
  split; cbn [new_root new_node new_BTreePage is_leaf keys values flags rightmost_ptr next set_rightmost set_values set_keys];
    try done; [by constructor|by constructor|].
  cbn [zip_with]. rewrite kvs_bytes_cons, zlen_app, zlen_kv_bytes. unfold key_fits in Hf.
  change (nv_size Z) with 4. change (zlen (kvs_bytes ([] : list (BTreeKey * Z)))) with 0. cbn [fst].
  change INDEX_PAGE_HEADER_SIZE with 26. unfold TREE_KV_PTR_SIZE, PAGE_SIZE. change (zlen [mid]) with 1. lia.
Qed.

(** Two new pages for a leaf and its parent. *)
Lemma alloc_two s c count max_keys p n :
  cached ρ s c n → index_file (dm_of s) count max_keys (dk s) → 0 < count < 65534 →
  (∀ i r, held c !! i = Some (Some r) → r = LeftLeaf) → 0 < ρ LeftLeaf ≤ count → node_at s (ρ LeftLeaf) p →
  ∃ s1 s2, alloc_page true s = Ok (count + 1, s1) ∧ alloc_page false s1 = Ok (count + 2, s2)
    ∧ cached ρ s2 c n ∧ tree s2 = tree s ∧ dm_of s2 = dm_of s ∧ index_file (dm_of s) (count + 2) max_keys (dk s2)
    ∧ has_page (dm_of s) (count + 1) (dk s2) ∧ has_page (dm_of s) (count + 2) (dk s2) ∧ node_at s2 (ρ LeftLeaf) p.
Proof.
  intros Hc Hf Hrange Hheld Hl Hp.
  destruct (alloc_ok ρ s c n count max_keys true Hc Hf ltac:(lia)) as (s1 & Ha1 & Hc1 & Ht1 & Hdm1 & Hf1 & Hb1 & Hk1).
  { intros i r ->%Hheld. lia. }
  destruct (alloc_ok ρ s1 c n (count + 1) max_keys false Hc1 Hf1 ltac:(lia)) as (s2 & Ha2 & Hc2 & Ht2 & Hdm2 & Hf2 & Hb2 & Hk2).
  { intros i r ->%Hheld. lia. }
  replace (count + 1 + 1) with (count + 2) in * by lia. exists s1, s2. rewrite Hdm2, Hdm1 in *.
  split; [done|]. split; [done|]. split; [done|]. split; [congruence|]. split; [done|]. split; [done|].
  split; [|split].
  - assert (node_at s2 (count + 1) empty_leaf) as [Hn _]; [|by rewrite Hdm2 in Hn].
    apply Hk2; [lia|lia|]. split; rewrite Hdm1; [|by rewrite Hb1, deserialize_blank].
    apply page_of_has; [lia|]. rewrite Hb1. apply blank_page_length.
  - apply page_of_has; [lia|]. rewrite Hb2. apply blank_page_length.
  - apply Hk2; [lia|lia|]. apply Hk1; [lia|lia|done].
Qed.

(** Writing the page of a role, and what it leaves of those of other roles. *)
Record wrote (r : role) (s s' : index) : Prop := {
  wr_tree : tree s' = tree s;
  wr_dm : dm_of s' = dm_of s;
  wr_node : ∀ r' q, r' ≠ r → node_at s (ρ r') q → node_at s' (ρ r') q;
  wr_has : ∀ r', has_page (dm_of s) (ρ r') (dk s) → has_page (dm_of s') (ρ r') (dk s');
  wr_page : ∀ r', r' ≠ r → has_page (dm_of s) (ρ r') (dk s) →
              page_of (dm_of s') (ρ r') (dk s') = page_of (dm_of s) (ρ r') (dk s);
}.

Lemma other_wrote s s' c n r : cached ρ s c n → other_pages (ρ r) s s' → wrote r s s'.
Proof.
  intros Hc Ho. pose proof (ca_pids _ _ _ _ _ Hc) as Hpids.
  assert (∀ r', r' ≠ r → ρ r' ≠ ρ r) as Hne.
  { intros r' Hr' Heq. apply Hr', (ca_apart _ _ _ _ _ Hc). by rewrite Heq. }
  pose proof Ho as (Ht & Hdm & Ho' & Hk). split; [done|done|..]; rewrite ?Hdm.
  - intros r' q Hr' Hq. eapply node_at_other; [exact Ho|apply Hpids|by apply Hne|done].
  - intros r'. apply Hk.
  - intros r' Hr' Hq. apply Ho'; [apply Hpids|by apply Hne|done].
Qed.

(** Splitting a root that is a leaf: the right half goes to a new page, and a new root
    to another. *)
(** The steps of the split, from the results of its allocations and flushes. *)
Lemma splitRootNode_steps s s1 s2 s4 s5 s6 s7 p vs mid count :
  leaf_ok p vs → keys p !! (length (keys p) / 2)%nat = Some mid → 0 < count < 65534 →
  ρ RightLeaf = count + 1 → ρ Root = count + 2 → root_pid (tree s) = ρ LeftLeaf → node_count (tree s) = count →
  alloc_page true s = Ok (ρ RightLeaf, s1) → alloc_page false s1 = Ok (ρ Root, s2) →
  let t := mkBTree (magic_num (tree s)) (max_size (tree s)) (ρ Root) (count + 2) in
  flush_tree (mkIndex t (pool s2) (hp s2) (dk s2)) = Ok ((), s4) →
  flush_page_of (ρ RightLeaf) (right_half p vs) s4 = Ok ((), s5) →
  flush_page_of (ρ Root) (new_root mid) s5 = Ok ((), s6) →
  flush_page_of (ρ LeftLeaf) (left_half p vs) s6 = Ok ((), s7) →
  splitRootNode RID p s = Ok (left_half p vs, s7).
Proof.
  intros Hok Hmid Hrange Hr Ht Hroot Hcount Ha1 Ha2 t Hfl4 Hfl5 Hfl6 Hfl7.
  pose proof (lookup_lt_Some _ _ _ Hmid) as Hmidlt. set (s3 := mkIndex t (pool s2) (hp s2) (dk s2)) in *.
  unfold splitRootNode. lift_step. unfold zlen. rewrite (vec_at_ok _ _ mid); [|by apply Z.div_pos; lia|].
  2:{ by rewrite <- Hmid, <- (Nat2Z.inj_div _ 2), Nat2Z.id. }
  lift_step. cbn [val_is_leaf VAL_T_RID]. io_step Ha1. io_step Ha2. lift_step.
  rewrite (redistribute_leaf_ok p vs (wf_values _ _ (nd_wf _ _ Hok)) (nd_length _ _ Hok)). lift_step.
  change (INTERNAL_CHILDREN (values (new_node false))) with (Ok ([] : list Z)). lift_step. do 2 lift_step.
  unfold assert_that at 1, BTREE_METADATA_PAGE_ID at 1 2. rewrite !(proj2 (Z.eqb_neq _ 0)) by lia.
  cbn [negb andb]. lift_step. rewrite Hroot. unfold set_root, add_nodes.
  cbn [tree magic_num max_size node_count pool hp dk]. rewrite Hcount.
  assert (u16 (count + 2) = count + 2) as -> by (unfold u16; rewrite Z.mod_small; lia). fold t. fold s3.
  io_step Hfl4. io_step Hfl5. io_step Hfl6. io_step Hfl7. done.
Qed.

Lemma splitRootNode_leaf s c c' p0 p vs mid count n :
  cached ρ s c (n + 4) → 0 ≤ n →
  accesses [Flush Meta; Flush RightLeaf; Flush Root; Flush LeftLeaf] c = Some c' →
  (∀ i r, held c !! i = Some (Some r) → r = LeftLeaf) →
  magic_num (tree s) = BTREE_INDEX → node_count (tree s) = count →
  index_file (dm_of s) count (max_size (tree s)) (dk s) → 0 < count < 65534 →
  ρ Meta = 0 → ρ RightLeaf = count + 1 → ρ Root = count + 2 → 0 < ρ LeftLeaf ≤ count →
  root_pid (tree s) = ρ LeftLeaf → node_at s (ρ LeftLeaf) p0 →
  leaf_ok p vs → members_ok → keys p !! (length (keys p) / 2)%nat = Some mid →
  ∃ s', splitRootNode RID p s = Ok (left_half p vs, s')
    ∧ cached ρ s' c' n ∧ dm_of s' = dm_of s
    ∧ tree s' = mkBTree (magic_num (tree s)) (max_size (tree s)) (ρ Root) (count + 2)
    ∧ metadata (tree s') (page_of (dm_of s) 0 (dk s')) ∧ has_page (dm_of s) 0 (dk s')
    ∧ node_at s' (ρ Root) (new_root mid) ∧ node_at s' (ρ LeftLeaf) (left_half p vs)
    ∧ node_at s' (ρ RightLeaf) (right_half p vs).
Proof.
  intros Hc Hn Hacc Hheld Hmagic Hcount Hfile Hrange Hm Hr Ht Hl Hroot Hlp Hok Hmem Hmid.
  apply accesses_flush in Hacc as (c1 & Hst1 & Hacc). apply accesses_flush in Hacc as (c2 & Hst2 & Hacc).
  apply accesses_flush in Hacc as (c3 & Hst3 & Hacc). apply accesses_flush in Hacc as (c4 & Hst4 & [= ->]).
  assert (∀ r, is_u32 (ρ r)) as Hu32 by (intros r; pose proof (ca_pids _ _ _ _ _ Hc r); unfold is_u32; lia).
  destruct (halves_ok p vs Hok Hmem (Hu32 _)) as (Hlok & Hrok & _).
  destruct (new_root_ok mid) as [Hfork Hnok]; [| |done|done|done|].
  { eapply Forall_lookup_1; [exact (wf_keys _ _ (nd_wf _ _ Hok))|exact Hmid]. }
  { eapply Forall_lookup_1; [exact (nd_nonempty _ _ Hok)|exact Hmid]. }
  destruct (alloc_two s c count _ p0 (n + 4) Hc Hfile Hrange Hheld Hl Hlp)
    as (s1 & s2 & Ha1 & Ha2 & Hc2 & Ht2 & Hdm2 & Hf2 & Hpr & Hpt & Hpl). rewrite <- Hr in Ha1, Hpr. rewrite <- Ht in Ha2, Hpt.
  set (t := mkBTree (magic_num (tree s)) (max_size (tree s)) (ρ Root) (count + 2)).
  set (s3 := mkIndex t (pool s2) (hp s2) (dk s2)).
  pose proof (cached_set_tree ρ s2 c (n + 4) t Hc2) as Hc3. fold s3 in Hc3.
  replace (n + 4) with (n + 1 + 1 + 1 + 1) in Hc3 by lia.
  destruct (flush_tree_ok ρ s3 c (n + 1 + 1 + 1) _ c1 Hc3 ltac:(lia) Hm Hst1) as (s4 & Hfl4 & Hc4 & Hmd & Hp0 & Ho4).
  { cbn [s3 pool dk]. rewrite Hdm2. apply (if_page _ _ _ _ Hf2). }
  rewrite <- Hm in Ho4 at 1. pose proof (other_wrote _ _ _ _ _ Hc3 Ho4) as Hw4.
  assert (∀ r, has_page (dm_of s2) (ρ r) (dk s2) → has_page (dm_of s4) (ρ r) (dk s4)) as Hh4 by apply Hw4.
  rewrite Hdm2 in Hh4.
  destruct (store_node ρ s4 c1 (n + 1 + 1) RightLeaf c2 (right_half p vs) _ Hc4 ltac:(lia) Hst2 (Hh4 _ Hpr) Hrok)
    as (s5 & Hfl5 & Hc5 & Hn5 & Ho5). pose proof (other_wrote _ _ _ _ _ Hc4 Ho5) as Hw5.
  destruct (store_node ρ s5 c2 (n + 1) Root c3 (new_root mid) _ Hc5 ltac:(lia) Hst3 (wr_has _ _ _ Hw5 _ (Hh4 _ Hpt)) Hnok)
    as (s6 & Hfl6 & Hc6 & Hn6 & Ho6). pose proof (other_wrote _ _ _ _ _ Hc5 Ho6) as Hw6.
  assert (has_page (dm_of s6) (ρ LeftLeaf) (dk s6)) as Hpl6.
  { apply (wr_has _ _ _ Hw6), (wr_has _ _ _ Hw5), Hh4. rewrite <- Hdm2. apply Hpl. }
  destruct (store_node ρ s6 c3 n LeftLeaf c' (left_half p vs) _ Hc6 Hn Hst4 Hpl6 Hlok)
    as (s7 & Hfl7 & Hc7 & Hn7 & Ho7). pose proof (other_wrote _ _ _ _ _ Hc6 Ho7) as Hw7.
  exists s7. split.
  { by apply (splitRootNode_steps s s1 s2 s4 s5 s6 s7 p vs mid count). }
  assert (dm_of s7 = dm_of s ∧ tree s7 = t) as [Hdm7 Ht7].
  { rewrite (wr_dm _ _ _ Hw7), (wr_dm _ _ _ Hw6), (wr_dm _ _ _ Hw5), (wr_dm _ _ _ Hw4).
    by rewrite (wr_tree _ _ _ Hw7), (wr_tree _ _ _ Hw6), (wr_tree _ _ _ Hw5), (wr_tree _ _ _ Hw4). }
  assert (has_page (dm_of s4) (ρ Meta) (dk s4)) as Hm4 by (rewrite Hm, (wr_dm _ _ _ Hw4); exact Hp0).
  pose proof (wr_has _ _ _ Hw5 _ Hm4) as Hm5. pose proof (wr_has _ _ _ Hw6 _ Hm5) as Hm6.
  split; [done|]. split; [done|]. split; [done|]. rewrite Ht7. split; [|split; [|split; [|split]]].
  - assert (page_of (dm_of s7) (ρ Meta) (dk s7) = page_of (dm_of s4) (ρ Meta) (dk s4)) as Hpg.
    { by rewrite (wr_page _ _ _ Hw7), (wr_page _ _ _ Hw6), (wr_page _ _ _ Hw5). }
    rewrite Hm, Hdm7 in Hpg. rewrite Hpg. rewrite (wr_dm _ _ _ Hw4). cbn [s3 pool]. exact Hmd.
  - rewrite <- Hdm7, <- Hm. by apply (wr_has _ _ _ Hw7).
  - by apply (wr_node _ _ _ Hw7).
  - done.
  - apply (wr_node _ _ _ Hw7); [done|]. by apply (wr_node _ _ _ Hw6).
Qed.

Definition split_accesses : list (access role) := [Flush Meta; Flush RightLeaf; Flush Root; Flush LeftLeaf].

(** From a search in a tree of one leaf to the last write of a split. *)
Definition split_step (c : cache role) : Prop :=
  match load LeftLeaf c with
  | Some (_, c1) =>
      Forall (λ o, o ∈ [None; Some LeftLeaf]) (held c1)
      ∧ match accesses split_accesses c1 with
        | Some c2 => match store LeftLeaf c2 with Some c3 => c3 ∈ twig_caches | None => False end
        | None => False
        end
  | None => False
  end.
#[local] Instance split_step_dec c : Decision (split_step c).
Proof.
  unfold split_step. destruct (load LeftLeaf c) as [[i c1]|]; [|apply _].
  destruct (accesses split_accesses c1) as [c2|]; [|apply _]. destruct (store LeftLeaf c2); apply _.
Defined.

Lemma split_caches c :
  c ∈ leaf_caches → ∃ i c1 c2 c3, load LeftLeaf c = Some (i, c1)
    ∧ (∀ i r, held c1 !! i = Some (Some r) → r = LeftLeaf)
    ∧ accesses split_accesses c1 = Some c2 ∧ store LeftLeaf c2 = Some c3 ∧ c3 ∈ twig_caches.
Proof.
  assert (Forall split_step leaf_caches) as Hall by (apply (bool_decide_unpack _); by vm_compute).
  rewrite Forall_forall in Hall. intros Hc%Hall. unfold split_step in Hc.
  destruct (load LeftLeaf c) as [[i c1]|]; [|done]. destruct Hc as [Hheld Hc].
  destruct (accesses split_accesses c1) as [c2|] eqn:E2; [|done].
  destruct (store LeftLeaf c2) as [c3|] eqn:E3; [|done].
  exists i, c1, c2, c3. split; [done|]. split; [|done]. intros j r Hj.
  rewrite Forall_lookup in Hheld. apply Hheld in Hj. apply elem_of_cons in Hj as [?|Hj]; [done|].
  apply list_elem_of_singleton in Hj. congruence.
Qed.

Lemma cmpKeys_self k : cmpKeys k k = 0.
Proof. pose proof (cmpKeys_antisym k k). lia. Qed.

(** The leaves of a split node. *)
Lemma split_sides p vs mid :
  leaf_ok p vs → keys p !! (length (keys p) / 2)%nat = Some mid →
  Forall (λ k, side mid k = true) (keys (left_half p vs))
  ∧ Forall (λ k, side mid k = false) (keys (right_half p vs))
  ∧ (∀ k k', k ∈ keys (left_half p vs) → k' ∈ keys (right_half p vs) → cmpKeys k k' ≠ 0).
Proof.
  intros Hok Hmid. cbn [left_half right_half keys set_next set_values set_keys].
  set (n := (length (keys p) / 2)%nat) in *. pose proof (nd_sorted _ _ Hok) as Hs.
  apply (Sorted_StronglySorted key_lt_trans) in Hs. rewrite <- (take_drop_middle _ _ _ Hmid) in Hs.
  assert (drop n (keys p) = mid :: drop (S n) (keys p)) as -> by by apply drop_S.
  apply StronglySorted_app in Hs as (Hcross & _ & Hr). apply StronglySorted_inv in Hr as [_ Hr].
  rewrite Forall_forall in Hr. unfold side, key_lt in *. split; [|split].
  - apply Forall_forall. intros k Hk. apply Z.ltb_lt. rewrite cmpKeys_antisym.
    pose proof (Hcross k mid Hk ltac:(by left)). lia.
  - constructor; [apply Z.ltb_ge; by rewrite cmpKeys_self|]. apply Forall_forall. intros k Hk. apply Z.ltb_ge.
    pose proof (Hr k Hk). lia.
  - intros k k' Hk Hk'. pose proof (Hcross k k' Hk Hk'). lia.
Qed.

Definition halves (p : BTreePage) (vs : list RID) (b : bool) : BTreePage :=
  if b then left_half p vs else right_half p vs.
Definition half_values (p : BTreePage) (vs : list RID) (b : bool) : list RID :=
  let n := (length (keys p) / 2)%nat in if b then take n vs else drop n vs.

(** The halves on their pages, and the new root on its page, are a tree of two
    leaves. *)
Lemma split_twig s p vs mid c n :
  leaf_ok p vs → members_ok → keys p !! (length (keys p) / 2)%nat = Some mid →
  cached ρ s c n → (∀ r, r ≠ Meta → 0 < ρ r) → root_pid (tree s) = ρ Root →
  node_at s (ρ Root) (new_root mid) → (∀ b, node_at s (ρ (leaf_role b)) (halves p vs b)) →
  twig_nodes ρ s mid (halves p vs) (half_values p vs) ∧ contents_of (halves p vs) (half_values p vs) = pairs p vs
  ∧ (length (keys (halves p vs true)) ≤ length (keys (halves p vs false)) ≤ S (length (keys (halves p vs true))))%nat.
Proof.
  intros Hok Hmem Hmid Hc Hpos Hroot Hnr Hnl.
  assert (∀ r, is_u32 (ρ r)) as Hu32 by (intros r; pose proof (ca_pids _ _ _ _ _ Hc r); unfold is_u32; lia).
  destruct (split_sides p vs mid Hok Hmid) as (Hside1 & Hside2 & Hapart).
  destruct (halves_ok p vs Hok Hmem (Hu32 _)) as (Hlok & Hrok & Hpairs).
  destruct (new_root_ok mid) as [Hfork Hnok]; [| |done|apply Hu32|apply Hu32|].
  { eapply Forall_lookup_1; [exact (wf_keys _ _ (nd_wf _ _ Hok))|exact Hmid]. }
  { eapply Forall_lookup_1; [exact (nd_nonempty _ _ Hok)|exact Hmid]. }
  split; [|split; [exact Hpairs|]].
  - split; [exact Hpos|exact Hroot|by exists (new_root mid)|exact Hnl|by intros []|by intros []|exact Hapart|done].
  - cbn [halves left_half right_half keys set_next set_values set_keys]. rewrite length_take, length_drop.
    pose proof (Nat.div_mod_eq (length (keys p)) 2). pose proof (Nat.mod_upper_bound (length (keys p)) 2 ltac:(done)). lia.
Qed.

(** A new key for a leaf that is full splits it. *)
Lemma split_leaf_tree s p vs key val fuel n count :
  leaf_tree ρ leaf_caches s p vs (n + 6) → 0 ≤ n → Forall (λ k, cmpKeys k key ≠ 0) (keys p) → valid_pair (key, val) →
  room ((key, val) :: pairs p vs) ≤ PAGE_SIZE → zlen (keys p) = max_size (tree s) →
  magic_num (tree s) = BTREE_INDEX → node_count (tree s) = count →
  index_file (dm_of s) count (max_size (tree s)) (dk s) → ρ LeftLeaf ≤ count < 65534 →
  ρ Meta = 0 → ρ RightLeaf = count + 1 → ρ Root = count + 2 → members_ok →
  ∃ s' mid P W, insert (S fuel) key val s = Ok (ρ LeftLeaf, s') ∧ twig ρ s' mid P W n
    ∧ contents_of P W ≡ₚ (key, val) :: pairs p vs ∧ dm_of s' = dm_of s
    ∧ tree s' = mkBTree (magic_num (tree s)) (max_size (tree s)) (ρ Root) (count + 2)
    ∧ metadata (tree s') (page_of (dm_of s) 0 (dk s')) ∧ has_page (dm_of s) 0 (dk s')
    ∧ (length (keys (P true)) ≤ length (keys (P false)) ≤ S (length (keys (P true))))%nat.
Proof.
  intros [(c & Hcs & Hc) Hpid Hroot Hp Hok] Hn Hnew (Hfit & Hne & Hvp & Hvs) Hroom Hfull Hmagic Hcount Hfile Hrange
    Hm Hr Ht Hmem.
  destruct (split_caches c Hcs) as (i & c1 & c2 & c3 & Hl & Hheld & Hacc & Hst & Hcs3).
  destruct (leaf_insert p vs key val Hok Hnew Hfit Hne Hvp Hvs Hroom)
    as (p' & vs' & Hins & Hok' & Hperm & Hlen' & _).
  replace (n + 6) with (n + 1 + 4 + 1) in Hc by lia.
  destruct (findLeaf_root ρ s c (n + 1 + 4) i c1 p key fuel Hc ltac:(lia) Hl Hroot Hp) as (s1 & Hf & Hc1 & Hs1).
  { by rewrite (wf_leaf _ _ (nd_wf _ _ Hok)). }
  pose proof Hs1 as (Ht1 & Hdm1 & _). pose proof (zlen_nonneg (keys p)).
  assert (∃ mid, keys p' !! (length (keys p') / 2)%nat = Some mid) as [mid Hmid].
  { apply lookup_lt_is_Some_2, half_lt. intros He. rewrite He in Hlen'. change (zlen []) with 0 in Hlen'. lia. }
  destruct (splitRootNode_leaf s1 c1 c2 p p' vs' mid count (n + 1)) as (s2 & Hsp & Hc2 & Hdm2 & Htr2 & Hmd & Hp0 & Hnt & Hnl & Hnr);
    [exact Hc1|lia|exact Hacc|exact Hheld|by rewrite Ht1|by rewrite Ht1| |lia|exact Hm|exact Hr|exact Ht|lia
    |by rewrite Ht1|by eapply node_at_same|exact Hok'|exact Hmem|exact Hmid|].
  { rewrite Ht1. by eapply index_file_same. }
  destruct (halves_ok p' vs' Hok' Hmem) as (Hlok & _ & _).
  { pose proof (ca_pids _ _ _ _ _ Hc RightLeaf). unfold is_u32. lia. }
  destruct (store_node ρ s2 c2 n LeftLeaf c3 (left_half p' vs') _ Hc2 Hn Hst (proj1 Hnl) Hlok)
    as (s3 & Hfl & Hc3 & Hnl3 & Ho3). pose proof (other_wrote _ _ _ _ _ Hc2 Ho3) as Hw3.
  rewrite Hdm1, Ht1 in *. pose proof (wr_dm _ _ _ Hw3) as Hdm3. pose proof (wr_tree _ _ _ Hw3) as Ht3.
  destruct (split_twig s3 p' vs' mid c3 n Hok' Hmem Hmid Hc3) as (Htwig & Hcont & Hbal).
  { intros [] Hne'; [done|lia..]. }
  { by rewrite Ht3, Htr2. }
  { by apply (wr_node _ _ _ Hw3). }
  { intros []; [done|]. by apply (wr_node _ _ _ Hw3). }
  exists s3, mid, (halves p' vs'), (half_values p' vs').
  split; [|split; [split; [done|by exists c3]|split; [by rewrite Hcont|split; [congruence|split; [congruence|]]]]].
  - unfold insert. erewrite io_bind_ok by (apply ensure_root_old; by rewrite Hroot). cbv beta iota zeta. io_step Hf.
    unfold assert_that at 1, BTREE_METADATA_PAGE_ID at 1. rewrite (proj2 (Z.eqb_neq _ _)) by lia. cbn [negb]. lift_step.
    rewrite existsb_none by done. rewrite Hins. lift_step.
    erewrite io_bind_ok; [by io_step Hfl|]. unfold split_if_full. lift_step.
    rewrite Ht1, (proj2 (Z.ltb_lt _ _)) by lia. unfold assert_that at 1, BTREE_METADATA_PAGE_ID at 1.
    rewrite (proj2 (Z.eqb_neq _ _)) by lia. cbn [negb]. lift_step. exact Hsp.
  - pose proof (wr_page _ _ _ Hw3 Meta ltac:(done)) as Hpg. pose proof (wr_has _ _ _ Hw3 Meta) as Hhas.
    rewrite Hm, Hdm3, Hdm2 in *. split; [|split; [by apply Hhas|done]]. by rewrite Ht3, Hpg.
Qed.
End twigs.
