(* ===== verification/SmallTree.v ===== *)
(** * SmallTree: B+trees of at most two leaves as maps

    What is inserted into a new index is found again as long as its keys take at
    most two leaves, and the operations of such a tree are those of a map except
    where the code goes wrong. *)
From S2P Require Import Prelude Serialize IndexPage Memory Hash NumTable CircularList ClockReplacer Disk Bpm BTree Cache LeafTree TwoLeaves.

(** ** Room for pairs *)

(** What a pair takes in a page, with its pointer. *)
Definition pair_size (kv : BTreeKey * RID) : Z := TREE_KV_PTR_SIZE + zlen (kv_bytes kv).

Lemma room_cons kv kvs : room (kv :: kvs) = pair_size kv + room kvs.
Proof. unfold room, pair_size. rewrite kvs_bytes_cons, zlen_app, zlen_cons. lia. Qed.

Lemma room_bound cap kvs :
  Forall (λ kv, pair_size kv ≤ cap) kvs → room kvs ≤ INDEX_PAGE_HEADER_SIZE + zlen kvs * cap.
Proof.
  induction 1 as [|kv kvs Hkv _ IH]; [by vm_compute|]. rewrite room_cons, zlen_cons. lia.
Qed.

(** A node of a tree has room for one pair more than it may keep, of [cap] bytes each. *)
Definition fits_node (cap max : Z) : Prop := INDEX_PAGE_HEADER_SIZE + (max + 1) * cap ≤ PAGE_SIZE.

Lemma room_fits cap max kvs :
  Forall (λ kv, pair_size kv ≤ cap) kvs → zlen kvs ≤ max + 1 → 0 ≤ cap → fits_node cap max → room kvs ≤ PAGE_SIZE.
Proof. intros Hc Hl H0 Hf. pose proof (room_bound cap kvs Hc). unfold fits_node in Hf. nia. Qed.

(** ** The trees that insertions into a new index lead to *)

Section small_trees.
Context `{U : Uninit} `{N : UninitNode}.

(** The tree has the pairs [kvs]. *)
Inductive small_tree (s : index) (kvs : list (BTreeKey * RID)) (n : Z) : Prop :=
| OneLeaf p vs :
    leaf_tree new_pages leaf_caches s p vs n → magic_num (tree s) = BTREE_INDEX → node_count (tree s) = 1 →
    index_file (dm_of s) 1 (max_size (tree s)) (dk s) →
    pairs p vs ≡ₚ kvs → zlen kvs ≤ max_size (tree s) → small_tree s kvs n
| TwoLeaves mid P W :
    twig new_pages s mid P W n → contents_of P W ≡ₚ kvs →
    (∀ b, (max_size (tree s) + 1) / 2 ≤ zlen (keys (P b))) → small_tree s kvs n.

Lemma Forall_keys (Φ : BTreeKey → Prop) p vs (kvs : list (BTreeKey * RID)) :
  leaf_ok p vs → (∀ kv, kv ∈ pairs p vs → kv ∈ kvs) → Forall (λ kv, Φ kv.1) kvs → Forall Φ (keys p).
Proof.
  intros Hok Hsub Hall. rewrite <- (pairs_keys p vs Hok), Forall_fmap. apply Forall_forall. intros kv Hkv.
  rewrite Forall_forall in Hall. by apply Hall, Hsub.
Qed.

Lemma zlen_contents s mid P W :
  twig_nodes new_pages s mid P W → zlen (contents_of P W) = zlen (keys (P true)) + zlen (keys (P false)).
Proof.
  intros Ht. unfold contents_of. rewrite zlen_app.
  by rewrite !(zlen_pairs _ _ (tw_leaf _ _ _ _ _ Ht _)).
Qed.

(** A pair for a tree of one leaf, which is split when it is full. *)
Lemma small_insert_leaf s p vs kvs key val fuel n cap :
  leaf_tree new_pages leaf_caches s p vs (n + 6) → magic_num (tree s) = BTREE_INDEX → node_count (tree s) = 1 →
  index_file (dm_of s) 1 (max_size (tree s)) (dk s) → pairs p vs ≡ₚ kvs → zlen kvs ≤ max_size (tree s) →
  members_ok → 0 ≤ n → valid_pair (key, val) → Forall (λ kv, cmpKeys kv.1 key ≠ 0) kvs →
  Forall (λ kv, pair_size kv ≤ cap) ((key, val) :: kvs) → fits_node cap (max_size (tree s)) → 0 ≤ cap →
  ∃ pid s', insert (S (S fuel)) key val s = Ok (pid, s') ∧ 0 < pid ∧ small_tree s' ((key, val) :: kvs) n
    ∧ max_size (tree s') = max_size (tree s) ∧ dm_of s' = dm_of s.
Proof.
  intros Ht Hmagic Hnc Hfile Hp Hmax Hmem Hn Hv Hnew Hcap Hfits Hcap0.
  pose proof (lt_leaf _ _ _ _ _ _ Ht) as Hok. pose proof (zlen_pairs p vs Hok) as Hlen.
  assert (zlen (pairs p vs) = zlen kvs) as Hlen' by (unfold zlen; by rewrite (Permutation_length Hp)).
  assert (Forall (λ k, cmpKeys k key ≠ 0) (keys p)) as Hnewp.
  { eapply (Forall_keys _ p vs kvs); [done| |exact Hnew]. intros kv. by rewrite Hp. }
  assert (room ((key, val) :: pairs p vs) ≤ PAGE_SIZE) as Hroom.
  { apply (room_fits cap (max_size (tree s))); [by rewrite Hp|rewrite zlen_cons; lia|done|done]. }
  destruct (decide (zlen (keys p) < max_size (tree s))) as [Hlt|Hge].
  - apply (leaf_tree_mono _ _ _ _ _ _ (n + 2)) in Ht; [|lia].
    destruct (insert_leaf_tree _ _ leaf_caches_steady s s p vs key val (S fuel) n (leaf_tree_ensured _ _ _ _ _ _ Ht) Ht Hn Hnewp Hv Hroom Hlt)
      as (s' & p' & vs' & Hi & Ht' & Hp' & Hl' & Ho). exists 1, s'.
    split; [done|]. split; [lia|]. pose proof Ho as (Htr & Hdm & _). split; [|by rewrite Htr].
    apply (OneLeaf _ _ _ p' vs'); rewrite ?Htr, ?Hdm; try done; [|by rewrite Hp', Hp|rewrite zlen_cons; lia].
    rewrite <- Hdm. by eapply index_file_other.
  - destruct (split_leaf_tree new_pages s p vs key val (S fuel) n 1)
      as (s' & mid & P & W & Hi & Ht' & Hp' & Hdm & Htr & _ & _ & Hbal); [exact Ht|done|done|done|done|lia|done|done|done|by cbn|done|done|done|done|].
    exists 1, s'. split; [done|]. split; [lia|]. rewrite Htr. split; [|done].
    apply (TwoLeaves _ _ _ mid P W); [done|by rewrite Hp', Hp|]. rewrite Htr. cbn [max_size].
    pose proof (zlen_contents _ _ _ _ (proj1 Ht')) as Hsum.
    assert (zlen (contents_of P W) = zlen (pairs p vs) + 1) as Hsum'.
    { unfold zlen. rewrite (Permutation_length Hp'). cbn [length]. lia. }
    pose proof (Z.div_mod (max_size (tree s) + 1) 2 ltac:(done)).
    pose proof (Z.mod_pos_bound (max_size (tree s) + 1) 2 ltac:(done)).
    unfold zlen in *. intros []; lia.
Qed.

(** A pair for a tree of two leaves that are not both full. *)
Lemma small_insert_twig s mid P W kvs key val fuel n cap :
  twig new_pages s mid P W (n + 6) → contents_of P W ≡ₚ kvs →
  (∀ b, (max_size (tree s) + 1) / 2 ≤ zlen (keys (P b))) →
  0 ≤ n → valid_pair (key, val) → Forall (λ kv, cmpKeys kv.1 key ≠ 0) kvs →
  Forall (λ kv, pair_size kv ≤ cap) ((key, val) :: kvs) → fits_node cap (max_size (tree s)) → 0 ≤ cap →
  zlen kvs ≤ max_size (tree s) + (max_size (tree s) - 1) / 2 →
  ∃ pid s', insert (S (S fuel)) key val s = Ok (pid, s') ∧ 0 < pid ∧ small_tree s' ((key, val) :: kvs) n
    ∧ max_size (tree s') = max_size (tree s) ∧ dm_of s' = dm_of s.
Proof.
  intros Ht Hp Hhalf Hn Hv Hnew Hcap Hfits Hcap0 Hcount.
  set (b := side mid key). pose proof (tw_leaf _ _ _ _ _ (proj1 Ht)) as Hok.
  pose proof (zlen_contents _ _ _ _ (proj1 Ht)) as Hsum.
  assert (zlen (contents_of P W) = zlen kvs) as Hsum' by (unfold zlen; by rewrite (Permutation_length Hp)).
  assert (∀ b kv, kv ∈ pairs (P b) (W b) → kv ∈ kvs) as Hsub.
  { intros b' kv Hkv. rewrite <- Hp, (contents_side P W b'). apply elem_of_app. by left. }
  pose proof (Z.div_mod (max_size (tree s) + 1) 2 ltac:(done)) as Hd1.
  pose proof (Z.mod_pos_bound (max_size (tree s) + 1) 2 ltac:(done)) as Hd2.
  pose proof (Z.div_mod (max_size (tree s) - 1) 2 ltac:(done)) as Hd3.
  pose proof (Z.mod_pos_bound (max_size (tree s) - 1) 2 ltac:(done)) as Hd4.
  assert (zlen (keys (P b)) < max_size (tree s)) as Hlt.
  { pose proof (Hhalf true). pose proof (Hhalf false). destruct b; lia. }
  apply (twig_mono new_pages) with (n' := n + 3) in Ht; [|lia].
  destruct (twig_insert new_pages s mid P W key val (fuel) n Ht Hn Hv) as (s' & p' & vs' & Hi & Ht' & Hp' & Hl' & Ho).
  - intros b'. eapply (Forall_keys _ _ _ kvs); [apply Hok|apply Hsub|exact Hnew].
  - fold b. inversion Hcap; subst. apply (room_fits cap (max_size (tree s))); [|rewrite zlen_cons, zlen_pairs by done; lia|done|done].
    constructor; [done|]. rewrite Forall_forall in *. intros kv Hkv. eauto.
  - done.
  - fold b in Hi, Ht', Hp', Hl', Ho. exists (new_pages (leaf_role b)), s'. split; [done|].
    split; [by destruct b|]. destruct Ho as (Htr & Hdm & _). rewrite Htr. split; [|done].
    apply (TwoLeaves _ _ _ mid (upd b p' P) (upd b vs' W)); [done| |].
    + rewrite contents_upd, Hp'. cbn [app]. by rewrite <- contents_side, Hp.
    + rewrite Htr. intros b'. destruct (decide (b' = b)) as [->|Hne].
      * rewrite upd_same. pose proof (Hhalf b). lia.
      * assert (b' = negb b) as -> by (destruct b, b'; done). rewrite upd_other. apply Hhalf.
Qed.

Lemma small_insert s kvs key val fuel n cap :
  small_tree s kvs (n + 6) → 0 ≤ n → members_ok → valid_pair (key, val) →
  Forall (λ kv, cmpKeys kv.1 key ≠ 0) kvs →
  Forall (λ kv, pair_size kv ≤ cap) ((key, val) :: kvs) → fits_node cap (max_size (tree s)) → 0 ≤ cap →
  zlen kvs ≤ max_size (tree s) + (max_size (tree s) - 1) / 2 →
  ∃ pid s', insert (S (S fuel)) key val s = Ok (pid, s') ∧ 0 < pid ∧ small_tree s' ((key, val) :: kvs) n
    ∧ max_size (tree s') = max_size (tree s) ∧ dm_of s' = dm_of s.
Proof.
  intros Hs Hn Hmem Hv Hnew Hcap Hfits Hcap0 Hcount.
  destruct Hs; [by eapply small_insert_leaf|by eapply small_insert_twig].
Qed.

(** The search ends in a leaf that has the pairs with the key, if there are any. *)
Lemma small_search s kvs key fuel n :
  small_tree s kvs (n + 2) → 0 ≤ n →
  ∃ leaf vs crumbs pid s', findLeaf (S (S fuel)) key s = Ok ((leaf, crumbs, pid), s')
    ∧ same_pages s s' ∧ node_at s pid leaf ∧ leaf_ok leaf vs
    ∧ ∀ val, (key, val) ∈ kvs ↔ (key, val) ∈ pairs leaf vs.
Proof.
  intros Hs Hn. destruct Hs as [p vs Ht _ _ _ Hp _|mid P W [Ht (c & Hcs & Hc)] Hp _].
  - apply (leaf_tree_mono _ _ _ _ _ _ (n + 1)) in Ht; [|lia].
    destruct (findLeaf_leaf _ _ leaf_caches_steady s p vs key (S fuel) n Ht Hn) as (s' & Hf & Ht' & Hs').
    exists p, vs, [], (new_pages LeftLeaf), s'. split; [done|]. split; [done|].
    split; [exact (lt_node _ _ _ _ _ _ Ht)|]. split; [exact (lt_leaf _ _ _ _ _ _ Ht)|]. intros val. by rewrite Hp.
  - set (b := side mid key). destruct (find_accesses_steady b c Hcs) as (c' & Hacc & _).
    destruct (twig_find new_pages s c c' mid P W key fuel n Ht Hc Hn Hacc) as (s' & Hf & _ & Hs').
    exists (P b), (W b), [crumb new_pages b], (new_pages (leaf_role b)), s'. split; [done|]. split; [done|].
    split; [apply (tw_node _ _ _ _ _ Ht)|]. split; [apply (tw_leaf _ _ _ _ _ Ht)|].
    intros val. rewrite <- Hp. by eapply twig_side.
Qed.

Lemma small_insert_all fuel kvs kvs0 s n cap :
  small_tree s kvs0 (n + 6 * zlen kvs) → 0 ≤ n → members_ok → Forall valid_pair kvs → distinct kvs →
  Forall (λ kv0 : BTreeKey * RID, Forall (λ kv : BTreeKey * RID, cmpKeys kv0.1 kv.1 ≠ 0) kvs) kvs0 →
  Forall (λ kv, pair_size kv ≤ cap) (kvs ++ kvs0) → fits_node cap (max_size (tree s)) → 0 ≤ cap →
  zlen kvs0 + zlen kvs ≤ max_size (tree s) + 1 + (max_size (tree s) - 1) / 2 →
  ∃ s', insert_all (S (S fuel)) kvs s = Ok ((), s') ∧ small_tree s' (reverse kvs ++ kvs0) n ∧ dm_of s' = dm_of s.
Proof.
  revert s kvs0. induction kvs as [|[key val] kvs IH]; intros s kvs0 Hs Hn Hmem Hv Hd Hnew Hcap Hfits H0 Hcount.
  { exists s. split; [done|]. split; [|done]. change (zlen []) with 0 in Hs. by replace n with (n + 6 * 0) by lia. }
  inversion Hv as [|? ? Hv1 Hv']; subst. inversion Hd as [|? ? Hd1 Hd']; subst.
  rewrite zlen_cons in *. pose proof (zlen_nonneg kvs). cbn [app] in Hcap. inversion Hcap as [|? ? Hcap1 Hcap']; subst.
  replace (n + 6 * (1 + zlen kvs)) with (n + 6 * zlen kvs + 6) in Hs by lia.
  destruct (small_insert s kvs0 key val fuel (n + 6 * zlen kvs) cap Hs ltac:(lia) Hmem Hv1)
    as (pid & s1 & Hi & Hpid & Hs1 & Hmax & Hdm); [| |done|done|lia|].
  { eapply Forall_impl; [exact Hnew|]. intros kv Hkv. by inversion Hkv. }
  { constructor; [done|]. by apply Forall_app in Hcap' as [_ ?]. }
  destruct (IH s1 ((key, val) :: kvs0)) as (s2 & Hall & Hs2 & Hdm2);
    [exact Hs1|exact Hn|exact Hmem|exact Hv'|exact Hd'| | |by rewrite Hmax|exact H0|rewrite Hmax, zlen_cons; lia|].
  - constructor; [exact Hd1|]. eapply Forall_impl; [exact Hnew|]. intros kv Hkv. by inversion Hkv.
  - rewrite <- (Permutation_middle kvs kvs0). by constructor.
  - exists s2. split; [cbn [insert_all]; by io_step Hi|]. split; [|congruence].
    by rewrite reverse_cons, <- app_assoc.
Qed.

(** *** A new index *)

Lemma small_insert_new fuel kvs s n cap :
  new_tree new_pages s (n + 6 * zlen kvs) → magic_num (tree s) = BTREE_INDEX → 0 ≤ n → members_ok →
  kvs ≠ [] → Forall valid_pair kvs → distinct kvs →
  Forall (λ kv, pair_size kv ≤ cap) kvs → fits_node cap (max_size (tree s)) → 1 ≤ max_size (tree s) →
  zlen kvs ≤ max_size (tree s) + 1 + (max_size (tree s) - 1) / 2 →
  ∃ s', insert_all (S (S fuel)) kvs s = Ok ((), s') ∧ small_tree s' (reverse kvs) n ∧ dm_of s' = dm_of s.
Proof.
  intros Hnew Hmagic Hn Hmem Hne Hv Hd Hcap Hfits Hmax Hcount.
  destruct kvs as [|[key val] kvs]; [done|].
  destruct (ensure_root_new _ leaf_caches _ _ Hnew) as (s0 & Hens & Ht0 & Htree0 & Hdm0 & Hf0); [by left|].
  assert (0 ≤ cap) as Hcap0.
  { inversion Hcap as [|? ? Hc _]; subst. unfold pair_size, TREE_KV_PTR_SIZE in Hc.
    pose proof (zlen_nonneg (kv_bytes (key, val))). lia. }
  assert (insert_all (S (S fuel)) ((key, val) :: kvs) s = insert_all (S (S fuel)) ((key, val) :: kvs) s0) as ->.
  { cbn [insert_all]. unfold mbind, io_bind. by rewrite (insert_ensured _ _ _ _ _ Hens (leaf_tree_ensured _ _ _ _ _ _ Ht0)). }
  destruct (small_insert_all fuel ((key, val) :: kvs) [] s0 n cap) as (s' & Hall & Hs' & Hdm');
    [|exact Hn|exact Hmem|exact Hv|exact Hd|constructor|by rewrite app_nil_r|by rewrite Htree0|exact Hcap0
     |rewrite Htree0; exact Hcount|].
  - apply (OneLeaf _ _ _ empty_leaf []); rewrite ?Htree0; [exact Ht0|exact Hmagic|done|exact Hf0|done|].
    cbn [max_size]. change (zlen []) with 0. lia.
  - exists s'. split; [exact Hall|]. rewrite app_nil_r in Hs'. split; [exact Hs'|congruence].
Qed.

(** ** Properties *)

(** C1: what is inserted into a new index is found again. The pairs are inserted in any
    order, as many as two leaves are sure to hold, with keys that differ from each
    other in a byte they both have; the search for any key then ends in a leaf, which
    is on disk, sorted, and has all the pairs with the key. *)
Theorem insert_search name max_keys size kvs cap fuel d :
  zlen name < 25 → is_byte max_keys → 1 ≤ max_keys → 4 ≤ size ≤ 65535 → contents (path_of name) d = [] → members_ok →
  kvs ≠ [] → Forall valid_pair kvs → distinct kvs → Forall (λ kv, pair_size kv ≤ cap) kvs → fits_node cap max_keys →
  zlen kvs ≤ max_keys + 1 + (max_keys - 1) / 2 →
  ∃ dm d1 t d2 s, create_btree_index name max_keys d = Ok (Some dm, d1)
    ∧ tree_deserialize dm d1 = Ok (t, d2)
    ∧ insert_all (S (S fuel)) kvs (mkIndex t (new_bpm size dm) new_heap d2) = Ok ((), s)
    ∧ ∀ key, ∃ leaf vs crumbs pid s', findLeaf (S (S fuel)) key s = Ok ((leaf, crumbs, pid), s')
        ∧ deserialize (page_of dm pid (dk s)) = Ok leaf ∧ is_leaf leaf = true ∧ values leaf = LeafRecords vs
        ∧ Sorted key_lt (keys leaf) ∧ ∀ val, (key, val) ∈ kvs ↔ (key, val) ∈ zip (keys leaf) vs.
Proof.
  intros Hname Hbyte Hmax Hsize He Hmem Hne Hv Hd Hcap Hfits Hcount. pose proof (zlen_nonneg kvs).
  assert (zlen kvs ≤ 1000) as Hbound.
  { unfold is_byte in Hbyte. pose proof (Z.div_mod (max_keys - 1) 2 ltac:(done)).
    pose proof (Z.mod_pos_bound (max_keys - 1) 2 ltac:(done)). lia. }
  destruct (new_tree_created name max_keys size d (2 + 6 * zlen kvs) Hname Hbyte Hsize He ltac:(lia))
    as (dm & d1 & d2 & Hc & Hde & Hnew & Hdm).
  destruct (small_insert_new fuel kvs _ 2 cap Hnew) as (s & Hall & Hs & Hdm'); [done..|].
  exists dm, d1, (mkBTree BTREE_INDEX max_keys 0 0), d2, s. split; [done|]. split; [done|]. split; [done|].
  intros key. destruct (small_search s _ key fuel 0 Hs ltac:(done))
    as (leaf & vs & crumbs & pid & s' & Hf & _ & [_ Hnode] & [Hwf _ _ Hsorted] & Hiff).
  cbn [pool] in Hdm'. rewrite Hdm', Hdm in Hnode.
  exists leaf, vs, crumbs, pid, s'. split; [done|]. split; [exact Hnode|]. destruct Hwf. split_and!; [done..|].
  intros val. rewrite <- (Hiff val). by rewrite reverse_Permutation.
Qed.

(** C8: a new key for a full leaf of a new index splits it. The pairs go to two leaves,
    sorted and divided by the key of the new root, whose sizes differ by one at most,
    and the tree that is opened from the file afterwards is the one in memory. The
    page number that is returned is that of the left leaf, wherever the key went. *)
Theorem first_split s p vs key val fuel n :
  leaf_tree new_pages leaf_caches s p vs (n + 6) → 0 ≤ n → magic_num (tree s) = BTREE_INDEX → node_count (tree s) = 1 →
  index_file (dm_of s) 1 (max_size (tree s)) (dk s) → members_ok →
  Forall (λ k, cmpKeys k key ≠ 0) (keys p) → valid_pair (key, val) →
  room ((key, val) :: pairs p vs) ≤ PAGE_SIZE → zlen (keys p) = max_size (tree s) →
  ∃ s' mid P W d, insert (S fuel) key val s = Ok (1, s') ∧ twig new_pages s' mid P W n
    ∧ contents_of P W ≡ₚ (key, val) :: pairs p vs
    ∧ (length (keys (P true)) ≤ length (keys (P false)) ≤ S (length (keys (P true))))%nat
    ∧ tree_deserialize (dm_of s') (dk s') = Ok (tree s', d) ∧ root_pid (tree s') = 3.
Proof.
  intros Ht Hn Hmagic Hcount Hfile Hmem Hnew Hv Hroom Hfull.
  destruct (split_leaf_tree new_pages s p vs key val fuel n 1)
    as (s' & mid & P & W & Hi & Ht' & Hp' & Hdm & Htr & Hmd & Hp0 & Hbal);
    [exact Ht|done|done|done|done|done|done|done|done|by cbn|done|done|done|done|].
  destruct (tree_deserialize_ok (tree s') (dm_of s) (dk s')) as (d & Hde & _);
    [|done|done|by rewrite Htr|by rewrite Htr|by rewrite Htr|].
  { destruct (lt_cache _ _ _ _ _ _ Ht) as (c & _ & Hc). apply (ca_name _ _ _ _ _ Hc). }
  exists s', mid, P, W, d. rewrite Hdm. split; [done|]. split; [done|]. split; [done|]. split; [done|].
  split; [done|]. by rewrite Htr.
Qed.

(** C6: on a tree of two leaves, through the pool and on disk, the operations that
    neither fill a leaf nor merge the leaves are those of a map: the search ends in
    the leaf that has the pairs with the key; a key that agrees with no key of the
    two leaves on the bytes they both have is inserted with its record, if its leaf
    has fewer keys than the most a node may have and room in the page; a key that
    agrees with one of its leaf is refused; a key of the leaf is removed with its
    record, if the sibling is empty or the two leaves keep more keys together than a
    node may have; and each of these leaves a tree of two leaves. The removal of a
    key that its leaf lacks erases past the end of a vector. *)
Theorem two_leaves_spec ρ s mid P W key fuel n :
  let b := side mid key in
  twig ρ s mid P W (n + 7) → 0 ≤ n →
  (∃ s', findLeaf (S (S fuel)) key s = Ok ((P b, [crumb ρ b], ρ (leaf_role b)), s') ∧ twig ρ s' mid P W n
    ∧ ∀ val, (key, val) ∈ contents_of P W ↔ (key, val) ∈ pairs (P b) (W b))
  ∧ (∀ val, valid_pair (key, val) → (∀ b', Forall (λ k, cmpKeys k key ≠ 0) (keys (P b'))) →
    room ((key, val) :: pairs (P b) (W b)) ≤ PAGE_SIZE → zlen (keys (P b)) < max_size (tree s) →
    ∃ s' P' W', insert (S (S fuel)) key val s = Ok (ρ (leaf_role b), s') ∧ twig ρ s' mid P' W' n
      ∧ contents_of P' W' ≡ₚ (key, val) :: contents_of P W)
  ∧ (∀ val k, k ∈ keys (P b) → cmpKeys k key = 0 →
    ∃ s', insert (S (S fuel)) key val s = Ok (0, s') ∧ twig ρ s' mid P W n)
  ∧ (key ∈ keys (P b) →
    keys (P (negb b)) = [] ∨ max_size (tree s) < zlen (keys (P b)) - 1 + zlen (keys (P (negb b))) →
    ∃ s' P' W' val, remove (S (S fuel)) key s = Ok ((), s') ∧ twig ρ s' mid P' W' n
      ∧ contents_of P W ≡ₚ (key, val) :: contents_of P' W')
  ∧ (key ∉ keys (P b) → remove (S (S fuel)) key s = Undef OutOfBounds).
Proof.
  intros b Ht Hn. split; [|split; [|split; [|split]]].
  - destruct Ht as [Ht (c & Hcs & Hc)]. apply (cached_mono _ _ _ _ (n + 2)) in Hc; [|lia].
    destruct (find_accesses_steady b c Hcs) as (c' & Hacc & Hcs').
    destruct (twig_find ρ s c c' mid P W key fuel n Ht Hc Hn Hacc) as (s' & Hf & Hc' & Hs').
    exists s'. split; [done|]. split; [split; [by eapply twig_nodes_same|by exists c']|].
    intros val. by eapply twig_side.
  - intros val Hv Hnew Hroom Hmax. apply (twig_mono _ _ _ _ _ _ (n + 3)) in Ht; [|lia].
    destruct (twig_insert ρ s mid P W key val fuel n Ht Hn Hv Hnew Hroom Hmax) as (s' & p' & vs' & Hi & Ht' & Hp' & _).
    exists s', (upd b p' P), (upd b vs' W). split; [done|]. split; [done|].
    rewrite contents_upd, Hp'. cbn [app]. by rewrite (contents_side P W b).
  - intros val k Hk Hcmp. apply (twig_mono _ _ _ _ _ _ (n + 2)) in Ht; [|lia].
    destruct (twig_duplicate ρ s mid P W key val fuel n k Ht Hn Hk Hcmp) as (s' & Hi & Ht' & _). by exists s'.
  - intros Hin Hno. destruct (twig_remove ρ s mid P W key fuel n Ht Hn Hin) as (s' & p' & vs' & val & Hr & Ht' & Hp').
    { intros p' Hp'. unfold merges, b in *. destruct Hno as [->|Hmax]; [done|].
      destruct (Z.leb_spec (zlen (keys p') + zlen (keys (P (negb (side mid key))))) (max_size (tree s))); [lia|apply andb_false_r]. }
    exists s', (upd b p' P), (upd b vs' W), val. split; [done|]. split; [done|].
    by apply contents_removed.
  - intros Hin. apply (twig_mono _ _ _ _ _ _ (n + 2)) in Ht; [|lia]. by apply (twig_remove_missing ρ s mid P W key fuel n).
Qed.

(** C9: a removal that lets the leaves fit one. From the right leaf, it leaves a tree of
    one leaf with the other pairs, which is also the tree that is opened from the file
    afterwards. From the left leaf, the pairs are in the left leaf as well, but the root
    keeps its key and its rightmost child becomes the metadata page. *)
Theorem merge_spec ρ s mid P W key fuel n :
  let b := side mid key in
  twig ρ s mid P W (n + 9) → 0 ≤ n → key ∈ keys (P b) →
  keys (P (negb b)) ≠ [] → zlen (keys (P true)) + zlen (keys (P false)) ≤ max_size (tree s) + 1 →
  room (contents_of P W) ≤ PAGE_SIZE → ρ Meta = 0 → has_page (dm_of s) 0 (dk s) →
  magic_num (tree s) = BTREE_INDEX → 0 ≤ node_count (tree s) < 2 ^ 16 →
  ∃ s' p vs val, remove (S (S fuel)) key s = Ok ((), s') ∧ contents_of P W ≡ₚ (key, val) :: pairs p vs
    ∧ if b then
        root_pid (tree s') = ρ Root ∧ node_at s' (ρ LeftLeaf) p ∧ leaf_ok p vs
        ∧ ∃ r, node_at s' (ρ Root) r ∧ keys r = [mid] ∧ rightmost_ptr r = 0
      else leaf_tree ρ merged_caches s' p vs n ∧ ∃ d, tree_deserialize (dm_of s') (dk s') = Ok (tree s', d).
Proof.
  intros b Ht Hn Hin Hne Hmax Hroom Hm Hp0 Hmagic Hnc. unfold b in *. destruct (side mid key) eqn:Hside; cbn [negb] in *.
  - apply (twig_mono _ _ _ _ _ _ (n + 8)) in Ht; [|lia].
    destruct (twig_left_merge ρ s mid P W key fuel n Hside Ht Hn Hin Hne Hmax Hroom)
      as (s' & r & p & vs & val & Hr & Hroot & Hnr & Hk & Hrm & Hnl & Hok & Hp).
    exists s', p, vs, val. split; [done|]. split; [done|]. split; [done|].
    split; [exact Hnl|]. split; [exact Hok|]. by exists r.
  - destruct (twig_collapse ρ s mid P W key fuel n Hside Ht Hn Hin Hne Hmax Hroom Hm Hp0)
      as (s' & p & vs & val & Hr & Ht' & Hp & Htr & Hdm & Hmd).
    exists s', p, vs, val. split; [done|]. split; [done|]. split; [exact Ht'|].
    destruct (lt_cache _ _ _ _ _ _ Ht') as (c & _ & Hc). pose proof (ca_pids _ _ _ _ _ Hc LeftLeaf).
    rewrite Hdm. destruct (tree_deserialize_ok (tree s') (dm_of s) (dk s')) as (d & Hde & _);
      [rewrite <- Hdm; apply (ca_name _ _ _ _ _ Hc)| |exact Hmd|by rewrite Htr|rewrite Htr; cbn; lia|by rewrite Htr|by exists d].
    apply page_of_has; [done|]. apply (me_length _ _ Hmd).
Qed.
End small_trees.

(** ** An index of four letters *)

#[local] Existing Instance zero_uninit.
#[local] Instance zero_node : UninitNode := Build_UninitNode 0 0 0.

Lemma zero_members : members_ok.
Proof. done. Qed.

Lemma letters_ok : distinct (letters "BCAD") ∧ Forall valid_pair (letters "BCAD").
Proof. split; repeat constructor; by vm_compute. Qed.

(** A full leaf of three letters. *)
Lemma sample_full_leaf n :
  0 ≤ n < 2 ^ 30 →
  ∃ s p vs, leaf_tree new_pages leaf_caches s p vs n ∧ magic_num (tree s) = BTREE_INDEX ∧ node_count (tree s) = 1
    ∧ index_file (dm_of s) 1 (max_size (tree s)) (dk s) ∧ pairs p vs ≡ₚ letters "BCA" ∧ max_size (tree s) = 3.
Proof.
  intros Hn. destruct (new_tree_created (str "idx") 3 10 ∅ (n + 6 * 3)) as (dm & d1 & d2 & _ & _ & Hnew & _);
    [done..|lia|].
  destruct (ensure_root_new _ leaf_caches _ _ Hnew) as (s0 & _ & Ht0 & Htree0 & _ & Hf0); [by left|].
  destruct (insert_all_leaf new_pages leaf_caches leaf_caches_steady 0 (letters "BCA") s0 empty_leaf [] n)
    as (s & p & vs & _ & Ht & Hp & Ho); [|lia|apply letters_pairs|apply letters_pairs|constructor|by_compute|by rewrite Htree0|].
  - apply (leaf_tree_mono _ _ _ _ _ _ _ Ht0). change (zlen (letters "BCA")) with 3. lia.
  - pose proof Ho as (Htr & Hdm & _). exists s, p, vs. rewrite Htr, Htree0 in *. cbn in *. rewrite Hdm in *.
    split_and!; [done..| |exact Hp|done]. rewrite <- Hdm. by eapply index_file_other.
Qed.

(** What a fourth letter needs. *)
Lemma fourth_ok s p vs :
  leaf_ok p vs → pairs p vs ≡ₚ letters "BCA" → max_size (tree s) = 3 →
  Forall (λ k, cmpKeys k [code "D"] ≠ 0) (keys p) ∧ valid_pair (letter "D")
  ∧ room (letter "D" :: pairs p vs) ≤ PAGE_SIZE ∧ zlen (keys p) = max_size (tree s).
Proof.
  intros Hok Hp Hmax. pose proof (keys_Permutation _ _ _ Hok Hp) as Hk. split_and!.
  - rewrite Hk. by repeat constructor.
  - by repeat split.
  - rewrite (room_Permutation _ (letter "D" :: letters "BCA")) by (by rewrite Hp). by_compute.
  - unfold zlen. by rewrite (Permutation_length Hk), Hmax.
Qed.

(** Two leaves of two letters each. *)
Lemma sample_twig n :
  0 ≤ n < 2 ^ 29 →
  ∃ s mid P W, twig new_pages s mid P W n ∧ contents_of P W ≡ₚ letter "D" :: letters "BCA"
    ∧ (∀ b, length (keys (P b)) = 2%nat) ∧ max_size (tree s) = 3
    ∧ has_page (dm_of s) 0 (dk s) ∧ magic_num (tree s) = BTREE_INDEX ∧ node_count (tree s) = 3.
Proof.
  intros Hn. destruct (sample_full_leaf (n + 6)) as (s & p & vs & Ht & Hmagic & Hcount & Hfile & Hp & Hmax); [lia|].
  destruct (fourth_ok s p vs (lt_leaf _ _ _ _ _ _ Ht) Hp Hmax) as (Hnew & Hv & Hroom & Hfull).
  destruct (split_leaf_tree new_pages s p vs [code "D"] (mkRID (code "D") 1) 0 n 1)
    as (s' & mid & P & W & _ & Ht' & Hp' & Hdm & Htr & _ & Hp0 & Hbal);
    [exact Ht|lia|exact Hnew|exact Hv|exact Hroom|exact Hfull|done|done|exact Hfile|by cbn|done|done|done|exact zero_members|].
  exists s', mid, P, W. rewrite Htr, Hdm. cbn [max_size magic_num node_count].
  split; [exact Ht'|]. split; [by rewrite Hp', Hp|].
  split_and!; [|done|exact Hp0|done|done].
  pose proof (zlen_contents _ _ _ _ (proj1 Ht')) as Hsum. unfold zlen in Hsum.
  rewrite (Permutation_length Hp') in Hsum. cbn [length] in Hsum. rewrite (Permutation_length Hp) in Hsum.
  change (length (letters "BCA")) with 3%nat in Hsum. intros []; lia.
Qed.

(** A key of a leaf. *)
Lemma some_key s mid P W n b :
  twig new_pages s mid P W n → length (keys (P b)) = 2%nat →
  ∃ key, key ∈ keys (P b) ∧ side mid key = b ∧ cmpKeys key key = 0.
Proof.
  intros Ht Hl. destruct (keys (P b)) as [|key ks] eqn:Hk; [done|]. exists key. split; [by left|].
  pose proof (tw_side _ _ _ _ _ (proj1 Ht) b) as Hs. rewrite Hk in Hs. inversion Hs; subst. split; [done|].
  pose proof (cmpKeys_antisym key key). lia.
Qed.

Lemma insert_search_witness :
  ∃ dm d1 t d2 s, create_btree_index (str "idx") 3 ∅ = Ok (Some dm, d1)
    ∧ tree_deserialize dm d1 = Ok (t, d2)
    ∧ insert_all 2 (letters "BCAD") (mkIndex t (new_bpm 10 dm) new_heap d2) = Ok ((), s)
    ∧ ∀ key, ∃ leaf vs crumbs pid s', findLeaf 2 key s = Ok ((leaf, crumbs, pid), s')
        ∧ deserialize (page_of dm pid (dk s)) = Ok leaf ∧ is_leaf leaf = true ∧ values leaf = LeafRecords vs
        ∧ Sorted key_lt (keys leaf) ∧ ∀ val, (key, val) ∈ letters "BCAD" ↔ (key, val) ∈ zip (keys leaf) vs.
Proof.
  apply (insert_search (str "idx") 3 10 (letters "BCAD") 100 0 ∅);
    [done..|apply letters_ok|apply letters_ok|by repeat constructor|done|done].
Defined.

Lemma first_split_witness :
  ∃ s s' P W d, insert 1 [code "D"] (mkRID (code "D") 1) s = Ok (1, s')
    ∧ contents_of P W ≡ₚ letter "D" :: letters "BCA"
    ∧ (length (keys (P true)) ≤ length (keys (P false)) ≤ S (length (keys (P true))))%nat
    ∧ tree_deserialize (dm_of s') (dk s') = Ok (tree s', d) ∧ root_pid (tree s') = 3.
Proof.
  destruct (sample_full_leaf 6 ltac:(done)) as (s & p & vs & Ht & Hmagic & Hcount & Hfile & Hp & Hmax).
  destruct (fourth_ok s p vs (lt_leaf _ _ _ _ _ _ Ht) Hp Hmax) as (Hnew & Hv & Hroom & Hfull).
  destruct (first_split s p vs [code "D"] (mkRID (code "D") 1) 0 0 Ht)
    as (s' & mid & P & W & d & Hi & _ & Hc & Hbal & Hd & Hr);
    [done|exact Hmagic|exact Hcount|exact Hfile|exact zero_members|exact Hnew|exact Hv|exact Hroom|exact Hfull|].
  exists s, s', P, W, d. split; [exact Hi|]. split; [by rewrite Hc, Hp|]. split; [exact Hbal|]. by split.
Defined.

Lemma two_leaves_spec_witness :
  ∃ s mid P W key0 key1, twig new_pages s mid P W 10 ∧ key0 ∈ keys (P false) ∧ key1 ∈ keys (P true)
    ∧ (∃ s', findLeaf 2 key0 s = Ok ((P false, [(3, -1)], 2), s'))
    ∧ (∃ pid s' P' W', insert 2 [code "E"] (mkRID (code "E") 1) s = Ok (pid, s')
      ∧ contents_of P' W' ≡ₚ letter "E" :: contents_of P W)
    ∧ (∃ s', insert 2 key1 (mkRID 1 1) s = Ok (0, s') ∧ twig new_pages s' mid P W 3)
    ∧ remove 2 [code "E"] s = Undef OutOfBounds.
Proof.
  destruct (sample_twig 10 ltac:(done)) as (s & mid & P & W & Ht & Hp & Hlen & Hmax & _).
  destruct (some_key _ _ _ _ _ false Ht (Hlen false)) as (key0 & Hk0 & Hs0 & _).
  destruct (some_key _ _ _ _ _ true Ht (Hlen true)) as (key1 & Hk1 & Hs1 & Hc1).
  pose proof (tw_leaf _ _ _ _ _ (proj1 Ht)) as Hok.
  assert (∀ b kv, kv ∈ pairs (P b) (W b) → kv ∈ letter "D" :: letters "BCA") as Hsub.
  { intros b kv Hkv. rewrite <- Hp, (contents_side P W b). apply elem_of_app. by left. }
  assert (∀ b, Forall (λ k, cmpKeys k [code "E"] ≠ 0) (keys (P b))) as Hnew.
  { intros b. apply (Forall_keys _ _ _ _ (Hok b) (Hsub b)). by repeat constructor. }
  pose proof (λ key, two_leaves_spec new_pages s mid P W key 0 3 Ht ltac:(done)) as Hspec.
  exists s, mid, P, W, key0, key1. split; [exact Ht|]. split; [exact Hk0|]. split; [exact Hk1|].
  split; [|split; [|split]].
  - specialize (Hspec key0). rewrite Hs0 in Hspec. destruct Hspec as ((s' & Hf & _) & _). by exists s'.
  - destruct (proj1 (proj2 (Hspec [code "E"])) (mkRID (code "E") 1)) as (s' & P' & W' & Hi & _ & Hc);
      [by repeat split|exact Hnew| | |by exists (new_pages (leaf_role (side mid [code "E"]))), s', P', W'].
    + apply (room_fits 100 3); [|rewrite zlen_cons, zlen_pairs by apply Hok; unfold zlen; by rewrite Hlen|done|done].
      constructor; [done|]. apply Forall_forall. intros kv Hkv. apply Hsub in Hkv. revert kv Hkv.
      apply Forall_forall. by repeat constructor.
    + unfold zlen. by rewrite Hlen, Hmax.
  - specialize (Hspec key1). rewrite Hs1 in Hspec. by apply (proj1 (proj2 (proj2 Hspec)) (mkRID 1 1) key1).
  - apply (Hspec [code "E"]). intros Hin. pose proof (Hnew (side mid [code "E"])) as Hn.
    rewrite Forall_forall in Hn. by apply Hn in Hin.
Defined.

Lemma merge_spec_witness :
  ∃ s mid P W, twig new_pages s mid P W 9 ∧ contents_of P W ≡ₚ letter "D" :: letters "BCA"
    ∧ (∃ key s' p vs, key ∈ keys (P false) ∧ remove 2 key s = Ok ((), s') ∧ leaf_tree new_pages merged_caches s' p vs 0)
    ∧ (∃ key s' r, key ∈ keys (P true) ∧ remove 2 key s = Ok ((), s') ∧ node_at s' 3 r ∧ rightmost_ptr r = 0).
Proof.
  destruct (sample_twig 9 ltac:(done)) as (s & mid & P & W & Ht & Hp & Hlen & Hmax & Hp0 & Hmagic & Hcount).
  assert (∀ key b, key ∈ keys (P b) → side mid key = b →
    keys (P (negb b)) ≠ [] ∧ zlen (keys (P true)) + zlen (keys (P false)) ≤ max_size (tree s) + 1
    ∧ room (contents_of P W) ≤ PAGE_SIZE) as Hside.
  { intros key b _ _. split; [intros He; pose proof (Hlen (negb b)) as Hl; by rewrite He in Hl|].
    split; [unfold zlen; by rewrite !Hlen, Hmax|]. rewrite (room_Permutation _ _ Hp). by_compute. }
  exists s, mid, P, W. split; [exact Ht|]. split; [exact Hp|]. split.
  - destruct (some_key _ _ _ _ _ false Ht (Hlen false)) as (key & Hk & Hs & _).
    destruct (Hside key false Hk Hs) as (Hne & Hsum & Hroom).
    pose proof (merge_spec new_pages s mid P W key 0 0 Ht ltac:(done)) as Hm. rewrite Hs in Hm.
    destruct (Hm Hk Hne Hsum Hroom eq_refl Hp0 Hmagic ltac:(by rewrite Hcount)) as (s' & p & vs & val & Hr & _ & Ht' & _).
    by exists key, s', p, vs.
  - destruct (some_key _ _ _ _ _ true Ht (Hlen true)) as (key & Hk & Hs & _).
    destruct (Hside key true Hk Hs) as (Hne & Hsum & Hroom).
    pose proof (merge_spec new_pages s mid P W key 0 0 Ht ltac:(done)) as Hm. rewrite Hs in Hm.
    destruct (Hm Hk Hne Hsum Hroom eq_refl Hp0 Hmagic ltac:(by rewrite Hcount))
      as (s' & p & vs & val & Hr & _ & _ & _ & _ & r & Hn & _ & Hrm). by exists key, s', r.
Defined.
