(* ===== verification/TreeRuns.v ===== *)
(** * TreeRuns: B+trees of several nodes, evaluated

    Letters are inserted one after the other into a new index of the given
    maximal number of keys in a node; the index is in memory what the model
    computes from the source, down to the bytes of the file. *)
From S2P Require Import Prelude Serialize IndexPage Memory Hash NumTable CircularList ClockReplacer Disk Bpm BTree Cache LeafTree.

#[local] Existing Instance zero_uninit.
#[local] Instance zero_members : UninitNode := Build_UninitNode 0 0 0.

(** The results of the insertions. *)
Fixpoint insert_results (kvs : list (BTreeKey * RID)) : io (list Z) :=
  match kvs with
  | [] => mret []
  | (key, val) :: kvs => r ← insert 10 key val; rs ← insert_results kvs; mret (r :: rs)
  end.
Fixpoint remove_all (ks : list BTreeKey) : io () :=
  match ks with [] => mret () | key :: ks => _ ← remove 10 key; remove_all ks end.

(** The results of inserting letters and removing others, and the state after it. *)
Definition letters_index (max_keys : Z) (inserted removed : string) : outcome (list Z * index) :=
  c ← create_btree_index (str "idx") max_keys ∅;
  let '(dm, d) := c in
  match dm with
  | None => Undef NullDeref
  | Some dm =>
      t ← tree_deserialize dm d;
      let '(t, d) := t in
      r ← insert_results (letters inserted) (mkIndex t (new_bpm 20 dm) new_heap d);
      let '(rs, s) := r in
      r ← remove_all (fst <$> letters removed) s;
      Ok (rs, r.2)
  end.

Definition letters_of (k : BTreeKey) : text := map (λ b, ascii_of_N (Z.to_N b)) k.
(** The pages of nodes in the file: their letters and, for internal nodes, their
    subtrees. *)
Fixpoint show_nodes (pids : list Z) (s : index) : outcome (list (Z * text * list Z)) :=
  match pids with
  | [] => Ok []
  | pid :: pids =>
      p ← deserialize (page_of (dm_of s) pid (dk s));
      rest ← show_nodes pids s;
      Ok ((pid, concat (map letters_of (keys p)), subtrees p) :: rest)
  end.
Definition letters_tree (max_keys : Z) (inserted removed : string) (pids : list Z)
    : outcome (list Z * Z * list (Z * text * list Z)) :=
  r ← letters_index max_keys inserted removed;
  ns ← show_nodes pids r.2;
  Ok (r.1, root_pid (tree r.2), ns).

(** In a tree whose root has three children the letter D, which is in the middle
    leaf, is not found again: it is inserted a second time, into the last leaf, and
    the call does not report a duplicate. *)
Theorem duplicate_inserted :
  letters_tree 4 "ABDECFGD" "" [1; 2; 3; 4]
  = Ok ([1; 1; 1; 1; 1; 2; 2; 4], 3,
        [(1, str "AB", []); (2, str "CD", []); (3, str "CE", [1; 2; 4]); (4, str "DEFG", [])]).
Proof. vm_compute. done. Qed.

(** With two keys to a node, the seventh of the letters in order splits the
    grandparent of the leaf instead of its parent: the root is left without a key,
    its parent being the metadata page, and the next insertion throws. *)
Theorem ascending_insertions :
  letters_tree 2 "ABCDEF" "" [3; 6; 7] = Ok ([1; 1; 1; 2; 4; 5], 7,
    [(3, str "B", [1; 2]); (6, str "DE", [4; 5; 8]); (7, str "C", [3; 6])])
  ∧ letters_tree 2 "ABCDEFG" "" [6; 7] = Ok ([1; 1; 1; 2; 4; 5; 8], 7,
    [(6, str "DEF", [4; 5; 8; 9]); (7, [], [3])])
  ∧ letters_index 2 "ABCDEFGH" "" = Throw OutOfRange.
Proof. vm_compute. done. Qed.
