(* ===== verification/PoolRoom.v ===== *)
(** * PoolRoom: pools with a frame for every page

    When an index has no more pages than its pool has frames, a fetch finds a
    frame as long as at most two pages were flushed from the pool and not
    fetched since: the replacer never has to look further than it does. *)
From stdpp Require Import finite.
From S2P Require Import Prelude Serialize IndexPage Memory Hash NumTable CircularList ClockReplacer Disk Bpm BTree Cache.

Lemma all_some {A} (l : list (option A)) : Forall (λ o, o ≠ None) l → ∃ l', l = Some <$> l'.
Proof.
  induction 1 as [|[x|] l Hx _ [l' ->]]; [by exists []|by exists (x :: l')|done].
Qed.

(** ** Frames *)

Section room.
Context `{Finite R}.

(** A cache with a frame for every page: no page is in two frames, and the frames
    without a page are those that pages were flushed from, and the last ones. *)
Record roomy (c : cache R) : Prop := {
  ro_length : (card R ≤ length (held c))%nat;
  ro_once : ∀ i j r, held c !! i = Some (Some r) → held c !! j = Some (Some r) → i = j;
  ro_nodup : NoDup (unused c);
  ro_fresh : ∃ k, (∀ i, i ∈ unused c → (i < k ∧ i < length (held c))%nat)
    ∧ ∀ i, (i < length (held c))%nat → held c !! i = Some None ↔ i ∈ unused c ∨ (k ≤ i)%nat;
}.

Lemma no_pages_roomy N : (card R ≤ N)%nat → roomy (no_pages N).
Proof.
  intros HN. split; cbn [no_pages held unused].
  - by rewrite length_replicate.
  - by intros i j r [? _]%lookup_replicate.
  - by constructor.
  - exists 0%nat. split; [by intros i ?%not_elem_of_nil|]. intros i Hi. rewrite length_replicate in Hi.
    rewrite lookup_replicate_2 by done. split; [right; lia|done].
Qed.

Definition in_pool (r : R) (c : cache R) : Prop := Some r ∈ held c.

Lemma frame_of_in r c : in_pool r c → is_Some (frame_of r c).
Proof.
  intros [i Hi]%list_elem_of_lookup. destruct (frame_of r c) as [j|] eqn:E; [done|].
  by destruct (frame_of_None r c i E).
Qed.

(** A page that is not in the pool finds a frame without a page. *)
Lemma roomy_spare r c : roomy c → ¬ in_pool r c → is_Some (spare c).
Proof.
  intros Hc Hr. unfold spare. destruct (list_find _ _) as [[i o]|] eqn:E; [by eexists|].
  apply list_find_None in E. destruct (all_some (held c) E) as [l Hl].
  assert (NoDup (r :: l)) as Hnd.
  { constructor.
    - intros Hin. apply Hr. unfold in_pool. rewrite Hl. by apply list_elem_of_fmap_2.
    - apply NoDup_alt. intros i j x Hi Hj.
      apply (ro_once c Hc i j x); rewrite Hl, list_lookup_fmap, ?Hi, ?Hj; done. }
  assert (r :: l ⊆+ enum R) as Hsub by (apply NoDup_submseteq; [done|intros x _; apply elem_of_enum]).
  apply submseteq_length in Hsub. pose proof (ro_length c Hc) as Hlen. rewrite Hl, length_fmap in Hlen.
  unfold card in Hlen. cbn [length] in Hsub. lia.
Qed.

(** It is a frame that the replacer finds, when there are at most two of them. *)
Lemma roomy_take c i :
  roomy c → spare c = Some i → (length (unused c) ≤ 2)%nat →
  ∃ l, take_frame i (unused c) = Some l ∧ length l = pred (length (unused c)).
Proof.
  intros Hc [Hi Hlt]%spare_Some Hu. destruct (ro_fresh c Hc) as (k & Hk & Hfree).
  assert (unused c = [] ∨ i ∈ unused c) as [Hnil|Hin].
  { destruct (unused c) as [|j l] eqn:E; [by left|]. right.
    apply (Hfree i) in Hi as [Hin|Hki]; [done| |by apply lookup_lt_Some in Hi].
    assert (j ∈ j :: l) as Hj by by left. destruct (Hk j Hj) as [Hjk Hjl].
    destruct (Hlt j ltac:(lia)) as [r Hr]. rewrite (proj2 (Hfree j Hjl)) in Hr; [done|by left]. }
  - exists []. by rewrite Hnil.
  - destruct (unused c) as [|j [|j' [|]]]; cbn [length take_frame] in *; [by apply not_elem_of_nil in Hin| | |lia].
    + apply list_elem_of_singleton in Hin as ->. rewrite decide_True by done. by exists [].
    + case_decide as Hij; [by exists [j']|]. apply elem_of_cons in Hin as [?|Hin%list_elem_of_singleton]; [done|].
      rewrite decide_True by done. by exists [j].
Qed.

Lemma take_frame_members i l l' :
  NoDup l → take_frame i l = Some l' → NoDup l' ∧ ∀ j, j ∈ l' ↔ j ∈ l ∧ j ≠ i.
Proof.
  intros Hnd [[-> ->]|(k & Hk & _ & ->)]%take_frame_spec.
  { split; [done|]. intros j. split; [by intros ?%not_elem_of_nil|by intros [? _]]. }
  apply delete_Permutation in Hk as Hp.
  rewrite Hp in Hnd. apply NoDup_cons in Hnd as [Hi Hnd]. split; [done|].
  assert (∀ j, j ∈ l ↔ j = i ∨ j ∈ delete k l) as Hin by (intros j; by rewrite <- elem_of_cons, <- Hp).
  intros j. rewrite Hin. split; [|tauto]. intros Hj. split; [by right|]. by intros ->.
Qed.

(** ** Fetching and flushing *)

Lemma roomy_fill r c i l :
  roomy c → frame_of r c = None → spare c = Some i → take_frame i (unused c) = Some l →
  roomy (mkCache (<[i := Some r]> (held c)) l).
Proof.
  intros [Hlen Honce Hnd (k & Hk & Hfree)] Hr [Hi Hlt]%spare_Some Ht.
  destruct (take_frame_members i _ l Hnd Ht) as [Hnd' Hl]. split; cbn [held unused].
  - by rewrite length_insert.
  - intros j j' r' [(<- & [= <-] & _)|[Hne Hj]]%list_lookup_insert_Some
      [(<- & Hr' & _)|[Hne' Hj']]%list_lookup_insert_Some; [done| | |by eapply Honce].
    + by destruct (frame_of_None r c j').
    + injection Hr' as ->. by destruct (frame_of_None r' c j).
  - done.
  - exists (Nat.max k (S i)). rewrite length_insert. split.
    + intros j [Hj _]%Hl. destruct (Hk j Hj). lia.
    + intros j Hj. rewrite Hl. destruct (decide (j = i)) as [->|Hne].
      { rewrite list_lookup_insert_eq by done. split; [done|]. intros [[_ ?]|?]; [done|lia]. }
      rewrite list_lookup_insert_ne, (Hfree j Hj) by done. split; [|intros [[? _]|?]; [by left|right; lia]].
      intros [Hin|Hkj]; [by left|right]. destruct (decide (i < j)%nat); [lia|].
      destruct (Hlt j ltac:(lia)) as [r' Hr']. rewrite (proj2 (Hfree j Hj)) in Hr' by by right. done.
Qed.

Lemma load_roomy r c :
  roomy c → (length (unused c) ≤ 2)%nat →
  ∃ i c', load r c = Some (i, c') ∧ roomy c' ∧ (∀ r', in_pool r' c' ↔ r' = r ∨ in_pool r' c)
    ∧ (length (unused c') ≤ length (unused c))%nat
    ∧ (¬ in_pool r c → length (unused c') = pred (length (unused c))).
Proof.
  intros Hc Hu. unfold load. destruct (frame_of r c) as [i|] eqn:E.
  { assert (in_pool r c) by (apply list_elem_of_lookup; exists i; by apply frame_of_Some).
    exists i, c. split_and!; try done. intros r'; split; [by right|by intros [->|]]. }
  assert (¬ in_pool r c) as Hr by (intros [? Hr]%frame_of_in; congruence).
  destruct (roomy_spare r c Hc Hr) as [i Hs]. rewrite Hs. cbn [mbind option_bind].
  destruct (roomy_take c i Hc Hs Hu) as (l & Ht & Hl). rewrite Ht. cbn [mbind option_bind].
  exists i, (mkCache (<[i := Some r]> (held c)) l). split; [done|].
  split; [by apply roomy_fill|split; [|cbn; split; [lia|done]]].
  apply spare_Some in Hs as [Hi _]. pose proof (lookup_lt_Some _ _ _ Hi) as Hilt.
  intros r'. unfold in_pool. cbn [held]. rewrite !list_elem_of_lookup. split.
  - intros (j & [(_ & [= <-] & _)|[_ Hj]]%list_lookup_insert_Some); [by left|right; by exists j].
  - intros [->|[j Hj]]; [exists i; by apply list_lookup_insert_eq|]. exists j.
    rewrite list_lookup_insert_ne; [done|]. intros <-. congruence.
Qed.

Lemma roomy_empty r c i :
  roomy c → held c !! i = Some (Some r) → roomy (mkCache (<[i := None]> (held c)) (i :: unused c)).
Proof.
  intros [Hlen Honce Hnd (k & Hk & Hfree)] Hi. pose proof (lookup_lt_Some _ _ _ Hi) as Hilt.
  assert ((i ∉ unused c) ∧ ¬ (k ≤ i)%nat) as [Hiu Hik].
  { split; intros Hno; rewrite (proj2 (Hfree i Hilt)) in Hi; [done|by left|done|by right]. }
  split; cbn [held unused].
  - by rewrite length_insert.
  - intros j j' r' [(_ & ? & _)|[_ Hj]]%list_lookup_insert_Some [(_ & ? & _)|[_ Hj']]%list_lookup_insert_Some;
      [done..|by eapply Honce].
  - by constructor.
  - exists k. rewrite length_insert. split.
    + intros j [->|Hj]%elem_of_cons; [lia|by apply Hk].
    + intros j Hj. rewrite elem_of_cons. destruct (decide (j = i)) as [->|Hne].
      { rewrite list_lookup_insert_eq by done. tauto. }
      rewrite list_lookup_insert_ne, (Hfree j Hj) by done. tauto.
Qed.

Lemma store_roomy r c :
  roomy c → (length (unused c) ≤ 2)%nat →
  ∃ c', store r c = Some c' ∧ roomy c' ∧ (∀ r', in_pool r' c' ↔ r' ≠ r ∧ in_pool r' c)
    ∧ (length (unused c') ≤ S (length (unused c)))%nat
    ∧ (¬ in_pool r c → length (unused c') = S (pred (length (unused c)))).
Proof.
  intros Hc Hu. destruct (load_roomy r c Hc Hu) as (i & c1 & Hl & Hc1 & Hin & Hlen & Hout).
  pose proof (load_held _ _ _ _ Hl) as Hi. unfold store. rewrite Hl. cbn [mbind option_bind fst snd].
  eexists. split; [done|]. split; [by eapply roomy_empty|]. cbn [unused length]. split; [|split; [lia|]].
  - intros r'. unfold in_pool in *. cbn [held]. rewrite list_elem_of_lookup. split.
    + intros (j & [(_ & ? & _)|[Hne Hj]]%list_lookup_insert_Some); [done|].
      assert (r' ≠ r) as Hr by (intros ->; by eapply Hne, (ro_once c1 Hc1)). split; [done|].
      apply list_elem_of_lookup_2, Hin in Hj. by destruct Hj.
    + intros [Hne Hr]. pose proof (proj2 (Hin r') (or_intror Hr)) as [j Hj]%list_elem_of_lookup.
      exists j. rewrite list_lookup_insert_ne; [done|]. intros <-. congruence.
  - intros Hr. by rewrite Hout.
Qed.
End room.

(** ** The pool of an index with a frame for every page *)

Section pooled.
Context `{U : Uninit} `{Finite R} (ρ : R → Z).

(** At most [u] pages were flushed and not fetched since, the pages of [out] are not in
    the pool, and a page may be pinned [n] more times. *)
Definition pooled (out : R → Prop) (u : nat) (s : index) (n : Z) : Prop :=
  ∃ c, cached ρ s c n ∧ roomy c ∧ (length (unused c) ≤ u)%nat ∧ ∀ r, out r → ¬ in_pool r c.

Lemma pooled_mono (out out' : R → Prop) (u u' : nat) s n n' :
  pooled out u s n → 0 ≤ n' ≤ n → (u ≤ u')%nat → (∀ r, out' r → out r) → pooled out' u' s n'.
Proof.
  intros (c & Hc & Hr & Hu & Hout) Hn Hu' Hsub. exists c. split; [by eapply cached_mono|].
  split; [done|]. split; [lia|]. intros r Hr'. by apply Hout, Hsub.
Qed.

Lemma pooled_pages out u s n : pooled out u s n → (∀ r, 0 ≤ ρ r) ∧ ∀ r r', ρ r = ρ r' → r = r'.
Proof.
  intros (c & Hc & _). split; [intros r; apply (ca_pids _ _ _ _ _ Hc)|].
  intros r r' Heq. apply (ca_apart _ _ _ _ _ Hc). by rewrite Heq.
Qed.

Lemma pooled_name out u s n : pooled out u s n → short_name (table_name (dm_of s)).
Proof. intros (c & Hc & _). apply (ca_name _ _ _ _ _ Hc). Qed.

(** Fetching a node: a page that was not in the pool takes the frame of one that was flushed. *)
Lemma pooled_fetch out u s n r p :
  pooled out u s (n + 1) → (u ≤ 2)%nat → 0 ≤ n → node_at s (ρ r) p →
  ∃ i s' page u', fetch (ρ r) s = Ok (i, s') ∧ frame i s' = Ok (page, s')
    ∧ page_id page = ρ r ∧ deserialize (data page) = Ok p ∧ same_pages s s'
    ∧ pooled (λ r', out r' ∧ r' ≠ r) u' s' n ∧ (u' ≤ u)%nat ∧ (out r → (u' ≤ pred u)%nat).
Proof.
  intros (c & Hc & Hr & Hu & Hout) Hu2 Hn Hp.
  destruct (load_roomy r c Hr ltac:(lia)) as (i & c' & Hl & Hr' & Hin & Hlen & Hlen').
  destruct (load_node ρ s c n r i c' p Hc Hn Hl Hp) as (s' & page & Hf & Hfr & Hid & Hd & Hc' & Hs).
  exists (Z.of_nat i), s', page, (length (unused c')). split_and!; [done..| |lia|].
  - exists c'. split_and!; [done..|]. intros r' [Ho Hne] [?|Hi]%Hin; [done|]. by apply (Hout r').
  - intros Ho. rewrite Hlen' by by apply Hout. lia.
Qed.

Lemma pooled_flush `{NodeValue V} out u s n r p (vs : list V) :
  pooled out u s (n + 1) → (u ≤ 2)%nat → 0 ≤ n → has_page (dm_of s) (ρ r) (dk s) → node_ok p vs →
  ∃ s' u', flush_page_of (ρ r) p s = Ok ((), s') ∧ node_at s' (ρ r) p ∧ other_pages (ρ r) s s'
    ∧ pooled (λ r', out r' ∨ r' = r) u' s' n ∧ (u' ≤ S u)%nat ∧ (out r → (u' ≤ S (pred u))%nat).
Proof.
  intros (c & Hc & Hr & Hu & Hout) Hu2 Hn Hp Hok.
  destruct (store_roomy r c Hr ltac:(lia)) as (c' & Hst & Hr' & Hin & Hlen & Hlen').
  destruct (store_node ρ s c n r c' p vs Hc Hn Hst Hp Hok) as (s' & Hf & Hc' & Hnode & Ho).
  exists s', (length (unused c')). split_and!; [done..| |lia|].
  - exists c'. split_and!; [done..|]. intros r' Hor [Hne Hi]%Hin. destruct Hor as [Ho'|?]; [|done]. by apply (Hout r').
  - intros Ho'. rewrite Hlen' by by apply Hout. lia.
Qed.

Lemma pooled_page out u s n r p :
  pooled out u s (n + 1) → (u ≤ 2)%nat → 0 ≤ n → node_at s (ρ r) p →
  ∃ s' u', getBtreePage (ρ r) s = Ok (p, s') ∧ same_pages s s'
    ∧ pooled (λ r', out r' ∧ r' ≠ r) u' s' n ∧ (u' ≤ u)%nat ∧ (out r → (u' ≤ pred u)%nat).
Proof.
  intros Hp Hu Hn Hr. destruct (pooled_fetch out u s n r p Hp Hu Hn Hr)
    as (i & s' & page & u' & Hf & Hfr & _ & Hd & Hs & Hp' & Hu').
  exists s', u'. split; [|done]. unfold getBtreePage. io_step Hf. io_step Hfr. by rewrite Hd.
Qed.

Lemma pooled_crumb out u s n r p i :
  pooled out u s (n + 1) → (u ≤ 2)%nat → 0 ≤ n → node_at s (ρ r) p →
  ∃ s' u', crumb_pid (ρ r, i) s = Ok (ρ r, s') ∧ same_pages s s'
    ∧ pooled (λ r', out r' ∧ r' ≠ r) u' s' n ∧ (u' ≤ u)%nat.
Proof.
  intros Hp Hu Hn Hr. destruct (pooled_fetch out u s n r p Hp Hu Hn Hr)
    as (j & s' & page & u' & Hf & Hfr & Hid & _ & Hs & Hp' & Hu' & _).
  exists s', u'. split; [|done]. unfold crumb_pid. cbn [fst]. io_step Hf. io_step Hfr. by rewrite Hid.
Qed.

Lemma pooled_set_tree out u s n t : pooled out u s n → pooled out u (mkIndex t (pool s) (hp s) (dk s)) n.
Proof. intros (c & Hc & Hrest). exists c. split; [by apply cached_set_tree|done]. Qed.

(** Writing a page leaves the nodes on the others. *)
Lemma pooled_other out u s n s' r r' p :
  pooled out u s n → other_pages (ρ r) s s' → r' ≠ r → node_at s (ρ r') p → node_at s' (ρ r') p.
Proof.
  intros [H0 Hinj]%pooled_pages Ho Hne. eapply node_at_other; [exact Ho|apply H0|]. intros Heq. by apply Hne, Hinj.
Qed.

(** A new page. *)
Lemma pooled_alloc out u s n count max_keys leaf r1 :
  pooled out u s n → index_file (dm_of s) count max_keys (dk s) → 0 ≤ count < 65535 → (∀ r, 0 < ρ r) →
  out r1 → ρ r1 = count + 1 →
  ∃ s', alloc_page leaf s = Ok (ρ r1, s') ∧ pooled out u s' n ∧ tree s' = tree s ∧ dm_of s' = dm_of s
    ∧ has_page (dm_of s') (ρ r1) (dk s') ∧ ∀ r p, r ≠ r1 → node_at s (ρ r) p → node_at s' (ρ r) p.
Proof.
  intros Hp Hf Hcount Hpos Hout Hr1. pose proof (pooled_pages _ _ _ _ Hp) as [_ Hinj].
  destruct Hp as (c & Hc & Hroom & Hu & Ho).
  destruct (alloc_ok ρ s c n count max_keys leaf Hc Hf Hcount) as (s' & Ha & Hc' & Ht & Hdm & _ & Hblank & Hk).
  { intros i r Hi. split; [done|]. rewrite <- Hr1. intros ->%Hinj. apply (Ho r1 Hout). by apply list_elem_of_lookup_2 in Hi. }
  rewrite <- Hr1 in *. exists s'. split; [done|]. split; [by exists c|]. split; [done|]. split; [done|]. split.
  - apply page_of_has; [specialize (Hpos r1); lia|]. rewrite Hblank. apply blank_page_length.
  - intros r p Hne. apply Hk; [done|]. intros Heq. by apply Hne, Hinj.
Qed.

(** The empty pool with which an index is opened. *)
Lemma new_bpm_pooled t size dm d n :
  short_name (table_name dm) → Z.of_nat (card R) ≤ size ≤ 65535 → 0 < size → (∀ r, 0 ≤ ρ r < 10000) →
  (∀ r r', ρ r mod size = ρ r' mod size → r = r') → 0 ≤ n < 2 ^ 31 - 2 →
  pooled (λ _, True) 0 (mkIndex t (new_bpm size dm) new_heap d) n.
Proof.
  intros. exists (no_pages (card R)). split; [by apply new_bpm_cached|]. split; [by apply no_pages_roomy|].
  split; [done|]. intros r _ Hr. unfold in_pool in Hr. cbn [no_pages held] in Hr. by apply elem_of_replicate in Hr as [? _].
Qed.
End pooled.
