(* ===== verification/PoolView.v ===== *)
(** * PoolView: the buffer pool and its file as a memory

    What a client reads from a frame is what was last written to the page, or
    what the file has, and what is flushed is in the file. The specification is
    a memory, a file and the pages that the frames hold; the operations of the
    pool refine it for as long as a fetch finds a frame. *)
From stdpp Require Import functions finite.
From S2P Require Import Prelude Serialize IndexPage Memory Hash NumTable CircularList ClockReplacer Disk Bpm BTree Cache LeafTree TwoLeaves SmallTree PoolRoom.

(** ** Clients of the pool *)

Inductive pool_op (R : Type) := Read (r : R) | Write (r : R) (bytes : list Z) | FlushPage (r : R).
Arguments Read {R} _.
Arguments Write {R} _ _.
Arguments FlushPage {R} _.

Section clients.
Context `{U : Uninit} {R : Type} (ρ : R → Z).

Definition write_frame (fid : Z) (bytes : list Z) : io () := λ s,
  bpm ← write_to_frame fid bytes (pool s); Ok ((), mkIndex (tree s) bpm (hp s) (dk s)).
Definition flush (pid : Z) : io bool := λ s,
  x ← flush_page pid (pool s) (hp s) (dk s);
  let '(ok, bpm, h, d) := x in Ok (ok, mkIndex (tree s) bpm h d).

(** A client fetches a page and reads its frame, fetches it and writes to its
    frame, or flushes it. The result is the bytes that were read, or whether
    the page was flushed. *)
Definition run_op (op : pool_op R) : io (list Z + bool) :=
  match op with
  | Read r => fid ← fetch (ρ r); p ← frame fid; mret (inl (data p))
  | Write r bytes => fid ← fetch (ρ r); _ ← write_frame fid bytes; mret (inl bytes)
  | FlushPage r => ok ← flush (ρ r); mret (inr ok)
  end.
Fixpoint run_ops (ops : list (pool_op R)) : io (list (list Z + bool)) :=
  match ops with
  | [] => mret []
  | op :: ops => x ← run_op op; xs ← run_ops ops; mret (x :: xs)
  end.
End clients.

(** ** The specification *)

Record memory (R : Type) := mkMemory { frames : cache R; mem : R → list Z; stored : R → list Z }.
Arguments mkMemory {R} _ _ _.
Arguments frames {R} _.
Arguments mem {R} _ _.
Arguments stored {R} _ _.

Section spec.
Context `{EqDecision R}.

(** There is no result when the pool finds no frame for a page. *)
Definition spec_op (op : pool_op R) (m : memory R) : option ((list Z + bool) * memory R) :=
  match op with
  | Read r => x ← load r (frames m); Some (inl (mem m r), mkMemory x.2 (mem m) (stored m))
  | Write r bytes =>
      x ← load r (frames m); Some (inl bytes, mkMemory x.2 (<[r := bytes]> (mem m)) (stored m))
  | FlushPage r =>
      match frame_of r (frames m) with
      | Some i =>
          Some (inr true, mkMemory (mkCache (<[i := None]> (held (frames m))) (i :: unused (frames m)))
                            (mem m) (<[r := mem m r]> (stored m)))
      | None => Some (inr false, m)
      end
  end.
Fixpoint spec_ops (ops : list (pool_op R)) (m : memory R) : option (list (list Z + bool) * memory R) :=
  match ops with
  | [] => Some ([], m)
  | op :: ops =>
      x ← spec_op op m;
      xs ← spec_ops ops x.2; Some (x.1 :: xs.1, xs.2)
  end.

Definition op_ok (op : pool_op R) : Prop := match op with Write _ bytes => zlen bytes = PAGE_SIZE | _ => True end.
End spec.

(** ** Refinement *)

Section refinement.
Context `{U : Uninit} `{EqDecision R} (ρ : R → Z).

(** The frames hold the memory, the file what is stored, and a page that is not in
    the pool is stored as it is. A page may be pinned [n] more times. *)
Record represents (s : index) (m : memory R) (n : Z) : Prop := {
  rp_view : viewed ρ s (mem m) (frames m) n;
  rp_has : ∀ r, has_page (dm_of s) (ρ r) (dk s);
  rp_stored : ∀ r, page_of (dm_of s) (ρ r) (dk s) = stored m r;
  rp_clean : ∀ r, frame_of r (frames m) = None → mem m r = stored m r;
}.

Lemma load_clean (r : R) c i c' : load r c = Some (i, c') → ∀ r', frame_of r' c' = None → frame_of r' c = None.
Proof.
  unfold load. destruct (frame_of r c) as [j|] eqn:E; [by intros [= _ <-]|].
  destruct (spare c) as [j|] eqn:Es; [|done]. cbn. destruct (take_frame j (unused c)) as [l|]; [|done].
  intros [= _ <-] r' Hr'. destruct (frame_of r' c) as [k|] eqn:E'; [|done].
  apply frame_of_Some in E'. apply spare_Some in Es as [Hj _].
  destruct (frame_of_None r' _ k Hr'). cbn [held]. rewrite list_lookup_insert_ne; [done|]. intros ->. congruence.
Qed.

Lemma represents_load s m n r i c' :
  represents s m (n + 1) → 0 ≤ n → load r (frames m) = Some (i, c') →
  ∃ s', fetch (ρ r) s = Ok (Z.of_nat i, s') ∧ represents s' (mkMemory c' (mem m) (stored m)) n ∧ dm_of s' = dm_of s
    ∧ held c' !! i = Some (Some r).
Proof.
  intros [Hv Hhas Hst Hcl] Hn Hl.
  destruct (view_load ρ s _ _ n r i c' Hv Hn Hl) as (s' & Hf & Hv' & (_ & Hdm & Hd)).
  { intros Hr. split; [done|]. by rewrite Hst, Hcl. }
  exists s'. split; [done|]. split; [|split; [done|by eapply load_held]]. split; cbn [frames mem stored]; [done|..]; intros r'.
  - rewrite Hdm. by apply (has_page_same _ _ (dk s)).
  - by rewrite Hdm, (page_of_same _ _ (dk s)).
  - intros Hr'. eapply Hcl, load_clean; done.
Qed.

(** A page that is not in the pool is not flushed. *)
Lemma flush_absent s A c n r :
  viewed ρ s A c n → frame_of r c = None → flush_page (ρ r) (pool s) (hp s) (dk s) = Ok (false, pool s, hp s, dk s).
Proof.
  intros Hc Hr. pose proof (ca_pids _ _ _ _ _ Hc r) as Hpid. destruct (ca_pool _ _ _ _ _ Hc) as (m & fs & Hok & _ & Hm).
  unfold flush_page. rewrite pid_str_long by lia. ok_step. rewrite (pool_find _ _ _ _ (ρ r) Hok) by lia.
  destruct (m !! ρ r) as [el|] eqn:E; [|done]. destruct (proj1 (Hm (ρ r))) as (i & r' & Hi & Heq); [by rewrite E|].
  assert (r' = r) as -> by (apply (ca_apart _ _ _ _ _ Hc); by rewrite Heq). by destruct (frame_of_None r c i Hr).
Qed.

Lemma represents_op s m n op x m' :
  represents s m (n + 1) → 0 ≤ n → op_ok op → spec_op op m = Some (x, m') →
  ∃ s', run_op ρ op s = Ok (x, s') ∧ represents s' m' n ∧ dm_of s' = dm_of s.
Proof.
  intros Hrep Hn Hop Hspec. destruct op as [r|r bytes|r]; cbn [spec_op] in Hspec.
  - destruct (load r (frames m)) as [[i c']|] eqn:E; [|done]. injection Hspec as <- <-.
    destruct (represents_load s m n r i c' Hrep Hn E) as (s' & Hf & Hrep' & Hdm & Hi). exists s'. split; [|done].
    destruct (view_frame ρ s' _ c' n i r (rp_view _ _ _ Hrep') Hi) as (p & Hfr & Hdata & _). unfold run_op. io_step Hf. io_step Hfr.
    by rewrite Hdata.
  - destruct (load r (frames m)) as [[i c']|] eqn:E; [|done]. injection Hspec as <- <-.
    destruct (represents_load s m n r i c' Hrep Hn E) as (s' & Hf & [Hv Hhas Hst Hcl] & Hdm & Hi).
    destruct (view_write ρ s' _ c' n i r bytes Hv Hi Hop) as (bpm & Hw & Hv' & Hdm').
    eexists. split.
    { unfold run_op. io_step Hf. erewrite io_bind_ok by (unfold write_frame; by rewrite Hw). done. }
    split; [|cbn; congruence].
    split; cbn [frames mem stored pool dk] in *; rewrite ?Hdm'; [exact Hv'|done|done|].
    intros r' Hr'. rewrite fn_lookup_insert_ne; [by apply Hcl|]. intros <-. by destruct (frame_of_None r c' i Hr').
  - destruct (frame_of r (frames m)) as [i|] eqn:E; injection Hspec as <- <-.
    + destruct Hrep as [Hv Hhas Hst Hcl]. pose proof (frame_of_Some _ _ _ E) as Hi.
      destruct (view_flush ρ s _ _ _ i r Hv Hi) as (bpm & h & d & Hfl & Hv' & Hpg & Hhas' & (_ & Hdm & Ho & Hk)).
      cbn [pool dk] in *. eexists. split.
      { unfold run_op. erewrite io_bind_ok by (unfold flush; by rewrite Hfl). done. }
      split; [|exact Hdm].
      split; cbn [frames mem stored pool dk]; rewrite ?Hdm.
      * apply (view_mono ρ _ _ _ (n + 1)); [exact Hv'|lia].
      * intros r'. by apply Hk.
      * intros r'. destruct (decide (r' = r)) as [->|Hne]; [by rewrite fn_lookup_insert|].
        rewrite fn_lookup_insert_ne by done. rewrite Ho; [apply Hst|apply (ca_pids _ _ _ _ _ Hv)| |apply Hhas].
        intros Heq. apply Hne, (ca_apart _ _ _ _ _ Hv). by rewrite Heq.
      * intros r' Hr'. destruct (decide (r' = r)) as [->|Hne]; [by rewrite fn_lookup_insert|].
        rewrite fn_lookup_insert_ne by done. apply Hcl. destruct (frame_of r' (frames m)) as [k|] eqn:E'; [|done].
        apply frame_of_Some in E'. destruct (frame_of_None r' _ k Hr'). cbn [held].
        rewrite list_lookup_insert_ne; [done|]. intros ->. congruence.
    + exists s. split; [|split; [|done]].
      * unfold run_op. erewrite io_bind_ok by (unfold flush; by rewrite (flush_absent s _ _ _ r (rp_view _ _ _ Hrep) E)).
        by destruct s.
      * destruct Hrep. split; try done. by apply (view_mono ρ _ _ _ (n + 1)); [|lia].
Qed.

Lemma represents_ops ops s m n xs m' :
  represents s m (n + zlen ops) → 0 ≤ n → Forall op_ok ops → spec_ops ops m = Some (xs, m') →
  ∃ s', run_ops ρ ops s = Ok (xs, s') ∧ represents s' m' n ∧ dm_of s' = dm_of s.
Proof.
  revert s m xs. induction ops as [|op ops IH]; intros s m xs Hrep Hn Hops Hspec.
  { injection Hspec as <- <-. exists s. change (zlen []) with 0 in Hrep. by rewrite Z.add_0_r in Hrep. }
  inversion Hops as [|? ? Hop Hops']; subst. cbn [spec_ops] in Hspec. rewrite zlen_cons in Hrep. pose proof (zlen_nonneg ops).
  destruct (spec_op op m) as [[x m1]|] eqn:E; [|done]. cbn in Hspec.
  destruct (spec_ops ops m1) as [[ys m2]|] eqn:E2; [|done]. injection Hspec as <- <-.
  replace (n + (1 + zlen ops)) with (n + zlen ops + 1) in Hrep by lia.
  destruct (represents_op s m (n + zlen ops) op x m1 Hrep ltac:(lia) Hop E) as (s1 & Hr1 & Hrep1 & Hdm1).
  destruct (IH s1 m1 ys Hrep1 Hn Hops' E2) as (s2 & Hr2 & Hrep2 & Hdm2).
  exists s2. split; [cbn [run_ops]; io_step Hr1; by io_step Hr2|]. split; [done|congruence].
Qed.
End refinement.

(** ** Frames for all pages *)

Definition is_flush {R} (op : pool_op R) : bool := match op with FlushPage _ => true | _ => false end.
Definition flushes {R} (ops : list (pool_op R)) : nat := length (filter (λ op, is_flush op) ops).

Section total.
Context `{Finite R}.

Lemma spec_total ops (m : memory R) :
  roomy (frames m) → (length (unused (frames m)) + flushes ops ≤ 2)%nat → is_Some (spec_ops ops m).
Proof.
  revert m. induction ops as [|op ops IH]; intros m Hr Hu; [by eexists|]. cbn [spec_ops].
  assert (∃ x m1, spec_op op m = Some (x, m1) ∧ roomy (frames m1)
    ∧ (length (unused (frames m1)) + flushes ops ≤ 2)%nat) as (x & m1 & Hop & Hr1 & Hu1).
  { destruct op as [r|r bytes|r]; unfold flushes in Hu; cbn [spec_op].
    1, 2: rewrite filter_cons_False in Hu by (cbn; tauto);
      destruct (load_roomy r (frames m) Hr) as (i & c' & Hl & Hr' & _ & Hlen & _); [unfold flushes in *; lia|];
      rewrite Hl; eexists _, _; split; [done|]; cbn; split; [done|unfold flushes; lia].
    rewrite filter_cons_True in Hu by done. cbn [length] in Hu.
    destruct (frame_of r (frames m)) as [i|] eqn:E.
    - eexists _, _. split; [done|]. cbn [frames unused length]. split; [|unfold flushes; lia].
      apply (roomy_empty r); [done|by apply frame_of_Some].
    - eexists _, _. split; [done|]. split; [done|unfold flushes; lia]. }
  rewrite Hop. cbn. destruct (IH m1 Hr1 Hu1) as [y ->]. by eexists.
Qed.
End total.

(** ** Properties *)

(** C23: the buffer pool and its file refine a memory. Take pages of the file of
    which no two share a bucket of the page table, and a pool that is empty at the
    start. Over any sequence of fewer than 2^31 - 2 reads, writes and flushes of
    these pages for which the specification finds a frame for each page, the clients
    read from the frames what the memory of the specification has at the page, that
    is what was written to it last, flushed or not, or else what the file had;
    flushing reports whether the page was in the pool; and the file has, for every
    page, what was flushed last. The specification finds the frames when there is one
    for each page and at most two pages are flushed. *)
Theorem pool_refines_memory `{U : Uninit} `{Finite R} (ρ : R → Z) t size dm d N ops :
  short_name (table_name dm) → Z.of_nat N ≤ size ≤ 65535 → 0 < size → (∀ r, 0 ≤ ρ r < 10000) →
  (∀ r r', ρ r mod size = ρ r' mod size → r = r') → (∀ r, has_page dm (ρ r) d) →
  Forall op_ok ops → zlen ops < 2 ^ 31 - 2 →
  let file r := page_of dm (ρ r) d in
  let m := mkMemory (no_pages N) file file in
  (∀ xs m', spec_ops ops m = Some (xs, m') →
     ∃ s', run_ops ρ ops (mkIndex t (new_bpm size dm) new_heap d) = Ok (xs, s')
       ∧ ∀ r, page_of dm (ρ r) (dk s') = stored m' r)
  ∧ ((card R ≤ N)%nat → (flushes ops ≤ 2)%nat → is_Some (spec_ops ops m)).
Proof.
  intros Hname Hsize Hpos Hpids Hapart Hhas Hops Hlen file m. pose proof (zlen_nonneg ops). split.
  - intros xs m' Hspec. assert (represents ρ (mkIndex t (new_bpm size dm) new_heap d) m (0 + zlen ops)) as Hrep.
    { split; cbn [pool dk frames mem stored new_bpm disk_manager m]; try done.
      eapply view_ext; [apply (new_bpm_cached ρ t size dm d N); try done; lia|done..]. }
    destruct (represents_ops ρ ops _ m 0 xs m' Hrep ltac:(lia) Hops Hspec) as (s' & Hrun & [_ _ Hst _] & Hdm).
    exists s'. split; [done|]. intros r. rewrite <- Hst, Hdm. done.
  - intros HN Hfl. apply spec_total; cbn [frames m no_pages unused length]; [by apply no_pages_roomy|lia].
Qed.

(** ** Witness *)

#[local] Existing Instance zero_uninit.

(** Three pages in two buckets of ten frames; page 1 is written, flushed and read
    again, page 2 is written but not flushed. *)
Definition sample_number (b : bool) : Z := if b then 1 else 2.
Definition filled (b : Z) : list Z := replicate (Z.to_nat PAGE_SIZE) b.
Definition sample_ops : list (pool_op bool) :=
  [Read true; Write true (filled 7); Write false (filled 8); FlushPage true; Read true; Read false; FlushPage true; FlushPage true].
Definition three_pages : disk := {[ path_of (str "idx") := zeros 4096 ++ filled 5 ++ filled 6 ]}.

Lemma sample_spec (file : bool → list Z) :
  ∃ m', spec_ops sample_ops (mkMemory (no_pages 2) file file)
    = Some ([inl (file true); inl (filled 7); inl (filled 8); inr true; inl (filled 7); inl (filled 8); inr true; inr false], m')
    ∧ stored m' true = filled 7 ∧ stored m' false = file false.
Proof.
  unfold sample_ops. generalize (filled 7) as x. generalize (filled 8) as y. intros y x.
  eexists. split; [vm_compute; reflexivity|done].
Qed.

Lemma pool_refines_memory_witness :
  ∃ s', run_ops sample_number sample_ops
          (mkIndex (mkBTree BTREE_INDEX 4 1 2) (new_bpm 10 sample_dm) new_heap three_pages)
        = Ok ([inl (filled 5); inl (filled 7); inl (filled 8); inr true; inl (filled 7); inl (filled 8); inr true; inr false], s')
    ∧ page_of sample_dm 1 (dk s') = filled 7 ∧ page_of sample_dm 2 (dk s') = filled 6.
Proof.
  destruct (pool_refines_memory sample_number (mkBTree BTREE_INDEX 4 1 2) 10 sample_dm three_pages 2 sample_ops)
    as [Href _]; [done|by_compute|done|by intros []|by intros [] []|by intros []; by_compute|repeat constructor; by_compute|done|].
  destruct (sample_spec (λ r, page_of sample_dm (sample_number r) three_pages)) as (m' & Hspec & H1 & H2).
  destruct (Href _ _ Hspec) as (s' & Hrun & Hst). exists s'.
  assert (page_of sample_dm 1 three_pages = filled 5) as Hp1 by by vm_compute.
  assert (page_of sample_dm 2 three_pages = filled 6) as Hp2 by by vm_compute.
  pose proof (Hst true) as Ht. pose proof (Hst false) as Hf. cbn [sample_number] in *.
  rewrite Ht, Hf, H1, H2, Hp2. rewrite Hp1 in Hrun. split; [exact Hrun|by split].
Defined.
