(* ===== verification/DeepTree.v ===== *)
(** * DeepTree: search and insertion in B+trees of any height

    A tree on disk is described by the nodes that its pages hold. The search for
    a leaf is a function of the description; it sees the pairs that are not behind
    a child in the middle of a node, and insertion adds to them. *)
From stdpp Require Import finite.
From S2P Require Import Prelude Serialize IndexPage Memory Hash NumTable CircularList ClockReplacer Disk Bpm BTree Cache LeafTree TwoLeaves SmallTree PoolRoom.

(** ** Trees *)

(** A node with its page, its contents and its subtrees from left to right. *)
#[warnings="-register-all"]
Inductive node_tree (R : Type) :=
| Leaf (r : R) (p : BTreePage) (vs : list RID)
| Node (r : R) (p : BTreePage) (ts : list (node_tree R)).
Arguments Leaf {R} _ _ _.
Arguments Node {R} _ _ _.

Section trees.
Context {R : Type}.
Implicit Types t : node_tree R.

Definition root_page t : BTreePage := match t with Leaf _ p _ | Node _ p _ => p end.
Definition root_of t : R := match t with Leaf r _ _ | Node r _ _ => r end.

Fixpoint height t : nat :=
  match t with Leaf _ _ _ => 0 | Node _ _ ts => S (max_list (height <$> ts)) end.

(** The pages with their nodes, the pages of inner nodes, and those of leaves. *)
Fixpoint nodes t : list (R * BTreePage) :=
  match t with Leaf r p _ => [(r, p)] | Node r p ts => (r, p) :: (ts ≫= nodes) end.
Fixpoint inner t : list R :=
  match t with Leaf _ _ _ => [] | Node r _ ts => r :: (ts ≫= inner) end.
Fixpoint leaves t : list (R * (BTreePage * list RID)) :=
  match t with Leaf r p vs => [(r, (p, vs))] | Node _ _ ts => ts ≫= leaves end.

(** All pairs of the tree, and those that are in no child between the first and
    the last one. *)
Fixpoint contents_in t : list (BTreeKey * RID) :=
  match t with Leaf _ p vs => pairs p vs | Node _ _ ts => ts ≫= contents_in end.
Definition ends_of {A} (l : list (list A)) : list A := default [] (hd_error l) ++ default [] (last l).
Fixpoint visible t : list (BTreeKey * RID) :=
  match t with Leaf _ p vs => pairs p vs | Node _ _ ts => ends_of (visible <$> ts) end.

(** Whether a key is below the first key of a node. *)
Definition below (p : BTreePage) (key : BTreeKey) : bool :=
  match keys p with [] => false | k :: _ => side k key end.
Definition end_of {A} (first : bool) (l : list A) : option A := if first then hd_error l else last l.

(** The way to the leaf for a key, and the leaf. *)
Fixpoint route (ρ : R → Z) (key : BTreeKey) t : option (list (Z * Z) * (R * (BTreePage * list RID))) :=
  match t with
  | Leaf r p vs => Some ([], (r, (p, vs)))
  | Node r p ts =>
      x ← (o ← end_of (below p key) (route ρ key <$> ts); o);
      Some (x.1 ++ [(ρ r, if below p key then 0 else -1)], x.2)
  end.

(** The tree with another leaf for the key. *)
Definition set_end {A} (first : bool) (l l' : list A) : list A :=
  if first then take 1 l' ++ drop 1 l else take (pred (length l)) l ++ drop (pred (length l)) l'.
Fixpoint put (key : BTreeKey) (p' : BTreePage) (vs' : list RID) t : node_tree R :=
  match t with
  | Leaf r _ _ => Leaf r p' vs'
  | Node r p ts => Node r p (set_end (below p key) ts (put key p' vs' <$> ts))
  end.

(** Nodes as the tree writes them, an inner node with a key at least. *)
Inductive node_forms (ρ : R → Z) : node_tree R → Prop :=
| LeafForm r p vs : leaf_ok p vs → node_forms ρ (Leaf r p vs)
| NodeForm r p ts (vs : list Z) :
    node_ok p vs → keys p ≠ [] → vs ++ [rightmost_ptr p] = ρ ∘ root_of <$> ts →
    (∀ t, t ∈ ts → node_forms ρ t) → node_forms ρ (Node r p ts).

(** The keys of the first subtree are below the first key of the node, those of
    the last one are not. *)
Inductive ordered : node_tree R → Prop :=
| LeafOrdered r p vs : ordered (Leaf r p vs)
| NodeOrdered r p ts :
    (∀ first t, end_of first ts = Some t → ordered t) →
    (∀ first t, end_of first ts = Some t → Forall (λ kv, below p kv.1 = first) (visible t)) →
    ordered (Node r p ts).

(** *** Ends of lists *)

Lemma end_of_fmap {A B} (f : A → B) first l : end_of first (f <$> l) = f <$> end_of first l.
Proof. destruct first; cbn; [by destruct l|by rewrite fmap_last]. Qed.

Lemma end_of_in {A} first (l : list A) x : end_of first l = Some x → x ∈ l.
Proof. destruct first; [apply head_Some_elem_of|apply last_Some_elem_of]. Qed.

Lemma end_of_Some {A} first (l : list A) : l ≠ [] → is_Some (end_of first l).
Proof. destruct first; cbn; [by destruct l|]. intros Hl. by apply last_is_Some. Qed.

(** A list split at an end. *)
Definition at_end {A} (first : bool) (l1 l2 : list A) : Prop := if first then l1 = [] else l2 = [].

Lemma end_of_split {A} first (l : list A) x :
  end_of first l = Some x → ∃ l1 l2, l = l1 ++ x :: l2 ∧ at_end first l1 l2.
Proof.
  destruct first; cbn.
  - destruct l as [|y l]; [done|]. intros [= ->]. by exists [], l.
  - intros [l' ->]%last_Some. by exists l', [].
Qed.

Lemma end_of_at {A} first (l1 l2 : list A) x : at_end first l1 l2 → end_of first (l1 ++ x :: l2) = Some x.
Proof. destruct first; cbn; intros ->; [done|]. apply last_snoc. Qed.

(** The other end of a list with two elements at least. *)
Lemma end_of_other {A} first (l1 l2 : list A) x y :
  at_end first l1 l2 → l1 ++ l2 ≠ [] → end_of (negb first) (l1 ++ x :: l2) = end_of (negb first) (l1 ++ y :: l2).
Proof.
  destruct first; cbn; intros ->; [by destruct l2|]. rewrite app_nil_r. by destruct l1.
Qed.

Lemma set_end_at {A} first (l1 l2 : list A) x (f : A → A) :
  at_end first l1 l2 → set_end first (l1 ++ x :: l2) (f <$> l1 ++ x :: l2) = l1 ++ f x :: l2.
Proof.
  unfold set_end. destruct first; intros ->; [done|].
  rewrite fmap_app, length_app, Nat.add_comm. cbn [length pred Nat.add].
  by rewrite take_app_length, (drop_app_length' (f <$> l1)) by (by rewrite length_fmap).
Qed.

Lemma height_end r p ts first t : end_of first ts = Some t → (height t < height (Node r p ts))%nat.
Proof.
  intros Ht%end_of_in. cbn [height]. apply Nat.lt_succ_r, max_list_elem_of_le, list_elem_of_fmap_2, Ht.
Qed.

(** *** Induction *)

Lemma tree_ind (P : node_tree R → Prop) :
  (∀ r p vs, P (Leaf r p vs)) → (∀ r p ts, (∀ t, t ∈ ts → P t) → P (Node r p ts)) → ∀ t, P t.
Proof.
  intros Hleaf Hnode t. induction t as [[r p vs|r p ts] IH] using (induction_ltof1 _ height); [apply Hleaf|].
  apply Hnode. intros t Ht. apply IH. unfold ltof. cbn [height].
  apply Nat.lt_succ_r, max_list_elem_of_le, list_elem_of_fmap_2, Ht.
Qed.

(** *** The leaf for a key *)

(** A search ends in a leaf of the tree. *)
Lemma node_forms_end ρ r p ts first :
  node_forms ρ (Node r p ts) → ∃ t, end_of first ts = Some t ∧ node_forms ρ t.
Proof.
  intros Hf. inversion Hf as [|? ? ? vs Hok Hne Hvs Hts]; subst.
  destruct (end_of_Some first ts) as [t Ht]; [by intros ->; destruct vs|].
  exists t. split; [done|]. by apply Hts, (end_of_in first).
Qed.

Lemma route_node ρ key r p ts t :
  end_of (below p key) ts = Some t →
  route ρ key (Node r p ts)
  = x ← route ρ key t; Some (x.1 ++ [(ρ r, if below p key then 0 else -1)], x.2).
Proof. intros Ht. cbn [route]. by rewrite end_of_fmap, Ht. Qed.

Lemma route_leaf ρ key t :
  node_forms ρ t → ∃ crumbs r p vs, route ρ key t = Some (crumbs, (r, (p, vs)))
    ∧ leaf_ok p vs ∧ (r, (p, vs)) ∈ leaves t.
Proof.
  induction t as [t IH] using (induction_ltof1 _ height). intros Hf. destruct t as [r p vs|r p ts].
  - inversion Hf; subst. exists [], r, p, vs. split_and!; [done..|by left].
  - destruct (node_forms_end ρ r p ts (below p key) Hf) as (t & Ht & Hft).
    destruct (IH t (height_end r p ts _ t Ht) Hft) as (crumbs & r' & p' & vs & Hr & Hok & Hin).
    rewrite (route_node _ _ _ _ _ t Ht), Hr. cbn. eexists _, r', p', vs. split; [done|]. split; [done|].
    cbn [leaves]. apply list_elem_of_bind. exists t. split; [done|]. by eapply end_of_in.
Qed.

(** Induction along the way to a leaf. *)
Lemma route_ind ρ key (P : node_tree R → Prop) :
  (∀ r p vs, P (Leaf r p vs)) →
  (∀ r p l1 t l2, node_forms ρ (Node r p (l1 ++ t :: l2)) → at_end (below p key) l1 l2 → l1 ++ l2 ≠ [] →
     node_forms ρ t → P t → P (Node r p (l1 ++ t :: l2))) →
  ∀ t, node_forms ρ t → P t.
Proof.
  intros Hleaf Hnode t. induction t as [[r p vs|r p ts] IH] using (induction_ltof1 _ height); intros Hf; [apply Hleaf|].
  destruct (node_forms_end ρ r p ts (below p key) Hf) as (t & Ht & Hft).
  pose proof (IH t (height_end r p ts _ t Ht) Hft) as HP.
  destruct (end_of_split _ _ _ Ht) as (l1 & l2 & -> & Hend). apply Hnode; try done.
  inversion Hf as [|? ? ? vs Hok Hne Hvs _]; subst. intros Hnil. apply (f_equal length) in Hnil, Hvs.
  rewrite length_fmap, !length_app in *. cbn [length] in *. pose proof (nd_length _ _ Hok).
  destruct (keys p); [done|]. cbn [length] in *. lia.
Qed.

Lemma route_at ρ key r p l1 t l2 :
  at_end (below p key) l1 l2 →
  route ρ key (Node r p (l1 ++ t :: l2))
  = x ← route ρ key t; Some (x.1 ++ [(ρ r, if below p key then 0 else -1)], x.2).
Proof. intros He. apply route_node. by apply end_of_at. Qed.

Lemma put_at key p' vs' r p l1 t l2 :
  at_end (below p key) l1 l2 → put key p' vs' (Node r p (l1 ++ t :: l2)) = Node r p (l1 ++ put key p' vs' t :: l2).
Proof. intros He. cbn [put]. by rewrite set_end_at. Qed.

(** The leaf has the pairs with the key that the search can see. *)
Lemma visible_node r p ts : visible (Node r p ts) = default [] (visible <$> end_of true ts) ++ default [] (visible <$> end_of false ts).
Proof. cbn [visible]. unfold ends_of. by rewrite <- !end_of_fmap. Qed.

Lemma route_visible ρ key t crumbs r p vs :
  ordered t → node_forms ρ t → route ρ key t = Some (crumbs, (r, (p, vs))) →
  ∀ val, (key, val) ∈ visible t ↔ (key, val) ∈ pairs p vs.
Proof.
  revert crumbs. induction t as [t IH] using (induction_ltof1 _ height).
  intros crumbs Ho Hf Hr val. destruct t as [r0 p0 vs0|r0 p0 ts]; [by injection Hr as <- <- <- <-|].
  destruct (node_forms_end ρ r0 p0 ts (below p0 key) Hf) as (t & Ht & Hft).
  inversion Ho as [|? ? ? Hord Hside]; subst.
  rewrite (route_node _ _ _ _ _ t Ht) in Hr. destruct (route ρ key t) as [[cr x]|] eqn:E; [|done].
  injection Hr as <- ->. rewrite <- (IH t (height_end r0 p0 ts _ t Ht) cr (Hord _ _ Ht) Hft E val).
  destruct (node_forms_end ρ r0 p0 ts (negb (below p0 key)) Hf) as (t' & Ht' & _).
  assert ((key, val) ∉ visible t') as Hno.
  { intros Hin. pose proof (Hside _ _ Ht') as Hs. rewrite Forall_forall in Hs. apply Hs in Hin. cbn in Hin.
    by destruct (below p0 key). }
  rewrite visible_node. destruct (below p0 key); cbn [negb] in *; rewrite Ht, Ht'; cbn; rewrite elem_of_app; tauto.
Qed.
(** The pages of a tree are those of its inner nodes and of its leaves. *)
Lemma nodes_pages t : (nodes t).*1 ≡ₚ inner t ++ (leaves t).*1.
Proof.
  induction t as [r p vs|r p ts IH] using tree_ind; [done|]. cbn [nodes inner leaves]. rewrite fmap_cons. constructor.
  induction ts as [|t ts IHts]; [done|]. rewrite !bind_cons, !fmap_app, (IH t), IHts by (intros; apply IH || left; by right).
  solve_Permutation.
Qed.

Lemma inner_not_leaf t r : NoDup (nodes t).*1 → r ∈ inner t → r ∉ (leaves t).*1.
Proof. rewrite nodes_pages. intros (_ & Hno & _)%NoDup_app. apply Hno. Qed.

Lemma leaf_page t r p vs : (r, (p, vs)) ∈ leaves t → r ∈ (leaves t).*1 ∧ r ∈ (nodes t).*1.
Proof.
  intros Hin. assert (r ∈ (leaves t).*1) by (by apply (list_elem_of_fmap_2 fst) in Hin).
  split; [done|]. rewrite nodes_pages. apply elem_of_app. by right.
Qed.

Lemma leaf_node t r p vs : (r, (p, vs)) ∈ leaves t → (r, p) ∈ nodes t.
Proof.
  induction t as [r0 p0 vs0|r0 p0 ts IH] using tree_ind; cbn [nodes leaves].
  - intros Hin%list_elem_of_singleton. injection Hin as -> -> ->. by left.
  - intros (t & Hin & Ht)%list_elem_of_bind. right. apply list_elem_of_bind. exists t. split; [by apply IH|done].
Qed.

(** Nodes with one key hide nothing. *)
Lemma visible_all ρ t :
  node_forms ρ t → (∀ r p, (r, p) ∈ nodes t → is_leaf p = false → length (keys p) = 1%nat) →
  visible t = contents_in t.
Proof.
  induction t as [r p vs|r p ts IH] using tree_ind; [done|]. intros Hf Hone.
  inversion Hf as [|? ? ? vs Hok Hne Hvs Hts]; subst. pose proof (nd_length _ _ Hok) as Hlen.
  rewrite (Hone r p) in Hlen; [|by left|exact (wf_leaf _ _ (nd_wf _ _ Hok))].
  apply (f_equal length) in Hvs. rewrite length_fmap, length_app, Hlen in Hvs.
  destruct ts as [|t [|t' [|]]]; [done..| |done].
  assert (∀ t0, t0 ∈ [t; t'] → visible t0 = contents_in t0) as IH'.
  { intros t0 Ht0. apply IH; [done|by apply Hts|]. intros r0 p0 Hin. apply (Hone r0). right.
    apply list_elem_of_bind. by exists t0. }
  cbn [visible contents_in fmap list_fmap ends_of]. unfold ends_of. cbn. rewrite app_nil_r.
  rewrite !IH'; [done|by right; left|by left].
Qed.

(** *** Another leaf *)

Section puts.
Context (ρ : R → Z) (key : BTreeKey) (p' : BTreePage) (vs' : list RID).

Lemma put_root t : root_of (put key p' vs' t) = root_of t.
Proof. by destruct t. Qed.

Lemma put_height t : node_forms ρ t → height (put key p' vs' t) = height t.
Proof.
  revert t. apply (route_ind ρ key); [done|]. intros r p l1 t l2 _ He _ _ IH. rewrite put_at by done.
  cbn [height]. by rewrite !fmap_app, !fmap_cons, IH.
Qed.

Lemma put_inner t : node_forms ρ t → inner (put key p' vs' t) = inner t.
Proof.
  revert t. apply (route_ind ρ key); [done|]. intros r p l1 t l2 _ He _ _ IH. rewrite put_at by done.
  cbn [inner]. by rewrite !bind_app, !bind_cons, IH.
Qed.

Lemma put_forms t : node_forms ρ t → leaf_ok p' vs' → node_forms ρ (put key p' vs' t).
Proof.
  intros Hf Hok. revert t Hf. apply (route_ind ρ key); [intros; by constructor|].
  intros r p l1 t l2 Hf He _ _ IH. rewrite put_at by done.
  inversion Hf as [|? ? ? vs Hok' Hne Hvs Hts]; subst. apply (NodeForm _ _ _ _ vs); [done..| |].
  - rewrite Hvs, !fmap_app, !fmap_cons. cbn. by rewrite put_root.
  - intros t' [Ht'|[->|Ht']%elem_of_cons]%elem_of_app; [|exact IH|]; apply Hts, elem_of_app.
    + by left.
    + right. by right.
Qed.

Context (cr : list (Z * Z)) (r : R) (p : BTreePage) (vs : list RID).

(** The lists of the tree that change are those of the leaf. *)
Lemma put_bind {A} (f : node_tree R → list A) (x x' : list A) (y : R → BTreePage → list A) :
  (f (Leaf r p vs) = x) → (f (Leaf r p' vs') = x') → (∀ r p ts, f (Node r p ts) = y r p ++ (ts ≫= f)) →
  ∀ t, node_forms ρ t → ∀ cr, route ρ key t = Some (cr, (r, (p, vs))) →
  ∃ rest, f t ≡ₚ x ++ rest ∧ f (put key p' vs' t) ≡ₚ x' ++ rest.
Proof.
  intros Hx Hx' Hy. apply (route_ind ρ key (λ t, ∀ cr, route ρ key t = Some (cr, (r, (p, vs))) → _)).
  - intros r0 p0 vs0 cr0 [= _ -> -> ->]. exists []. cbn [put]. by rewrite Hx, Hx', !app_nil_r.
  - intros r0 p0 l1 t l2 _ He _ _ IH cr0 Hr. rewrite route_at in Hr by done.
    destruct (route ρ key t) as [[cr1 x1]|]; [|done]. injection Hr as _ ->.
    destruct (IH _ eq_refl) as (rest & H1 & H2). exists (y r0 p0 ++ (l1 ≫= f) ++ rest ++ (l2 ≫= f)).
    rewrite put_at, !Hy, !bind_app, !bind_cons, H1, H2 by done. split; solve_Permutation.
Qed.

Lemma put_nodes t :
  node_forms ρ t → route ρ key t = Some (cr, (r, (p, vs))) →
  ∃ rest, nodes t ≡ₚ (r, p) :: rest ∧ nodes (put key p' vs' t) ≡ₚ (r, p') :: rest.
Proof. intros Hf Hr. by apply (put_bind nodes [(r, p)] [(r, p')] (λ r p, [(r, p)])) with cr. Qed.

Lemma put_leaves t :
  node_forms ρ t → route ρ key t = Some (cr, (r, (p, vs))) →
  ∃ rest, leaves t ≡ₚ (r, (p, vs)) :: rest ∧ leaves (put key p' vs' t) ≡ₚ (r, (p', vs')) :: rest.
Proof. intros Hf Hr. by apply (put_bind leaves [(r, (p, vs))] [(r, (p', vs'))] (λ _ _, [])) with cr. Qed.

Lemma put_contents t :
  node_forms ρ t → route ρ key t = Some (cr, (r, (p, vs))) →
  ∃ rest, contents_in t ≡ₚ pairs p vs ++ rest ∧ contents_in (put key p' vs' t) ≡ₚ pairs p' vs' ++ rest.
Proof. intros Hf Hr. by apply (put_bind contents_in _ _ (λ _ _, [])) with cr. Qed.
(** A pair for the key, in its place. *)
Lemma visible_at r0 p0 first l1 t0 l2 :
  at_end first l1 l2 →
  visible (Node r0 p0 (l1 ++ t0 :: l2)) ≡ₚ visible t0 ++ default [] (visible <$> end_of (negb first) (l1 ++ t0 :: l2)).
Proof.
  intros He. rewrite visible_node. pose proof (end_of_at first l1 l2 t0 He) as Ht.
  destruct first; cbn [negb]; rewrite Ht; cbn [fmap option_fmap option_map default]; [done|apply Permutation_app_comm].
Qed.

Lemma put_visible t :
  node_forms ρ t → ∀ cr, route ρ key t = Some (cr, (r, (p, vs))) →
  ∃ rest, visible t ≡ₚ pairs p vs ++ rest ∧ visible (put key p' vs' t) ≡ₚ pairs p' vs' ++ rest.
Proof.
  revert t. apply (route_ind ρ key (λ t, ∀ cr, route ρ key t = Some (cr, (r, (p, vs))) → _)).
  - intros r0 p0 vs0 cr0 [= _ -> -> ->]. exists []. by rewrite !app_nil_r.
  - intros r0 p0 l1 t l2 _ He Hne _ IH cr0 Hr. rewrite route_at in Hr by done.
    destruct (route ρ key t) as [[cr1 x1]|]; [|done]. injection Hr as _ ->.
    destruct (IH _ eq_refl) as (rest & H1 & H2). eexists. rewrite put_at by done.
    rewrite !visible_at by done. rewrite H1, H2, <- !app_assoc.
    by rewrite (end_of_other _ _ _ _ (put key p' vs' t) He Hne).
Qed.

Lemma put_ordered val t :
  node_forms ρ t → route ρ key t = Some (cr, (r, (p, vs))) → pairs p' vs' ≡ₚ (key, val) :: pairs p vs →
  ordered t → ordered (put key p' vs' t).
Proof.
  intros Hf Hr Hp. revert cr Hr. revert t Hf.
  apply (route_ind ρ key (λ t, ∀ cr, route ρ key t = Some (cr, (r, (p, vs))) → ordered t → ordered _)).
  { intros. by constructor. }
  intros r0 p0 l1 t l2 _ He Hne Hft IH cr0 Hr Ho. rewrite route_at in Hr by done.
  destruct (route ρ key t) as [[cr1 x1]|] eqn:E; [|done]. injection Hr as _ ->.
  inversion Ho as [|? ? ? Hord Hside]; subst. rewrite put_at by done.
  pose proof (end_of_at _ l1 l2 t He) as Ht. pose proof (end_of_at _ l1 l2 (put key p' vs' t) He) as Ht'.
  assert (∀ first t', end_of first (l1 ++ put key p' vs' t :: l2) = Some t' →
    (first = below p0 key ∧ t' = put key p' vs' t) ∨ end_of first (l1 ++ t :: l2) = Some t') as Hcases.
  { intros first t1 H1. destruct (decide (first = below p0 key)) as [->|Hb]; [left; split; congruence|right].
    assert (first = negb (below p0 key)) as -> by (by destruct first, (below p0 key)).
    by rewrite (end_of_other _ _ _ _ (put key p' vs' t) He Hne). }
  constructor; intros first t1 [[-> ->]|H1]%Hcases; [by eapply IH, Hord|by eapply Hord| |by eapply Hside].
  destruct (put_visible t Hft cr1 E) as (rest & Hv & ->).
  pose proof (Hside _ _ Ht) as Hs. rewrite Hv in Hs. apply Forall_app in Hs as [Hs Hrest].
  rewrite Hp. constructor; [done|]. by apply Forall_app.
Qed.
End puts.
End trees.

(** ** Search *)

Section search.
Context `{U : Uninit} `{Finite R} (ρ : R → Z).
Implicit Types t : node_tree R.

(** The nodes of a tree are on their pages. *)
Definition on_disk (s : index) t : Prop := ∀ r p, (r, p) ∈ nodes t → node_at s (ρ r) p.

Lemma on_disk_root s t : on_disk s t → node_at s (ρ (root_of t)) (root_page t).
Proof. intros Hd. apply Hd. destruct t; by left. Qed.

Lemma on_disk_child s r p ts t : on_disk s (Node r p ts) → t ∈ ts → on_disk s t.
Proof. intros Hd Ht r' p' Hin. apply Hd. right. apply list_elem_of_bind. by exists t. Qed.

Lemma on_disk_same s s' t : same_pages s s' → on_disk s t → on_disk s' t.
Proof. intros Hs Hd r p Hin. eapply node_at_same; [done|]. by apply Hd. Qed.

(** The child at an end of a node. *)
Lemma end_child r p ts t first :
  node_forms ρ (Node r p ts) → end_of first ts = Some t →
  is_leaf p = false ∧ ∃ k ks vs, keys p = k :: ks ∧ values p = InternalChildren vs ∧ Sorted key_lt (keys p)
    ∧ zlen (keys p) ≤ PAGE_SIZE
    ∧ if first then vs !! 0%nat = Some (ρ (root_of t)) else rightmost_ptr p = ρ (root_of t).
Proof.
  intros Hf Ht. inversion Hf as [|? ? ? vs [Hwf Hlen _ Hs] Hne Hvs _]; subst.
  pose proof (wf_leaf _ _ Hwf) as Hl. pose proof (wf_values _ _ Hwf) as Hv. cbn in Hl, Hv.
  split; [done|]. destruct (keys p) as [|k ks] eqn:Hk; [done|]. exists k, ks, vs. split_and!; [done..| |].
  - pose proof (wf_fits _ _ Hwf) as Hfits. pose proof (zlen_nonneg (kvs_bytes (zip (keys p) vs))).
    rewrite Hk in *. unfold INDEX_PAGE_HEADER_SIZE, TREE_KV_PTR_SIZE, PAGE_SIZE in *.
    change (_ + IS_LEAF_OFFSET) with 26 in Hfits. lia.
  - destruct vs as [|v vs]; [done|]. apply (f_equal (end_of first)) in Hvs. rewrite end_of_fmap, Ht in Hvs.
    destruct first; cbn [end_of hd_error app] in Hvs; [by injection Hvs as ->|].
    rewrite app_comm_cons, last_snoc in Hvs. by injection Hvs as ->.
Qed.

(** One step of the search. *)
Lemma descend_step fuel key i page r p ts t crumbs s j s1 page1 :
  node_forms ρ (Node r p ts) → end_of (below p key) ts = Some t →
  frame i s = Ok (page, s) → page_id page = ρ r →
  fetch (ρ (root_of t)) s = Ok (j, s1) → frame j s1 = Ok (page1, s1) → deserialize (data page1) = Ok (root_page t) →
  descend (S fuel) key i p crumbs s
  = descend fuel key j (root_page t) ((ρ r, if below p key then 0 else -1) :: crumbs) s1.
Proof.
  intros Hf Ht Hfr Hid Hfe Hfr1 Hd.
  destruct (end_child r p ts t (below p key) Hf Ht) as (Hl & k & ks & vs & Hk & Hv & Hs & Hsize & Hend).
  cbn [descend]. rewrite Hl, Hk. change (vec_at (k :: ks) 0) with (Ok k). lift_step.
  unfold below in *. rewrite Hk in *. unfold side in *. destruct (0 <? cmpKeys k key).
  - io_step Hfr. rewrite Hv. cbn [INTERNAL_CHILDREN]. lift_step.
    rewrite (vec_at_lookup _ 0 _ Hend : vec_at vs 0 = _). lift_step. io_step Hfe. io_step Hfr1. rewrite Hd. lift_step.
    by rewrite Hid.
  - erewrite io_bind_ok by (apply scan_first; rewrite ?Hk; [done|done|done|by_compute]).
    cbv beta iota zeta. io_step Hfr. rewrite Hend. io_step Hfe. io_step Hfr1. rewrite Hd. lift_step. by rewrite Hid.
Qed.

Lemma descend_route fuel key t s i page crumbs out u n :
  node_forms ρ t → on_disk s t → (height t < fuel)%nat → (∀ r, r ∈ inner t → ¬ out r) →
  pooled ρ out u s (n + Z.of_nat (height t)) → (u ≤ 2)%nat → 0 ≤ n →
  frame i s = Ok (page, s) → page_id page = ρ (root_of t) →
  ∃ cr r p vs s' u', route ρ key t = Some (cr, (r, (p, vs)))
    ∧ descend fuel key i (root_page t) crumbs s = Ok ((p, cr ++ crumbs, ρ r), s') ∧ same_pages s s'
    ∧ pooled ρ (λ r', out r' ∧ r' ≠ r) u' s' n ∧ (u' ≤ u)%nat ∧ (r ≠ root_of t → out r → (u' ≤ pred u)%nat).
Proof.
  revert t s i page crumbs out u. induction fuel as [|fuel IH]; [lia|].
  intros t s i page crumbs out u Hf Hd Hh Hout Hp Hu Hn Hfr Hid. destruct t as [r p vs|r p ts].
  - exists [], r, p, vs, s, u. inversion Hf as [? ? ? Hok|]; subst. split; [done|].
    split; [|split; [done|split; [|done]]].
    + cbn [descend root_page]. rewrite (wf_leaf _ _ (nd_wf _ _ Hok) : is_leaf p = true). io_step Hfr. by rewrite Hid.
    + eapply pooled_mono; [exact Hp|cbn; lia|done|]. by intros r' [? _].
  - destruct (node_forms_end ρ r p ts (below p key) Hf) as (t & Ht & Hft).
    pose proof (end_of_in _ _ _ Ht) as Hin. pose proof (height_end r p ts _ t Ht) as Hht.
    pose proof (on_disk_child s r p ts t Hd Hin) as Hdt.
    destruct (pooled_fetch ρ out u s (n + Z.of_nat (height t)) (root_of t) (root_page t))
      as (j & s1 & page1 & u1 & Hfe & Hfr1 & Hid1 & Hde & Hs1 & Hp1 & Hu1 & Hu1');
      [eapply pooled_mono; [exact Hp|lia|done|done]|done|lia|by apply on_disk_root|].
    destruct (IH t s1 j page1 ((ρ r, if below p key then 0 else -1) :: crumbs) (λ r', out r' ∧ r' ≠ root_of t) u1 Hft (on_disk_same _ _ _ Hs1 Hdt))
      as (cr & r' & p' & vs & s' & u' & Hr & Hds & Hs' & Hp' & Hu' & Hu''); [lia| |exact Hp1|lia|done|done|done|].
    { intros r' Hr' [Ho _]. apply (Hout r'); [|done]. right. apply list_elem_of_bind. by exists t. }
    exists (cr ++ [(ρ r, if below p key then 0 else -1)]), r', p', vs, s', u'.
    split; [by rewrite (route_node _ _ _ _ _ t Ht), Hr|]. split; [|split; [by eapply same_pages_trans|split; [|split; [lia|]]]].
    + cbn [root_page]. erewrite descend_step; [|done..]. by rewrite Hds, <- app_assoc.
    + eapply pooled_mono; [exact Hp'|lia|done|]. intros r'' [Ho Hne]. split; [|done]. split; [done|].
      intros ->. destruct t as [r0 p0 vs0|r0 p0 ts0]; [by injection Hr as _ <- _ _|].
      apply (Hout r0); [|done]. right. apply list_elem_of_bind. exists (Node r0 p0 ts0). split; [by left|done].
    + intros _ Ho. destruct (decide (r' = root_of t)) as [->|Hne]; [by apply Hu1' in Ho; lia|].
      apply Nat.le_trans with (pred u1); [by apply Hu''|lia].
Qed.

(** The search follows the route to the leaf. *)
Lemma findLeaf_route fuel key t s out u n :
  node_forms ρ t → on_disk s t → (height t < fuel)%nat → (∀ r, r ∈ inner t → ¬ out r) →
  root_pid (tree s) = ρ (root_of t) → pooled ρ out u s (n + Z.of_nat (height t) + 1) → (u ≤ 2)%nat → 0 ≤ n →
  ∃ crumbs r p vs s' u', route ρ key t = Some (crumbs, (r, (p, vs)))
    ∧ findLeaf fuel key s = Ok ((p, crumbs, ρ r), s') ∧ same_pages s s'
    ∧ pooled ρ (λ r', out r' ∧ r' ≠ r) u' s' n ∧ (u' ≤ u)%nat ∧ (out r → (u' ≤ pred u)%nat).
Proof.
  intros Hf Hd Hh Hout Hroot Hp Hu Hn.
  destruct (pooled_fetch ρ out u s (n + Z.of_nat (height t)) (root_of t) (root_page t) Hp Hu ltac:(lia) (on_disk_root _ _ Hd))
    as (i & s1 & page & u1 & Hfe & Hfr & Hid & Hde & Hs1 & Hp1 & Hu1 & Hu1').
  destruct (descend_route fuel key t s1 i page [] (λ r', out r' ∧ r' ≠ root_of t) u1 n Hf (on_disk_same _ _ _ Hs1 Hd) Hh) as
    (cr & r & p & vs & s' & u' & Hr & Hds & Hs' & Hp' & Hu' & Hu''); [|exact Hp1|lia|done|done|done|].
  { intros r Hr [Ho _]. by apply (Hout r). }
  exists cr, r, p, vs, s', u'. split; [done|].
  split; [|split; [by eapply same_pages_trans|split; [|split; [lia|]]]].
  - unfold findLeaf. lift_step. rewrite Hroot. io_step Hfe. io_step Hfr. rewrite Hde. lift_step.
    by rewrite Hds, app_nil_r.
  - eapply pooled_mono; [exact Hp'|lia|done|]. intros r' [Ho Hne]. split; [|done]. split; [done|].
    intros ->. destruct t as [r0 p0 vs0|r0 p0 ts0]; [by injection Hr as _ <- _ _|]. apply (Hout r0); [by left|done].
  - intros Ho. destruct (decide (r = root_of t)) as [->|Hne]; [by apply Hu1' in Ho; lia|].
    apply Nat.le_trans with (pred u1); [by apply Hu''|lia].
Qed.

(** ** Insertion *)

Context `{N : UninitNode}.

(** A tree on disk. *)
Record deep_pages (s : index) t : Prop := {
  dt_forms : node_forms ρ t;
  dt_ordered : ordered t;
  dt_disk : on_disk s t;
  dt_once : NoDup (nodes t).*1;
  dt_pids : ∀ r, r ∈ (nodes t).*1 → 0 < ρ r;
  dt_root : root_pid (tree s) = ρ (root_of t);
}.

(** No leaf of the tree is in the pool, at most one page was flushed and not
    fetched since, and a page may be pinned [n] more times. *)
Record deep_tree (s : index) t (n : Z) : Prop := {
  dt_pages : deep_pages s t;
  dt_pool : pooled ρ (λ r, r ∈ (leaves t).*1) 1 s n;
}.

(** What an insertion needs of the leaf for the key. *)
Record has_room (s : index) (p : BTreePage) (vs : list RID) (key : BTreeKey) (val : RID) : Prop := {
  hr_new : Forall (λ k, cmpKeys k key ≠ 0) (keys p);
  hr_page : room ((key, val) :: pairs p vs) ≤ PAGE_SIZE;
  hr_max : zlen (keys p) < max_size (tree s);
}.

Lemma find_flush_deep fuel key t s n :
  deep_tree s t (n + Z.of_nat (height t) + 2) → (height t < fuel)%nat → 0 ≤ n →
  ∃ crumbs r p vs s1, route ρ key t = Some (crumbs, (r, (p, vs)))
    ∧ findLeaf fuel key s = Ok ((p, crumbs, ρ r), s1) ∧ same_pages s s1
    ∧ ∀ p' vs', leaf_ok p' vs' →
      ∃ s2, flush_page_of (ρ r) p' s1 = Ok ((), s2) ∧ other_pages (ρ r) s s2 ∧ node_at s2 (ρ r) p'
        ∧ pooled ρ (λ r', r' ∈ (leaves t).*1) 1 s2 n.
Proof.
  intros [[Hf Ho Hd Hnd Hpids Hroot] Hp] Hh Hn.
  destruct (findLeaf_route fuel key t s (λ r, r ∈ (leaves t).*1) 1 (n + 1) Hf Hd Hh) as
    (cr & r & p & vs & s1 & u & Hr & Hfind & Hs1 & Hp1 & Hu & Hu'); [|exact Hroot| |lia|lia|].
  { intros r Hr. by apply inner_not_leaf. }
  { eapply pooled_mono; [exact Hp|lia|done|done]. }
  exists cr, r, p, vs, s1. split; [done|]. split; [done|]. split; [done|]. intros p' vs' Hok.
  destruct (route_leaf ρ key t Hf) as (? & ? & ? & ? & Hr' & _ & Hin). rewrite Hr in Hr'. injection Hr' as <- <- <- <-.
  pose proof (leaf_page _ _ _ _ Hin) as [Hin1 Hin2]. apply Hu' in Hin1 as Hu0. cbn in Hu0.
  destruct (pooled_flush ρ _ u s1 n r p' vs' Hp1 ltac:(lia) Hn) as (s2 & u2 & Hfl & Hn2 & Ho2 & Hp2 & Hu2 & _); [|done|].
  { apply list_elem_of_fmap in Hin2 as ([r0 p0] & -> & Hin0). by eapply (on_disk_same _ _ _ Hs1 Hd). }
  exists s2. split; [done|]. split; [eapply other_pages_trans, Ho2; by apply same_other|]. split; [done|].
  eapply pooled_mono; [exact Hp2|lia|lia|]. intros r' Hr0. destruct (decide (r' = r)); [by right|by left].
Qed.

Lemma deep_put s s2 t n key val crumbs r p vs p' vs' :
  deep_tree s t n → route ρ key t = Some (crumbs, (r, (p, vs))) → leaf_ok p' vs' →
  pairs p' vs' ≡ₚ (key, val) :: pairs p vs → other_pages (ρ r) s s2 → node_at s2 (ρ r) p' →
  ∀ n', pooled ρ (λ r', r' ∈ (leaves t).*1) 1 s2 n' → deep_tree s2 (put key p' vs' t) n'.
Proof.
  intros [[Hf Hord Hd Hnd Hpids Hroot] Hp] Hr Hok Hpairs Ho Hn2 n' Hp2.
  destruct (put_nodes ρ key p' vs' crumbs r p vs t Hf Hr) as (rest & Hn1 & Hn1').
  destruct (put_leaves ρ key p' vs' crumbs r p vs t Hf Hr) as (lrest & Hl1 & Hl1').
  pose proof (fmap_Permutation fst _ _ Hn1) as Hf1. pose proof (fmap_Permutation fst _ _ Hn1') as Hf1'.
  pose proof (fmap_Permutation fst _ _ Hl1) as Hg1. pose proof (fmap_Permutation fst _ _ Hl1') as Hg1'.
  assert ((nodes (put key p' vs' t)).*1 ≡ₚ (nodes t).*1) as Hpages by (by etrans; [exact Hf1'|]).
  split; [split|].
  6:{ rewrite (proj1 Ho), put_root. done. }
  6:{ eapply pooled_mono; [exact Hp2|destruct Hp2 as (c & [] & _); lia|done|]. intros r'. cbv beta. by rewrite Hg1, Hg1'. }
  - by apply put_forms.
  - by eapply put_ordered.
  - intros r' p0 Hin. rewrite Hn1' in Hin. apply elem_of_cons in Hin as [[= -> ->]|Hin]; [done|].
    eapply node_at_other; [exact Ho|apply (pooled_pages _ _ _ _ _ Hp)| |apply Hd; rewrite Hn1; by right].
    intros Heq%(proj2 (pooled_pages _ _ _ _ _ Hp)). subst r'. rewrite Hf1 in Hnd. apply NoDup_cons in Hnd as [Hno _].
    apply Hno. by apply (list_elem_of_fmap_2 fst) in Hin.
  - by rewrite Hpages.
  - intros r'. rewrite Hpages. apply Hpids.
Qed.

Lemma deep_insert fuel key val t s n :
  deep_tree s t (n + Z.of_nat (height t) + 2) → (height t < fuel)%nat → 0 ≤ n → valid_pair (key, val) →
  (∀ crumbs r p vs, route ρ key t = Some (crumbs, (r, (p, vs))) → has_room s p vs key val) →
  ∃ crumbs r p vs p' vs' s', route ρ key t = Some (crumbs, (r, (p, vs)))
    ∧ insert fuel key val s = Ok (ρ r, s') ∧ deep_tree s' (put key p' vs' t) n
    ∧ pairs p' vs' ≡ₚ (key, val) :: pairs p vs ∧ zlen (keys p') = zlen (keys p) + 1 ∧ other_pages (ρ r) s s'
    ∧ leaf_ok p vs ∧ leaf_ok p' vs'.
Proof.
  intros Ht Hh Hn (Hfit & Hne & Hpid & Hslot) Hroom.
  destruct (find_flush_deep fuel key t s n Ht Hh Hn) as (cr & r & p & vs & s1 & Hr & Hfind & Hs1 & Hflush).
  destruct (Hroom _ _ _ _ Hr) as [Hnew Hpage Hmax]. pose proof Ht as [[Hf _ _ _ Hpids Hroot] Hp].
  destruct (route_leaf ρ key t Hf) as (? & ? & ? & ? & Hr' & Hok & Hin). rewrite Hr in Hr'. injection Hr' as <- <- <- <-.
  destruct (leaf_insert _ _ key val Hok Hnew Hfit Hne Hpid Hslot Hpage) as (p' & vs' & Hins & Hok' & Hperm & Hcount & _).
  destruct (Hflush p' vs' Hok') as (s2 & Hfl & Ho & Hn2 & Hp2).
  eexists _, _, _, _, p', vs', s2. split; [done|]. split; [|split; [by eapply deep_put|done]].
  assert (0 < root_pid (tree s)) as Hpos.
  { rewrite Hroot. apply Hpids. destruct t; by left. }
  pose proof (Hpids _ (proj2 (leaf_page _ _ _ _ Hin))) as Hx.
  unfold insert. io_step (ensure_root_old _ Hpos). io_step Hfind. unfold assert_that, BTREE_METADATA_PAGE_ID.
  rewrite (proj2 (Z.eqb_neq _ _)) by lia. cbn [negb]. lift_step. rewrite existsb_none by done.
  rewrite Hins. lift_step. erewrite io_bind_ok by (apply split_not_full; rewrite (proj1 Hs1); lia).
  io_step Hfl. done.
Qed.

Lemma deep_ensured s t n : deep_tree s t n → ensure_root s = Ok ((), s).
Proof.
  intros Ht. apply ensure_root_old. rewrite (dt_root _ _ (dt_pages _ _ _ Ht)). apply (dt_pids _ _ (dt_pages _ _ _ Ht)). destruct t; by left.
Qed.

Lemma deep_search fuel key t s n :
  deep_tree s t (n + Z.of_nat (height t) + 1) → (height t < fuel)%nat → 0 ≤ n →
  ∃ crumbs r p vs s', route ρ key t = Some (crumbs, (r, (p, vs)))
    ∧ findLeaf fuel key s = Ok ((p, crumbs, ρ r), s') ∧ same_pages s s'
    ∧ node_at s (ρ r) p ∧ leaf_ok p vs ∧ 0 < ρ r ∧ ∀ val, (key, val) ∈ visible t ↔ (key, val) ∈ pairs p vs.
Proof.
  intros [[Hf Ho Hd Hnd Hpids Hroot] Hp] Hh Hn.
  destruct (findLeaf_route fuel key t s (λ r, r ∈ (leaves t).*1) 1 n Hf Hd Hh) as
    (cr & r & p & vs & s' & u & Hr & Hfind & Hs & _); [|exact Hroot|exact Hp|lia|lia|].
  { intros r Hr. by apply inner_not_leaf. }
  destruct (route_leaf ρ key t Hf) as (? & ? & ? & ? & Hr' & Hok & Hin). rewrite Hr in Hr'. injection Hr' as <- <- <- <-.
  exists cr, r, p, vs, s'. split_and!; try done.
  - by apply Hd, leaf_node with vs.
  - apply Hpids, (leaf_page _ _ _ _ Hin).
  - by eapply route_visible.
Qed.

(** A key that is in its leaf is not inserted. *)
Lemma deep_duplicate fuel key val t s n crumbs r p vs k :
  deep_tree s t (n + Z.of_nat (height t) + 1) → (height t < fuel)%nat → 0 ≤ n →
  route ρ key t = Some (crumbs, (r, (p, vs))) → k ∈ keys p → cmpKeys k key = 0 →
  ∃ s', insert fuel key val s = Ok (0, s') ∧ same_pages s s'.
Proof.
  intros Ht Hh Hn Hr Hk Hcmp.
  destruct (deep_search fuel key t s n Ht Hh Hn) as (? & ? & ? & ? & s' & Hr' & Hfind & Hs & _ & _ & Hpos & _).
  rewrite Hr in Hr'. injection Hr' as <- <- <- <-. exists s'. split; [|done].
  unfold insert. io_step (deep_ensured _ _ _ Ht). io_step Hfind. unfold assert_that, BTREE_METADATA_PAGE_ID.
  rewrite (proj2 (Z.eqb_neq _ _)) by lia. cbn [negb]. lift_step. by rewrite (existsb_some _ _ _ Hk Hcmp).
Qed.

(** A key that is not in its leaf is not to be removed. *)
Lemma deep_remove_missing fuel key t s n crumbs r p vs :
  deep_tree s t (n + Z.of_nat (height t) + 1) → (height t < fuel)%nat → 0 ≤ n →
  route ρ key t = Some (crumbs, (r, (p, vs))) → key ∉ keys p → remove fuel key s = Undef OutOfBounds.
Proof.
  intros Ht Hh Hn Hr Hk.
  destruct (deep_search fuel key t s n Ht Hh Hn) as (? & ? & ? & ? & s' & Hr' & Hfind & _ & _ & Hok & _).
  rewrite Hr in Hr'. injection Hr' as <- <- <- <-. unfold remove. io_step Hfind.
  rewrite (wf_values _ _ (nd_wf _ _ Hok) : values p = LeafRecords vs). cbn [LEAF_RECORDS]. lift_step.
  by rewrite erase_missing.
Qed.

(** *** Sequences of insertions *)

(** Every leaf has room for the pairs, whose keys are new. *)
Definition spacious (max : Z) t (kvs : list (BTreeKey * RID)) : Prop :=
  ∀ r p vs, (r, (p, vs)) ∈ leaves t →
    zlen (keys p) + zlen kvs ≤ max ∧ room (pairs p vs ++ kvs) ≤ PAGE_SIZE
    ∧ Forall (λ k, Forall (λ kv : BTreeKey * RID, cmpKeys k kv.1 ≠ 0) kvs) (keys p).

Lemma room_first kv kvs' kvs : room (kvs' ++ kv :: kvs) ≤ PAGE_SIZE → room (kv :: kvs') ≤ PAGE_SIZE.
Proof.
  intros Hr. rewrite <- (room_Permutation (kv :: kvs' ++ kvs)) in Hr by apply Permutation_middle.
  pose proof (room_app_l (kv :: kvs') kvs). cbn [app] in *. lia.
Qed.

Lemma spacious_put max t t' key val kvs r p vs p' vs' rest :
  spacious max t ((key, val) :: kvs) → Forall (λ kv : BTreeKey * RID, cmpKeys key kv.1 ≠ 0) kvs →
  leaves t ≡ₚ (r, (p, vs)) :: rest → leaves t' ≡ₚ (r, (p', vs')) :: rest →
  leaf_ok p' vs' → leaf_ok p vs → pairs p' vs' ≡ₚ (key, val) :: pairs p vs → zlen (keys p') = zlen (keys p) + 1 →
  spacious max t' kvs.
Proof.
  intros Hsp Hd Hl Hl' Hok' Hok Hp Hlen r0 p0 vs0 Hin. rewrite Hl' in Hin. apply elem_of_cons in Hin as [[= -> -> ->]|Hin].
  - destruct (Hsp r p vs) as (H1 & H2 & H3); [rewrite Hl; by left|]. rewrite zlen_cons in H1. split; [lia|]. split.
    + etrans; [|exact H2]. apply Z.eq_le_incl, room_Permutation. rewrite Hp. apply Permutation_middle.
    + rewrite (keys_Permutation _ _ _ Hok' Hp), fmap_cons, (pairs_keys _ _ Hok). constructor; [done|].
      eapply Forall_impl; [exact H3|]. intros k Hk. by inversion Hk.
  - destruct (Hsp r0 p0 vs0) as (H1 & H2 & H3); [rewrite Hl; by right|]. rewrite zlen_cons in H1.
    pose proof (zlen_nonneg kvs). split; [lia|]. split.
    + etrans; [|exact H2]. rewrite <- (room_Permutation ((pairs p0 vs0 ++ kvs) ++ [(key, val)]) (pairs p0 vs0 ++ (key, val) :: kvs))
        by (rewrite <- app_assoc; symmetry; apply Permutation_app_head, Permutation_cons_append).
      apply room_app_l.
    + eapply Forall_impl; [exact H3|]. intros k Hk. by inversion Hk.
Qed.

Lemma deep_insert_all fuel kvs t s n :
  deep_tree s t (n + (Z.of_nat (height t) + 2) * zlen kvs) → (height t < fuel)%nat → 0 ≤ n →
  Forall valid_pair kvs → distinct kvs → spacious (max_size (tree s)) t kvs →
  ∃ s' t', insert_all fuel kvs s = Ok ((), s') ∧ deep_tree s' t' n ∧ height t' = height t
    ∧ visible t' ≡ₚ visible t ++ kvs ∧ tree s' = tree s ∧ dm_of s' = dm_of s.
Proof.
  revert s t. induction kvs as [|[key val] kvs IH]; intros s t Ht Hh Hn Hv Hd Hsp.
  { exists s, t. rewrite app_nil_r. change (zlen []) with 0 in Ht. rewrite Z.mul_0_r, Z.add_0_r in Ht. done. }
  inversion Hv as [|? ? Hv1 Hv']; subst. inversion Hd as [|? ? Hd1 Hd']; subst.
  rewrite zlen_cons in Ht. pose proof (zlen_nonneg kvs). pose proof (dt_forms _ _ (dt_pages _ _ _ Ht)) as Hf.
  replace (n + _ * _) with (n + (Z.of_nat (height t) + 2) * zlen kvs + Z.of_nat (height t) + 2) in Ht by lia.
  destruct (deep_insert fuel key val t s _ Ht Hh ltac:(nia) Hv1) as
    (cr & r & p & vs & p1 & vs1 & s1 & Hr & Hins & Ht1 & Hp1 & Hl1 & Ho & Hok & Hok1).
  { intros cr r p vs Hr. destruct (route_leaf ρ key t Hf) as (? & ? & ? & ? & Hr' & Hok & Hin).
    rewrite Hr in Hr'. injection Hr' as <- <- <- <-. destruct (Hsp _ _ _ Hin) as (H1 & H2 & H3).
    rewrite zlen_cons in H1. split; [|by apply (room_first _ _ kvs)|lia].
    eapply Forall_impl; [exact H3|]. intros k Hk. by inversion Hk. }
  destruct (put_leaves ρ key p1 vs1 cr r p vs t Hf Hr) as (rest & Hlv & Hlv').
  destruct (put_visible ρ key p1 vs1 r p vs t Hf cr Hr) as (vrest & Hvis & Hvis').
  pose proof (proj1 Ho) as Htree. destruct (IH s1 (put key p1 vs1 t)) as (s' & t' & Hall & Ht' & Hh' & Hvis2 & Htr & Hdm);
    rewrite ?(put_height ρ key p1 vs1 t Hf); [done..| |].
  - rewrite Htree. apply (spacious_put _ t _ key val kvs r p vs p1 vs1 rest); done.
  - exists s', t'. split; [cbn [insert_all]; by io_step Hins|]. split; [done|]. split; [by rewrite Hh', (put_height ρ)|].
    split; [|split; [congruence|]].
    + rewrite Hvis2, Hvis', Hvis, Hp1. solve_Permutation.
    + rewrite Hdm. apply Ho.
Qed.

(** *** An index that is opened *)

Lemma deep_opened tr t size dm d n :
  short_name (table_name dm) → Z.of_nat (card R) ≤ size ≤ 65535 → 0 < size → (∀ r, 0 < ρ r < 10000) →
  (∀ r r', ρ r mod size = ρ r' mod size → r = r') → 0 ≤ n < 2 ^ 31 - 2 →
  node_forms ρ t → ordered t → NoDup (nodes t).*1 → root_pid tr = ρ (root_of t) →
  let s := mkIndex tr (new_bpm size dm) new_heap d in
  on_disk s t → deep_tree s t n.
Proof.
  intros Hname Hsize Hpos Hpids Hapart Hn Hf Ho Hnd Hroot s Hd. split; [split; try done; intros r _; apply Hpids|].
  apply (pooled_mono ρ (λ _, True) _ 0 1 _ n n); [|lia|lia|done].
  apply new_bpm_pooled; try done. intros r. pose proof (Hpids r). lia.
Qed.

(** ** Properties *)

(** C3: a B+tree of any height, found on disk with no more pages than the pool has
    frames, is a map from keys to records but for the subtrees behind the children
    in the middle of a node. The search for a key ends, after as many steps as the
    tree is high, in a leaf that has exactly the visible pairs with the key; a pair
    with a new key for which the leaf has room is written to that leaf, and the tree
    on disk then has its pairs and the new one; a key that equals one of the leaf as
    far as they go is refused; and to remove a key that the leaf lacks erases past
    the end of its keys. *)
Theorem deep_tree_spec fuel key t s n :
  deep_tree s t (n + Z.of_nat (height t) + 2) → (height t < fuel)%nat → 0 ≤ n →
  ∃ crumbs r p vs, route ρ key t = Some (crumbs, (r, (p, vs)))
    ∧ (∃ s', findLeaf fuel key s = Ok ((p, crumbs, ρ r), s') ∧ same_pages s s')
    ∧ node_at s (ρ r) p ∧ values p = LeafRecords vs
    ∧ (∀ val, (key, val) ∈ visible t ↔ (key, val) ∈ zip (keys p) vs)
    ∧ (∀ val, valid_pair (key, val) → has_room s p vs key val →
         ∃ s' t', insert fuel key val s = Ok (ρ r, s') ∧ deep_tree s' t' n ∧ height t' = height t
           ∧ visible t' ≡ₚ (key, val) :: visible t ∧ contents_in t' ≡ₚ (key, val) :: contents_in t
           ∧ other_pages (ρ r) s s')
    ∧ (∀ val k, k ∈ keys p → cmpKeys k key = 0 → ∃ s', insert fuel key val s = Ok (0, s') ∧ same_pages s s')
    ∧ (key ∉ keys p → remove fuel key s = Undef OutOfBounds).
Proof.
  intros Ht Hh Hn. pose proof (dt_forms _ _ (dt_pages _ _ _ Ht)) as Hf.
  assert (deep_tree s t (n + 1 + Z.of_nat (height t) + 1)) as Ht1 by (by replace (n + 1 + _ + 1) with (n + Z.of_nat (height t) + 2) by lia).
  destruct (deep_search fuel key t s (n + 1) Ht1 Hh ltac:(lia)) as (cr & r & p & vs & s' & Hr & Hfind & Hs & Hnode & Hok & _ & Hvis).
  exists cr, r, p, vs. split; [done|]. split; [by exists s'|]. split; [done|].
  split; [exact (wf_values _ _ (nd_wf _ _ Hok))|]. split; [exact Hvis|]. split; [|split].
  - intros val Hv Hroom. destruct (deep_insert fuel key val t s n Ht Hh Hn Hv) as
      (? & ? & ? & ? & p' & vs' & s2 & Hr' & Hins & Ht2 & Hp & _ & Ho & _).
    { intros ? ? ? ? Hr'. rewrite Hr in Hr'. by injection Hr' as <- <- <- <-. }
    rewrite Hr in Hr'. injection Hr' as <- <- <- <-. exists s2, (put key p' vs' t).
    destruct (put_visible ρ key p' vs' r p vs t Hf cr Hr) as (rest & H1 & H2).
    destruct (put_contents ρ key p' vs' cr r p vs t Hf Hr) as (rest' & H3 & H4).
    split_and!; [done|done|by apply (put_height ρ)|by rewrite H1, H2, Hp|by rewrite H3, H4, Hp|done].
  - intros val k Hk Hcmp. apply (deep_duplicate fuel key val t s (n + 1) cr r p vs k); [done..|lia|done|done|done].
  - intros Hk. apply (deep_remove_missing fuel key t s (n + 1) cr r p vs); [done..|lia|done|done].
Qed.

(** C2: what is inserted into a tree of any height is found again. Open an index
    whose pages fit the pool, insert pairs for which every leaf has room, in any
    order, and search: the leaf that the search ends in has exactly the pairs with
    the key among those that were inserted and those of the tree that no child in
    the middle of a node hides, which are all of them when every inner node has one
    key. *)
Theorem deep_insert_search fuel kvs tr t size dm d :
  short_name (table_name dm) → Z.of_nat (card R) ≤ size ≤ 65535 → 0 < size → (∀ r, 0 < ρ r < 10000) →
  (∀ r r', ρ r mod size = ρ r' mod size → r = r') →
  node_forms ρ t → ordered t → NoDup (nodes t).*1 → root_pid tr = ρ (root_of t) → (height t < fuel)%nat →
  let s := mkIndex tr (new_bpm size dm) new_heap d in
  on_disk s t → Forall valid_pair kvs → distinct kvs → spacious (max_size tr) t kvs →
  (Z.of_nat (height t) + 2) * (zlen kvs + 1) < 2 ^ 31 - 2 →
  ∃ s', insert_all fuel kvs s = Ok ((), s')
    ∧ (∀ key, ∃ leaf vs crumbs pid s2, findLeaf fuel key s' = Ok ((leaf, crumbs, pid), s2)
        ∧ node_at s' pid leaf ∧ values leaf = LeafRecords vs
        ∧ ∀ val, (key, val) ∈ visible t ++ kvs ↔ (key, val) ∈ zip (keys leaf) vs)
    ∧ ((∀ r p, (r, p) ∈ nodes t → is_leaf p = false → length (keys p) = 1%nat) → visible t = contents_in t).
Proof.
  intros Hname Hsize Hpos Hpids Hapart Hf Ho Hnd Hroot Hh s Hd Hv Hdis Hsp Hpins. pose proof (zlen_nonneg kvs).
  assert (deep_tree s t (Z.of_nat (height t) + 1 + (Z.of_nat (height t) + 2) * zlen kvs)) as Ht
    by (apply deep_opened; [done..|nia|done|done|done|done|done]).
  destruct (deep_insert_all fuel kvs t s _ Ht Hh ltac:(lia) Hv Hdis Hsp) as (s' & t' & Hall & Ht' & Hh' & Hvis & _).
  exists s'. split; [done|]. split; [|by apply (visible_all ρ)]. intros key. rewrite <- Hh' in Ht', Hh.
  replace (Z.of_nat _ + 1) with (0 + Z.of_nat (height t') + 1) in Ht' by lia.
  destruct (deep_search fuel key t' s' 0 Ht' Hh ltac:(done)) as (cr & r & p & vs & s2 & _ & Hfind & _ & Hnode & Hok & _ & Hin).
  exists p, vs, cr, (ρ r), s2. split; [done|]. split; [done|]. split; [exact (wf_values _ _ (nd_wf _ _ Hok))|].
  intros val. rewrite <- Hvis. apply Hin.
Qed.
End search.

(** ** Witnesses *)

#[local] Existing Instance zero_uninit.
#[local] Instance zero_node : UninitNode := Build_UninitNode 0 0 0.

(** A tree of height two whose last inner node has two keys, so that one of its
    leaves is hidden; its pages are numbered from the root down. *)
Definition sample_leaf (r : fin 8) (t : string) : node_tree (fin 8) :=
  Leaf r (mkPage true (letters t).*1 0 0 0 (LeafRecords (letters t).*2)) (letters t).*2.
Definition sample_node (r : fin 8) (t : string) (cs : list Z) (last : Z) (ts : list (node_tree (fin 8)))
    : node_tree (fin 8) :=
  Node r (mkPage false (letters t).*1 0 last 0 (InternalChildren cs)) ts.
Definition sample_tree : node_tree (fin 8) :=
  sample_node 0 "F" [2] 5
    [sample_node 1 "D" [3] 4 [sample_leaf 2 "BC"; sample_leaf 3 "DE"];
     sample_node 4 "HK" [6; 7] 8 [sample_leaf 5 "FG"; sample_leaf 6 "HI"; sample_leaf 7 "KL"]].
Definition page_number (r : fin 8) : Z := Z.of_nat r + 1.

(** The file of a tree with its metadata and its nodes. *)
Definition page_bytes (p : BTreePage) : list Z :=
  match serialize p uninit with Ok bytes => bytes | _ => [] end.
Definition tree_file (tr : BTree) (t : node_tree (fin 8)) : disk :=
  {[ path_of (str "idx") := match tree_serialize tr with Ok bytes => bytes | _ => [] end
                            ++ concat (page_bytes <$> (nodes t).*2) ]}.
Definition sample_disk_manager : DiskManager := mkDiskManager (mkHashTable [] 0 false) (str "idx") false.
Definition tree_state (tr : BTree) (t : node_tree (fin 8)) : index :=
  mkIndex tr (new_bpm 10 sample_disk_manager) new_heap (tree_file tr t).
Definition sample_root : BTree := mkBTree BTREE_INDEX 4 1 8.
Definition sample_state : index := tree_state sample_root sample_tree.

Lemma page_number_pids r : 0 < page_number r < 10000.
Proof. unfold page_number. pose proof (fin_to_nat_lt r). lia. Qed.
Lemma page_number_apart r r' : page_number r mod 10 = page_number r' mod 10 → r = r'.
Proof.
  unfold page_number. pose proof (fin_to_nat_lt r). pose proof (fin_to_nat_lt r').
  rewrite !Z.mod_small by lia. intros Heq. apply (inj fin_to_nat). lia.
Qed.

Lemma fmap_eq_in {A B} (f g : A → B) (l : list A) x : f <$> l = g <$> l → x ∈ l → f x = g x.
Proof.
  intros Hfg. induction 1 as [x l|x y l _ IH]; [by injection Hfg as ?|]. apply IH. by injection Hfg as _ ?.
Qed.

(** The nodes of the tree are on their pages when its file reads as them. *)
Lemma tree_on_disk tr t :
  (λ x, ((page_number x.1 + 1) * PAGE_SIZE <=? zlen (file_of sample_disk_manager (tree_file tr t)),
         deserialize (page_of sample_disk_manager (page_number x.1) (tree_file tr t)))) <$> nodes t
  = (λ x, (true, Ok x.2)) <$> nodes t → on_disk page_number (tree_state tr t) t.
Proof.
  intros Hpages r p Hin. pose proof (fmap_eq_in _ _ _ (r, p) Hpages Hin) as Hp. cbv beta in Hp.
  apply pair_equal_spec in Hp as [Hp Hd]. split; [by apply Z.leb_le|exact Hd].
Qed.

Ltac sample_form := split; [split|..]; repeat constructor; by_compute.
Lemma sample_forms : node_forms page_number sample_tree.
Proof.
  apply (NodeForm _ _ _ _ [2]); [sample_form|done|done|].
  intros t [->|[->|Hin%not_elem_of_nil]%elem_of_cons]%elem_of_cons; [..|done].
  - apply (NodeForm _ _ _ _ [3]); [sample_form|done|done|].
    intros t [->|[->|Hin%not_elem_of_nil]%elem_of_cons]%elem_of_cons; [..|done]; constructor; sample_form.
  - apply (NodeForm _ _ _ _ [6; 7]); [sample_form|done|done|].
    intros t [->|[->|[->|Hin%not_elem_of_nil]%elem_of_cons]%elem_of_cons]%elem_of_cons; [..|done]; constructor; sample_form.
Qed.

Ltac sample_sides :=
  apply NodeOrdered; intros [] t [= <-]; first [by apply LeafOrdered|by (vm_compute; repeat constructor)|idtac].
Lemma sample_ordered : ordered sample_tree.
Proof. sample_sides; sample_sides. Qed.

Lemma sample_visible : visible sample_tree = letters "BCDEFGKL".
Proof. by vm_compute. Qed.

Lemma sample_on_disk : on_disk page_number sample_state sample_tree.
Proof. apply tree_on_disk. by vm_compute. Qed.

Lemma sample_deep n : 0 ≤ n < 2 ^ 31 - 2 → deep_tree page_number sample_state sample_tree n.
Proof.
  intros Hn. apply deep_opened; [done|by_compute|done|exact page_number_pids|exact page_number_apart|done|exact sample_forms
    |exact sample_ordered| |done|exact sample_on_disk].
  apply (bool_decide_unpack _). by vm_compute.
Qed.

(** The leaf for the letters after K. *)
Lemma sample_has_room val crumbs r p vs :
  route page_number [code "M"] sample_tree = Some (crumbs, (r, (p, vs))) → has_room sample_state p vs [code "M"] val.
Proof.
  intros [= _ _ <- <-]. split; [by repeat constructor|destruct val; by_compute|done].
Qed.

Lemma sample_spacious : spacious 4 sample_tree (letters "MA").
Proof.
  intros r p vs Hin. assert (Forall (λ x, zlen (keys x.2.1) + zlen (letters "MA") ≤ 4
    ∧ room (pairs x.2.1 x.2.2 ++ letters "MA") ≤ PAGE_SIZE
    ∧ Forall (λ k, Forall (λ kv : BTreeKey * RID, cmpKeys k kv.1 ≠ 0) (letters "MA")) (keys x.2.1)) (leaves sample_tree)) as Hall.
  { repeat constructor; by_compute. }
  rewrite Forall_forall in Hall. exact (Hall _ Hin).
Qed.

(** The hidden letters are neither found nor removed. *)
Lemma deep_tree_spec_witness :
  deep_tree page_number sample_state sample_tree 4
  ∧ (∃ s', findLeaf 3 [code "H"] sample_state = Ok (root_page (sample_leaf 7 "KL"), [(5, -1); (1, -1)], 8, s'))
  ∧ (∃ s' (t' : node_tree (fin 8)), insert 3 [code "M"] (mkRID 1 1) sample_state = Ok (8, s')
       ∧ visible t' ≡ₚ ([code "M"], mkRID 1 1) :: letters "BCDEFGKL")
  ∧ (∃ s', insert 3 [code "C"; code "A"] (mkRID 1 1) sample_state = Ok (0, s'))
  ∧ remove 3 [code "H"] sample_state = Undef OutOfBounds.
Proof.
  pose proof (sample_deep 4 ltac:(done)) as Ht.
  pose proof (λ key, deep_tree_spec page_number 3 key sample_tree sample_state 0 Ht ltac:(by apply Nat.ltb_lt) ltac:(done)) as Hspec.
  split; [exact Ht|]. split; [|split; [|split]].
  - destruct (Hspec [code "H"]) as (? & ? & ? & ? & [= <- <- <- <-] & (s' & Hf & _) & _). by exists s'.
  - destruct (Hspec [code "M"]) as (? & ? & ? & ? & Hr & _ & _ & _ & _ & Hins & _).
    destruct (Hins (mkRID 1 1)) as (s' & t' & Hi & _ & _ & Hv & _); [by repeat split|by eapply sample_has_room|].
    injection Hr as _ <- _ _. exists s', t'. split; [exact Hi|]. rewrite Hv, sample_visible. done.
  - destruct (Hspec [code "C"; code "A"]) as (? & ? & ? & ? & [= <- <- <- <-] & _ & _ & _ & _ & _ & Hdup & _).
    destruct (Hdup (mkRID 1 1) [code "C"]) as (s' & Hi & _); [right; by left|done|]. by exists s'.
  - destruct (Hspec [code "H"]) as (? & ? & ? & ? & [= <- <- <- <-] & _ & _ & _ & _ & _ & _ & Hrem).
    apply Hrem. apply (bool_decide_unpack _). by vm_compute.
Defined.

Lemma deep_insert_search_witness :
  ∃ s', insert_all 3 (letters "MA") sample_state = Ok ((), s')
    ∧ ∀ key, ∃ leaf vs crumbs pid s2, findLeaf 3 key s' = Ok ((leaf, crumbs, pid), s2)
        ∧ values leaf = LeafRecords vs
        ∧ ∀ val, (key, val) ∈ letters "BCDEFGKL" ++ letters "MA" ↔ (key, val) ∈ zip (keys leaf) vs.
Proof.
  destruct (deep_insert_search page_number 3 (letters "MA") sample_root sample_tree 10 sample_disk_manager
              (tree_file sample_root sample_tree))
    as (s' & Hall & Hfind & _); [done|by_compute|done|exact page_number_pids|exact page_number_apart|exact sample_forms
      |exact sample_ordered| |done|by apply Nat.ltb_lt|exact sample_on_disk|repeat constructor; by vm_compute
      |repeat constructor; by vm_compute| |by_compute|].
  - apply (bool_decide_unpack _). by vm_compute.
  - apply sample_spacious.
  - exists s'. split; [exact Hall|]. intros key. destruct (Hfind key) as (leaf & vs & cr & pid & s2 & Hf & _ & Hv & Hin).
    rewrite sample_visible in Hin. exists leaf, vs, cr, pid, s2. split; [exact Hf|]. split; [exact Hv|exact Hin].
Defined.
