(* ===== verification/LeafSplit.v ===== *)
(** * LeafSplit: the split of a leaf below the root

    An insertion into a leaf that is full, in a tree of two levels, writes the
    halves of the leaf and the root with the middle key. The root then has a half
    behind a child in the middle, or not at all. *)
From stdpp Require Import finite.
From S2P Require Import Prelude Serialize IndexPage Memory Hash NumTable CircularList ClockReplacer Disk Bpm BTree Cache LeafTree TwoLeaves SmallTree PoolRoom DeepTree.

(** ** A key at an end of a node *)

(** Whether a key goes before the keys of a node, or after them. *)
Definition beyond (first : bool) (ks : list BTreeKey) (mid : BTreeKey) : Prop :=
  Forall (λ k, if first then cmpKeys mid k < 0 else cmpKeys k mid < 0) ks.

Definition add_end {A} (first : bool) (x : A) (l : list A) : list A := if first then x :: l else l ++ [x].

Lemma insert_end `{NodeValue V} first p (vs : list V) key val :
  values p = put_values vs → length vs = length (keys p) → zlen (keys p) < 2 ^ 16 → beyond first (keys p) key →
  insertIntoNode p key val
  = Ok (mkPage (is_leaf p) (add_end first key (keys p)) (flags p) (rightmost_ptr p) (next p)
          (put_values (add_end first val vs))).
Proof.
  intros Hv Hlen Hsz Hb. destruct (insert_kv_ok (keys p) vs key val Hlen Hsz) as (j & (Hj & Hup & Hlow) & Hins).
  unfold insertIntoNode. rewrite Hv, nv_get. cbn [mbind outcome_bind]. rewrite Hins. unfold beyond in Hb.
  rewrite Forall_lookup in Hb. cbn. destruct first; cbn [add_end].
  - destruct j as [|j]; [by rewrite !drop_0|]. destruct (lookup_lt_is_Some_2 (keys p) j) as [k Hk]; [lia|].
    pose proof (Hb _ _ Hk). pose proof (Hlow j k eq_refl Hk). lia.
  - destruct (decide (j = length (keys p))) as [->|Hne].
    { by rewrite (take_ge (keys p)), (drop_ge (keys p)), (take_ge vs), (drop_ge vs) by lia. }
    destruct (lookup_lt_is_Some_2 (keys p) j) as [k Hk]; [lia|].
    pose proof (Hb _ _ Hk). pose proof (Hup k Hk). pose proof (cmpKeys_antisym key k). lia.
Qed.

Lemma Sorted_end first ks key : Sorted key_lt ks → beyond first ks key → Sorted key_lt (add_end first key ks).
Proof.
  intros Hs Hb. unfold beyond in Hb. rewrite Forall_forall in Hb. destruct first; cbn [add_end].
  - constructor; [done|]. destruct ks as [|k ks]; constructor. apply Hb. by left.
  - apply Sorted_append; [done|by repeat constructor|]. intros k k' Hk ->%list_elem_of_singleton. by apply Hb.
Qed.

(** ** The pages that the split writes *)

Section nodes.
Context `{N : UninitNode}.

Definition lower_half (new_pid : Z) (p : BTreePage) (vs : list RID) : BTreePage :=
  let n := (length (keys p) / 2)%nat in
  set_next new_pid (set_values (LeafRecords (take n vs)) (set_keys (take n (keys p)) p)).
Definition upper_half (p : BTreePage) (vs : list RID) : BTreePage :=
  let n := (length (keys p) / 2)%nat in
  set_next (next p) (set_values (LeafRecords (drop n vs)) (set_keys (drop n (keys p)) (new_node true))).
(** The middle key goes to the parent with the page of the lower half. *)
Definition grown_parent (first : bool) (mid : BTreeKey) (pid new_pid : Z) (p : BTreePage) (vs : list Z) : BTreePage :=
  mkPage (is_leaf p) (add_end first mid (keys p)) (flags p) (if first then rightmost_ptr p else new_pid) (next p)
    (InternalChildren (add_end first pid vs)).

Lemma grown_parent_spec first mid pid new_pid p (vs : list Z) :
  node_ok p vs → keys p ≠ [] → beyond first (keys p) mid → zlen (keys p) < 2 ^ 16 →
  ∃ p1 last_key, insertIntoNode (V:=Z) p mid pid = Ok p1
    ∧ vec_at (keys p1) (zlen (keys p1) - 1) = Ok last_key
    ∧ (if key_eqb last_key mid then set_rightmost new_pid p1 else p1) = grown_parent first mid pid new_pid p vs.
Proof.
  intros Hok Hne Hb Hsz. eexists. exists (if first then default [] (last (keys p)) else mid).
  split; [by apply (insert_end first p vs mid pid (wf_values _ _ (nd_wf _ _ Hok)) (nd_length _ _ Hok))|]. cbn [keys].
  destruct (last (keys p)) as [k|] eqn:Hk; [|by apply last_None in Hk].
  pose proof Hk as Hin%last_Some_elem_of. apply last_Some in Hk as [l Hl]. unfold beyond in Hb. rewrite Forall_forall in Hb.
  assert (vec_at (add_end first mid (keys p)) (zlen (add_end first mid (keys p)) - 1)
          = Ok (if first then k else mid)) as Hlast.
  { rewrite Hl. destruct first; cbn [add_end].
    - apply vec_at_ok; [unfold zlen; cbn [length]; rewrite length_app; cbn; lia|].
      unfold zlen. cbn [length]. rewrite length_app. cbn [length].
      replace (Z.to_nat _) with (S (length l)) by lia. by apply (list_lookup_middle l []).
    - apply vec_at_ok; [unfold zlen; rewrite length_app; cbn; lia|].
      unfold zlen. rewrite length_app. cbn [length]. replace (Z.to_nat _) with (length (l ++ [k])) by lia. by apply (list_lookup_middle (l ++ [k]) []). }
  split; [exact Hlast|]. cbn [default id]. destruct first.
  - destruct (key_eqb k mid) eqn:E; [|done]. apply key_eqb_spec in E as ->.
    pose proof (Hb _ Hin) as Hlt. rewrite cmpKeys_self in Hlt. lia.
  - by rewrite (proj2 (key_eqb_spec mid mid)).
Qed.

(** The room that a key takes in an inner node. *)
Definition parent_room (p : BTreePage) (vs : list Z) (mid : BTreeKey) : Prop :=
  INDEX_PAGE_HEADER_SIZE + TREE_KV_PTR_SIZE * (1 + zlen (keys p)) + (5 + zlen mid) + zlen (kvs_bytes (zip (keys p) vs))
  ≤ PAGE_SIZE.

Lemma Forall_end {A} (P : A → Prop) first x l : P x → Forall P l → Forall P (add_end first x l).
Proof. intros Hx Hl. destruct first; cbn; [by constructor|]. apply Forall_app. split; [done|by repeat constructor]. Qed.

Lemma length_end {A} first (x : A) l : length (add_end first x l) = S (length l).
Proof. destruct first; cbn; [done|]. rewrite length_app, Nat.add_comm. done. Qed.

Lemma zip_end {A B} first (x : A) (y : B) l k :
  length l = length k → zip (add_end first x l) (add_end first y k) = add_end first (x, y) (zip l k).
Proof. intros Hl. destruct first; cbn; [done|]. by rewrite zip_with_app by done. Qed.

Lemma zlen_kvs_end `{NodeValue V} first (kv : BTreeKey * V) kvs :
  zlen (kvs_bytes (add_end first kv kvs)) = zlen (kv_bytes kv) + zlen (kvs_bytes kvs).
Proof.
  destruct first; cbn [add_end]; [by rewrite kvs_bytes_cons, zlen_app|].
  rewrite kvs_bytes_app, zlen_app, kvs_bytes_cons, zlen_app. change (zlen (kvs_bytes [])) with 0. lia.
Qed.

Lemma grown_parent_ok first mid pid new_pid p (vs : list Z) :
  node_ok p vs → beyond first (keys p) mid → key_fits mid → key_nonempty mid → is_u32 pid → is_u32 new_pid →
  parent_room p vs mid → node_ok (grown_parent first mid pid new_pid p vs) (add_end first pid vs).
Proof.
  intros [[Hl Hv Hlen' Hk Hvs Hf Hr Hn Hfits] Hlen Hne Hs] Hb Hfit Hne' Hpid Hnew Hroom.
  split; [|cbn [grown_parent keys]; rewrite !length_end; lia|by apply Forall_end|by apply Sorted_end].
  split; cbn [grown_parent is_leaf keys values flags rightmost_ptr next]; try done;
    [rewrite !length_end; lia|by apply Forall_end|by apply Forall_end|by destruct first|].
  unfold parent_room in Hroom. rewrite zip_end, zlen_kvs_end, zlen_kv_bytes by done. cbn [fst].
  change (nv_size Z) with 4. unfold zlen at 1. rewrite length_end, Nat2Z.inj_succ. unfold zlen in Hroom at 1.
  unfold zlen in *. lia.
Qed.

Lemma set_next_ok pid p (vs : list RID) : leaf_ok p vs → is_u32 pid → leaf_ok (set_next pid p) vs.
Proof. intros [[] ? ? ?] Hp. split; [by split|done..]. Qed.

(** The halves are leaves whose pairs are those of the leaf. *)
Lemma leaf_halves new_pid p vs mid :
  leaf_ok p vs → members_ok → is_u32 new_pid →
  let n := (length (keys p) / 2)%nat in
  keys p !! n = Some mid →
  leaf_ok (lower_half new_pid p vs) (take n vs) ∧ leaf_ok (upper_half p vs) (drop n vs)
  ∧ pairs (lower_half new_pid p vs) (take n vs) ++ pairs (upper_half p vs) (drop n vs) = pairs p vs
  ∧ Forall (λ k, side mid k = true) (keys (lower_half new_pid p vs))
  ∧ Forall (λ k, side mid k = false) (keys (upper_half p vs)).
Proof.
  intros Hok Hmem Hnew n Hmid. destruct (halves_ok (λ _, new_pid) p vs Hok Hmem Hnew) as (Hl & Hr & Hp).
  destruct (split_sides (λ _, new_pid) p vs mid Hok Hmid) as (Hs1 & Hs2 & _).
  split; [exact Hl|]. split; [apply set_next_ok; [exact Hr|apply (wf_next _ _ (nd_wf _ _ Hok))]|].
  split; [exact Hp|]. split; [exact Hs1|exact Hs2].
Qed.
End nodes.

Section splits.
Context `{U : Uninit} `{N : UninitNode} `{Finite R} (ρ : R → Z).

(** The pages of the leaf, of its parent and of the new leaf. *)
Context (r r0 r1 : R) (p p0 : BTreePage) (vs : list RID) (vs0 : list Z) (mid : BTreeKey) (first : bool).
Hypothesis Hdistinct : r0 ≠ r ∧ r1 ≠ r ∧ r1 ≠ r0.
Hypothesis Hleaf : leaf_ok p vs.
Hypothesis Hparent : node_ok p0 vs0.
Hypothesis Hkeys : keys p0 ≠ [].
Hypothesis Hmembers : members_ok.
Hypothesis Hmid : keys p !! (length (keys p) / 2)%nat = Some mid.
Hypothesis Hbeyond : beyond first (keys p0) mid.
Hypothesis Hroom : parent_room p0 vs0 mid.

Let left_leaf := lower_half (ρ r1) p vs.
Let right_leaf := upper_half p vs.
Let parent := grown_parent first mid (ρ r) (ρ r1) p0 vs0.

Lemma mid_valid : key_fits mid ∧ key_nonempty mid.
Proof.
  split; eapply Forall_lookup_1; [exact (wf_keys _ _ (nd_wf _ _ Hleaf))|exact Hmid
                                 |exact (nd_nonempty _ _ Hleaf)|exact Hmid].
Qed.

Lemma parent_size : zlen (keys p0) < 2 ^ 16.
Proof.
  pose proof (wf_fits _ _ (nd_wf _ _ Hparent)) as Hf. pose proof (zlen_nonneg (kvs_bytes (zip (keys p0) vs0))).
  unfold INDEX_PAGE_HEADER_SIZE, TREE_KV_PTR_SIZE, PAGE_SIZE in *. change (_ + IS_LEAF_OFFSET) with 26 in Hf. lia.
Qed.

(** The steps of the split, from the results of its accesses to the pages. *)
Lemma splitNonRootNode_steps s s1 s2 s3 s4 s5 s6 i :
  0 < ρ r → 0 < ρ r1 → zlen (keys p0) < max_size (tree s) → tree s1 = tree s → tree s6 = add_nodes 1 (tree s) →
  alloc_page true s = Ok (ρ r1, s1) →
  crumb_pid (ρ r0, i) (mkIndex (add_nodes 1 (tree s)) (pool s1) (hp s1) (dk s1)) = Ok (ρ r0, s2) →
  getBtreePage (ρ r0) s2 = Ok (p0, s3) →
  flush_page_of (ρ r0) parent s3 = Ok ((), s4) → flush_page_of (ρ r1) right_leaf s4 = Ok ((), s5) →
  flush_page_of (ρ r) left_leaf s5 = Ok ((), s6) →
  splitNonRootNode RID p (ρ r) [(ρ r0, i)] s = Ok (left_leaf, s6).
Proof.
  intros Hr Hr1 Hmax Ht1 Ht6 Ha Hcr Hg Hf4 Hf5 Hf6. pose proof (lookup_lt_Some _ _ _ Hmid) as Hlt.
  destruct (grown_parent_spec first mid (ρ r) (ρ r1) p0 vs0 Hparent Hkeys Hbeyond parent_size)
    as (q & last_key & Hins & Hlast & Hq).
  cbn [splitNonRootNode]. rewrite (vec_at_ok (keys p) (zlen (keys p) / 2) mid); [|apply Z.div_pos; unfold zlen; lia|].
  2:{ unfold zlen. by rewrite <- Hmid, <- (Nat2Z.inj_div _ 2), Nat2Z.id. }
  lift_step. cbn [val_is_leaf VAL_T_RID]. io_step Ha. do 2 lift_step. rewrite Ht1.
  rewrite (redistribute_leaf_ok p vs (wf_values _ _ (nd_wf _ _ Hleaf)) (nd_length _ _ Hleaf)). lift_step.
  io_step Hcr. io_step Hg. rewrite Hins. lift_step. rewrite Hlast. lift_step. rewrite Hq. fold parent.
  unfold assert_that at 1, BTREE_METADATA_PAGE_ID at 1 2. rewrite (proj2 (Z.eqb_neq (ρ r) 0)), (proj2 (Z.eqb_neq (ρ r1) 0)) by lia.
  cbn [negb andb]. lift_step. io_step Hf4. io_step Hf5. io_step Hf6. lift_step. rewrite Ht6. cbn [add_nodes max_size].
  assert (zlen (keys parent) = 1 + zlen (keys p0)) as ->.
  { unfold parent, zlen. cbn [grown_parent keys]. rewrite length_end. lia. }
  by rewrite (proj2 (Z.ltb_ge _ _)) by lia.
Qed.

(** From the leaf in memory to the last write of the split. *)
Lemma split_leaf_pages out s n i count pl :
  pooled ρ out 0 s (n + 5) → 0 ≤ n → out r1 → (∀ r, 0 < ρ r) → ρ r1 = count + 1 → 0 ≤ count < 65535 →
  index_file (dm_of s) count (max_size (tree s)) (dk s) → node_at s (ρ r0) p0 → node_at s (ρ r) pl →
  zlen (keys p0) < max_size (tree s) →
  ∃ s', splitNonRootNode RID p (ρ r) [(ρ r0, i)] s = Ok (left_leaf, s')
    ∧ pooled ρ (λ r', r' = r) 2 s' n ∧ tree s' = add_nodes 1 (tree s) ∧ dm_of s' = dm_of s
    ∧ node_at s' (ρ r0) parent ∧ node_at s' (ρ r1) right_leaf ∧ node_at s' (ρ r) left_leaf
    ∧ ∀ r' q, r' ≠ r0 → r' ≠ r1 → r' ≠ r → node_at s (ρ r') q → node_at s' (ρ r') q.
Proof.
  intros Hp Hn Hout Hpos Hr1 Hcount Hfile Hn0 Hnr Hmax. destruct Hdistinct as (Hd1 & Hd2 & Hd3).
  assert (∀ r, is_u32 (ρ r)) as Hu32.
  { intros r'. destruct Hp as (c & Hc & _). pose proof (ca_pids _ _ _ _ _ Hc r'). unfold is_u32. lia. }
  destruct mid_valid as [Hfit Hne].
  destruct (leaf_halves (ρ r1) p vs mid Hleaf Hmembers (Hu32 _) Hmid) as (Hlok & Hrok & _).
  pose proof (grown_parent_ok first mid (ρ r) (ρ r1) p0 vs0 Hparent Hbeyond Hfit Hne (Hu32 _) (Hu32 _) Hroom) as Hpok.
  destruct (pooled_alloc ρ out 0 s (n + 5) count _ true r1 Hp Hfile Hcount Hpos Hout Hr1)
    as (s1 & Ha & Hp1 & Ht1 & Hdm1 & Hhas1 & Hk1).
  apply (pooled_set_tree ρ _ _ _ _ (add_nodes 1 (tree s))) in Hp1.
  set (s1' := mkIndex (add_nodes 1 (tree s)) (pool s1) (hp s1) (dk s1)) in *.
  assert (node_at s1' (ρ r0) p0) as Hn1 by (by apply (Hk1 r0)).
  replace (n + 5) with (n + 1 + 1 + 1 + 1 + 1) in Hp1 by lia.
  destruct (pooled_crumb ρ _ 0 s1' _ r0 p0 i Hp1 ltac:(lia) ltac:(lia) Hn1) as (s2 & u2 & Hcr & Hs2 & Hp2 & Hu2).
  assert (node_at s2 (ρ r0) p0) as Hn2 by (by eapply node_at_same).
  destruct (pooled_page ρ _ u2 s2 _ r0 p0 Hp2 ltac:(lia) ltac:(lia) Hn2) as (s3 & u3 & Hg & Hs3 & Hp3 & Hu3 & _).
  pose proof (same_pages_trans _ _ _ Hs2 Hs3) as Hs23.
  destruct (pooled_flush ρ _ u3 s3 _ r0 parent (add_end first (ρ r) vs0) Hp3 ltac:(lia) ltac:(lia)) as (s4 & u4 & Hf4 & Hn4 & Ho4 & Hp4 & Hu4 & _);
    [by eapply node_at_same|exact Hpok|].
  assert (has_page (dm_of s3) (ρ r1) (dk s3)) as Hhas3.
  { destruct Hs23 as (_ & Hdm23 & Hd23). rewrite Hdm23. by apply (has_page_same _ _ (dk s1')). }
  destruct (pooled_flush ρ _ u4 s4 _ r1 right_leaf (drop (length (keys p) / 2) vs) Hp4 ltac:(lia) ltac:(lia)) as (s5 & u5 & Hf5 & Hn5 & Ho5 & Hp5 & Hu5 & Hu5');
    [rewrite (proj1 (proj2 Ho4)); by apply Ho4|exact Hrok|].
  assert (∀ r' q, r' ≠ r0 → r' ≠ r1 → node_at s (ρ r') q → node_at s5 (ρ r') q) as Hk5.
  { intros r' q Hr0' Hr1' Hq. eapply pooled_other; [exact Hp4|exact Ho5|done|].
    eapply pooled_other; [exact Hp3|exact Ho4|done|]. eapply node_at_same; [exact Hs23|]. by apply (Hk1 r'). }
  destruct (pooled_flush ρ _ u5 s5 n r left_leaf (take (length (keys p) / 2) vs) Hp5) as (s6 & u6 & Hf6 & Hn6 & Ho6 & Hp6 & Hu6 & _);
    [lia|lia|by apply (Hk5 r pl)|exact Hlok|].
  assert (u5 ≤ 1)%nat as Hu5''.
  { assert (u5 ≤ S (pred u4))%nat; [|lia]. apply Hu5'. left. by repeat split. }
  assert (tree s6 = add_nodes 1 (tree s)) as Ht6.
  { by rewrite (proj1 Ho6), (proj1 Ho5), (proj1 Ho4), (proj1 Hs23). }
  exists s6. split; [by apply (splitNonRootNode_steps s s1 s2 s3 s4 s5 s6)|].
  split; [|split; [done|split; [|split; [|split; [|split; [done|]]]]]].
  - eapply pooled_mono; [exact Hp6|lia|lia|]. intros r' ->. by right.
  - rewrite (proj1 (proj2 Ho6)), (proj1 (proj2 Ho5)), (proj1 (proj2 Ho4)), (proj1 (proj2 Hs23)). exact Hdm1.
  - eapply pooled_other; [exact Hp5|exact Ho6|done|]. by eapply pooled_other; [exact Hp4|exact Ho5|done|].
  - by eapply pooled_other; [exact Hp5|exact Ho6|done|].
  - intros r' q Hr0' Hr1' Hr' Hq. eapply pooled_other; [exact Hp5|exact Ho6|done|]. by apply Hk5.
Qed.
End splits.

(** ** The tree after the split *)

Section split_tree.
Context `{U : Uninit} `{N : UninitNode} `{Finite R} (ρ : R → Z).

(** What the split of the leaf for a key needs: the leaf [pl] of the root is full, and
    is [p] with the new pair; the root has room for the middle key, which goes
    to an end of it; and the index has one page more, that of [r1]. *)
Record leaf_splits (s : index) (r0 : R) (p0 : BTreePage) (ts : list (node_tree R)) (vs0 : list Z)
    (r : R) (pl : BTreePage) (vl : list RID) (r1 : R) (key : BTreeKey) (val : RID)
    (p : BTreePage) (vs : list RID) (mid : BTreeKey) : Prop := {
  sp_leaf : end_of (below p0 key) ts = Some (Leaf r pl vl);
  sp_new : Forall (λ k, cmpKeys k key ≠ 0) (keys pl);
  sp_valid : valid_pair (key, val);
  sp_page : room ((key, val) :: pairs pl vl) ≤ PAGE_SIZE;
  sp_full : zlen (keys pl) = max_size (tree s);
  sp_insert : insertIntoNode pl key val = Ok p;
  sp_values : values p = LeafRecords vs;
  sp_mid : keys p !! (length (keys p) / 2)%nat = Some mid;
  sp_children : values p0 = InternalChildren vs0;
  sp_beyond : below p0 key = false → beyond false (keys p0) mid;
  sp_room : parent_room p0 vs0 mid;
  sp_parent : zlen (keys p0) < max_size (tree s);
  sp_file : index_file (dm_of s) (node_count (tree s)) (max_size (tree s)) (dk s);
  sp_count : 0 ≤ node_count (tree s) < 65535;
  sp_new_page : (r1 ∉ (nodes (Node r0 p0 ts)).*1) ∧ ρ r1 = node_count (tree s) + 1;
}.

(** The children of the root afterwards: the lower half of a first child twice. *)
Definition split_children (first : bool) (l1 l2 : list (node_tree R)) (lower upper : node_tree R) : list (node_tree R) :=
  if first then lower :: lower :: l2 else l1 ++ [lower; upper].

Lemma split_children_forms first l1 l2 r0 p0 vs0 r pl vl r1 mid p q (vs vs' : list RID) :
  node_forms ρ (Node r0 p0 (l1 ++ Leaf r pl vl :: l2)) → values p0 = InternalChildren vs0 → at_end first l1 l2 →
  node_ok (grown_parent first mid (ρ r) (ρ r1) p0 vs0) (add_end first (ρ r) vs0) → leaf_ok p vs → leaf_ok q vs' →
  node_forms ρ (Node r0 (grown_parent first mid (ρ r) (ρ r1) p0 vs0)
                  (split_children first l1 l2 (Leaf r p vs) (Leaf r1 q vs'))).
Proof.
  intros Hf Hv He Hok Hp Hq. inversion Hf as [|? ? ? w Hok0 Hne Hvs Hts]; subst.
  pose proof (wf_values _ _ (nd_wf _ _ Hok0)) as Hw. rewrite Hv in Hw. injection Hw as <-.
  apply (NodeForm _ _ _ _ (add_end first (ρ r) vs0)); [done| | |].
  { cbn [grown_parent keys]. intros Hnil%(f_equal length). by rewrite length_end in Hnil. }
  - destruct first; cbn in He; subst; cbn in *; [by rewrite Hvs|].
    rewrite fmap_app in *. cbn in *. apply app_inj_tail in Hvs as [-> _]. by rewrite <- app_assoc.
  - intros t Ht. destruct first; cbn in He; subst; cbn in Ht.
    + apply elem_of_cons in Ht as [->|[->|Ht]%elem_of_cons]; [by constructor..|]. apply Hts. by right.
    + apply elem_of_app in Ht as [Ht|[->|Ht]%elem_of_cons]; [apply Hts, elem_of_app; by left|by constructor|].
      apply list_elem_of_singleton in Ht as ->. by constructor.
Qed.

(** The keys on the two sides of the middle one. *)
Lemma grown_below first mid pid new_pid (p0 : BTreePage) vs0 k0 ks k :
  keys p0 = k0 :: ks →
  below (grown_parent first mid pid new_pid p0 vs0) k = if first then side mid k else side k0 k.
Proof. intros Hk. unfold below, grown_parent. cbn [keys]. by destruct first; cbn [add_end]; rewrite ?Hk. Qed.

Lemma side_above mid k0 k : cmpKeys mid k0 < 0 → side k0 k = false → side mid k = false.
Proof.
  unfold side. intros Hlt Hk%Z.ltb_ge. apply Z.ltb_ge. destruct (decide (0 < cmpKeys mid k)) as [Hgt|]; [|lia].
  pose proof (cmpKeys_antisym k mid). pose proof (key_lt_trans k mid k0). unfold key_lt in *.
  pose proof (cmpKeys_antisym k k0). lia.
Qed.

(** The ends of the children, and the side of the keys of the leaf. *)
Lemma split_children_end first (l1 l2 : list (node_tree R)) t lower upper :
  at_end first l1 l2 → l1 ++ l2 ≠ [] →
  ∀ b, end_of b (split_children first l1 l2 lower upper)
    = if decide (b = first) then Some (if first then lower else upper) else end_of b (l1 ++ t :: l2).
Proof.
  intros He Hne b. destruct first; cbn in He; subst; cbn [split_children app] in *.
  - destruct b; [done|]. cbn [decide]. destruct l2; done.
  - destruct b; [by destruct l1|]. cbn. change [lower; upper] with ([lower] ++ [upper]).
    by rewrite app_assoc, last_snoc.
Qed.

Lemma split_leaf_side (l1 l2 : list (node_tree R)) r0 p0 r pl vl key val p (vs : list RID) :
  ordered (Node r0 p0 (l1 ++ Leaf r pl vl :: l2)) → at_end (below p0 key) l1 l2 →
  leaf_ok p vs → pairs p vs ≡ₚ (key, val) :: pairs pl vl → ∀ k, k ∈ keys p → below p0 k = below p0 key.
Proof.
  intros Ho He Hok Hp k Hk. inversion Ho as [|? ? ? _ Hside]; subst.
  rewrite (keys_Permutation _ _ _ Hok Hp), fmap_cons in Hk. apply elem_of_cons in Hk as [->|Hk]; [done|].
  apply list_elem_of_fmap in Hk as (kv & -> & Hkv). pose proof (Hside _ _ (end_of_at _ l1 l2 _ He)) as Hs.
  rewrite Forall_forall in Hs. by apply Hs.
Qed.

Lemma split_children_ordered l1 l2 r0 p0 vs0 k0 ks r pl vl r1 mid key val p (vs : list RID) :
  let first := below p0 key in
  let new_parent := grown_parent first mid (ρ r) (ρ r1) p0 vs0 in
  let lower := Leaf r (lower_half (ρ r1) p vs) (take (length (keys p) / 2) vs) in
  let upper := Leaf r1 (upper_half p vs) (drop (length (keys p) / 2) vs) in
  ordered (Node r0 p0 (l1 ++ Leaf r pl vl :: l2)) → at_end first l1 l2 → l1 ++ l2 ≠ [] → keys p0 = k0 :: ks →
  leaf_ok p vs → pairs p vs ≡ₚ (key, val) :: pairs pl vl → (first = true → cmpKeys mid k0 < 0) →
  Forall (λ k, side mid k = true) (take (length (keys p) / 2) (keys p)) →
  Forall (λ k, side mid k = false) (drop (length (keys p) / 2) (keys p)) →
  ordered (Node r0 new_parent (split_children first l1 l2 lower upper))
  ∧ visible (Node r0 new_parent (split_children first l1 l2 lower upper))
    ≡ₚ visible (if first then lower else upper)
       ++ default [] (visible <$> end_of (negb first) (l1 ++ Leaf r pl vl :: l2)).
Proof.
  intros first new_parent lower upper Ho He Hne Hk0 Hok Hp Hmid Hlow Hup.
  inversion Ho as [|? ? ? Hord Hside]; subst.
  pose proof (split_children_end first l1 l2 (Leaf r pl vl) lower upper He Hne) as Hend.
  pose proof (split_leaf_side l1 l2 r0 p0 r pl vl key val p vs Ho He Hok Hp) as Hkeys. fold first in Hkeys.
  unfold new_parent. clear new_parent. clearbody first. split.
  - constructor; intros b t Ht; rewrite Hend in Ht; case_decide as Hb.
    + injection Ht as <-. destruct first; constructor.
    + by eapply Hord.
    + injection Ht as <-. subst b. apply Forall_forall. intros [k v] Hin. cbn [fst].
      rewrite (grown_below _ _ _ _ _ _ k0 ks k Hk0). destruct first; apply elem_of_zip_l in Hin; cbn in Hin.
      * rewrite Forall_forall in Hlow. by apply Hlow.
      * assert (k ∈ keys p) as Hin' by (rewrite <- (take_drop (length (keys p) / 2) (keys p)); apply elem_of_app; by right).
        pose proof (Hkeys k Hin') as Hb. unfold below in Hb. by rewrite Hk0 in Hb.
    + pose proof (Hside _ _ Ht) as Hs. eapply Forall_impl; [exact Hs|]. intros kv Hkv. cbv beta in *.
      rewrite (grown_below _ _ _ _ _ _ k0 ks _ Hk0). unfold below in Hkv. rewrite Hk0 in Hkv.
      destruct first; [|exact Hkv]. destruct b; [done|]. apply (side_above mid k0); [by apply Hmid|done].
  - rewrite visible_node, !Hend. destruct first; cbn [decide decide_rel negb]; [done|]. apply Permutation_app_comm.
Qed.

Context (fuel : nat) (key : BTreeKey) (val : RID) (s : index) (n : Z).
Context (r0 r r1 : R) (p0 pl p : BTreePage) (ts : list (node_tree R)) (vs0 : list Z) (vl vs : list RID) (mid : BTreeKey).
Hypothesis Hsplits : leaf_splits s r0 p0 ts vs0 r pl vl r1 key val p vs mid.
Hypothesis Hmembers : members_ok.
Hypothesis Hpos : ∀ r, 0 < ρ r.
Hypothesis Hn : 0 ≤ n.

Let t := Node r0 p0 ts.
Let first := below p0 key.
Let lower := lower_half (ρ r1) p vs.
Let upper := upper_half p vs.
Let lower_values := take (length (keys p) / 2) vs.
Let upper_values := drop (length (keys p) / 2) vs.
Let new_parent := grown_parent first mid (ρ r) (ρ r1) p0 vs0.

(** An insertion that splits, from the results of its steps. *)
Lemma insert_full_steps q s1 s2 s3 crumbs :
  0 < root_pid (tree s) → findLeaf fuel key s = Ok ((pl, crumbs, ρ r), s1) → tree s1 = tree s → crumbs ≠ [] →
  max_size (tree s) < zlen (keys p) → splitNonRootNode RID p (ρ r) crumbs s1 = Ok (q, s2) →
  flush_page_of (ρ r) q s2 = Ok ((), s3) → insert fuel key val s = Ok (ρ r, s3).
Proof.
  intros Hroot Hfind Ht1 Hcr Hmax Hsp Hfl. unfold insert. io_step (ensure_root_old _ Hroot). io_step Hfind.
  unfold assert_that at 1, BTREE_METADATA_PAGE_ID at 1. rewrite (proj2 (Z.eqb_neq (ρ r) 0)) by (pose proof (Hpos r); lia).
  cbn [negb]. lift_step. rewrite existsb_none by apply Hsplits. rewrite (sp_insert _ _ _ _ _ _ _ _ _ _ _ _ _ _ Hsplits). lift_step.
  erewrite io_bind_ok; [by io_step Hfl|]. unfold split_if_full. lift_step. rewrite Ht1, (proj2 (Z.ltb_lt _ _)) by lia.
  unfold assert_that at 1, BTREE_METADATA_PAGE_ID at 1. rewrite (proj2 (Z.eqb_neq (root_pid (tree s)) 0)) by lia.
  cbn [negb]. lift_step. destruct crumbs; [done|exact Hsp].
Qed.

(** The leaf and the way to it. *)
Lemma split_route :
  node_forms ρ t → route ρ key t = Some ([(ρ r0, if first then 0 else -1)], (r, (pl, vl)))
    ∧ (r, (pl, vl)) ∈ leaves t ∧ leaf_ok pl vl
    ∧ leaf_ok p vs ∧ pairs p vs ≡ₚ (key, val) :: pairs pl vl ∧ zlen (keys p) = zlen (keys pl) + 1.
Proof.
  intros Hf. pose proof Hsplits as [Hend Hnew (Hk1 & Hk2 & Hk3 & Hk4) Hpage _ Hins Hvs _ _ _ _ _ _ _ _].
  assert (leaf_ok pl vl) as Hokl.
  { inversion Hf as [|? ? ? w _ _ _ Hts]; subst. pose proof (Hts _ (end_of_in _ _ _ Hend)) as Hl. by inversion Hl. }
  split; [unfold t; by rewrite (route_node _ _ _ _ _ _ Hend)|].
  split; [apply list_elem_of_bind; exists (Leaf r pl vl); split; [by left|by eapply end_of_in]|]. split; [done|].
  destruct (leaf_insert pl vl key val Hokl Hnew Hk1 Hk2 Hk3 Hk4 Hpage) as (p' & vs' & Hins' & Hok' & Hp' & Hlen & _).
  rewrite Hins in Hins'. injection Hins' as <-. pose proof (wf_values _ _ (nd_wf _ _ Hok')) as Hv. rewrite Hvs in Hv.
  injection Hv as <-. done.
Qed.

(** The insertion writes the halves and the root. *)
Lemma insert_splits :
  deep_tree ρ s t (n + Z.of_nat (height t) + 7) → pooled ρ (λ r', r' ∈ (leaves t).*1 ∨ r' = r1) 1 s (n + Z.of_nat (height t) + 7) →
  (height t < fuel)%nat → beyond first (keys p0) mid → node_ok p0 vs0 → r0 ≠ r →
  ∃ s', insert fuel key val s = Ok (ρ r, s') ∧ pooled ρ (λ _, False) 2 s' n
    ∧ root_pid (tree s') = root_pid (tree s)
    ∧ node_at s' (ρ r0) new_parent ∧ node_at s' (ρ r1) upper ∧ node_at s' (ρ r) lower
    ∧ ∀ r' q, r' ≠ r0 → r' ≠ r1 → r' ≠ r → node_at s (ρ r') q → node_at s' (ρ r') q.
Proof.
  intros Ht Hp Hh Hb Hok0 Hr0. pose proof Ht as [[Hf _ Hd Hnd _ Hroot] _].
  destruct (split_route Hf) as (Hroute & Hl & Hokl & Hok & _ & Hlen).
  pose proof Hsplits as [Hend _ _ _ Hfull _ _ Hmid _ _ Hproom Hmax Hfile Hcount [Hr1 Hr1p]].
  pose proof (leaf_page _ _ _ _ Hl) as [Hl1 Hl2]. pose proof (Hd _ _ (leaf_node _ _ _ _ Hl)) as Hnl.
  assert (r1 ≠ r ∧ r1 ≠ r0) as [Hr1r Hr1r0] by (split; intros ->; apply Hr1; [done|by left]).
  destruct (findLeaf_route ρ fuel key t s (λ r', r' ∈ (leaves t).*1 ∨ r' = r1) 1 (n + 1 + 5) Hf Hd Hh)
    as (cr & x & px & vx & s1 & u & Hr & Hfind & Hs1 & Hp1 & _ & Hu); [|exact Hroot| |lia|lia|].
  { intros r' Hr' [Hlf| ->]; [by apply (inner_not_leaf t r' Hnd Hr')|]. apply Hr1. rewrite nodes_pages. apply elem_of_app. by left. }
  { eapply pooled_mono; [exact Hp|lia|done|done]. }
  rewrite Hroute in Hr. injection Hr as <- <- <- <-. specialize (Hu (or_introl Hl1)). replace u with 0%nat in * by (cbn in Hu; lia).
  pose proof Hs1 as (Ht1 & Hdm1 & _).
  destruct (split_leaf_pages ρ r r0 r1 p p0 vs vs0 mid first (conj Hr0 (conj Hr1r Hr1r0)) Hok Hok0
              ltac:(inversion Hf; congruence) Hmembers Hmid Hb Hproom _ s1 (n + 1) (if first then 0 else -1) (node_count (tree s)) pl Hp1)
    as (s2 & Hsp & Hp2 & Htr2 & Hdm2 & Hn0 & Hn1 & Hnr & Hk);
    [lia|split; [by right|done]|exact Hpos|exact Hr1p|exact Hcount|rewrite Ht1; by eapply index_file_same
    |eapply node_at_same; [exact Hs1|apply (Hd r0 p0); by left]|by eapply node_at_same|by rewrite Ht1|].
  destruct (leaf_halves (ρ r1) p vs mid Hok Hmembers) as (Hlok & _); [|exact Hmid|].
  { destruct Hp as (c & Hc & _). pose proof (ca_pids _ _ _ _ _ Hc r1). unfold is_u32. lia. }
  destruct (pooled_flush ρ _ 2 s2 n r lower lower_values Hp2 ltac:(lia) Hn (proj1 Hnr) Hlok) as (s3 & u3 & Hfl & Hn3 & Ho3 & Hp3 & _ & Hu3).
  specialize (Hu3 eq_refl). cbn in Hu3. exists s3. split; [|split; [|split; [|split; [|split; [|split; [done|]]]]]].
  - eapply insert_full_steps; [rewrite Hroot; apply Hpos|exact Hfind|exact Ht1|done|lia|exact Hsp|exact Hfl].
  - eapply pooled_mono; [exact Hp3|lia|lia|done].
  - rewrite (proj1 Ho3), Htr2. cbn. by rewrite Ht1.
  - by eapply pooled_other; [exact Hp2|exact Ho3| |].
  - by eapply pooled_other; [exact Hp2|exact Ho3| |].
  - intros r' q Hr0' Hr1' Hr' Hq. eapply pooled_other; [exact Hp2|exact Ho3|done|]. apply Hk; [done..|]. by eapply node_at_same.
Qed.

(** The root with its two new children. *)
Lemma split_on_disk s' l1 l2 :
  ts = l1 ++ Leaf r pl vl :: l2 → on_disk ρ s t → NoDup (nodes t).*1 →
  node_at s' (ρ r0) new_parent → node_at s' (ρ r1) upper → node_at s' (ρ r) lower →
  (∀ r' q, r' ≠ r0 → r' ≠ r1 → r' ≠ r → node_at s (ρ r') q → node_at s' (ρ r') q) →
  on_disk ρ s' (Node r0 new_parent (split_children first l1 l2 (Leaf r lower lower_values) (Leaf r1 upper upper_values))).
Proof.
  intros Hts Hd Hnd Hn0 Hn1 Hnr Hk r' q. unfold t in *. rewrite Hts in *.
  destruct (sp_new_page _ _ _ _ _ _ _ _ _ _ _ _ _ _ Hsplits) as [Hr1 _].
  assert (∀ t', t' ∈ l1 ++ l2 → (r', q) ∈ nodes t' → node_at s' (ρ r') q) as Hold.
  { intros t' Ht' Hq. assert ((r', q) ∈ (l1 ++ l2) ≫= nodes) as Hin by (apply list_elem_of_bind; by exists t').
    assert (r' ∈ ((l1 ++ l2) ≫= nodes).*1) as Hin1 by (by apply (list_elem_of_fmap_2 fst) in Hin).
    assert ((nodes (Node r0 p0 (l1 ++ Leaf r pl vl :: l2))).*1 ≡ₚ r0 :: r :: ((l1 ++ l2) ≫= nodes).*1) as Hall.
    { cbn [nodes]. rewrite fmap_cons, !bind_app, bind_cons, !fmap_app. cbn. constructor. by rewrite Permutation_middle. }
    rewrite Hall in Hnd, Hr1. apply NoDup_cons in Hnd as [H1 [H2 _]%NoDup_cons].
    apply not_elem_of_cons in Hr1 as [_ [_ H3]%not_elem_of_cons].
    apply Hk; [intros ->; apply H1; by right|by intros ->|by intros ->|]. apply Hd. cbn [nodes]. right.
    rewrite bind_app, bind_cons. rewrite bind_app in Hin. apply elem_of_app in Hin as [?|?]; apply elem_of_app; [by left|right].
    apply elem_of_app. by right. }
  cbn [nodes]. intros [[= -> ->]|(t' & Hq & Ht')%list_elem_of_bind]%elem_of_cons; [done|].
  destruct first; cbn [split_children] in Ht'.
  - apply elem_of_cons in Ht' as [->|[->|Ht']%elem_of_cons];
      [apply list_elem_of_singleton in Hq; by simplify_eq..|]. apply (Hold t'); [|done]. apply elem_of_app. by right.
  - apply elem_of_app in Ht' as [Ht'|[->|Ht']%elem_of_cons]; [apply (Hold t'); [|done]; apply elem_of_app; by left|..].
    + apply list_elem_of_singleton in Hq. by simplify_eq.
    + apply list_elem_of_singleton in Ht' as ->. apply list_elem_of_singleton in Hq. by simplify_eq.
Qed.
End split_tree.

Section loss.
Context `{U : Uninit} `{N : UninitNode} `{Finite R} (ρ : R → Z).

Lemma max_list_le m (l : list nat) : (∀ x, x ∈ l → (x ≤ m)%nat) → (max_list l ≤ m)%nat.
Proof.
  induction l as [|x l IH]; intros Hl; cbn; [lia|]. apply Nat.max_lub; [apply Hl; by left|].
  apply IH. intros y Hy. apply Hl. by right.
Qed.

(** The children of the root after the split are not higher. *)
Lemma split_height first l1 l2 (r0 r r1 : R) p0 q pl vl p vs p' vs' :
  (height (Node r0 q (split_children first l1 l2 (Leaf r p vs) (Leaf r1 p' vs')))
   ≤ height (Node r0 p0 (l1 ++ Leaf r pl vl :: l2)))%nat.
Proof.
  cbn [height]. apply le_n_S, max_list_le. intros x (t & -> & Ht)%list_elem_of_fmap.
  assert (height t = 0%nat ∨ t ∈ l1 ++ Leaf r pl vl :: l2) as [->|Hin]; [|lia|].
  { destruct first; cbn [split_children] in Ht.
    - apply elem_of_cons in Ht as [->|[->|Ht]%elem_of_cons]; [by left..|right]. apply elem_of_app. right. by right.
    - apply elem_of_app in Ht as [Ht|[->|Ht]%elem_of_cons]; [right; apply elem_of_app; by left|by left|].
      apply list_elem_of_singleton in Ht as ->. by left. }
  apply max_list_elem_of_le. by apply list_elem_of_fmap_2.
Qed.

(** The root before the split. *)
Lemma split_parent key mid r0 p0 ts vs0 r pl vl p vs val :
  node_forms ρ (Node r0 p0 ts) → ordered (Node r0 p0 ts) → NoDup (nodes (Node r0 p0 ts)).*1 →
  values p0 = InternalChildren vs0 → end_of (below p0 key) ts = Some (Leaf r pl vl) →
  leaf_ok p vs → pairs p vs ≡ₚ (key, val) :: pairs pl vl → keys p !! (length (keys p) / 2)%nat = Some mid →
  (below p0 key = false → beyond false (keys p0) mid) →
  ∃ k0 ks l1 l2, keys p0 = k0 :: ks ∧ node_ok p0 vs0 ∧ r0 ≠ r ∧ ts = l1 ++ Leaf r pl vl :: l2
    ∧ at_end (below p0 key) l1 l2 ∧ l1 ++ l2 ≠ [] ∧ beyond (below p0 key) (keys p0) mid.
Proof.
  intros Hf Ho Hnd Hch Hend Hok Hp Hmid Hb. pose proof Hf as Hf'. inversion Hf' as [|? ? ? w Hok0 Hne Hvs Hts]; subst.
  pose proof (wf_values _ _ (nd_wf _ _ Hok0)) as Hw. rewrite Hch in Hw. injection Hw as <-.
  destruct (end_of_split _ _ _ Hend) as (l1 & l2 & -> & He). destruct (keys p0) as [|k0 ks] eqn:Hk; [done|].
  exists k0, ks, l1, l2. split; [done|]. split; [done|]. split; [|split; [done|split; [done|split]]].
  - intros ->. cbn [nodes] in Hnd. rewrite fmap_cons in Hnd. apply NoDup_cons in Hnd as [Hno _]. apply Hno. cbn [fst].
    rewrite bind_app, bind_cons, !fmap_app. apply elem_of_app. right. by left.
  - intros Hnil. apply (f_equal length) in Hnil, Hvs. pose proof (nd_length _ _ Hok0) as Hl. rewrite Hk in Hl.
    rewrite length_fmap, !length_app in *. cbn [length] in *. lia.
  - pose proof (split_leaf_side l1 l2 r0 p0 r pl vl key val p vs Ho He Hok Hp mid (list_elem_of_lookup_2 _ _ _ Hmid)) as Hside.
    destruct (below p0 key); [|by apply Hb]. unfold below in Hside. rewrite Hk in Hside. apply Z.ltb_lt in Hside.
    pose proof (cmpKeys_antisym mid k0). pose proof (nd_sorted _ _ Hok0) as Hs. rewrite Hk in Hs.
    apply (Sorted_StronglySorted key_lt_trans), StronglySorted_inv in Hs as [_ Hs].
    constructor; [lia|]. eapply Forall_impl; [exact Hs|]. intros k Hk'. apply (key_lt_trans mid k0 k); [|done].
    unfold key_lt. lia.
Qed.

(** The tree afterwards, and the pairs of the half that it hides. *)
Lemma split_tree_after key val s r0 p0 ts vs0 r pl vl r1 p vs mid n :
  let first := below p0 key in
  let n2 := (length (keys p) / 2)%nat in
  let lower := lower_half (ρ r1) p vs in
  let upper := upper_half p vs in
  deep_tree ρ s (Node r0 p0 ts) n → leaf_splits ρ s r0 p0 ts vs0 r pl vl r1 key val p vs mid → members_ok →
  ∃ l1 l2 rest, beyond first (keys p0) mid ∧ node_ok p0 vs0 ∧ r0 ≠ r ∧ ts = l1 ++ Leaf r pl vl :: l2
    ∧ let t' := Node r0 (grown_parent first mid (ρ r) (ρ r1) p0 vs0)
                  (split_children first l1 l2 (Leaf r lower (take n2 vs)) (Leaf r1 upper (drop n2 vs))) in
      let lost := if first then zip (keys upper) (drop n2 vs) else zip (keys lower) (take n2 vs) in
      let kept := (if first then zip (keys lower) (take n2 vs) else zip (keys upper) (drop n2 vs)) ++ rest in
      node_forms ρ t' ∧ ordered t' ∧ visible t' ≡ₚ kept
      ∧ kept ++ lost ≡ₚ (key, val) :: visible (Node r0 p0 ts) ∧ lost ≠ [].
Proof.
  intros first n2 lower upper Ht Hsp Hmem. pose proof Ht as [[Hf Ho Hd Hnd _ Hroot] Hpool].
  destruct (split_route ρ _ _ _ _ _ _ _ _ _ _ _ _ _ _ Hsp Hf) as (_ & _ & _ & Hok & Hpairs & Hlen).
  pose proof Hsp as [Hend _ _ _ Hfull _ _ Hmid Hch Hb Hproom Hmax _ _ _].
  destruct (split_parent key mid r0 p0 ts vs0 r pl vl p vs val Hf Ho Hnd Hch Hend Hok Hpairs Hmid Hb)
    as (k0 & ks & l1 & l2 & Hk0 & Hok0 & Hr0 & -> & He & Hne & Hbeyond). fold first in Hbeyond, He.
  assert (∀ r, is_u32 (ρ r)) as Hu32.
  { intros r'. destruct Hpool as (c & Hc & _). pose proof (ca_pids _ _ _ _ _ Hc r'). unfold is_u32. lia. }
  destruct (leaf_halves (ρ r1) p vs mid Hok Hmem (Hu32 _) Hmid) as (Hlok & Huok & Hhalves & Hlow & Hup).
  destruct (mid_valid p vs mid Hok Hmid) as [Hfit Hmne].
  destruct (split_children_ordered ρ l1 l2 r0 p0 vs0 k0 ks r pl vl r1 mid key val p vs Ho He Hne Hk0 Hok Hpairs) as [Ho' Hvis];
    [|exact Hlow|exact Hup|].
  { fold first. intros Hfirst. rewrite Hfirst in Hbeyond. unfold beyond in Hbeyond. rewrite Hk0 in Hbeyond.
    by apply Forall_inv in Hbeyond. }
  exists l1, l2, (default [] (visible <$> end_of (negb first) (l1 ++ Leaf r pl vl :: l2))).
  split; [done|]. split; [done|]. split; [done|]. split; [done|]. cbv zeta. split; [|split; [exact Ho'|split; [|split]]].
  - apply (split_children_forms ρ first l1 l2 r0 p0 vs0 r pl vl r1 mid lower upper); try done. by apply grown_parent_ok.
  - etrans; [exact Hvis|]. fold first. by destruct first.
  - rewrite (visible_at r0 p0 first l1 _ l2 He). cbn [visible].
    unfold pairs in Hhalves. fold lower upper n2 in Hhalves. rewrite app_comm_cons, <- Hpairs.
    unfold pairs. rewrite <- Hhalves. destruct first; solve_Permutation.
  - pose proof (lookup_lt_Some _ _ _ Hmid) as Hlt. pose proof (nd_length _ _ Hok) as Hlv.
    assert (0 < length (keys p) / 2)%nat as Hpos2.
    { apply Nat.div_str_pos. unfold zlen in *. rewrite Hk0 in Hmax. cbn in Hmax. lia. }
    intros Hnil%(f_equal length). unfold n2, lower, upper, lower_half, upper_half in Hnil.
    destruct first; rewrite length_zip_with in Hnil; cbn [keys set_next set_values set_keys length] in Hnil;
      rewrite ?length_take, ?length_drop in Hnil; lia.
Qed.

(** C10: the split of a leaf below the root hides a half of its pairs. A new pair for a
    leaf of the root that is full is inserted without an error, and the halves of
    the leaf and the root are written; but the half that the search can still reach
    is the lower one of a first leaf, whose upper half has no parent, and the upper
    one of a last leaf, whose lower half is behind a middle child. The pairs of the
    other half, one at least, are lost: whatever the key, the search that follows
    ends in a leaf that has just the remaining pairs with the key. *)
Theorem leaf_split_loses fuel key val s r0 p0 ts vs0 r pl vl r1 p vs mid :
  let t := Node r0 p0 ts in
  let first := below p0 key in
  deep_tree ρ s t (2 * Z.of_nat (height t) + 8) →
  pooled ρ (λ r', r' ∈ (leaves t).*1 ∨ r' = r1) 1 s (2 * Z.of_nat (height t) + 8) →
  leaf_splits ρ s r0 p0 ts vs0 r pl vl r1 key val p vs mid → members_ok → (∀ r, 0 < ρ r) → (height t < fuel)%nat →
  ∃ s' kept lost, insert fuel key val s = Ok (ρ r, s')
    ∧ node_at s' (ρ r) (lower_half (ρ r1) p vs) ∧ node_at s' (ρ r1) (upper_half p vs)
    ∧ node_at s' (ρ r0) (grown_parent first mid (ρ r) (ρ r1) p0 vs0)
    ∧ kept ++ lost ≡ₚ (key, val) :: visible t ∧ lost ≠ []
    ∧ lost = (if first then zip (keys (upper_half p vs)) (drop (length (keys p) / 2) vs)
              else zip (keys (lower_half (ρ r1) p vs)) (take (length (keys p) / 2) vs))
    ∧ ∀ key', ∃ leaf vs' crumbs pid s2, findLeaf fuel key' s' = Ok ((leaf, crumbs, pid), s2)
        ∧ values leaf = LeafRecords vs' ∧ ∀ val', (key', val') ∈ kept ↔ (key', val') ∈ zip (keys leaf) vs'.
Proof.
  intros t first Ht Hp Hsp Hmem Hpos Hh. subst first. pose proof Ht as [[Hf Ho Hd Hnd _ Hroot] _].
  destruct (split_tree_after key val s r0 p0 ts vs0 r pl vl r1 p vs mid _ Ht Hsp Hmem)
    as (l1 & l2 & rest & Hbeyond & Hok0 & Hr0 & Hts & Hf' & Ho' & Hvis & Hsum & Hlost).
  destruct (insert_splits ρ fuel key val s (Z.of_nat (height t) + 1) r0 r r1 p0 pl p ts vs0 vl vs mid Hsp Hmem Hpos ltac:(lia))
    as (s' & Hins & Hp' & Hroot' & Hn0 & Hn1 & Hnr & Hk); [by replace (_ + 7) with (2 * Z.of_nat (height t) + 8) by (unfold t; lia)
      |by replace (_ + 7) with (2 * Z.of_nat (height t) + 8) by (unfold t; lia)|exact Hh|exact Hbeyond|exact Hok0|exact Hr0|].
  pose proof (split_on_disk ρ _ _ _ _ _ _ _ _ _ _ _ _ _ _ Hsp s' l1 l2 Hts Hd Hnd Hn0 Hn1 Hnr Hk) as Hd'.
  eexists s', _, _. split; [exact Hins|]. split; [exact Hnr|]. split; [exact Hn1|]. split; [exact Hn0|].
  split; [exact Hsum|]. split; [exact Hlost|]. split; [done|]. intros key'.
  set (t' := Node r0 _ _) in Hd'. fold t' in Hf', Ho', Hvis.
  assert (height t' ≤ height t)%nat as Hht by (unfold t; rewrite Hts; apply split_height).
  destruct (findLeaf_route ρ fuel key' t' s' (λ _, False) 2 0 Hf' Hd' ltac:(lia))
    as (cr & x & px & vx & s2 & u & Hr & Hfind & _); [by intros ? _ []|by rewrite Hroot', Hroot| |lia|done|].
  { eapply pooled_mono; [exact Hp'|lia|lia|done]. }
  destruct (route_leaf ρ key' t' Hf') as (? & ? & ? & ? & Hr' & Hokx & _). rewrite Hr in Hr'. injection Hr' as <- <- <- <-.
  exists px, vx, cr, (ρ x), s2. split; [exact Hfind|]. split; [exact (wf_values _ _ (nd_wf _ _ Hokx))|].
  intros val'. etrans; [|by apply (route_visible ρ key' t' cr x px vx)]. by rewrite Hvis.
Qed.
End loss.

(** ** Witness *)

#[local] Existing Instance zero_uninit.
#[local] Instance zero_node : UninitNode := Build_UninitNode 0 0 0.

(** A full leaf and a leaf with two letters below a root. *)
Definition full_tree : node_tree (fin 8) := sample_node 0 "G" [2] 3 [sample_leaf 1 "BCEF"; sample_leaf 2 "GH"].
Definition full_root : BTree := mkBTree BTREE_INDEX 4 1 3.
Definition full_state : index := tree_state full_root full_tree.
Definition five_letters : BTreePage := root_page (sample_leaf 1 "BCDEF").

Lemma full_deep n : 0 ≤ n < 2 ^ 31 - 2 → deep_tree page_number full_state full_tree n.
Proof.
  intros Hn. apply deep_opened; [done|by_compute|done|exact page_number_pids|exact page_number_apart|done| | | |done|].
  - apply (NodeForm _ _ _ _ [2]); [sample_form|done|done|].
    intros t [->|[->|Hin%not_elem_of_nil]%elem_of_cons]%elem_of_cons; [..|done]; constructor; sample_form.
  - sample_sides.
  - apply (bool_decide_unpack _). by vm_compute.
  - apply tree_on_disk. by vm_compute.
Qed.

Lemma full_splits :
  leaf_splits page_number full_state 0%fin (root_page full_tree) [sample_leaf 1 "BCEF"; sample_leaf 2 "GH"] [2]
    1%fin (root_page (sample_leaf 1 "BCEF")) (letters "BCEF").*2 3%fin [code "D"] (mkRID (code "D") 1)
    five_letters (letters "BCDEF").*2 [code "D"].
Proof.
  split; [done|by repeat constructor|by repeat split|by_compute|done|by vm_compute|done|done|done|done|by_compute|done| |done|].
  - split; [done|by_compute|by vm_compute..].
  - split; [|done]. apply (bool_decide_unpack _). by vm_compute.
Qed.

(** The letter that is inserted is among those that are lost. *)
Lemma leaf_split_loses_witness :
  ∃ s' kept lost, insert 2 [code "D"] (mkRID (code "D") 1) full_state = Ok (2, s')
    ∧ kept ++ lost ≡ₚ letter "D" :: letters "BCEFGH" ∧ lost = letters "DEF"
    ∧ node_at s' 4 (upper_half five_letters (letters "BCDEF").*2)
    ∧ ∀ key', ∃ leaf vs' crumbs pid s2, findLeaf 2 key' s' = Ok ((leaf, crumbs, pid), s2)
        ∧ values leaf = LeafRecords vs' ∧ ∀ val', (key', val') ∈ kept ↔ (key', val') ∈ zip (keys leaf) vs'.
Proof.
  destruct (leaf_split_loses page_number 2 [code "D"] (mkRID (code "D") 1) full_state 0%fin (root_page full_tree)
              [sample_leaf 1 "BCEF"; sample_leaf 2 "GH"] [2] 1%fin (root_page (sample_leaf 1 "BCEF")) (letters "BCEF").*2 3%fin
              five_letters (letters "BCDEF").*2 [code "D"])
    as (s' & kept & lost & Hins & _ & Hup & _ & Hsum & _ & Hlost & Hfind);
    [by apply full_deep| |exact full_splits|done|apply page_number_pids|by apply Nat.ltb_lt|].
  - apply (pooled_mono page_number (λ _, True) _ 0 1 _ 10 10); [|done|lia|done].
    apply new_bpm_pooled; [done|by_compute|done| |exact page_number_apart|done].
    intros r. pose proof (page_number_pids r). lia.
  - exists s', kept, lost. split; [exact Hins|]. split; [exact Hsum|]. split; [exact Hlost|]. split; [exact Hup|exact Hfind].
Defined.
