(* ===== verification/TreeLevels.v ===== *)
(** * TreeLevels: the way to a leaf as the levels of a tree above it

    A tree is a subtree with the nodes above it, each with the subtrees on its left
    and on its right. What holds of the whole tree follows from what holds of
    the subtree and of the levels. Trees whose keys separate all subtrees. *)
From S2P Require Import Prelude Serialize IndexPage Memory Hash NumTable CircularList ClockReplacer Disk Bpm BTree Cache LeafTree TwoLeaves SmallTree PoolRoom DeepTree.

#[warnings="-register-all"]
Record level (R : Type) := mkLevel {
  lv_page : R; lv_node : BTreePage; lv_left : list (node_tree R); lv_right : list (node_tree R) }.
Arguments mkLevel {R} _ _ _ _.
Arguments lv_page {R} _.
Arguments lv_node {R} _.
Arguments lv_left {R} _.
Arguments lv_right {R} _.

Section levels.
Context {R : Type} (ρ : R → Z) (key : BTreeKey).
Implicit Types (t : node_tree R) (l : level R) (ls : list (level R)).

(** The node of a level with a subtree, and a tree of levels, the lowest first. *)
Definition fill l t : node_tree R := Node (lv_page l) (lv_node l) (lv_left l ++ t :: lv_right l).
Fixpoint plug ls t : node_tree R := match ls with [] => t | l :: ls => plug ls (fill l t) end.

(** The levels that a search for the key goes through, and its crumbs. *)
Definition on_way l : Prop := at_end (below (lv_node l) key) (lv_left l) (lv_right l).
Definition crumb_of l : Z * Z := (ρ (lv_page l), if below (lv_node l) key then 0 else -1).

Lemma plug_app ls ls' t : plug (ls ++ ls') t = plug ls' (plug ls t).
Proof. revert t. induction ls as [|l ls IH]; intros t; [done|]. apply IH. Qed.

(** Every tree is the leaf for the key with the levels above it. *)
Lemma plug_leaf t :
  node_forms ρ t → ∃ ls r p vs, t = plug ls (Leaf r p vs) ∧ Forall on_way ls.
Proof.
  revert t. refine (route_ind ρ key _ _ _); [intros r p vs; by exists [], r, p, vs|].
  intros r0 p0 l1 t l2 _ He _ _ (ls & r & p & vs & -> & Hls).
  exists (ls ++ [mkLevel r0 p0 l1 l2]), r, p, vs. rewrite plug_app. split; [done|].
  apply Forall_app. split; [done|]. by constructor.
Qed.

Lemma plug_route ls t :
  Forall on_way ls → route ρ key (plug ls t) = x ← route ρ key t; Some (x.1 ++ (crumb_of <$> ls), x.2).
Proof.
  intros Hls. revert t. induction Hls as [|l ls Hl _ IH]; intros t; cbn [plug].
  - destruct (route ρ key t) as [[cr x]|]; [|done]. cbn. by rewrite app_nil_r.
  - rewrite IH. unfold fill. rewrite route_at by done. destruct (route ρ key t) as [[cr x]|]; [|done].
    cbn. by rewrite <- app_assoc.
Qed.

Lemma plug_put p' vs' ls t : Forall on_way ls → put key p' vs' (plug ls t) = plug ls (put key p' vs' t).
Proof.
  intros Hls. revert t. induction Hls as [|l ls Hl _ IH]; intros t; [done|]. cbn [plug]. rewrite IH. unfold fill.
  by rewrite put_at.
Qed.

(** *** A subtree for another *)

Lemma fill_forms l t : node_forms ρ (fill l t) → node_forms ρ t.
Proof. intros Hf. inversion Hf as [|? ? ? vs _ _ _ Hts]; subst. apply Hts, elem_of_app. right. by left. Qed.

Lemma fill_forms_with l t t' :
  node_forms ρ (fill l t) → node_forms ρ t' → root_of t' = root_of t → node_forms ρ (fill l t').
Proof.
  intros Hf Ht' Hroot. inversion Hf as [|? ? ? vs Hok Hne Hvs Hts]; subst. apply (NodeForm _ _ _ _ vs); [done..| |].
  - rewrite Hvs, !fmap_app, !fmap_cons. cbn. by rewrite Hroot.
  - intros x Hx. apply elem_of_app in Hx as [Hx|[->|Hx]%elem_of_cons]; [| exact Ht' |]; apply Hts, elem_of_app;
      [by left|right; by right].
Qed.

Lemma plug_forms ls t : node_forms ρ (plug ls t) → node_forms ρ t.
Proof. revert t. induction ls as [|l ls IH]; intros t Hf; [done|]. by apply (fill_forms l), IH. Qed.

Lemma plug_forms_with ls t t' :
  node_forms ρ (plug ls t) → node_forms ρ t' → root_of t' = root_of t → node_forms ρ (plug ls t').
Proof.
  revert t t'. induction ls as [|l ls IH]; intros t t' Hf Ht' Hroot; [done|].
  apply (IH (fill l t)); [done| |done]. apply (fill_forms_with l t); [|done|done]. by apply (plug_forms ls).
Qed.

Lemma plug_root ls t t' : root_of t' = root_of t → root_of (plug ls t') = root_of (plug ls t).
Proof. revert t t'. induction ls as [|l ls IH]; intros t t' Ht; [done|]. by apply IH. Qed.

Lemma plug_height ls t : (length ls + height t ≤ height (plug ls t))%nat.
Proof.
  revert t. induction ls as [|l ls IH]; intros t; [done|]. etrans; [|apply IH].
  assert (height t < height (fill l t))%nat as Hlt; [|cbn [length]; lia].
  cbn [fill height]. apply Nat.lt_succ_r, max_list_elem_of_le, list_elem_of_fmap_2, elem_of_app. right. by left.
Qed.

(** What a tree collects from its nodes, but for a subtree. *)
Lemma plug_bind {A} (f : node_tree R → list A) (y : R → BTreePage → list A) ls :
  (∀ r p ts, f (Node r p ts) = y r p ++ (ts ≫= f)) → ∃ rest, ∀ t, f (plug ls t) ≡ₚ f t ++ rest.
Proof.
  intros Hy. induction ls as [|l ls [rest IH]]; [exists []; intros t; by rewrite app_nil_r|].
  exists ((y (lv_page l) (lv_node l) ++ (lv_left l ≫= f) ++ (lv_right l ≫= f)) ++ rest). intros t.
  cbn [plug]. rewrite IH. unfold fill. rewrite Hy, bind_app, bind_cons. solve_Permutation.
Qed.

Lemma plug_nodes ls : ∃ rest, ∀ t, nodes (plug ls t) ≡ₚ nodes t ++ rest.
Proof. by apply (plug_bind nodes (λ r p, [(r, p)])). Qed.
Lemma plug_contents ls : ∃ rest, ∀ t, contents_in (plug ls t) ≡ₚ contents_in t ++ rest.
Proof. by apply (plug_bind contents_in (λ _ _, [])). Qed.

Lemma plug_nodes_in ls t x : x ∈ nodes t → x ∈ nodes (plug ls t).
Proof. destruct (plug_nodes ls) as [rest Hr]. intros Hx. rewrite Hr. apply elem_of_app. by left. Qed.

Lemma plug_nodup ls t : NoDup (nodes (plug ls t)).*1 → NoDup (nodes t).*1.
Proof. destruct (plug_nodes ls) as [rest Hr]. rewrite Hr, fmap_app. by intros (? & _)%NoDup_app. Qed.

(** A subtree is visible as a whole, or as far as it is itself. *)
Lemma fill_others l t : node_forms ρ (fill l t) → lv_left l ++ lv_right l ≠ [].
Proof.
  intros Hf Hnil. inversion Hf as [|? ? ? vs Hok Hne Hvs _]; subst. apply (f_equal length) in Hvs, Hnil.
  rewrite length_fmap, !length_app in *. cbn [length] in *. pose proof (nd_length _ _ Hok).
  destruct (keys (lv_node l)); [done|]. cbn [length] in *. lia.
Qed.

Lemma plug_visible ls t :
  node_forms ρ (plug ls t) → Forall on_way ls → ∃ rest, ∀ t', visible (plug ls t') ≡ₚ visible t' ++ rest.
Proof.
  intros Hf Hls. revert t Hf. induction Hls as [|l ls Hl _ IH]; intros t Hf; [exists []; intros t'; by rewrite app_nil_r|].
  destruct (IH _ Hf) as [rest Hrest]. pose proof (fill_others l t (plug_forms ls _ Hf)) as Hne.
  eexists (default [] (visible <$> end_of (negb (below (lv_node l) key)) (lv_left l ++ t :: lv_right l)) ++ rest).
  intros t'. cbn [plug]. rewrite Hrest. unfold fill. rewrite visible_at by done.
  by rewrite (end_of_other _ _ _ t' t Hl Hne), <- app_assoc.
Qed.

(** *** Order *)

(** The keys of a tree at the place of the subtree are on the sides of the search. *)
Definition beside_way ls t : Prop := Forall (λ l, Forall (λ kv, below (lv_node l) kv.1 = below (lv_node l) key) (visible t)) ls.

Lemma fill_end_cases l t t' first x :
  on_way l → lv_left l ++ lv_right l ≠ [] → end_of first (lv_left l ++ t' :: lv_right l) = Some x →
  (first = below (lv_node l) key ∧ x = t') ∨ end_of first (lv_left l ++ t :: lv_right l) = Some x.
Proof.
  intros Hl Hne Hx. destruct (decide (first = below (lv_node l) key)) as [->|Hb].
  - left. rewrite end_of_at in Hx by done. split; congruence.
  - right. assert (first = negb (below (lv_node l) key)) as -> by (by destruct first, (below (lv_node l) key)).
    by rewrite (end_of_other _ _ _ t t' Hl Hne).
Qed.

Lemma fill_ordered l t : on_way l → ordered (fill l t) → ordered t ∧ Forall (λ kv, below (lv_node l) kv.1 = below (lv_node l) key) (visible t).
Proof.
  intros Hl Ho. inversion Ho as [|? ? ? Hord Hside]; subst. pose proof (end_of_at _ _ _ t Hl) as Ht.
  split; [by eapply Hord|by eapply Hside].
Qed.

Lemma fill_ordered_with l t t' :
  on_way l → lv_left l ++ lv_right l ≠ [] → ordered (fill l t) → ordered t' →
  Forall (λ kv, below (lv_node l) kv.1 = below (lv_node l) key) (visible t') → ordered (fill l t').
Proof.
  intros Hl Hne Ho Ht' Hside'. inversion Ho as [|? ? ? Hord Hside]; subst.
  constructor; intros first x [[-> ->]|Hx]%(fill_end_cases l t t'); try done; [by eapply Hord|by eapply Hside].
Qed.

Lemma fill_visible l t kv : on_way l → kv ∈ visible t → kv ∈ visible (fill l t).
Proof. intros Hl Hin. unfold fill. rewrite visible_at by done. apply elem_of_app. by left. Qed.

Lemma plug_ordered ls t : Forall on_way ls → ordered (plug ls t) → ordered t ∧ beside_way ls t.
Proof.
  intros Hls. revert t. induction Hls as [|l ls Hl _ IH]; intros t Ho; [by split; [|constructor]|].
  destruct (IH _ Ho) as [Hof Hb]. destruct (fill_ordered l t Hl Hof) as [Hot Hs]. split; [done|]. constructor; [done|].
  eapply Forall_impl; [exact Hb|]. intros l' Hl'. rewrite Forall_forall in *. intros kv Hin. by apply Hl', fill_visible.
Qed.

Lemma plug_ordered_with ls t t' :
  node_forms ρ (plug ls t) → Forall on_way ls → ordered (plug ls t) → ordered t' → beside_way ls t' → ordered (plug ls t').
Proof.
  intros Hf Hls. revert t t' Hf. induction Hls as [|l ls Hl Hls IH]; intros t t' Hf Ho Ht' Hb; [done|].
  inversion Hb as [|? ? Hb1 Hb']; subst. pose proof (plug_ordered ls (fill l t) Hls Ho) as [Hof Hbf].
  pose proof (fill_others l t (plug_forms ls _ Hf)) as Hne.
  apply (IH (fill l t)); [done|done|by apply (fill_ordered_with l t)|].
  unfold beside_way in *. rewrite Forall_forall in *. intros l' Hl'. specialize (Hbf l' Hl'). specialize (Hb' l' Hl').
  rewrite Forall_forall in *. intros kv Hin. unfold fill in Hin, Hbf. rewrite visible_at in Hin by done.
  apply elem_of_app in Hin as [Hin|Hin]; [by apply Hb'|]. apply Hbf. rewrite visible_at by done. apply elem_of_app. right.
  by rewrite (end_of_other _ _ _ t t' Hl Hne).
Qed.
End levels.

(** ** Trees whose keys separate all subtrees *)

(** A pair belongs to the subtree number [i] of a node. *)
Definition between (p : BTreePage) (i : nat) (kv : BTreeKey * RID) : bool :=
  match i with O => true | S j => if keys p !! j is Some k then cmpKeys k kv.1 <=? 0 else true end
  && (if keys p !! i is Some k then 0 <? cmpKeys k kv.1 else true).
Fixpoint sorted_tree {R} (t : node_tree R) : bool :=
  match t with
  | Leaf _ _ _ => true
  | Node _ p ts => forallb sorted_tree ts && forallb id (imap (λ i t, forallb (between p i) (contents_in t)) ts)
  end.

Section sorted.
Context {R : Type}.
Implicit Types (t : node_tree R) (l : level R) (ls : list (level R)).

Lemma forallb_in {A} (f : A → bool) (l : list A) : forallb f l = true ↔ ∀ x, x ∈ l → f x = true.
Proof. rewrite forallb_forall. split; intros Hf x Hx; by apply Hf, list_elem_of_In. Qed.

Lemma sorted_node r p (ts : list (node_tree R)) :
  sorted_tree (Node r p ts) = true ↔
  ∀ i t, ts !! i = Some t → sorted_tree t = true ∧ ∀ kv, kv ∈ contents_in t → between p i kv = true.
Proof.
  cbn [sorted_tree]. rewrite andb_true_iff, !forallb_in. split.
  - intros [Hs Hb] i t Ht. split; [by apply Hs, list_elem_of_lookup_2 with i|]. apply forallb_in.
    apply (Hb (forallb (between p i) (contents_in t))). apply list_elem_of_lookup. exists i.
    by rewrite list_lookup_imap, Ht.
  - intros Hall. split.
    + intros t [i Hi]%list_elem_of_lookup. by apply (Hall i t).
    + intros b [i Hi]%list_elem_of_lookup. rewrite list_lookup_imap in Hi.
      destruct (ts !! i) as [t|] eqn:Ht; [|done]. injection Hi as <-. apply forallb_in. by apply (Hall i t).
Qed.

Lemma between_lower p i kv k : between p (S i) kv = true → keys p !! i = Some k → cmpKeys k kv.1 ≤ 0.
Proof. unfold between. intros [Hb _]%andb_true_iff Hk. rewrite Hk in Hb. by apply Z.leb_le. Qed.
Lemma between_upper p i kv k : between p i kv = true → keys p !! i = Some k → 0 < cmpKeys k kv.1.
Proof. unfold between. intros [_ Hb]%andb_true_iff Hk. rewrite Hk in Hb. by apply Z.ltb_lt. Qed.

Lemma visible_in t kv : kv ∈ visible t → kv ∈ contents_in t.
Proof.
  revert t. refine (tree_ind _ _ _); [done|]. intros r p ts IH. rewrite visible_node. cbn [contents_in].
  assert (∀ first, kv ∈ default [] (visible <$> end_of first ts) → kv ∈ ts ≫= contents_in) as Hend.
  { intros first. destruct (end_of first ts) as [t|] eqn:Ht; [|by intros ?%not_elem_of_nil]. intros Hin.
    apply end_of_in in Ht. apply list_elem_of_bind. exists t. split; [by apply IH|done]. }
  intros [?|?]%elem_of_app; by eapply Hend.
Qed.

(** A key below the first of the keys of a node is below all of them. *)
Lemma below_all p i k kv :
  Sorted key_lt (keys p) → below p kv = true → keys p !! i = Some k → 0 < cmpKeys k kv.
Proof.
  unfold below, side. destruct (keys p) as [|k0 ks]; [done|]. intros Hs Hb%Z.ltb_lt. revert i k.
  intros i. induction i as [|i IH]; intros k Hk; [by injection Hk as <-|].
  destruct (lookup_lt_is_Some_2 (k0 :: ks) i) as [k' Hk']; [apply lookup_lt_Some in Hk; lia|].
  eapply cmpKeys_below; [by apply IH|]. by eapply (Sorted_neighbours (k0 :: ks)).
Qed.

Lemma sorted_ordered ρ t : node_forms ρ t → sorted_tree t = true → ordered t.
Proof.
  revert t. refine (tree_ind _ _ _); [intros; by constructor|]. intros r p ts IH Hf Hs.
  rewrite sorted_node in Hs. inversion Hf as [|? ? ? vs Hok Hne Hvs Hts]; subst.
  constructor; intros first t Ht; pose proof (end_of_in _ _ _ Ht) as Hin.
  - apply list_elem_of_lookup in Hin as Hi. destruct Hi as [i Hi]. by apply IH; [|apply Hts|apply (Hs i)].
  - apply Forall_forall. intros kv Hkv%visible_in. destruct first; cbn [end_of] in Ht.
    + destruct ts as [|t0 ts]; [done|]. injection Ht as ->. destruct (Hs 0%nat t eq_refl) as [_ Hb].
      specialize (Hb kv Hkv). unfold below, side. destruct (keys p) as [|k ks] eqn:Hk; [done|].
      apply Z.ltb_lt. eapply between_upper; [exact Hb|by rewrite Hk].
    + apply last_Some in Ht as [ts' ->]. destruct (Hs (length ts') t) as [_ Hb]; [by apply list_lookup_middle|].
      specialize (Hb kv Hkv). apply (f_equal length) in Hvs. rewrite length_fmap, !length_app in Hvs. cbn [length] in Hvs.
      pose proof (nd_length _ _ Hok) as Hlen. destruct (length ts') as [|m] eqn:Hm; [destruct (keys p); [done|cbn in *; lia]|].
      destruct (lookup_lt_is_Some_2 (keys p) m) as [k Hk]; [lia|].
      destruct (below p kv.1) eqn:E; [|done]. pose proof (below_all p m k _ (nd_sorted _ _ Hok) E Hk).
      pose proof (between_lower p m kv k Hb Hk). lia.
Qed.

(** Fewer pairs are in order as well. *)
Lemma fill_sorted l t : sorted_tree (fill l t) = true → sorted_tree t = true.
Proof. unfold fill. rewrite sorted_node. intros Hs. by apply (Hs (length (lv_left l)) t), list_lookup_middle. Qed.

Lemma plug_sorted ls t : sorted_tree (plug ls t) = true → sorted_tree t = true.
Proof. revert t. induction ls as [|l ls IH]; intros t Hs; [done|]. by apply (fill_sorted l), IH. Qed.

Lemma plug_sorted_with ls t t' :
  sorted_tree (plug ls t) = true → sorted_tree t' = true → (∀ kv, kv ∈ contents_in t' → kv ∈ contents_in t) →
  sorted_tree (plug ls t') = true.
Proof.
  revert t t'. induction ls as [|l ls IH]; intros t t' Hs Ht' Hsub; [done|]. apply (IH (fill l t)); [done| |].
  - apply (plug_sorted ls (fill l t)) in Hs. revert Hs. unfold fill. rewrite !sorted_node. intros Hs i x Hx.
    destruct (decide (i = length (lv_left l))) as [->|Hi].
    + rewrite list_lookup_middle in Hx by done. injection Hx as <-. split; [done|]. intros kv Hkv.
      apply (Hs (length (lv_left l)) t); [by apply list_lookup_middle|]. by apply Hsub.
    + apply (Hs i). rewrite <- Hx. destruct (decide (i < length (lv_left l))%nat).
      * by rewrite !lookup_app_l.
      * rewrite !lookup_app_r by lia. destruct (i - length (lv_left l))%nat eqn:E; [lia|done].
  - cbn [fill contents_in]. intros kv. rewrite !bind_app, !bind_cons, !elem_of_app. intros [?|[Hin%Hsub|?]]; tauto.
Qed.
End sorted.
