(* ===== verification/LeafJoin.v ===== *)
(** * LeafJoin: what a removal makes of a tree

    The subtree beside one, which a removal looks at on every level; two leaves that
    are joined, with the node above them; and the order of the keys after it. *)
From S2P Require Import Prelude Serialize IndexPage Memory Hash NumTable CircularList ClockReplacer Disk Bpm BTree Cache LeafTree TwoLeaves SmallTree PoolRoom DeepTree LeafSplit TreeLevels.

(** ** Siblings *)

(** Two nodes with too many keys to be merged, or the second of two leaves empty. *)
Definition unmerged (max : Z) (p sib : BTreePage) : bool :=
  if is_leaf p then (zlen (keys sib) =? 0) || (max <? zlen (keys p) + zlen (keys sib))
  else max + 1 <? u16 (zlen (keys p) + 1 + zlen (keys sib) + 1).

Section siblings.
Context {R : Type} (ρ : R → Z) (max : Z) (key : BTreeKey).
Implicit Types (t : node_tree R) (l : level R) (ls : list (level R)).

(** The subtree beside that of a level: on its right when it is the first one, else
    on its left. *)
Definition sibling_of l : option (node_tree R) :=
  if below (lv_node l) key then hd_error (lv_right l) else last (lv_left l).

(** The first child of a node refers to its sibling. *)
Definition linked l t t' : bool := negb (below (lv_node l) key) || (next (root_page t) =? ρ (root_of t')).

(** A subtree is not merged with the one beside it ... *)
Definition apart l t : bool :=
  match sibling_of l with
  | Some t' => eqb (is_leaf (root_page t')) (is_leaf (root_page t)) && unmerged max (root_page t) (root_page t') && linked l t t'
  | None => false
  end.
(** ... and no node on the way up is. *)
Fixpoint kept ls t : bool := match ls with [] => true | l :: ls => apart l t && kept ls (fill l t) end.

Lemma apart_sibling l t :
  apart l t = true → ∃ t', sibling_of l = Some t' ∧ is_leaf (root_page t') = is_leaf (root_page t)
    ∧ unmerged max (root_page t) (root_page t') = true ∧ linked l t t' = true.
Proof.
  unfold apart. destruct (sibling_of l) as [t'|]; [|done]. intros [[Hl%eqb_prop Hu]%andb_true_iff Hn]%andb_true_iff. by exists t'.
Qed.

Lemma sibling_in l t t' : sibling_of l = Some t' → t' ∈ lv_left l ++ t :: lv_right l.
Proof.
  unfold sibling_of. rewrite elem_of_app, elem_of_cons. destruct (below _ _); intros Ht.
  - right. right. by apply head_Some_elem_of.
  - left. by apply last_Some_elem_of.
Qed.

(** The leaf without a key. *)
Definition leaf_without (p : BTreePage) (vs : list RID) : BTreePage * list RID :=
  let i := key_index (keys p) key in
  (set_values (LeafRecords (delete i vs)) (set_keys (delete i (keys p)) p), delete i vs).
End siblings.

(** ** Two leaves made one *)

(** A list without the element at an end. *)
Definition remove_end {A} (first : bool) (l : list A) : list A := if first then drop 1 l else removelast l.

Lemma add_end_at {A} first (x : A) l :
  ∃ l1 l2, add_end first x l = l1 ++ x :: l2 ∧ at_end first l1 l2 ∧ l1 ++ l2 = l.
Proof. destruct first; [by exists [], l|]. exists l, []. by rewrite app_nil_r. Qed.

Lemma add_end_perm {A} first (x : A) l : add_end first x l ≡ₚ x :: l.
Proof. destruct first; [done|]. cbn. by rewrite Permutation_app_comm. Qed.

Lemma add_remove_end {A} first (l : list A) : l ≠ [] → ∃ x, l = add_end first x (remove_end first l).
Proof.
  intros Hl. destruct first; cbn; [destruct l as [|x l]; [done|by exists x]|].
  destruct (exists_last Hl) as (l' & x & ->). exists x. by rewrite removelast_last.
Qed.

Lemma end_of_add {A} first (x : A) l : l ≠ [] → end_of (negb first) (add_end first x l) = end_of (negb first) l.
Proof. destruct first; cbn; [by destruct l|]. intros Hl. destruct l; [done|]. done. Qed.

Lemma append_pairs p vs p' vs' :
  leaf_ok p vs → pairs (append_leaf p vs p' vs') (vs ++ vs') = pairs p vs ++ pairs p' vs'.
Proof.
  intros [_ Hlen _ _]. unfold pairs, append_leaf. cbn [keys set_values set_keys]. by rewrite zip_with_app.
Qed.

Section joins.
Context {R : Type} (ρ : R → Z) (key : BTreeKey).
Implicit Types (t : node_tree R) (l : level R) (ls : list (level R)).

Lemma bind_end {A} (f : node_tree R → list A) first t ts : add_end first t ts ≫= f ≡ₚ f t ++ (ts ≫= f).
Proof. destruct first; [done|]. cbn [add_end]. rewrite bind_app, bind_cons. solve_Permutation. Qed.

Lemma visible_add r p first t ts :
  visible (Node r p (add_end first t ts)) ≡ₚ visible t ++ default [] (visible <$> end_of (negb first) (add_end first t ts)).
Proof. destruct (add_end_at first t ts) as (l1 & l2 & -> & He & _). by apply visible_at. Qed.

(** The subtrees of a level but for the sibling. *)
Definition others l : list (node_tree R) := remove_end (below (lv_node l) key) (if below (lv_node l) key then lv_right l else lv_left l).

Lemma fill_siblings l t t' :
  on_way key l → sibling_of key l = Some t' →
  fill l t = Node (lv_page l) (lv_node l)
               (add_end (below (lv_node l) key) t (add_end (below (lv_node l) key) t' (others l))).
Proof.
  unfold on_way, sibling_of, others, fill. destruct (below (lv_node l) key); cbn [at_end].
  - intros ->. destruct (lv_right l) as [|x ts]; [done|]. by intros [= ->].
  - intros ->. intros [ts Hts]%last_Some. rewrite Hts. cbn. by rewrite removelast_last.
Qed.

(** The leaf for the key with the leaf beside it, and the node above them. *)
Definition joined_leaf (first : bool) (r : R) (p : BTreePage) (vs : list RID) (r' : R) (p' : BTreePage) (vs' : list RID)
    : node_tree R :=
  if first then Leaf r (set_next (next p') (append_leaf p vs p' vs')) (vs ++ vs')
  else Leaf r' (append_leaf p' vs' p vs) (vs' ++ vs).
Definition joined_node (first : bool) (pid : Z) (p0 : BTreePage) (vs0 : list Z) : BTreePage :=
  mkPage (is_leaf p0) (remove_end first (keys p0)) (flags p0) (if first then rightmost_ptr p0 else pid) (next p0)
    (InternalChildren (if first then pid :: drop 2 vs0 else removelast vs0)).
Definition joined l (vs0 : list Z) t : node_tree R :=
  Node (lv_page l) (joined_node (below (lv_node l) key) (ρ (root_of t)) (lv_node l) vs0)
    (add_end (below (lv_node l) key) t (others l)).

Lemma zlen_zip_bytes (ks : list BTreeKey) (vs vs' : list Z) :
  length vs = length ks → length vs' = length ks → zlen (kvs_bytes (zip ks vs)) = zlen (kvs_bytes (zip ks vs')).
Proof.
  revert vs vs'. induction ks as [|k ks IH]; intros [|v vs] [|v' vs'] Hl Hl'; try done. cbn [zip zip_with].
  injection Hl as Hl. injection Hl' as Hl'. by rewrite !kvs_bytes_cons, !zlen_app, !zlen_kv_bytes, (IH vs vs').
Qed.

(** An inner node with a key less. *)
Lemma node_ok_less first p0 (vs0 : list Z) k ks vs pid :
  node_ok p0 vs0 → keys p0 = add_end first k ks → length vs = length ks → Forall is_u32 vs → is_u32 pid →
  node_ok (mkPage (is_leaf p0) ks (flags p0) pid (next p0) (InternalChildren vs)) vs.
Proof.
  intros [[Hl Hv Hlen' Hk Hvs Hf Hr Hn Hfits] Hlen Hne Hs] Hks Hvl Hu Hpid. rewrite Hks in *.
  assert (Forall key_fits ks) by (rewrite add_end_perm in Hk; by inversion Hk).
  assert (Forall key_nonempty ks) by (rewrite add_end_perm in Hne; by inversion Hne).
  assert (Sorted key_lt ks) as Hs'.
  { destruct first; cbn [add_end] in Hs; [by apply Sorted_inv in Hs as [? _]|].
    replace ks with (delete (length ks) (ks ++ [k])) by by rewrite delete_middle, app_nil_r. by apply Sorted_delete. }
  split; cbn [keys]; [|done|done|done]. split; cbn [is_leaf keys values flags rightmost_ptr next]; try done; [lia|].
  rewrite length_end in Hlen, Hlen'.
  assert (zlen (kvs_bytes (zip ks vs)) ≤ zlen (kvs_bytes (zip (add_end first k ks) vs0))) as Hb.
  { rewrite (zlen_zip_bytes _ vs0 (add_end first 0 vs)) by (rewrite ?length_end; lia).
    rewrite zip_end, zlen_kvs_end by done. pose proof (zlen_nonneg (kv_bytes (k, 0))). lia. }
  assert (zlen (add_end first k ks) = zlen ks + 1) as Hz by (unfold zlen; rewrite length_end; lia).
  unfold TREE_KV_PTR_SIZE in *. lia.
Qed.

(** The children of a level with the sibling. *)
Lemma fill_children l t t' (vs0 : list Z) :
  let first := below (lv_node l) key in
  node_forms ρ (fill l t) → node_ok (lv_node l) vs0 → on_way key l → sibling_of key l = Some t' →
  (2 ≤ length (keys (lv_node l)))%nat →
  vs0 ++ [rightmost_ptr (lv_node l)] = ρ ∘ root_of <$> add_end first t (add_end first t' (others l))
  ∧ length (others l) = pred (length (keys (lv_node l)))
  ∧ node_forms ρ t' ∧ ∀ x, x ∈ others l → node_forms ρ x.
Proof.
  intros first Hf Hok Hw Hsib Hk. rewrite (fill_siblings l t t' Hw Hsib) in Hf.
  inversion Hf as [|? ? ? vs Hok1 Hne Hvs Hts]; subst.
  assert (vs = vs0) as ->.
  { pose proof (wf_values _ _ (nd_wf _ _ Hok1)) as H1. rewrite (wf_values _ _ (nd_wf _ _ Hok)) in H1. by injection H1. }
  split; [done|]. split; [|split].
  - apply (f_equal length) in Hvs. rewrite length_fmap, !length_end, length_app, (nd_length _ _ Hok) in Hvs. cbn in Hvs. lia.
  - apply Hts. rewrite add_end_perm, add_end_perm. right. by left.
  - intros x Hx. apply Hts. rewrite add_end_perm, add_end_perm. right. by right.
Qed.

(** The values of the node above the joined leaves. *)
Definition joined_values (first : bool) (pid : Z) (vs0 : list Z) : list Z :=
  if first then pid :: drop 2 vs0 else removelast vs0.

Lemma joined_children first t t' t1 (ts : list (node_tree R)) (vs0 : list Z) rm :
  ts ≠ [] → vs0 ++ [rm] = ρ ∘ root_of <$> add_end first t (add_end first t' ts) → root_of t1 = root_of (if first then t else t') →
  joined_values first (ρ (root_of t1)) vs0 ++ [if first then rm else ρ (root_of t1)] = ρ ∘ root_of <$> add_end first t1 ts.
Proof.
  intros Hne Hvs Hroot. destruct first; cbn [add_end joined_values] in *.
  - destruct vs0 as [|a [|b vs0]]; try done.
    + cbn in Hvs. injection Hvs as _ _ Hnil. by destruct ts.
    + cbn in *. injection Hvs as -> _ Hvs. by rewrite drop_0, Hvs, Hroot.
  - rewrite !fmap_app in Hvs. cbn in Hvs. apply app_inj_tail in Hvs as [-> _].
    rewrite removelast_last, fmap_app. cbn. by rewrite Hroot.
Qed.

Lemma joined_node_ok first pid p0 (vs0 : list Z) :
  node_ok p0 vs0 → (2 ≤ length (keys p0))%nat → is_u32 pid →
  node_ok (joined_node first pid p0 vs0) (joined_values first pid vs0) ∧ keys (joined_node first pid p0 vs0) ≠ [].
Proof.
  intros Hok Hk Hpid. pose proof (nd_length _ _ Hok) as Hlen. pose proof (wf_vals _ _ (nd_wf _ _ Hok)) as Hu.
  destruct (add_remove_end first (keys p0)) as [k Hks]; [intros Hnil; rewrite Hnil in Hk; cbn in Hk; lia|].
  pose proof (f_equal length Hks) as Hl. rewrite length_end in Hl. split.
  - apply (node_ok_less first p0 vs0 k); [done|done| | |].
    + destruct first; cbn [joined_values]; [cbn [length]; rewrite length_drop; lia|].
      destruct (exists_last (l:=vs0)) as (vs' & x & ->); [by intros ->; cbn in *; lia|].
      rewrite removelast_last. rewrite length_app in Hlen. cbn in Hlen. lia.
    + destruct first; cbn [joined_values]; [constructor; [done|by apply Forall_drop]|].
      destruct (exists_last (l:=vs0)) as (vs' & x & ->); [by intros ->; cbn in *; lia|].
      rewrite removelast_last. by apply Forall_app in Hu as [? _].
    + destruct first; [apply (wf_rightmost _ _ (nd_wf _ _ Hok))|done].
  - cbn [joined_node keys]. intros Hnil. rewrite Hnil in Hl. cbn in Hl. lia.
Qed.

(** The tree with the joined leaves has the same pairs, of which more are visible. *)
Section lists.
Context (l : level R) (r r' : R) (p p' : BTreePage) (vs vs' : list RID) (vs0 : list Z).
Let first := below (lv_node l) key.
Let leaf := Leaf r p vs.
Let sib := Leaf r' p' vs'.
Let both := joined_leaf first r p vs r' p' vs'.
Hypothesis Hway : on_way key l.
Hypothesis Hsib : sibling_of key l = Some sib.
Hypothesis Hleaf : leaf_ok p vs.
Hypothesis Hleaf' : leaf_ok p' vs'.

Lemma joined_pairs : contents_in both ≡ₚ pairs p vs ++ pairs p' vs' ∧ visible both = contents_in both.
Proof.
  unfold both, joined_leaf. generalize first. intros []; (split; [|done]); cbn [contents_in].
  - by rewrite <- (append_pairs p vs p' vs' Hleaf).
  - rewrite (append_pairs p' vs' p vs Hleaf'). apply Permutation_app_comm.
Qed.

Lemma joined_contents : contents_in (joined l vs0 both) ≡ₚ contents_in (fill l leaf).
Proof.
  rewrite (fill_siblings l leaf sib Hway Hsib). unfold joined. cbn [contents_in]. rewrite !bind_end, (proj1 joined_pairs).
  cbn [leaf sib contents_in]. by rewrite <- app_assoc.
Qed.

Lemma joined_visible : others l ≠ [] → visible (joined l vs0 both) ≡ₚ visible (fill l leaf) ++ pairs p' vs'.
Proof.
  intros Hne. rewrite (fill_siblings l leaf sib Hway Hsib). unfold joined. fold first. rewrite !visible_add, !end_of_add.
  - rewrite (proj2 joined_pairs), (proj1 joined_pairs). cbn [leaf visible]. solve_Permutation.
  - done.
  - intros Hnil. apply (f_equal length) in Hnil. by rewrite length_end in Hnil.
  - done.
Qed.

Lemma fill_nodes : nodes (fill l leaf) ≡ₚ (lv_page l, lv_node l) :: (r, p) :: (r', p') :: (others l ≫= nodes).
Proof. rewrite (fill_siblings l leaf sib Hway Hsib). cbn [nodes]. by rewrite !bind_end. Qed.

Lemma joined_nodes :
  nodes (joined l vs0 both)
  ≡ₚ (lv_page l, joined_node first (ρ (root_of both)) (lv_node l) vs0) :: (root_of both, root_page both) :: (others l ≫= nodes).
Proof.
  unfold joined. fold first. cbn [nodes]. rewrite bind_end. constructor. unfold both, joined_leaf. by generalize first; intros [].
Qed.

Lemma both_root : root_of both = root_of (if first then leaf else sib).
Proof. unfold both, joined_leaf. by generalize first; intros []. Qed.
End lists.
End joins.

(** ** Joined leaves in order *)

Section join_sorted.
Context {R : Type}.
Implicit Types (t : node_tree R) (ts : list (node_tree R)).

(** The two leaves are separated by a key. *)
Lemma sorted_separator first r0 p0 t t' ts kv kv' :
  let children := add_end first t (add_end first t' ts) in
  sorted_tree (Node r0 p0 children) = true → length ts = pred (length (keys p0)) → (2 ≤ length (keys p0))%nat →
  kv ∈ contents_in t → kv' ∈ contents_in t' →
  ∃ k, if first then 0 < cmpKeys k kv.1 ∧ cmpKeys k kv'.1 ≤ 0 else 0 < cmpKeys k kv'.1 ∧ cmpKeys k kv.1 ≤ 0.
Proof.
  intros children Hs Hlen Hk Ht Ht'. rewrite sorted_node in Hs. subst children. destruct first; cbn [add_end] in Hs.
  - destruct (lookup_lt_is_Some_2 (keys p0) 0) as [k Hk0]; [lia|]. exists k.
    split; [eapply between_upper; [by apply (Hs 0%nat t)|done]|eapply between_lower; [by apply (Hs 1%nat t')|done]].
  - destruct (lookup_lt_is_Some_2 (keys p0) (length ts)) as [k Hk0]; [lia|]. exists k.
    split; [eapply between_upper; [|exact Hk0]|eapply between_lower; [|exact Hk0]].
    + apply (Hs (length ts) t'); [|done]. rewrite <- app_assoc. by apply list_lookup_middle.
    + apply (Hs (S (length ts)) t); [|done]. rewrite lookup_app_r by (rewrite length_app; cbn; lia).
      rewrite length_app. cbn [length]. by replace (S (length ts) - (length ts + 1))%nat with 0%nat by lia.
Qed.

Lemma sorted_across first r0 p0 t t' ts kv kv' :
  sorted_tree (Node r0 p0 (add_end first t (add_end first t' ts))) = true → length ts = pred (length (keys p0)) →
  (2 ≤ length (keys p0))%nat → kv ∈ contents_in t → kv' ∈ contents_in t' → cmpKeys kv.1 kv'.1 ≠ 0 →
  if first then key_lt kv.1 kv'.1 else key_lt kv'.1 kv.1.
Proof.
  intros Hs Hlen Hk Ht Ht' Hne. destruct (sorted_separator _ _ _ _ _ _ kv kv' Hs Hlen Hk Ht Ht') as [k Hsep].
  destruct first; destruct Hsep as [H1 H2]; [by apply (cmpKeys_across k)|].
  apply (cmpKeys_across k); [done..|]. rewrite cmpKeys_antisym. lia.
Qed.

Lemma sorted_join first r0 p0 pj t t' tj ts :
  sorted_tree (Node r0 p0 (add_end first t (add_end first t' ts))) = true → Sorted key_lt (keys p0) →
  keys pj = remove_end first (keys p0) → length ts = pred (length (keys p0)) → (2 ≤ length (keys p0))%nat →
  sorted_tree tj = true → (∀ kv, kv ∈ contents_in tj → kv ∈ contents_in t ∨ kv ∈ contents_in t') →
  sorted_tree (Node r0 pj (add_end first tj ts)) = true.
Proof.
  rewrite !sorted_node. intros Hs Hsort Hpj Hlen Hk Htj Hin. destruct first; cbn [add_end remove_end] in *.
  - destruct (keys p0) as [|k0 [|k1 ks]] eqn:Hk0; cbn [length] in *; [lia..|]. cbn [drop] in Hpj. intros [|i] x Hx.
    + injection Hx as <-. split; [done|]. intros kv Hkv. unfold between. rewrite Hpj. cbn.
      apply Z.ltb_lt. destruct (Hin kv Hkv) as [Ht|Ht'].
      * apply (cmpKeys_below k0); [|by apply (Sorted_neighbours (k0 :: k1 :: ks) 0)].
        eapply between_upper; [by apply (Hs 0%nat t)|by rewrite Hk0].
      * eapply between_upper; [by apply (Hs 1%nat t')|by rewrite Hk0].
    + destruct (Hs (S (S i)) x Hx) as [Hsx Hb]. split; [done|]. intros kv Hkv. rewrite <- (Hb kv Hkv).
      unfold between. by rewrite Hpj, Hk0.
  - destruct (exists_last (l:=keys p0)) as (ks & k & Hk0); [intros Hnil; rewrite Hnil in Hk; cbn in Hk; lia|].
    rewrite Hk0, removelast_last in *. rewrite length_app in *. cbn [length] in *.
    intros i x Hx. destruct (decide (i < length ts)%nat) as [Hi|Hi].
    + destruct (Hs i x) as [Hsx Hb].
      { rewrite <- app_assoc, lookup_app_l by done. by rewrite lookup_app_l in Hx. }
      split; [done|]. intros kv Hkv. rewrite <- (Hb kv Hkv). unfold between. rewrite Hpj, Hk0.
      rewrite (lookup_app_l ks [k] i) by lia. destruct i as [|i]; [done|]. by rewrite lookup_app_l by lia.
    + assert (i = length ts) as ->.
      { apply lookup_lt_Some in Hx. rewrite length_app in Hx. cbn in Hx. lia. }
      rewrite list_lookup_middle in Hx by done. injection Hx as <-. split; [done|]. intros kv Hkv.
      destruct ks as [|k0 ks _] using rev_ind; cbn [length] in *; [lia|]. rewrite length_app in *. cbn [length] in *.
      assert (length ts = S (length ks)) as Hts by lia. rewrite Hts. unfold between. rewrite Hpj, list_lookup_middle by done.
      rewrite (lookup_ge_None_2 (ks ++ [k0])) by (rewrite length_app; cbn; lia). rewrite andb_true_r. apply Z.leb_le.
      assert (cmpKeys k0 k < 0) as Hkk.
      { apply (Sorted_neighbours ((ks ++ [k0]) ++ [k]) (length ks)); [done|..]; rewrite <- app_assoc.
        - by apply list_lookup_middle.
        - rewrite lookup_app_r by lia. by replace (S (length ks) - length ks)%nat with 1%nat by lia. }
      destruct (Hin kv Hkv) as [Ht|Ht'].
      * destruct (decide (0 < cmpKeys k0 kv.1)) as [Hlt|]; [|lia]. pose proof (cmpKeys_below k0 k kv.1 Hlt Hkk).
        assert (cmpKeys k kv.1 ≤ 0); [|lia]. apply (between_lower p0 (S (length ks))).
        -- apply (Hs (S (S (length ks))) t); [|done]. rewrite lookup_app_r by (rewrite length_app; cbn; lia).
           rewrite length_app. cbn [length]. by replace (S (S (length ks)) - (length ts + 1))%nat with 0%nat by lia.
        -- rewrite Hk0, lookup_app_r by (rewrite length_app; cbn; lia). rewrite length_app. cbn [length].
           by replace (S (length ks) - (length ks + 1))%nat with 0%nat by lia.
      * apply (between_lower p0 (length ks)).
        -- apply (Hs (S (length ks)) t'); [|done]. rewrite <- app_assoc. by apply list_lookup_middle.
        -- rewrite Hk0, <- app_assoc. by apply list_lookup_middle.
Qed.
End join_sorted.
