(* ===== verification/DeepRemove.v ===== *)
(** * DeepRemove: removal from B+trees of any height

    A removal writes the leaf on the route of the key and climbs back to the
    root: at each level it fetches the node with a sibling of it, merges the two
    when they have few keys, and writes the parent. *)
From stdpp Require Import finite.
From S2P Require Import Prelude Serialize IndexPage Memory Hash NumTable CircularList ClockReplacer Disk Bpm BTree Cache LeafTree TwoLeaves SmallTree PoolRoom DeepTree LeafSplit TreeLevels LeafJoin.

(** ** Climbing *)

Section climb.
Context `{U : Uninit} `{Finite R} (ρ : R → Z).
Implicit Types (t : node_tree R) (l : level R) (ls : list (level R)).

(** A step that keeps the nodes of all pages. *)
Definition same_nodes (s s' : index) : Prop :=
  tree s' = tree s ∧ dm_of s' = dm_of s ∧ ∀ r p, node_at s (ρ r) p → node_at s' (ρ r) p.

Lemma same_nodes_trans s1 s2 s3 : same_nodes s1 s2 → same_nodes s2 s3 → same_nodes s1 s3.
Proof. intros (? & ? & K1) (? & ? & K2). split_and!; [congruence..|]. intros r p Hp. by apply K2, K1. Qed.
Lemma same_nodes_pages s s' : same_pages s s' → same_nodes s s'.
Proof. intros Hs. split; [apply Hs|]. split; [apply Hs|]. intros r p. by apply node_at_same. Qed.
Lemma same_nodes_disk s s' t : same_nodes s s' → on_disk ρ s t → on_disk ρ s' t.
Proof. intros (_ & _ & Hk) Hd r p Hin. by apply Hk, Hd. Qed.

(** Writing a node that is on its page already. *)
Lemma flush_again `{NodeValue V} out u s n r p (vs : list V) :
  pooled ρ out u s (n + 1) → (u ≤ 2)%nat → 0 ≤ n → node_at s (ρ r) p → node_ok p vs →
  ∃ s', flush_page_of (ρ r) p s = Ok ((), s') ∧ same_nodes s s' ∧ pooled ρ (λ r', r' = r) (S u) s' n.
Proof.
  intros Hp Hu Hn Hr Hok. destruct (pooled_flush ρ out u s n r p vs Hp Hu Hn (proj1 Hr) Hok)
    as (s' & u' & Hfl & Hr' & Ho & Hp' & Hu' & _).
  exists s'. split; [done|]. split; [|eapply pooled_mono; [exact Hp'|lia|done|by right]].
  split; [apply Ho|]. split; [apply Ho|]. intros r0 p0 Hr0. destruct (decide (r0 = r)) as [->|Hne].
  - destruct Hr as [_ Hd], Hr0 as [_ Hd0]. rewrite Hd in Hd0. by injection Hd0 as <-.
  - eapply pooled_other; [exact Hp|exact Ho|exact Hne|exact Hr0].
Qed.

Context `{N : UninitNode}.

(** What [remove] and [merge] do with the nodes above one. *)
Definition climb (pid : Z) (crumbs : list (Z * Z)) : io () :=
  match crumbs with [] => mret () | crumb :: crumbs => merge pid crumb crumbs end.

Lemma form_values t : node_forms ρ t → is_leaf (root_page t) = true → ∃ vs, values (root_page t) = LeafRecords vs.
Proof.
  intros Hf Hl. inversion Hf as [? p vs Hok|? p ts vs Hok]; subst; cbn [root_page] in *.
  - exists vs. exact (wf_values _ _ (nd_wf _ _ Hok)).
  - rewrite (wf_leaf _ _ (nd_wf _ _ Hok)) in Hl. done.
Qed.

(** Nodes that are not merged are left as they are. *)
Lemma context_unmerged t t' p vs crumb left s pid pid' ppid :
  node_forms ρ t → node_forms ρ t' → is_leaf (root_page t') = is_leaf (root_page t) →
  unmerged (max_size (tree s)) (root_page t) (root_page t') = true → values p = InternalChildren vs →
  let local := mkLocal (root_page t) pid (root_page t') pid' p ppid in
  context_merge (setStrategy (if is_leaf (root_page t) then MergeLeafNodeStrategy else MergeNonLeafNodeStrategy)
                   (mkMergeContext None local crumb left)) s = Ok (local, s).
Proof.
  intros Hf Hf' Hl Hu Hv local. unfold unmerged in Hu. destruct (is_leaf (root_page t)) eqn:E.
  - destruct (form_values t Hf E) as [vt Hvt]. destruct (form_values t' Hf' Hl) as [vt' Hvt'].
    cbn [context_merge setStrategy strategy_ strategy_merge ctx_local ctx_parent_crumb ctx_is_left_sib].
    unfold MergeLeafNode_merge, local. cbn [sibling node local_parent]. lift_step. rewrite Hvt, Hvt', Hv.
    cbn [LEAF_RECORDS INTERNAL_CHILDREN]. do 3 lift_step. by rewrite Hu.
  - cbn [context_merge setStrategy strategy_ strategy_merge ctx_local ctx_parent_crumb ctx_is_left_sib].
    unfold MergeNonLeafNode_merge, local. cbn [sibling node local_parent]. lift_step. by rewrite Hu.
Qed.

(** The page of the sibling. *)
Lemma sibling_page key l t t' (vs : list Z) s :
  on_way key l → sibling_of key l = Some t' → linked ρ key l t t' = true →
  vs ++ [rightmost_ptr (lv_node l)] = ρ ∘ root_of <$> lv_left l ++ t :: lv_right l →
  (if (crumb_of ρ key l).2 =? -1 then lift (vec_at vs (zlen vs - 1)) else mret (next (root_page t))) s
  = Ok (ρ (root_of t'), s).
Proof.
  unfold on_way, sibling_of, linked, crumb_of. cbn [snd]. destruct (below (lv_node l) key); cbn [at_end negb orb].
  - intros _ _ Hn%Z.eqb_eq _. change (0 =? -1) with false. cbv iota. by rewrite Hn.
  - intros -> [l1 ->]%last_Some _. change (-1 =? -1) with true. cbv iota. rewrite !fmap_app. cbn.
    intros [-> _]%app_inj_tail. replace (zlen _ - 1) with (Z.of_nat (length (ρ ∘ root_of <$> l1))).
    + by rewrite (vec_at_lookup _ _ (ρ (root_of t')) (list_lookup_middle _ [] _ _ eq_refl)).
    + unfold zlen. rewrite length_app. cbn [length]. lia.
Qed.

(** What [merge] does with the three nodes that it has merged or not. *)
Definition finish (crumb : Z * Z) (rest : list (Z * Z)) (local : BTreePageLocalInfo) : io () :=
  _ ← flush_page_of crumb.1 (local_parent local);
  match rest with
  | [] => if zlen (keys (local_parent local)) =? 0 then
            t ← get_tree;
            _ ← put_tree (set_root (if crumb.2 =? -1 then sibling_pid local else local_node_pid local) t);
            flush_tree
          else mret ()
  | crumb' :: rest => merge crumb.1 crumb' rest
  end.

Lemma finish_climb crumb rest local s s' :
  flush_page_of crumb.1 (local_parent local) s = Ok ((), s') → keys (local_parent local) ≠ [] →
  finish crumb rest local s = climb crumb.1 rest s'.
Proof.
  intros Hfl Hne. unfold finish. io_step Hfl. destruct rest; [|done].
  rewrite (proj2 (Z.eqb_neq _ _)); [done|]. by intros ?%zlen_zero.
Qed.

(** The nodes that a level of the climb fetches. *)
Definition local_of l t t' : BTreePageLocalInfo :=
  mkLocal (root_page t) (ρ (root_of t)) (root_page t') (ρ (root_of t')) (lv_node l) (ρ (lv_page l)).
Definition context_of key l t t' : MergeContext :=
  setStrategy (if is_leaf (root_page t) then MergeLeafNodeStrategy else MergeNonLeafNodeStrategy)
    (mkMergeContext None (local_of l t t') (crumb_of ρ key l) ((crumb_of ρ key l).2 =? -1)).

Lemma fill_pages l t t' : NoDup (nodes (fill l t)).*1 → t' ∈ lv_left l ++ t :: lv_right l → root_of t' ≠ lv_page l.
Proof.
  intros Hnd Hin Heq. cbn [fill nodes] in Hnd. rewrite fmap_cons in Hnd. apply NoDup_cons in Hnd as [Hno _].
  apply Hno. cbn. rewrite <- Heq. apply list_elem_of_fmap. exists (root_of t', root_page t'). split; [done|].
  apply list_elem_of_bind. exists t'. split; [|done]. destruct t'; by left.
Qed.

Lemma merge_loads_level key l t t' s rest u n :
  pooled ρ (λ r, r = root_of t) u s (n + 3) → (u ≤ 2)%nat → 0 ≤ n →
  node_forms ρ (fill l t) → on_disk ρ s (fill l t) → NoDup (nodes (fill l t)).*1 →
  on_way key l → sibling_of key l = Some t' → linked ρ key l t t' = true →
  ∃ s', merge (ρ (root_of t)) (crumb_of ρ key l) rest s
    = (context_merge (context_of key l t t') ≫= finish (crumb_of ρ key l) rest) s'
    ∧ same_pages s s' ∧ pooled ρ (λ _, False) (pred u) s' n.
Proof.
  intros Hp Hu Hn Hf Hd Hnd Hw Hsib Hlink. pose proof (sibling_in key l t t' Hsib) as Hin'.
  assert (t ∈ lv_left l ++ t :: lv_right l) as Hin by (apply elem_of_app; right; by left).
  pose proof (on_disk_root ρ _ _ Hd) as Hr. pose proof (on_disk_root ρ _ _ (on_disk_child _ _ _ _ _ _ Hd Hin)) as Ht.
  pose proof (on_disk_root ρ _ _ (on_disk_child _ _ _ _ _ _ Hd Hin')) as Ht'. cbn [fill root_of root_page] in Hr.
  inversion Hf as [|? ? ? vs Hok Hne Hvs Hts]; subst.
  replace (n + 3) with (n + 1 + 1 + 1) in Hp by lia.
  destruct (pooled_page ρ _ _ s _ (lv_page l) (lv_node l) Hp ltac:(lia) ltac:(lia) Hr)
    as (s1 & u1 & Hg1 & Hs1 & Hp1 & Hu1 & _).
  destruct (pooled_page ρ _ _ s1 _ (root_of t) (root_page t) Hp1) as (s2 & u2 & Hg2 & Hs2 & Hp2 & _ & Hu2);
    [lia|lia|by eapply node_at_same|].
  specialize (Hu2 (conj eq_refl (fill_pages l t t Hnd Hin))). pose proof (same_pages_trans _ _ _ Hs1 Hs2) as Hs12.
  destruct (pooled_page ρ _ _ s2 _ (root_of t') (root_page t') Hp2) as (s3 & u3 & Hg3 & Hs3 & Hp3 & Hu3 & _);
    [lia|lia|by eapply node_at_same|].
  exists s3. split; [|split; [by eapply same_pages_trans|]].
  2:{ eapply pooled_mono; [exact Hp3|lia|lia|done]. }
  assert (values (lv_node l) = InternalChildren vs) as Hv by exact (wf_values _ _ (nd_wf _ _ Hok)).
  pose proof (sibling_page key l t t' vs s2 Hw Hsib Hlink Hvs) as Hpid.
  destruct rest; cbn [merge]; io_step Hg1; rewrite Hv; cbn [INTERNAL_CHILDREN]; lift_step;
    io_step Hg2; io_step Hpid; io_step Hg3; done.
Qed.

(** A climb without merges keeps all nodes. *)
Lemma climb_kept key ls : ∀ t s u n,
  pooled ρ (λ r, r = root_of t) u s (n + 4 * zlen ls) → (1 ≤ u ≤ 2)%nat → 0 ≤ n →
  node_forms ρ (plug ls t) → on_disk ρ s (plug ls t) → NoDup (nodes (plug ls t)).*1 →
  Forall (on_way key) ls → kept ρ (max_size (tree s)) key ls t = true →
  ∃ s', climb (ρ (root_of t)) (crumb_of ρ key <$> ls) s = Ok ((), s') ∧ same_nodes s s'
    ∧ pooled ρ (λ r, r = root_of (plug ls t)) u s' n.
Proof.
  induction ls as [|l ls IH]; intros t s u n Hp Hu Hn Hf Hd Hnd Hw Hk.
  { exists s. split; [done|]. split; [done|]. eapply pooled_mono; [exact Hp|change (zlen []) with 0; lia|done|done]. }
  inversion Hw as [|? ? Hwl Hwls]; subst. cbn [kept] in Hk. apply andb_true_iff in Hk as [Ha Hk].
  destruct (apart_sibling _ _ _ _ _ Ha) as (t' & Hsib & Hl & Hun & Hlink).
  rewrite zlen_cons in Hp. pose proof (zlen_nonneg ls). pose proof (plug_forms ρ ls _ Hf) as Hfl.
  destruct (merge_loads_level key l t t' s (crumb_of ρ key <$> ls) u (n + 4 * zlen ls + 1)) as (s1 & Hm & Hs1 & Hp1);
    [eapply pooled_mono; [exact Hp|lia|done|done]|lia|lia|done| | |done..|].
  { intros r p Hin. by apply Hd, (plug_nodes_in ls (fill l t)). }
  { by apply (plug_nodup ls (fill l t)). }
  inversion Hfl as [|? ? ? vs Hok Hne Hvs Hts]; subst.
  destruct (flush_again _ _ s1 _ (lv_page l) (lv_node l) vs Hp1) as (s2 & Hfl2 & Hs2 & Hp2); [lia|lia| |done|].
  { eapply node_at_same; [exact Hs1|]. apply Hd, (plug_nodes_in ls (fill l t)). by left. }
  pose proof (same_nodes_trans _ _ _ (same_nodes_pages _ _ Hs1) Hs2) as Hs12.
  destruct (IH (fill l t) s2 u n) as (s' & Hc & Hs' & Hp');
    [|exact Hu|exact Hn|exact Hf|exact (same_nodes_disk _ _ _ Hs12 Hd)|exact Hnd|exact Hwls|by rewrite (proj1 Hs12)|].
  - eapply pooled_mono; [exact Hp2|lia|lia|done].
  - exists s'. split; [|split; [exact (same_nodes_trans _ _ _ Hs12 Hs')|exact Hp']].
    rewrite fmap_cons. cbn [climb]. rewrite Hm. erewrite io_bind_ok.
    2:{ apply (context_unmerged t t' (lv_node l) vs); [by apply Hts, elem_of_app; right; left| |done| |].
        - by apply Hts, (sibling_in key).
        - by rewrite (proj1 Hs1).
        - exact (wf_values _ _ (nd_wf _ _ Hok)). }
    erewrite finish_climb; [exact Hc|exact Hfl2|exact Hne].
Qed.
End climb.

(** ** Removal *)

Section removal.
Context `{U : Uninit} `{Finite R} (ρ : R → Z) `{N : UninitNode}.
Implicit Types (t : node_tree R) (l : level R) (ls : list (level R)).

(** A tree on disk between two operations: at most [u] pages were flushed and not
    fetched since, and either no leaf is in the pool or the root is not. *)
Record idle (s : index) t (u : nat) (n : Z) : Prop := {
  id_pages : deep_pages ρ s t;
  id_count : (1 ≤ u ≤ 2)%nat;
  id_pool : pooled ρ (λ r, r ∈ (leaves t).*1) u s n ∨ pooled ρ (λ r, r = root_of t) u s n;
}.

Lemma deep_idle s t n : deep_tree ρ s t n → idle s t 1 n.
Proof. intros [Hp Hpool]. split; [done|lia|by left]. Qed.

Lemma idle_find fuel key s t u n :
  idle s t u (n + Z.of_nat (height t) + 1) → (height t < fuel)%nat → 0 ≤ n →
  ∃ crumbs r p vs s', route ρ key t = Some (crumbs, (r, (p, vs)))
    ∧ findLeaf fuel key s = Ok ((p, crumbs, ρ r), s') ∧ same_pages s s' ∧ pooled ρ (λ _, False) (pred u) s' n.
Proof.
  intros [[Hf Ho Hd Hnd Hpids Hroot] Hu [Hp|Hp]] Hh Hn.
  - destruct (findLeaf_route ρ fuel key t s (λ r, r ∈ (leaves t).*1) u n Hf Hd Hh) as
      (cr & r & p & vs & s' & u' & Hr & Hfind & Hs & Hp' & _ & Hu'); [|exact Hroot|exact Hp|lia|lia|].
    { intros r Hr. by apply inner_not_leaf. }
    destruct (route_leaf ρ key t Hf) as (? & ? & ? & ? & Hr' & _ & Hin). rewrite Hr in Hr'. injection Hr' as <- <- <- <-.
    specialize (Hu' (proj1 (leaf_page _ _ _ _ Hin))). exists cr, r, p, vs, s'.
    split; [done|]. split; [done|]. split; [done|]. eapply pooled_mono; [exact Hp'|lia|lia|done].
  - destruct (pooled_fetch ρ _ u s (n + Z.of_nat (height t)) (root_of t) (root_page t) Hp ltac:(lia) ltac:(lia) (on_disk_root ρ _ _ Hd))
      as (i & s1 & page & u1 & Hfe & Hfr & Hid & Hde & Hs1 & Hp1 & _ & Hu1). specialize (Hu1 eq_refl).
    destruct (descend_route ρ fuel key t s1 i page [] (λ _, False) u1 n Hf (on_disk_same ρ _ _ _ Hs1 Hd) Hh) as
      (cr & r & p & vs & s' & u' & Hr & Hds & Hs' & Hp' & Hu' & _); [by intros ? _ []| |lia|done|done|done|].
    { eapply pooled_mono; [exact Hp1|lia|lia|by intros ? []]. }
    exists cr, r, p, vs, s'. split; [done|]. split; [|split; [by eapply same_pages_trans|]].
    + unfold findLeaf. lift_step. rewrite Hroot. io_step Hfe. io_step Hfr. rewrite Hde. lift_step. by rewrite Hds, app_nil_r.
    + eapply pooled_mono; [exact Hp'|lia|lia|by intros ? []].
Qed.

(** The leaf for a key with the levels above it. *)
Lemma leaf_route key ls r p vs : Forall (on_way key) ls → route ρ key (plug ls (Leaf r p vs)) = Some (crumb_of ρ key <$> ls, (r, (p, vs))).
Proof. intros Hls. by rewrite plug_route. Qed.

Lemma leaf_without_ok key p vs :
  leaf_ok p vs → key ∈ keys p →
  let q := leaf_without key p vs in
  ∃ val, leaf_ok q.1 q.2 ∧ (key, val) ∈ pairs p vs ∧ pairs p vs ≡ₚ (key, val) :: pairs q.1 q.2
    ∧ let i := Z.of_nat (key_index (keys p) key) in
      vec_erase (keys p) i = Ok (keys q.1) ∧ vec_erase vs i = Ok q.2
      ∧ set_values (LeafRecords q.2) (set_keys (keys q.1) p) = q.1.
Proof.
  intros Hok Hin q. pose proof (key_index_found _ _ Hin) as Hk. pose proof (lookup_lt_Some _ _ _ Hk) as Hi.
  pose proof (nd_length _ _ Hok) as Hlen. destruct (lookup_lt_is_Some_2 vs (key_index (keys p) key)) as [val Hv]; [lia|].
  destruct (leaf_delete p vs _ key val Hok Hk Hv) as [Hok' Hperm]. exists val. split; [done|].
  split; [rewrite Hperm; by left|]. split; [done|]. cbv zeta. rewrite !vec_erase_ok by lia. done.
Qed.

(** A leaf for another in a tree on disk. *)
Lemma idle_leaf s s' key val ls r p vs p' vs' :
  deep_pages ρ s (plug ls (Leaf r p vs)) → Forall (on_way key) ls → leaf_ok p' vs' → pairs p vs ≡ₚ (key, val) :: pairs p' vs' →
  (∀ r r', ρ r = ρ r' → r = r') → (∀ r, 0 ≤ ρ r) →
  other_pages (ρ r) s s' → node_at s' (ρ r) p' → deep_pages ρ s' (plug ls (Leaf r p' vs')).
Proof.
  intros [Hf Hord Hd Hnd Hpids Hroot] Hw Hok Hperm Hinj Hpos Ho Hn.
  destruct (plug_nodes ls) as [rest Hrest]. pose proof (fmap_Permutation fst _ _ (Hrest (Leaf r p vs))) as Hr1.
  pose proof (fmap_Permutation fst _ _ (Hrest (Leaf r p' vs'))) as Hr2. rewrite fmap_app in Hr1, Hr2. cbn in Hr1, Hr2.
  assert (∀ x, x ∈ pairs p' vs' → x ∈ pairs p vs) as Hsub by (intros x Hx; rewrite Hperm; by right).
  split.
  - by apply (plug_forms_with ρ ls (Leaf r p vs)); [|constructor|].
  - apply (plug_ordered_with ρ key ls (Leaf r p vs)); [done|done|done|constructor|].
    destruct (plug_ordered key ls _ Hw Hord) as [_ Hb]. unfold beside_way in *. rewrite Forall_forall in *.
    intros l Hl. specialize (Hb l Hl). rewrite Forall_forall in *. intros kv Hkv. by apply Hb, Hsub.
  - intros r0 p0 Hin. rewrite Hrest in Hin. cbn in Hin. apply elem_of_cons in Hin as [[= -> ->]|Hin]; [done|].
    eapply node_at_other; [exact Ho|apply Hpos| |apply Hd; rewrite Hrest; by right].
    intros Heq%Hinj. subst r0. rewrite Hr1 in Hnd. apply NoDup_cons in Hnd as [Hno _]. apply Hno.
    by apply (list_elem_of_fmap_2 fst) in Hin.
  - by rewrite Hr2, <- Hr1.
  - intros r0. rewrite Hr2, <- Hr1. apply Hpids.
  - rewrite (proj1 Ho), Hroot. f_equal. by apply plug_root.
Qed.

(** A removal up to the climb. *)
Lemma remove_starts fuel key s ls r p vs u n :
  let t := plug ls (Leaf r p vs) in
  let q := leaf_without key p vs in
  idle s t u (n + Z.of_nat (height t) + 2) → (height t < fuel)%nat → 0 ≤ n → Forall (on_way key) ls → key ∈ keys p →
  ∃ val s', remove fuel key s = climb (ρ r) (crumb_of ρ key <$> ls) s'
    ∧ deep_pages ρ s' (plug ls (Leaf r q.1 q.2)) ∧ pooled ρ (λ r', r' = r) u s' n
    ∧ leaf_ok q.1 q.2 ∧ (key, val) ∈ pairs p vs ∧ pairs p vs ≡ₚ (key, val) :: pairs q.1 q.2 ∧ other_pages (ρ r) s s'.
Proof.
  intros t q Hi Hh Hn Hw Hin. replace (n + Z.of_nat (height t) + 2) with (n + 1 + Z.of_nat (height t) + 1) in Hi by lia.
  destruct (idle_find fuel key s t u (n + 1) Hi Hh ltac:(lia)) as (cr & r' & p' & vs' & s1 & Hr & Hfind & Hs1 & Hp1).
  unfold t in Hr. rewrite leaf_route in Hr by done. injection Hr as <- <- <- <-. pose proof Hi as [Hpages Hu _].
  assert (leaf_ok p vs) as Hok by (pose proof (plug_forms ρ ls _ (dt_forms _ _ _ Hpages)) as Hf; by inversion Hf).
  destruct (leaf_without_ok key p vs Hok Hin) as (val & Hok' & Hval & Hperm & Hks & Hvs & Hq). fold q in Hok', Hperm, Hks, Hvs, Hq.
  assert (node_at s (ρ r) p) as Hnode by (apply (dt_disk _ _ _ Hpages); apply (plug_nodes_in ls); by left).
  destruct (pooled_flush ρ _ _ s1 n r q.1 q.2 Hp1) as (s2 & u2 & Hfl & Hn2 & Ho2 & Hp2 & Hu2 & _);
    [lia|done|by eapply node_at_same|done|].
  pose proof (pooled_pages _ _ _ _ _ Hp1) as [Hpos Hinj].
  assert (other_pages (ρ r) s s2) as Ho by (eapply other_pages_trans, Ho2; by apply same_other).
  exists val, s2. split; [|split; [by eapply idle_leaf|split; [eapply pooled_mono; [exact Hp2|lia|lia|by right]|done]]].
  unfold remove. io_step Hfind. rewrite (wf_values _ _ (nd_wf _ _ Hok) : values p = LeafRecords vs). cbn [LEAF_RECORDS].
  lift_step. rewrite Hks, Hvs. do 2 lift_step. rewrite Hq. io_step Hfl. by destruct ls.
Qed.

(** *** A removal without a merge *)

Lemma remove_kept fuel key s ls r p vs u n :
  let t := plug ls (Leaf r p vs) in
  let q := leaf_without key p vs in
  let t' := plug ls (Leaf r q.1 q.2) in
  idle s t u (n + 5 * Z.of_nat (height t) + 2) → (height t < fuel)%nat → 0 ≤ n → Forall (on_way key) ls → key ∈ keys p →
  kept ρ (max_size (tree s)) key ls (Leaf r q.1 q.2) = true →
  ∃ val s', remove fuel key s = Ok ((), s') ∧ idle s' t' u n ∧ (key, val) ∈ pairs p vs ∧ pairs p vs ≡ₚ (key, val) :: pairs q.1 q.2
    ∧ tree s' = tree s ∧ dm_of s' = dm_of s ∧ ∀ r' p', r' ≠ r → node_at s (ρ r') p' → node_at s' (ρ r') p'.
Proof.
  intros t q t' Hi Hh Hn Hw Hin Hk. pose proof (plug_height ls (Leaf r p vs)) as Hht. fold t in Hht. cbn [height] in Hht.
  destruct (remove_starts fuel key s ls r p vs u (n + 4 * zlen ls)) as (val & s1 & Hrem & Hpages & Hp1 & _ & Hval & Hperm & Ho);
    [|done|unfold zlen; lia|done|done|].
  { fold t. destruct Hi as [H1 H2 H3]. split; [done|done|].
    destruct H3; [left|right]; (eapply pooled_mono; [done|unfold zlen; lia|done|done]). }
  fold q in Hpages, Hperm. pose proof Hpages as [Hf Hord Hd Hnd Hpids Hroot]. pose proof (id_count _ _ _ _ Hi) as Hu.
  destruct (climb_kept ρ key ls (Leaf r q.1 q.2) s1 u n Hp1 Hu Hn Hf Hd Hnd Hw) as (s' & Hc & Hs' & Hp'); [by rewrite (proj1 Ho)|].
  exists val, s'. split; [by rewrite Hrem|]. split; [|split; [done|split; [done|]]].
  - split; [|done|by right]. split; [done|done|exact (same_nodes_disk _ _ _ _ Hs' Hd)|done|done|by rewrite (proj1 Hs')].
  - destruct Hs' as (Ht' & Hdm' & Hk'). split; [by rewrite Ht', (proj1 Ho)|]. split; [by rewrite Hdm', (proj1 (proj2 Ho))|].
    intros r' p' Hne Hr'. apply Hk'. pose proof (pooled_pages _ _ _ _ _ Hp1) as [Hpos Hinj].
    eapply node_at_other; [exact Ho|apply Hpos| |done]. by intros Heq%Hinj.
Qed.

(** *** A removal that joins two leaves *)

(** The leaf for the key and its sibling fit one page, and the node above them has a key more. *)
Record joinable (max : Z) (key : BTreeKey) l (r : R) (p : BTreePage) (vs : list RID) (r' : R) (p' : BTreePage) (vs' : list RID)
    (vs0 : list Z) : Prop := {
  jo_sibling : sibling_of key l = Some (Leaf r' p' vs');
  jo_linked : linked ρ key l (Leaf r p vs) (Leaf r' p' vs') = true;
  jo_few : unmerged max p p' = false;
  jo_room : room (pairs p vs ++ pairs p' vs') ≤ PAGE_SIZE;
  jo_distinct : ∀ k k', k ∈ keys p → k' ∈ keys p' → cmpKeys k k' ≠ 0;
  jo_keys : (2 ≤ length (keys (lv_node l)))%nat;
  jo_values : values (lv_node l) = InternalChildren vs0;
}.

Section join.
Context (max : Z) (key : BTreeKey) (l : level R) (r : R) (p : BTreePage) (vs : list RID) (r' : R) (p' : BTreePage) (vs' : list RID).
Context (vs0 : list Z).
Let first := below (lv_node l) key.
Let leaf := Leaf r p vs.
Let sib := Leaf r' p' vs'.
Let both := joined_leaf first r p vs r' p' vs'.
Let parent := joined_node first (ρ (root_of both)) (lv_node l) vs0.
Hypothesis Hjoin : joinable max key l r p vs r' p' vs' vs0.
Hypothesis Hway : on_way key l.

(** What the strategy makes of the three nodes. *)
Lemma context_join s s' :
  max_size (tree s) = max → leaf_ok p vs → leaf_ok p' vs' → length vs0 = length (keys (lv_node l)) →
  (first = true → ρ r' ≠ rightmost_ptr (lv_node l)) →
  flush_page_of (ρ (root_of both)) (root_page both) s = Ok ((), s') →
  ∃ local, context_merge (context_of ρ key l leaf sib) s = Ok (local, s') ∧ local_parent local = parent.
Proof.
  intros Hmax Hok Hok' Hlen Hright Hfl. pose proof Hjoin as [_ _ Hfew _ _ Hk Hv]. subst max.
  pose proof (wf_leaf _ _ (nd_wf _ _ Hok) : is_leaf p = true) as Hl.
  unfold unmerged in Hfew. rewrite Hl in Hfew.
  unfold context_of, local_of. cbn [leaf sib root_page root_of]. rewrite Hl.
  cbn [context_merge setStrategy strategy_ strategy_merge ctx_local ctx_parent_crumb ctx_is_left_sib].
  unfold MergeLeafNode_merge. cbn [sibling node local_parent sibling_pid local_node_pid parent_pid]. lift_step.
  rewrite (wf_values _ _ (nd_wf _ _ Hok) : values p = LeafRecords vs), (wf_values _ _ (nd_wf _ _ Hok') : values p' = LeafRecords vs'), Hv.
  cbn [LEAF_RECORDS INTERNAL_CHILDREN]. do 3 lift_step. rewrite Hfew. unfold crumb_of. cbn [snd].
  fold first. revert Hfl Hright. unfold parent, both, joined_leaf, joined_node. generalize first. intros [] Hfl Hright; cbn [root_of root_page] in *.
  - change (0 =? -1) with false. cbv iota. rewrite (proj2 (Z.eqb_neq _ _) (Hright eq_refl)).
    destruct vs0 as [|a [|b vs2]], (keys (lv_node l)) as [|k0 [|k1 ks]] eqn:Hk0; cbn [length] in *; try lia.
    erewrite io_bind_ok by reflexivity. cbv beta iota zeta. unfold append_leaf in Hfl. io_step Hfl. eexists. split; [done|].
    unfold set_keys, set_values. cbn. by rewrite ?drop_0.
  - change (-1 =? -1) with true. cbv iota. unfold append_leaf in Hfl. io_step Hfl.
    assert ((zlen (keys (lv_node l)) =? 1) = false) as -> by (apply Z.eqb_neq; unfold zlen; lia).
    erewrite io_bind_ok by reflexivity. cbn [set_rightmost values keys]. rewrite Hv.
    destruct vs0 as [|a vs2], (keys (lv_node l)) as [|k ks]; cbn [length] in *; try lia.
    eexists. split; reflexivity.
Qed.

(** The nodes that are written are well formed and in order. *)
Section forms.
Hypothesis Hf : node_forms ρ (fill l leaf).
Hypothesis Hsorted : sorted_tree (fill l leaf) = true.
Hypothesis Hpids : ∀ r, is_u32 (ρ r).

Lemma join_parts :
  node_ok (lv_node l) vs0 ∧ leaf_ok p vs ∧ leaf_ok p' vs' ∧ length (others key l) = pred (length (keys (lv_node l)))
  ∧ others key l ≠ [] ∧ (∀ x, x ∈ others key l → node_forms ρ x)
  ∧ vs0 ++ [rightmost_ptr (lv_node l)] = ρ ∘ root_of <$> add_end first leaf (add_end first sib (others key l)).
Proof.
  pose proof Hjoin as [Hsib _ _ _ _ Hk Hv].
  assert (node_ok (lv_node l) vs0) as Hok.
  { inversion Hf as [|? ? ? w Hok _ _ _]; subst. pose proof (wf_values _ _ (nd_wf _ _ Hok)) as Hw. rewrite Hv in Hw.
    by injection Hw as ->. }
  destruct (fill_children ρ key l leaf sib vs0 Hf Hok Hway Hsib Hk) as (Hvs & Hlen & Hs & Hall).
  pose proof (fill_forms ρ l leaf Hf) as Hl. split; [done|]. split; [by inversion Hl|]. split; [by inversion Hs|].
  split; [done|]. split; [|split; [done|exact Hvs]]. intros Hnil. rewrite Hnil in Hlen. cbn in Hlen. lia.
Qed.

Lemma both_ok : ∃ w, both = Leaf (root_of both) (root_page both) w ∧ leaf_ok (root_page both) w.
Proof.
  destruct join_parts as (Hok & Hl & Hl' & Hlen & _). pose proof Hjoin as [Hsib _ _ Hroom Hdist Hk _].
  pose proof Hsorted as Hs. rewrite (fill_siblings key l leaf sib Hway Hsib) in Hs. fold first in Hs.
  assert (∀ x y, x ∈ keys p → y ∈ keys p' → if first then key_lt x y else key_lt y x) as Hacross.
  { intros x y Hx Hy. pose proof Hx as Hx'. pose proof Hy as Hy'.
    rewrite <- (pairs_keys p vs Hl) in Hx'. rewrite <- (pairs_keys p' vs' Hl') in Hy'.
    apply list_elem_of_fmap in Hx' as (kv & -> & Hkv). apply list_elem_of_fmap in Hy' as (kv' & -> & Hkv').
    by apply (sorted_across first _ _ _ _ _ kv kv' Hs Hlen Hk); [..|apply Hdist]. }
  revert Hacross. unfold both, joined_leaf. generalize first. intros []; cbn [root_of root_page]; intros Hacross.
  - exists (vs ++ vs'). split; [done|]. apply set_next_ok; [by apply append_leaf_ok|]. apply (wf_next _ _ (nd_wf _ _ Hl')).
  - exists (vs' ++ vs). split; [done|]. apply append_leaf_ok; [done|done| |].
    + intros x y Hx Hy. by apply Hacross.
    + etrans; [|exact Hroom]. apply Z.eq_le_incl, room_Permutation, Permutation_app_comm.
Qed.

Lemma join_forms : node_forms ρ (joined ρ key l vs0 both) ∧ sorted_tree (joined ρ key l vs0 both) = true
  ∧ node_ok parent (joined_values first (ρ (root_of both)) vs0) ∧ keys parent ≠ [].
Proof.
  destruct join_parts as (Hok & Hl & Hl' & Hlen & Hne & Hall & Hvs). pose proof Hjoin as [Hsib _ _ _ _ Hk _].
  destruct both_ok as (w & Hb & Hbok).
  destruct (joined_node_ok first (ρ (root_of both)) (lv_node l) vs0 Hok Hk (Hpids _)) as [Hpok Hpne].
  split; [|split; [|by split]].
  - apply (NodeForm _ _ _ _ (joined_values first (ρ (root_of both)) vs0)); [done|done| |].
    + pose proof (joined_children ρ first leaf sib both (others key l) vs0 _ Hne Hvs (both_root key l r r' p p' vs vs')) as Hch.
      exact Hch.
    + intros x Hx. rewrite add_end_perm in Hx. apply elem_of_cons in Hx as [->|Hx]; [|by apply Hall]. rewrite Hb. by constructor.
  - pose proof Hsorted as Hs. rewrite (fill_siblings key l leaf sib Hway Hsib) in Hs.
    apply (sorted_join first _ (lv_node l) _ leaf sib); [exact Hs|apply (nd_sorted _ _ Hok)|done|done|done|by rewrite Hb|].
    intros kv Hkv. pose proof (proj1 (joined_pairs key l r r' p p' vs vs' Hl Hl')) as Hp. fold first both in Hp.
    rewrite Hp in Hkv. by apply elem_of_app in Hkv.
Qed.

Lemma last_pid ts (vs1 : list Z) rm : vs1 ++ [rm] = ρ ∘ root_of <$> ts → ∃ t, last ts = Some t ∧ rm = ρ (root_of t).
Proof.
  intros Hvs. apply (f_equal last) in Hvs. rewrite last_snoc, fmap_last in Hvs. destruct (last ts) as [t|]; [|done].
  exists t. split; [done|]. by injection Hvs.
Qed.

Lemma root_in t : root_of t ∈ (nodes t).*1.
Proof. destruct t; by left. Qed.

(** The sibling on the right is not the rightmost child. *)
Lemma sibling_not_last :
  NoDup (nodes (fill l leaf)).*1 → (∀ r r', ρ r = ρ r' → r = r') → first = true → ρ r' ≠ rightmost_ptr (lv_node l).
Proof.
  intros Hnd Hinj Hfirst. destruct join_parts as (_ & _ & _ & _ & Hne & _ & Hvs).
  destruct (last_pid _ _ _ Hvs) as (t & Ht & ->). rewrite Hfirst in Ht. cbn [add_end] in Ht.
  assert (t ∈ others key l) as Hin.
  { destruct (others key l) as [|x ts] eqn:E; [done|]. cbn [last] in Ht. by apply last_Some_elem_of. }
  intros Heq%Hinj. pose proof (fill_nodes key l r r' p p' vs vs' Hway (jo_sibling _ _ _ _ _ _ _ _ _ _ Hjoin)) as Hn. fold leaf in Hn.
  rewrite Hn, !fmap_cons in Hnd.
  apply NoDup_cons in Hnd as [_ [_ [Hno _]%NoDup_cons]%NoDup_cons]. apply Hno. cbn [fst]. rewrite Heq.
  pose proof (root_in t) as (x & -> & Hx)%list_elem_of_fmap. apply list_elem_of_fmap_2, list_elem_of_bind. by exists t.
Qed.
End forms.

(** *** The levels above *)

Context (ls : list (level R)).
Let t0 := plug ls (fill l leaf).
Let t1 := plug ls (joined ρ key l vs0 both).
Hypothesis Hways : Forall (on_way key) ls.

(** The tree with the joined leaves on disk. *)
Lemma join_pages s s' :
  deep_pages ρ s t0 → sorted_tree t0 = true → (∀ r, is_u32 (ρ r)) →
  tree s' = tree s → node_at s' (ρ (root_of both)) (root_page both) → node_at s' (ρ (lv_page l)) parent →
  (∀ r1 p1, r1 ≠ root_of both → r1 ≠ lv_page l → node_at s (ρ r1) p1 → node_at s' (ρ r1) p1) →
  deep_pages ρ s' t1 ∧ sorted_tree t1 = true ∧ contents_in t1 ≡ₚ contents_in t0 ∧ visible t1 ≡ₚ visible t0 ++ pairs p' vs'.
Proof.
  intros [Hf Hord Hd Hnd Hpids Hroot] Hs Hu32 Htree Hb Hp Hk. pose proof (jo_sibling _ _ _ _ _ _ _ _ _ _ Hjoin) as Hsib.
  pose proof (plug_forms ρ ls _ Hf) as Hff. pose proof (plug_sorted ls _ Hs) as Hsf.
  destruct (join_parts Hff) as (Hok & Hl & Hl' & _ & Hne & _). destruct (join_forms Hff Hsf Hu32) as (Hjf & Hjs & _).
  pose proof (joined_contents ρ key l r r' p p' vs vs' vs0 Hway Hsib Hl Hl') as Hc. fold first both leaf in Hc.
  assert (sorted_tree t1 = true) as Hs1.
  { apply (plug_sorted_with ls (fill l leaf)); [done|done|]. intros kv. by rewrite Hc. }
  assert (node_forms ρ t1) as Hf1 by by apply (plug_forms_with ρ ls (fill l leaf)).
  destruct (plug_nodes ls) as [rest Hrest]. pose proof (Hrest (fill l leaf)) as Hn0.
  pose proof (Hrest (joined ρ key l vs0 both)) as Hn1. fold t0 in Hn0. fold t1 in Hn1.
  pose proof (fill_nodes key l r r' p p' vs vs' Hway Hsib) as Hfn. fold leaf in Hfn. rewrite Hfn in Hn0.
  pose proof (joined_nodes ρ key l r r' p p' vs vs' vs0) as Hjn. fold first both in Hjn. rewrite Hjn in Hn1.
  cbn [app] in Hn0, Hn1. set (R' := (others key l ≫= nodes) ++ rest) in *.
  pose proof (fmap_Permutation fst _ _ Hn0) as Hm0. pose proof (fmap_Permutation fst _ _ Hn1) as Hm1.
  rewrite fmap_cons, (fmap_cons fst (r, p)), (fmap_cons fst (r', p')) in Hm0. rewrite !fmap_cons in Hm1. cbn [fst] in Hm0, Hm1.
  assert (root_of both = r ∨ root_of both = r') as Hrb by (unfold both, joined_leaf; generalize first; intros []; tauto).
  pose proof Hnd as Hnd'. rewrite Hm0 in Hnd'.
  apply NoDup_cons in Hnd' as [Hx1 [Hx2 [Hx3 Hx4]%NoDup_cons]%NoDup_cons].
  rewrite !not_elem_of_cons in Hx1. rewrite not_elem_of_cons in Hx2.
  assert (lv_page l ≠ root_of both ∧ root_of both ∉ R'.*1) as [Hy1 Hy2] by (destruct Hrb as [-> | ->]; tauto).
  split; [split|split; [done|split]].
  - done.
  - by apply (sorted_ordered ρ).
  - intros r1 p1 Hin. rewrite Hn1 in Hin. apply elem_of_cons in Hin as [[= -> ->]|[[= -> ->]|Hin]%elem_of_cons]; [done|done|].
    assert (r1 ∈ R'.*1) as Hin1 by (by apply (list_elem_of_fmap_2 fst) in Hin).
    apply Hk; [intros ->; tauto|intros ->; tauto|]. apply Hd. rewrite Hn0. by do 3 right.
  - rewrite Hm1. constructor; [|by constructor]. rewrite not_elem_of_cons. tauto.
  - intros r1. rewrite Hm1, !elem_of_cons. intros Hin. apply Hpids. rewrite Hm0, !elem_of_cons.
    destruct Hin as [->|[->|?]]; [by left|destruct Hrb as [-> | ->]; tauto|tauto].
  - rewrite Htree, Hroot. f_equal. by apply plug_root.
  - destruct (plug_contents ls) as [crest Hcr]. unfold t0, t1. by rewrite !Hcr, Hc.
  - destruct (plug_visible ρ key ls (fill l leaf) Hf Hways) as [vrest Hvr]. unfold t0, t1. rewrite !Hvr.
    pose proof (joined_visible ρ key l r r' p p' vs vs' vs0 Hway Hsib Hl Hl' Hne) as Hjv. fold first both leaf in Hjv.
    rewrite Hjv. solve_Permutation.
Qed.
End join.

(** The joined leaf takes the page of one of the two. *)
Lemma both_child key l r p vs r' p' vs' :
  sibling_of key l = Some (Leaf r' p' vs') →
  ∃ x, x ∈ lv_left l ++ Leaf r p vs :: lv_right l ∧ root_of x = root_of (joined_leaf (below (lv_node l) key) r p vs r' p' vs').
Proof.
  intros Hsib. rewrite both_root. destruct (below (lv_node l) key).
  - exists (Leaf r p vs). split; [|done]. apply elem_of_app. right. by left.
  - exists (Leaf r' p' vs'). split; [by apply (sibling_in key)|done].
Qed.

(** A level of the climb that joins the leaf with its sibling. *)
Lemma join_level key s l ls r p vs r' p' vs' vs0 n :
  let first := below (lv_node l) key in
  let both := joined_leaf first r p vs r' p' vs' in
  let t := joined ρ key l vs0 both in
  deep_pages ρ s (plug ls (fill l (Leaf r p vs))) → sorted_tree (plug ls (fill l (Leaf r p vs))) = true →
  pooled ρ (λ x, x = r) 1 s (n + 5) → 0 ≤ n → Forall (on_way key) (l :: ls) →
  joinable (max_size (tree s)) key l r p vs r' p' vs' vs0 →
  ∃ s', merge (ρ r) (crumb_of ρ key l) (crumb_of ρ key <$> ls) s = climb (ρ (lv_page l)) (crumb_of ρ key <$> ls) s'
    ∧ pooled ρ (λ x, x = lv_page l) 2 s' n ∧ tree s' = tree s ∧ dm_of s' = dm_of s
    ∧ deep_pages ρ s' (plug ls t) ∧ sorted_tree (plug ls t) = true
    ∧ contents_in (plug ls t) ≡ₚ contents_in (plug ls (fill l (Leaf r p vs)))
    ∧ visible (plug ls t) ≡ₚ visible (plug ls (fill l (Leaf r p vs))) ++ pairs p' vs'.
Proof.
  intros first both t Hpages Hs Hp Hn Hw Hjoin. inversion Hw as [|? ? Hwl Hwls]; subst.
  pose proof Hpages as [Hf _ Hd Hnd _ _]. pose proof (plug_forms ρ ls _ Hf) as Hff. pose proof (plug_sorted ls _ Hs) as Hsf.
  pose proof (plug_nodup ls _ Hnd) as Hndf. pose proof (pooled_pages _ _ _ _ _ Hp) as [Hpos Hinj].
  assert (∀ x, is_u32 (ρ x)) as Hu32.
  { intros x. destruct Hp as (c & Hc & _). pose proof (ca_pids _ _ _ _ _ Hc x). unfold is_u32. lia. }
  assert (on_disk ρ s (fill l (Leaf r p vs))) as Hdf by (intros x q Hin; by apply Hd, plug_nodes_in).
  pose proof Hjoin as [Hsib Hlink _ _ _ _ Hv].
  destruct (join_parts _ key l r p vs r' p' vs' vs0 Hjoin Hwl Hff) as (Hok & Hl & Hl' & _).
  destruct (join_forms _ key l r p vs r' p' vs' vs0 Hjoin Hwl Hff Hsf Hu32) as (_ & _ & Hpok & Hpne).
  destruct (both_ok _ key l r p vs r' p' vs' vs0 Hjoin Hwl Hff Hsf) as (w & Hb & Hbok). fold first both in Hpok, Hpne, Hb, Hbok.
  replace (n + 5) with (n + 1 + 1 + 3) in Hp by lia.
  destruct (merge_loads_level ρ key l (Leaf r p vs) (Leaf r' p' vs') s (crumb_of ρ key <$> ls) 1 (n + 1 + 1) Hp)
    as (s1 & Hm & Hs1 & Hp1); [lia|lia|done|done|done|done|done|done|].
  assert (∀ x q, (x, q) ∈ nodes (fill l (Leaf r p vs)) → node_at s1 (ρ x) q) as Hdf1
    by (intros x q Hin; eapply node_at_same; [exact Hs1|by apply Hdf]).
  destruct (both_child key l r p vs r' p' vs' Hsib) as (x & Hx & Hroot). fold first both in Hroot.
  assert ((root_of both, root_page x) ∈ nodes (fill l (Leaf r p vs))) as Hq.
  { rewrite <- Hroot. right. apply list_elem_of_bind. exists x. split; [|done]. destruct x; by left. }
  destruct (pooled_flush ρ _ _ s1 (n + 1) (root_of both) (root_page both) w Hp1) as (s2 & u2 & Hfl2 & Hn2 & Ho2 & Hp2 & Hu2 & _);
    [cbn; lia|lia|exact (proj1 (Hdf1 _ _ Hq))|exact Hbok|].
  assert (root_of both ≠ lv_page l) as Hdiff by (rewrite <- Hroot; exact (fill_pages l _ x Hndf Hx)).
  assert (node_at s2 (ρ (lv_page l)) (lv_node l)) as Hpar.
  { eapply pooled_other; [exact Hp1|exact Ho2|by apply not_eq_sym|]. apply Hdf1. by left. }
  destruct (pooled_flush ρ _ _ s2 n (lv_page l) _ _ Hp2 ltac:(cbn in Hu2; lia) Hn (proj1 Hpar) Hpok)
    as (s3 & u3 & Hfl3 & Hn3 & Ho3 & Hp3 & Hu3 & _).
  assert (max_size (tree s1) = max_size (tree s)) as Hmax by by rewrite (proj1 Hs1).
  destruct (context_join _ key l r p vs r' p' vs' vs0 Hjoin s1 s2 Hmax Hl Hl' (nd_length _ _ Hok)) as (local & Hctx & Hlp);
    [by apply (sibling_not_last _ key l r p vs r' p' vs' vs0 Hjoin Hwl Hff)|exact Hfl2|].
  fold first both in Hlp.
  exists s3. split.
  { change (ρ r) with (ρ (root_of (Leaf r p vs))). rewrite Hm. io_step Hctx.
    apply finish_climb; rewrite Hlp; [exact Hfl3|exact Hpne]. }
  split; [eapply pooled_mono; [exact Hp3|lia|cbn in Hu2; lia|by right]|].
  split; [by rewrite (proj1 Ho3), (proj1 Ho2), (proj1 Hs1)|].
  split; [by rewrite (proj1 (proj2 Ho3)), (proj1 (proj2 Ho2)), (proj1 (proj2 Hs1))|].
  apply (join_pages _ key l r p vs r' p' vs' vs0 Hjoin Hwl ls Hwls s s3 Hpages Hs Hu32).
  - by rewrite (proj1 Ho3), (proj1 Ho2), (proj1 Hs1).
  - eapply pooled_other; [exact Hp2|exact Ho3|exact Hdiff|exact Hn2].
  - exact Hn3.
  - intros y py Hy1 Hy2 Hy. eapply pooled_other; [exact Hp2|exact Ho3|exact Hy2|].
    eapply pooled_other; [exact Hp1|exact Ho2|exact Hy1|]. by eapply node_at_same.
Qed.

(** *** Properties *)

(** C4: removal from a B+tree of any height, between two operations. The search for a
    key ends in the leaf that the levels lead to, which has exactly the visible
    pairs with the key. To remove a key that the leaf lacks erases past the end of
    its keys. When no node on the way has few enough keys to be merged with its
    sibling, a key of the leaf is removed with its record and nothing else: the
    nodes above are written as they were, and all other pages keep their nodes. *)
Theorem deep_remove_spec fuel key t s u n :
  idle s t u (n + 5 * Z.of_nat (height t) + 2) → (height t < fuel)%nat → 0 ≤ n →
  (∃ ls r p vs, t = plug ls (Leaf r p vs) ∧ Forall (on_way key) ls)
  ∧ ∀ ls r p vs, t = plug ls (Leaf r p vs) → Forall (on_way key) ls →
    (∃ s', findLeaf fuel key s = Ok ((p, crumb_of ρ key <$> ls, ρ r), s') ∧ same_pages s s')
    ∧ values p = LeafRecords vs ∧ (∀ val, (key, val) ∈ visible t ↔ (key, val) ∈ zip (keys p) vs)
    ∧ (key ∉ keys p → remove fuel key s = Undef OutOfBounds)
    ∧ let q := leaf_without key p vs in
      let t' := plug ls (Leaf r q.1 q.2) in
      key ∈ keys p → kept ρ (max_size (tree s)) key ls (Leaf r q.1 q.2) = true →
      ∃ val s', remove fuel key s = Ok ((), s') ∧ idle s' t' u n ∧ height t' = height t ∧ (key, val) ∈ visible t
        ∧ visible t ≡ₚ (key, val) :: visible t' ∧ contents_in t ≡ₚ (key, val) :: contents_in t'
        ∧ ∀ r' p', r' ≠ r → node_at s (ρ r') p' → node_at s' (ρ r') p'.
Proof.
  intros Hi Hh Hn. pose proof Hi as [[Hf Ho Hd Hnd Hpids Hroot] Hu Hpool]. split; [by apply (plug_leaf ρ)|].
  intros ls r p vs -> Hw. set (t := plug ls (Leaf r p vs)) in *.
  destruct (idle_find fuel key s t u (n + 4 * Z.of_nat (height t) + 1)) as (cr & r1 & p1 & vs1 & s1 & Hr & Hfind & Hs1 & _);
    [by replace (_ + 1 + _ + 1) with (n + 5 * Z.of_nat (height t) + 2) by lia|done|lia|].
  pose proof Hr as Hr'. unfold t in Hr'. rewrite leaf_route in Hr' by done. injection Hr' as <- <- <- <-.
  assert (leaf_ok p vs) as Hok by (pose proof (plug_forms ρ ls _ Hf) as Hl; by inversion Hl).
  pose proof (wf_values _ _ (nd_wf _ _ Hok)) as Hv. pose proof (route_visible ρ key _ _ r p vs Ho Hf Hr) as Hvis.
  split; [by exists s1|]. split; [exact Hv|]. split; [exact Hvis|]. split.
  - intros Hk. unfold remove. io_step Hfind. rewrite Hv. cbn [put_values VAL_T_RID LEAF_RECORDS]. lift_step. by rewrite erase_missing.
  - cbv zeta. intros Hin Hk. destruct (remove_kept fuel key s ls r p vs u n Hi Hh Hn Hw Hin Hk)
      as (val & s' & Hrem & Hi' & Hval & Hperm & _ & _ & Hother).
    set (q := leaf_without key p vs) in *. exists val, s'. split; [done|]. split; [done|].
    split; [by rewrite <- (plug_put key q.1 q.2 ls (Leaf r p vs) Hw : _ = plug ls (Leaf r q.1 q.2)), (put_height ρ)|].
    split; [by apply Hvis|]. destruct (plug_visible ρ key ls _ Hf Hw) as [rest Hrest]. destruct (plug_contents ls) as [crest Hcrest].
    unfold t. rewrite !Hrest, !Hcrest. cbn [visible contents_in]. split; [by rewrite Hperm|]. split; [by rewrite Hperm|done].
Qed.

(** C5: removal that joins two leaves, in a B+tree of any height whose keys separate
    the pairs of all subtrees. When the leaf without the key and the leaf beside it
    are few enough and fit a page, and the node above has at least two keys, the two
    are joined in the page of the left one: the node above loses the key between
    them and one child. The tree on disk has the pairs it had but the removed one,
    its keys separate them again, and the pairs of the sibling, which may have been
    hidden in the middle of the node, are visible. *)
Theorem deep_merge_spec fuel key s l ls r p vs r' p' vs' vs0 n :
  let t := plug (l :: ls) (Leaf r p vs) in
  let q := leaf_without key p vs in
  let t1 := joined ρ key l vs0 (joined_leaf (below (lv_node l) key) r q.1 q.2 r' p' vs') in
  idle s t 1 (n + 5 * Z.of_nat (height t) + 3) → (height t < fuel)%nat → 0 ≤ n → Forall (on_way key) (l :: ls) →
  key ∈ keys p → sorted_tree t = true → joinable (max_size (tree s)) key l r q.1 q.2 r' p' vs' vs0 →
  kept ρ (max_size (tree s)) key ls t1 = true →
  ∃ val s', remove fuel key s = Ok ((), s') ∧ idle s' (plug ls t1) 2 n ∧ sorted_tree (plug ls t1) = true
    ∧ (key, val) ∈ pairs p vs ∧ contents_in t ≡ₚ (key, val) :: contents_in (plug ls t1)
    ∧ visible t ++ pairs p' vs' ≡ₚ (key, val) :: visible (plug ls t1) ∧ tree s' = tree s ∧ dm_of s' = dm_of s.
Proof.
  intros t q t1 Hi Hh Hn Hw Hin Hs Hjoin Hk. pose proof (plug_height (l :: ls) (Leaf r p vs)) as Hht. fold t in Hht.
  cbn [height length] in Hht. pose proof (zlen_nonneg ls) as Hz.
  destruct (remove_starts fuel key s (l :: ls) r p vs 1 (n + 4 * zlen ls + 5)) as (val & s1 & Hrem & Hpages & Hp1 & Hok & Hval & Hperm & Ho);
    [|done|lia|done|done|].
  { fold t. destruct Hi as [H1 H2 H3]. split; [done|done|].
    destruct H3; [left|right]; (eapply pooled_mono; [done|unfold zlen; lia|done|done]). }
  fold q in Hpages, Hperm, Hok. set (t2 := plug (l :: ls) (Leaf r q.1 q.2)) in *.
  assert (∀ kv, kv ∈ pairs q.1 q.2 → kv ∈ pairs p vs) as Hsub by (intros kv Hkv; rewrite Hperm; by right).
  pose proof (plug_sorted_with (l :: ls) (Leaf r p vs) (Leaf r q.1 q.2) Hs eq_refl Hsub) as Hs2.
  rewrite <- (proj1 Ho) in Hjoin, Hk.
  destruct (join_level key s1 l ls r q.1 q.2 r' p' vs' vs0 (n + 4 * zlen ls) Hpages Hs2 Hp1 ltac:(lia) Hw Hjoin)
    as (s2 & Hm & Hp2 & Htr2 & Hdm2 & Hpages2 & Hs3 & Hc & Hv). fold t1 in Hpages2, Hs3, Hc, Hv.
  inversion Hw as [|? ? Hwl Hwls]; subst. pose proof Hpages2 as [Hf2 _ Hd2 Hnd2 Hpids2 Hroot2].
  rewrite <- Htr2 in Hk.
  destruct (climb_kept ρ key ls t1 s2 2 n Hp2 ltac:(lia) Hn Hf2 Hd2 Hnd2 Hwls Hk) as (s' & Hcl & Hs' & Hp').
  exists val, s'. split; [|split; [|split; [done|split; [done|split; [|split; [|split]]]]]].
  - rewrite Hrem, fmap_cons. cbn [climb]. rewrite Hm. exact Hcl.
  - split; [|lia|by right]. split; [done|by apply (dt_ordered _ _ _ Hpages2)|exact (same_nodes_disk _ _ _ _ Hs' Hd2)|done|done|].
    by rewrite (proj1 Hs').
  - rewrite Hc. destruct (plug_contents (l :: ls)) as [rest Hrest]. unfold t. cbn [plug] in Hrest |- *. rewrite !Hrest.
    cbn [contents_in]. by rewrite Hperm.
  - rewrite Hv. pose proof (dt_forms _ _ _ Hpages) as Hf.
    destruct (plug_visible ρ key (l :: ls) _ Hf Hw) as [rest Hrest]. unfold t. cbn [plug] in Hrest |- *. rewrite !Hrest.
    cbn [visible]. by rewrite Hperm.
  - by rewrite (proj1 Hs'), Htr2, (proj1 Ho).
  - by rewrite (proj1 (proj2 Hs')), Hdm2, (proj1 (proj2 Ho)).
Qed.
End removal.

(** ** Witnesses *)

#[local] Existing Instance zero_uninit.
#[local] Instance zero_node : UninitNode := Build_UninitNode 0 0 0.

(** A tree with at most two keys in a node and without merges, and one whose leaf H can be
    joined with the leaf on either side. *)
Definition narrow_root : BTree := mkBTree BTREE_INDEX 2 1 8.
Definition narrow_state : index := tree_state narrow_root sample_tree.
Definition left_leaf : node_tree (fin 8) := Leaf 5%fin (set_next 7 (root_page (sample_leaf 5 "FG"))) (letters "FG").*2.
Definition join_level_of (l1 l2 : list (node_tree (fin 8))) : level (fin 8) :=
  mkLevel 4%fin (root_page (sample_node 4 "HK" [6; 7] 8 [])) l1 l2.
Definition root_level : level (fin 8) :=
  mkLevel 0%fin (root_page (sample_node 0 "F" [2] 5 [])) [sample_node 1 "D" [3] 4 [sample_leaf 2 "BC"; sample_leaf 3 "DE"]] [].
Definition join_tree : node_tree (fin 8) :=
  plug [join_level_of [] [sample_leaf 6 "H"; sample_leaf 7 "KL"]; root_level] left_leaf.
Definition join_state : index := tree_state narrow_root join_tree.

Lemma narrow_idle n : 0 ≤ n < 2 ^ 31 - 2 → idle page_number narrow_state sample_tree 1 n.
Proof.
  intros Hn. apply deep_idle, deep_opened; [done|by_compute|done|exact page_number_pids|exact page_number_apart|done|exact sample_forms
    |exact sample_ordered| |done|apply tree_on_disk; by vm_compute].
  apply (bool_decide_unpack _). by vm_compute.
Qed.

Lemma join_tree_forms : node_forms page_number join_tree.
Proof.
  apply (NodeForm _ _ _ _ [2]); [sample_form|done|done|].
  intros t [->|[->|Hin%not_elem_of_nil]%elem_of_cons]%elem_of_cons; [..|done].
  - apply (NodeForm _ _ _ _ [3]); [sample_form|done|done|].
    intros t [->|[->|Hin%not_elem_of_nil]%elem_of_cons]%elem_of_cons; [..|done]; constructor; sample_form.
  - apply (NodeForm _ _ _ _ [6; 7]); [sample_form|done|done|].
    intros t [->|[->|[->|Hin%not_elem_of_nil]%elem_of_cons]%elem_of_cons]%elem_of_cons; [..|done]; constructor; sample_form.
Qed.

Lemma join_idle n : 0 ≤ n < 2 ^ 31 - 2 → idle page_number join_state join_tree 1 n.
Proof.
  intros Hn. apply deep_idle, deep_opened; [done|by_compute|done|exact page_number_pids|exact page_number_apart|done|exact join_tree_forms
    |apply (sorted_ordered page_number); [exact join_tree_forms|by vm_compute]| |done|apply tree_on_disk; by vm_compute].
  apply (bool_decide_unpack _). by vm_compute.
Qed.

(** The letter L is removed from the last leaf, the hidden letter H is not there. *)
Lemma deep_remove_spec_witness :
  idle page_number narrow_state sample_tree 1 12
  ∧ (∃ s' t' val, remove 3 [code "L"] narrow_state = Ok ((), s') ∧ idle page_number s' t' 1 0
       ∧ letters "BCDEFGKL" ≡ₚ ([code "L"], val) :: visible t')
  ∧ remove 3 [code "H"] narrow_state = Undef OutOfBounds.
Proof.
  pose proof (narrow_idle 12 ltac:(by_compute)) as Hi.
  pose proof (λ key, deep_remove_spec page_number 3 key sample_tree narrow_state 1 0 Hi ltac:(by apply Nat.ltb_lt) ltac:(done)) as Hspec.
  set (ls := [join_level_of [sample_leaf 5 "FG"; sample_leaf 6 "HI"] []; root_level]).
  assert (Forall (on_way [code "L"]) ls ∧ Forall (on_way [code "H"]) ls) as [Hl Hh] by (split; repeat constructor).
  split; [exact Hi|]. split.
  - destruct (Hspec [code "L"]) as [_ Hall]. destruct (Hall ls 7%fin (root_page (sample_leaf 7 "KL")) (letters "KL").*2 eq_refl Hl)
      as (_ & _ & _ & _ & Hrem). destruct Hrem as (val & s' & Hrem & Hi' & _ & _ & Hvis & _); [right; by left|by vm_compute|].
    exists s'. eexists. exists val. split; [exact Hrem|]. split; [exact Hi'|]. by rewrite <- Hvis, sample_visible.
  - destruct (Hspec [code "H"]) as [_ Hall]. destruct (Hall ls 7%fin (root_page (sample_leaf 7 "KL")) (letters "KL").*2 eq_refl Hh)
      as (_ & _ & _ & Hmiss & _). apply Hmiss. apply (bool_decide_unpack _). by vm_compute.
Defined.

(** The leaf H is joined with the leaf on its right and with the one on its left. *)
Lemma deep_merge_spec_witness :
  (∃ s' t' val, remove 3 [code "L"] join_state = Ok ((), s') ∧ idle page_number s' t' 2 0
     ∧ letters "BCDEFGKL" ++ letters "H" ≡ₚ ([code "L"], val) :: visible t')
  ∧ (∃ s' t' val, remove 3 [code "G"] join_state = Ok ((), s') ∧ idle page_number s' t' 2 0
     ∧ letters "BCDEFGKL" ++ letters "H" ≡ₚ ([code "G"], val) :: visible t').
Proof.
  pose proof (join_idle 13 ltac:(by_compute)) as Hi.
  assert (visible join_tree = letters "BCDEFGKL") as Hvis by by vm_compute.
  split.
  - destruct (deep_merge_spec page_number 3 [code "L"] join_state (join_level_of [left_leaf; sample_leaf 6 "H"] []) [root_level]
      7%fin (root_page (sample_leaf 7 "KL")) (letters "KL").*2 6%fin (root_page (sample_leaf 6 "H")) (letters "H").*2 [6; 7] 0)
      as (val & s' & Hrem & Hi' & _ & _ & _ & Hv & _);
      [exact Hi|by apply Nat.ltb_lt|done|by repeat constructor|right; by left|by vm_compute| |by vm_compute|].
    + split; [done|done|by vm_compute|by_compute| |by apply Nat.leb_le|done].
      intros k k' Hk Hk'. apply list_elem_of_singleton in Hk as ->, Hk' as ->. done.
    + exists s'. eexists. exists val. split; [exact Hrem|]. split; [exact Hi'|]. rewrite <- Hv. by rewrite <- Hvis.
  - destruct (deep_merge_spec page_number 3 [code "G"] join_state (join_level_of [] [sample_leaf 6 "H"; sample_leaf 7 "KL"]) [root_level]
      5%fin (root_page left_leaf) (letters "FG").*2 6%fin (root_page (sample_leaf 6 "H")) (letters "H").*2 [6; 7] 0)
      as (val & s' & Hrem & Hi' & _ & _ & _ & Hv & _);
      [exact Hi|by apply Nat.ltb_lt|done|by repeat constructor|right; by left|by vm_compute| |by vm_compute|].
    + split; [done|done|by vm_compute|by_compute| |by apply Nat.leb_le|done].
      intros k k' Hk Hk'. apply list_elem_of_singleton in Hk as ->, Hk' as ->. done.
    + exists s'. eexists. exists val. split; [exact Hrem|]. split; [exact Hi'|]. rewrite <- Hv. by rewrite <- Hvis.
Defined.
